(* ===== verification/_CoqProject ===== *)
-Q . S2P
Prelude.v
BTree.v
Sodium.v
ToySodium.v
AesGcm.v
Keystore.v
Codec.v
Stats.v
Standard.v
Dek.v
KeyGuard.v
Text.v
Vectors.v
Testing.v
TestsCore.v
TestsFrames.v
Net.v
Ffi.v
Contract.v
TestsFfi.v
Kv.v
Peer.v
Stomp.v
Server.v
Args.v
TestsServer.v
Network.v
Run.v
Integration.v
Build.v
