(* ===== verification/Prelude.v ===== *)
(** * paxe-core: a verification development

    paxe-core is a Rust library that seals and opens authenticated datagrams
    (AES-256-GCM through libsodium) between nodes that share keys, with a C
    interface for a scripting host and a two-node key-value server that uses
    the library over real sockets.  This development models its code and proves
    what makes it correct.

    ** The program and the files that model it

    - [Prelude]: [Result], explicit state passing ([St], [let*], [let?]), bytes,
      big-endian integers, slices, machine widths, the [width] tactic and the
      [paxe] hint and [len] rewrite databases.
    - [BTree]: [std::collections::BTreeMap] as a strictly sorted association
      list over an order class, with its abstraction to [gmap].
    - [Sodium] ([src/sodium.rs]): the safe wrappers over libsodium.  libsodium,
      the CSPRNG and the operating system are the parameters of the class
      [Libsodium]; what the library documents of them is stated in the classes
      [AeadSpec] (encryption and decryption are inverse and deterministic),
      [GuardedHeapSpec] (allocation is fresh) and [RandomSpec] (length and
      range).  [SodiumState] is the guarded heap, every region handed to
      [sodium_free] with its last contents, the draw and lock counters and the
      process limits.
    - [ToySodium], [AesGcm]: two concrete libraries that satisfy all of these,
      so that the hypotheses are satisfiable and the witnesses evaluate: one
      with a toy cipher, one with AES-256-GCM written out from its standards.
    - [Keystore] ([src/keystore.rs]): guarded keys by (peer, epoch); install,
      lookup, retire, clear and the destructors.  Abstract specification:
      [abs_step] and [abs_run] on [gmap (Z * Epoch) bytes].
    - [Codec] ([src/codec.rs]): the nine-byte prefix and its flags byte.
    - [Stats] ([src/stats.rs]): saturating counters, reject reasons, failure
      policies and the log-once memo.
    - [Standard] ([src/standard.rs]): one frame, one recipient.  [accepts] says
      which byte strings a node must accept, and as what.
    - [Dek] ([src/dek.rs]): the reusable-key fanout, and [open] for both modes.
      [delivers] is the receiving specification of the whole library.
    - [KeyGuard] (the same file): fanout and open again, over the places that
      hold the data key: a move leaves the bytes of its source, a destructor
      erases the place it runs on.
    - [Text]: [str] and its methods: UTF-8 both ways, trimming, splitting,
      decimal printing, integer parsing.
    - [Vectors] ([src/vectors.rs]): the committed known-answer vectors and their
      two checks.
    - [Ffi] ([src/ffi.rs]): every exported function, with null and short
      buffers, return codes and the last-error buffer; [Call] and [exec_all] are
      arbitrary sessions of calls.
    - [Contract] ([include/paxe.h]): what the header promises a host, in its own
      words, as a relation on abstract sessions; [departure] and [departs] are
      the six situations in which the exports of [Ffi] do otherwise.
    - [Kv], [Peer], [Stomp], [Server] ([src/bin/six-seven-server/]): placement,
      request parsing and the capped store; peer messages; STOMP framing over a
      buffered stream; the core thread as a step function on events.
    - [Net], [Args] (the same [main.rs]): the address parser and printer of the
      standard library; the command line.
    - [Network]: the pair.  [Abs] and [abs_step] describe a node as its clients
      and its peer see it, down to the frames on each client's screen ([Shown],
      [painted]); [reachable] is what two nodes can do on a network that
      loses, repeats, delays, reflects and injects.
    - [Run] (the same [main.rs]): [main], [run] and the threads that post to the
      core loop; [schedule] is any interleaving of their posts.
    - [Build] ([build.rs]): how libsodium is found and linked; [chosen] is the
      documented order of the search, stated apart from the script.
    - [Testing], [TestsCore], [TestsFrames], [TestsFfi], [TestsServer] (the test
      modules of the source files) and [Integration] (the files of [tests/]): the
      repository's own tests, a test being a computation that ends or fails at
      an assertion.

    The calls go [Run] to [Args] and [Server]; [Server] and [Ffi] to [Dek], to
    [Standard], to [Codec], [Keystore] and [Stats], to [Sodium].

    ** What the theorems show

    - Frames: a byte string is delivered exactly when it is the sealed frame of
      the payload under the installed key, addressed to the receiver (C1); what
      is sealed opens at the other end, through the C interface and for every
      recipient of a fanout (C2, C9); the exact bytes and error order of sealing
      (C27, C30); the prefix codec (C22, C23) and the repository's randomised
      test of it, for every seed (C24).
    - Forgery: re-addressing a frame, or moving an envelope to another body,
      needs the library to verify a second associated data for what one sealing
      protected (C28, C29); its refusal to do so is nowhere assumed.
    - Rejection: opaque, counted under one reason, nothing written (C25); the
      pre-filter agrees with the receiver (C26); counters balance and only grow
      (C14, C31); what is logged (C34).
    - The C interface: over any session every answer is the header's or one of
      six departures (C3), and it breaks the header exactly there (C4); what a
      host may conclude about keys and senders from an [open] (C11).
    - Keys: the store refines a capped map (C5), keys are zero before they are
      freed, over operations (C6) and over whole sessions (C10); where the data
      key of a frame is left, and where not (C12).
    - A node: every turn of the core loop refines the abstract node (C8);
      responses are delivered once, to their client (C39); the store and the
      text codecs (C35 to C38); the memory a read of a client's frame holds (C32),
      and how deep filler nests it (C33).
    - The pair: every reply answers a request of its own client, nothing is
      stored that no client put, a forwarded operation can always complete, and
      the keyspace never splits (C7, C16, C15, C13).
    - The process: what is accepted on the command line (C19, C40), how the
      server starts and stops (C17), what its threads deliver and that nothing of
      a closed connection stays (C20, C21).
    - The build: static means static (C18).

    Each file has further theorems of the same kind that carry no number, among
    them the exactness of standard mode and of recipient selection, the agreement
    of the deterministic seams with production, key rotation, the identity rule
    and the start-up check, [open] of the C interface and its error contract, the
    expiry of overdue requests, and the ones the findings name.  Lemmas without a
    number also evaluate the repository's own tests on the model: the committed
    vectors, the unit tests, the fixture and the end-to-end script hold, and the
    canary holds exactly when the two values it takes for the result of
    [shutdown] are zero.

    ** Bounds and fuel

    Machine integers are [Z] with their width as a predicate ([is_u8] to
    [is_u64]) and wrap-around or saturation written out.  Decimal printing has
    fuel 20, the digits of a [u64] ([dec_spec]).  [Stomp.read_frame] recurses
    over heart-beats with the bytes left in the stream as fuel; C38 shows that
    more changes nothing.  [Run.reader_loop] has one more than the bytes of the
    connection's stream, each frame consuming one ([reader_shape]).  [hex_digits]
    has fuel for the six digits of a character.  [Integration.array_loop] has the
    characters of the array, each element taking at least two.  Every other
    recursion is structural.  Tests that compare known answers or tamper with
    frames run on [AesGcm]; those on frames of the largest size run on
    [ToySodium], whose evaluation is linear with a small constant.

    ** What is not modelled

    [src/lib.rs] (documentation and module declarations); the [extern]
    declarations of libsodium and of the operating system, which are the
    parameters of [Libsodium]; [RefCell] borrow conflicts (the library is
    single-threaded); the lines the server's threads print; the drivers that
    spawn processes ([tests/ffi_canary.rs], the shell part of
    [tests/six_seven_e2e.sh]) and the generator of the fixture; the messages of
    assertions.
    The registration of the exit hook is a flag of the C interface's state.  The
    build script is taken to run on a Unix host.  Time stamps are carried by the
    events.  The walk order of the pending table, unspecified in the source, is
    the one of [map_to_list].  Cryptographic strength is not a hypothesis of any
    theorem about the library; the network of [Network] injects only bytes that
    do not open as the peer's. *)

From stdpp Require Export base numbers list list_numbers option strings pretty.
From Stdlib Require Export ZArith Lia.
#[global] Open Scope Z_scope.

(** ** Results: Rust's [Result<T, E>] and the [?] operator *)

Inductive result (A E : Type) : Type :=
| Ok (a : A)
| Err (e : E).
Arguments Ok {A E} _.
Arguments Err {A E} _.

Global Instance result_eq_dec `{EqDecision A, EqDecision E} : EqDecision (result A E).
Proof. solve_decision. Defined.

Definition is_ok {A E} (r : result A E) : bool :=
  match r with Ok _ => true | Err _ => false end.

Definition map_err {A E E'} (f : E -> E') (r : result A E) : result A E' :=
  match r with Ok a => Ok a | Err e => Err (f e) end.

Definition ok_or {A E} (o : option A) (e : E) : result A E :=
  match o with Some a => Ok a | None => Err e end.

Definition rbind {A B E} (r : result A E) (k : A -> result B E) : result B E :=
  match r with Ok a => k a | Err e => Err e end.

(** ** Explicit state passing

    A Rust function that reads and writes a piece of state is a function of
    type [St S A]; [let*] sequences two of them and [let?] is the [?] operator
    on one that returns a [Result]. *)

Definition St (S A : Type) : Type := S -> A * S.

Definition ret {S A} (a : A) : St S A := fun s => (a, s).

Definition bind {S A B} (m : St S A) (k : A -> St S B) : St S B :=
  fun s => let (a, s') := m s in k a s'.

Definition bindr {S A B E} (m : St S (result A E)) (k : A -> St S (result B E))
    : St S (result B E) :=
  fun s => let (r, s') := m s in
           match r with Ok a => k a s' | Err e => (Err e, s') end.

Definition modify {S} (f : S -> S) : St S unit := fun s => (tt, f s).

Definition gets {S A} (f : S -> A) : St S A := fun s => (f s, s).

(** Run a computation on one field of a larger state. *)
Definition zoom {S T A} (get : S -> T) (set : T -> S -> S) (m : St T A) : St S A :=
  fun s => let (a, t) := m (get s) in (a, set t s).

Declare Scope paxe_scope.
Delimit Scope paxe_scope with paxe.
#[global] Open Scope paxe_scope.

Notation "'let*' x ':=' m 'in' k" := (bind m (fun x => k))
  (at level 10, x pattern, m at level 200, k at level 200,
   format "'let*'  x  ':='  m  'in' '//' k") : paxe_scope.
Notation "'let?' x ':=' m 'in' k" := (bindr m (fun x => k))
  (at level 10, x pattern, m at level 200, k at level 200,
   format "'let?'  x  ':='  m  'in' '//' k") : paxe_scope.
Notation "'let!' x ':=' m 'in' k" := (rbind m (fun x => k))
  (at level 10, x pattern, m at level 200, k at level 200,
   format "'let!'  x  ':='  m  'in' '//' k") : paxe_scope.

Lemma rbind_ok {A B E} (r : result A E) (k : A -> result B E) b :
  rbind r k = Ok b <-> exists a, r = Ok a /\ k a = Ok b.
Proof. destruct r; naive_solver. Qed.

Lemma bindr_ret_ok {S A B E} (a : A) (k : A -> St S (result B E)) : bindr (ret (Ok a)) k = k a.
Proof. done. Qed.

(** ** Fixed-width integers

    A [u8], [u16], [u32], [u64] or (64-bit) [usize] is a [Z] in its range; the
    range is a decidable predicate, and the wrap-around, checked and
    saturating operations of the source are written out. *)

Abbreviation bytes := (list Z).

Definition U8_MAX : Z := 255.
Definition U16_MAX : Z := 65535.
Definition U32_MAX : Z := 4294967295.
Definition U64_MAX : Z := 18446744073709551615.
Definition USIZE_MAX : Z := U64_MAX.

Definition is_u8 (v : Z) : Prop := 0 <= v <= U8_MAX.
Definition is_u16 (v : Z) : Prop := 0 <= v <= U16_MAX.
Definition is_u32 (v : Z) : Prop := 0 <= v <= U32_MAX.
Definition is_u64 (v : Z) : Prop := 0 <= v <= U64_MAX.

Global Instance is_u8_dec v : Decision (is_u8 v).
Proof. unfold is_u8. apply _. Defined.
Global Instance is_u16_dec v : Decision (is_u16 v).
Proof. unfold is_u16. apply _. Defined.
Global Instance is_u32_dec v : Decision (is_u32 v).
Proof. unfold is_u32. apply _. Defined.
Global Instance is_u64_dec v : Decision (is_u64 v).
Proof. unfold is_u64. apply _. Defined.

(** [checked_add] and [checked_sub] on [usize]. *)
Definition checked_add (a b : Z) : option Z :=
  if a + b <=? USIZE_MAX then Some (a + b) else None.
Definition checked_sub (a b : Z) : option Z :=
  if b <=? a then Some (a - b) else None.

(** [saturating_add] on [u64] and [usize], [saturating_sub] on [usize]. *)
Definition saturating_add (a b : Z) : Z := Z.min U64_MAX (a + b).
Definition saturating_sub (a b : Z) : Z := Z.max 0 (a - b).

(** [u8::try_from(u32)] and [u16::try_from(u32)]. *)
Definition u8_try_from (v : Z) : option Z := if v <=? U8_MAX then Some v else None.
Definition u16_try_from (v : Z) : option Z := if v <=? U16_MAX then Some v else None.

(** ** Slices and buffers *)

Definition len {A} (l : list A) : Z := Z.of_nat (length l).

(** [slice.get(lo..hi)], [slice.get(..hi)] and [slice.get(lo..)]. *)
Definition get_range {A} (l : list A) (lo hi : Z) : option (list A) :=
  if (lo <=? hi) && (hi <=? len l)
  then Some (take (Z.to_nat (hi - lo)) (drop (Z.to_nat lo) l)) else None.
Definition get_to {A} (l : list A) (hi : Z) : option (list A) := get_range l 0 hi.
Definition get_from {A} (l : list A) (lo : Z) : option (list A) := get_range l lo (len l).

(** [slice.try_into::<[u8; n]>()]: the same bytes when the length is [n]. *)
Definition try_into_array {A} (n : Z) (l : list A) : option (list A) :=
  if len l =? n then Some l else None.

(** A write of [src] at the front of the buffer [dst]: the buffer keeps its
    length, and what lies beyond [src] is unchanged. *)
Definition write_front (dst src : bytes) : bytes :=
  take (length dst) (src ++ drop (length src) dst).

Definition zeros (n : Z) : bytes := replicate (Z.to_nat n) 0.

(** ** Big-endian integers: [to_be_bytes] and [from_be_bytes] *)

Definition to_be_bytes (n : Z) (v : Z) : bytes := reverse (Z_to_little_endian n 8 v).
Definition from_be_bytes (bs : bytes) : Z := little_endian_to_Z 8 (reverse bs).

#[global] Arguments to_be_bytes : simpl never.
#[global] Arguments from_be_bytes : simpl never.
#[global] Arguments get_range : simpl never.
#[global] Arguments write_front : simpl never.

(** ** Decimal text of a machine integer, as [{n}] prints it *)

Definition show (v : Z) : string := pretty (Z.to_N v).

(** ** Automation *)

Create HintDb paxe discriminated.
Create Rewrite HintDb len.

(** [inv_pair] splits an equation between pairs; [crush_match] splits the
    innermost scrutinee of the goal and uses the equations it learns. *)
Ltac inv_ok :=
  repeat match goal with
  | H : Ok _ = Ok _ |- _ => injection H as H; subst
  | H : Err _ = Err _ |- _ => injection H as H; subst
  | H : Ok _ = Err _ |- _ => discriminate H
  | H : Err _ = Ok _ |- _ => discriminate H
  | H : Some _ = Some _ |- _ => injection H as H; subst
  | H : Some _ = None |- _ => discriminate H
  | H : None = Some _ |- _ => discriminate H
  | H : (_, _) = (_, _) |- _ => injection H as H; subst
  end.

Ltac split_match :=
  match goal with
  | |- context [match ?x with _ => _ end] =>
      lazymatch x with context [match _ with _ => _ end] => fail | _ => idtac end;
      destruct x eqn:?
  end.

Ltac split_match_in H :=
  match type of H with
  | context [match ?x with _ => _ end] =>
      lazymatch x with context [match _ with _ => _ end] => fail | _ => idtac end;
      destruct x eqn:?
  end.

(** Boolean comparisons to propositions [lia] reads. *)
Ltac zbool :=
  repeat match goal with
  | H : context [(_ =? _) = true] |- _ => rewrite Z.eqb_eq in H
  | H : context [(_ =? _) = false] |- _ => rewrite Z.eqb_neq in H
  | H : context [(_ <=? _) = true] |- _ => rewrite Z.leb_le in H
  | H : context [(_ <=? _) = false] |- _ => rewrite Z.leb_gt in H
  | H : context [(_ <? _) = true] |- _ => rewrite Z.ltb_lt in H
  | H : context [(_ <? _) = false] |- _ => rewrite Z.ltb_ge in H
  end.

Ltac unfold_widths :=
  unfold is_u8, is_u16, is_u32, is_u64, U8_MAX, U16_MAX, U32_MAX, USIZE_MAX, U64_MAX in *.

Ltac width := unfold_widths; lia.

(** ** Lemmas on lengths and slices *)

Lemma len_nonneg {A} (l : list A) : 0 <= len l.
Proof. unfold len. lia. Qed.

Lemma len_nil {A} : len (@nil A) = 0.
Proof. done. Qed.

Lemma len_cons {A} (x : A) l : len (x :: l) = 1 + len l.
Proof. unfold len. simpl. lia. Qed.

Lemma len_app {A} (l k : list A) : len (l ++ k) = len l + len k.
Proof. unfold len. rewrite length_app. lia. Qed.

Lemma len_take {A} n (l : list A) : len (take n l) = Z.min (Z.of_nat n) (len l).
Proof. unfold len. rewrite length_take. lia. Qed.

Lemma len_drop {A} n (l : list A) : len (drop n l) = Z.max 0 (len l - Z.of_nat n).
Proof. unfold len. rewrite length_drop. lia. Qed.

Lemma len_replicate {A} n (x : A) : len (replicate n x) = Z.of_nat n.
Proof. unfold len. by rewrite length_replicate. Qed.

Lemma len_zeros n : 0 <= n -> len (zeros n) = n.
Proof. intros. unfold zeros. rewrite len_replicate. lia. Qed.

Lemma len_to_be_bytes n v : 0 <= n -> len (to_be_bytes n v) = n.
Proof.
  intros. unfold to_be_bytes, len. rewrite length_reverse.
  rewrite length_Z_to_little_endian; lia.
Qed.

Lemma len_write_front dst src : len (write_front dst src) = len dst.
Proof.
  unfold write_front. rewrite len_take, len_app, len_drop. unfold len. lia.
Qed.

#[export] Hint Rewrite @len_nil @len_cons @len_app @len_take @len_drop @len_replicate
  len_write_front : len.

(** Solve a goal or hypothesis about lengths. *)
Ltac lens := autorewrite with len in *; pose proof @len_nonneg; unfold len in *; lia.

Lemma len_0_inv {A} (l : list A) : len l = 0 -> l = [].
Proof. destruct l; [done|]. rewrite len_cons. pose proof (len_nonneg l). lia. Qed.

Lemma len_inj {A B} (l : list A) (k : list B) : len l = len k -> length l = length k.
Proof. unfold len. lia. Qed.

Lemma to_nat_len {A} (l : list A) : Z.to_nat (len l) = length l.
Proof. unfold len. lia. Qed.

Lemma write_front_fits dst src :
  len src <= len dst ->
  write_front dst src = src ++ drop (length src) dst.
Proof.
  intros. unfold write_front. apply take_ge.
  rewrite length_app, length_drop. unfold len in *. lia.
Qed.

Lemma write_front_exact dst src : len src = len dst -> write_front dst src = src.
Proof.
  intros. rewrite write_front_fits by lia.
  rewrite drop_ge; [apply app_nil_r|]. unfold len in *. lia.
Qed.

Lemma get_range_Some {A} (l : list A) lo hi r :
  get_range l lo hi = Some r <->
  lo <= hi <= len l /\ r = take (Z.to_nat (hi - lo)) (drop (Z.to_nat lo) l).
Proof.
  unfold get_range.
  destruct (Z.leb_spec lo hi), (Z.leb_spec hi (len l)); simpl; naive_solver lia.
Qed.

Lemma get_range_len {A} (l : list A) lo hi r :
  0 <= lo -> get_range l lo hi = Some r -> len r = hi - lo.
Proof.
  intros ? [? ->]%get_range_Some. rewrite len_take, len_drop. lia.
Qed.

(** A region of a concatenation. *)
Lemma get_range_app {A} (a b c : list A) lo hi :
  lo = len a -> hi = len a + len b -> get_range (a ++ b ++ c) lo hi = Some b.
Proof.
  intros -> ->. apply get_range_Some. split.
  { rewrite !len_app. pose proof (len_nonneg b). pose proof (len_nonneg c). lia. }
  rewrite to_nat_len, drop_app_length.
  replace (len a + len b - len a) with (len b) by lia.
  by rewrite to_nat_len, take_app_length.
Qed.

Lemma get_to_app {A} (b c : list A) hi : hi = len b -> get_to (b ++ c) hi = Some b.
Proof. intros ->. by apply (get_range_app [] b c). Qed.

Lemma get_from_app {A} (a b : list A) lo : lo = len a -> get_from (a ++ b) lo = Some b.
Proof.
  intros ->. unfold get_from. rewrite <- (app_nil_r b) at 1.
  apply get_range_app; [done|]. by rewrite len_app.
Qed.

Lemma try_into_array_Some {A} n (l r : list A) :
  try_into_array n l = Some r <-> len l = n /\ r = l.
Proof. unfold try_into_array. destruct (Z.eqb_spec (len l) n); naive_solver. Qed.

Lemma try_into_array_id {A} n (l : list A) : len l = n -> try_into_array n l = Some l.
Proof. intros. by apply try_into_array_Some. Qed.

(** ** Lemmas on big-endian integers *)

Lemma from_to_be_bytes n v :
  0 <= n -> 0 <= v < 2 ^ (8 * n) -> from_be_bytes (to_be_bytes n v) = v.
Proof.
  intros Hn Hv. unfold from_be_bytes, to_be_bytes. rewrite reverse_involutive.
  rewrite little_endian_to_Z_to_little_endian by lia.
  apply Z.mod_small. rewrite (Z.mul_comm n). lia.
Qed.

Lemma to_from_be_bytes n bs :
  len bs = n -> Forall is_u8 bs -> to_be_bytes n (from_be_bytes bs) = bs.
Proof.
  intros Hn Hbs. unfold from_be_bytes, to_be_bytes.
  rewrite Z_to_little_endian_to_Z.
  - apply reverse_involutive.
  - unfold len in Hn. rewrite length_reverse. lia.
  - lia.
  - apply Forall_reverse. eapply Forall_impl; [exact Hbs|]. intros x. width.
Qed.

Lemma to_be_bytes_u8 n v : 0 <= n -> Forall is_u8 (to_be_bytes n v).
Proof.
  intros. unfold to_be_bytes. apply Forall_reverse.
  eapply Forall_impl; [apply Z_to_little_endian_bound; lia|]. intros x. width.
Qed.

Lemma from_be_bytes_bound bs :
  Forall is_u8 bs -> 0 <= from_be_bytes bs < 2 ^ (8 * len bs).
Proof.
  intros. unfold from_be_bytes.
  pose proof (little_endian_to_Z_bound 8 (reverse bs)) as Hb.
  rewrite length_reverse in Hb. unfold len. rewrite Z.mul_comm. apply Hb; [lia|].
  apply Forall_reverse. eapply Forall_impl; [eassumption|]. intros x. width.
Qed.

#[export] Hint Resolve len_nonneg to_be_bytes_u8 : paxe.

(** A decidable fact about every value below a bound, by evaluation. *)
Lemma below_forall (n : Z) (P : Z -> Prop) `{forall b, Decision (P b)} :
  bool_decide (Forall P (seqZ 0 n)) = true -> forall b, 0 <= b < n -> P b.
Proof.
  intros Hc b Hb. apply bool_decide_eq_true in Hc. rewrite Forall_forall in Hc.
  apply Hc. apply elem_of_seqZ. lia.
Qed.
