(* ===== verification/BTree.v ===== *)
(** * Ordered maps and sets

    The part of [std::collections::BTreeMap] and [BTreeSet] the crate uses, as
    a strictly ascending association list, so that [range(..)] and
    [next_back()] mean what they mean in Rust.  [to_map] is the abstraction to
    an unordered finite map; every operation is a simulation of the
    corresponding [gmap] operation. *)

From stdpp Require Export gmap fin_maps.
From Stdlib Require Export Sorting.Sorted.
From S2P Require Export Prelude.

(** What a key type promises to the map: a decidable strict total order. *)
Class TotalOrd (K : Type) := {
  ltb : K -> K -> bool;
  ltb_irrefl k : ltb k k = false;
  ltb_trans a b c : ltb a b = true -> ltb b c = true -> ltb a c = true;
  ltb_total a b : ltb a b = false -> ltb b a = false -> a = b;
}.

Global Program Instance Z_ord : TotalOrd Z := {| ltb := Z.ltb |}.
Next Obligation. intros. lia. Qed.
Next Obligation. intros a b c. lia. Qed.
Next Obligation. intros a b. lia. Qed.

(** Tuples are ordered lexicographically. *)
Global Program Instance prod_ord `{TotalOrd A, TotalOrd B} : TotalOrd (A * B) :=
  {| ltb x y := ltb x.1 y.1 || (negb (ltb y.1 x.1) && ltb x.2 y.2) |}.
Next Obligation. intros A ? B ? [a b]. simpl. by rewrite !ltb_irrefl. Qed.
Next Obligation.
  intros A ? B ? [a1 b1] [a2 b2] [a3 b3]. simpl. intros H1 H2.
  apply orb_true_iff in H1 as [H1|[H1 H1']%andb_true_iff];
    apply orb_true_iff in H2 as [H2|[H2 H2']%andb_true_iff].
  - by rewrite (ltb_trans _ _ _ H1 H2).
  - apply negb_true_iff in H2. destruct (ltb a2 a3) eqn:E.
    + by rewrite (ltb_trans _ _ _ H1 E).
    + rewrite <- (ltb_total _ _ E H2). by rewrite H1.
  - apply negb_true_iff in H1. destruct (ltb a1 a2) eqn:E.
    + by rewrite (ltb_trans _ _ _ E H2).
    + rewrite (ltb_total _ _ E H1). by rewrite H2.
  - apply negb_true_iff in H1, H2.
    destruct (ltb a1 a2) eqn:E1.
    { destruct (ltb a2 a3) eqn:E2.
      - by rewrite (ltb_trans _ _ _ E1 E2).
      - rewrite <- (ltb_total _ _ E2 H2). by rewrite E1. }
    rewrite (ltb_total _ _ E1 H1). rewrite H2, (ltb_trans _ _ _ H1' H2').
    apply orb_true_r.
Qed.
Next Obligation.
  intros A ? B ? [a1 b1] [a2 b2]. simpl. intros H1 H2.
  apply orb_false_iff in H1 as [H1 H1'], H2 as [H2 H2'].
  rewrite H2 in H1'. rewrite H1 in H2'. simpl in *.
  f_equal; by apply ltb_total.
Qed.

Abbreviation btree K V := (list (K * V)).

Section BTree.
Context {K V : Type} `{HO : TotalOrd K}.

Definition bt_empty : btree K V := [].

(** [contains_key] / [get]. *)
Fixpoint bt_get (m : btree K V) (k : K) : option V :=
  match m with
  | [] => None
  | (k', v) :: m' =>
      if ltb k k' then None else if ltb k' k then bt_get m' k else Some v
  end.

Definition bt_contains (m : btree K V) (k : K) : bool :=
  match bt_get m k with Some _ => true | None => false end.

(** [insert(k, v)]: the new map; the replaced value is [bt_get m k]. *)
Fixpoint bt_insert (m : btree K V) (k : K) (v : V) : btree K V :=
  match m with
  | [] => [(k, v)]
  | (k', v') :: m' =>
      if ltb k k' then (k, v) :: m
      else if ltb k' k then (k', v') :: bt_insert m' k v else (k, v) :: m'
  end.

(** [remove(k)]: the new map; the removed value is [bt_get m k]. *)
Fixpoint bt_remove (m : btree K V) (k : K) : btree K V :=
  match m with
  | [] => []
  | (k', v') :: m' =>
      if ltb k k' then m
      else if ltb k' k then (k', v') :: bt_remove m' k else m'
  end.

Definition leb (a b : K) : bool := negb (ltb b a).

(** [range(lo..=hi)], in ascending order. *)
Definition bt_range (m : btree K V) (lo hi : K) : btree K V :=
  filter (fun kv => leb lo kv.1 && leb kv.1 hi = true) m.

Definition key_lt (x y : K * V) : Prop := ltb x.1 y.1 = true.

Definition bt_sorted (m : btree K V) : Prop := StronglySorted key_lt m.

Lemma bt_sorted_cons kv m :
  bt_sorted (kv :: m) <-> bt_sorted m /\ Forall (key_lt kv) m.
Proof.
  split; [intros H; inversion_clear H; done | intros [? ?]; by constructor].
Qed.

Lemma ltb_asym a b : ltb a b = true -> ltb b a = false.
Proof.
  intros H. destruct (ltb b a) eqn:E; [|done].
  pose proof (ltb_trans _ _ _ H E). by rewrite ltb_irrefl in *.
Qed.

(** Three-way comparison of keys. *)
Lemma ltb_cases a b :
  (ltb a b = true /\ ltb b a = false) \/ (ltb a b = false /\ ltb b a = true) \/
  (a = b /\ ltb a b = false /\ ltb b a = false).
Proof.
  destruct (ltb a b) eqn:E1, (ltb b a) eqn:E2.
  - by rewrite (ltb_asym _ _ E1) in E2.
  - by left.
  - right; by left.
  - right; right. eauto using ltb_total.
Qed.

Lemma Forall_key_lt_trans x y m :
  key_lt x y -> Forall (key_lt y) m -> Forall (key_lt x) m.
Proof.
  intros Hxy Hm. eapply Forall_impl; [exact Hm|]. intros z. unfold key_lt in *.
  eauto using ltb_trans.
Qed.

Lemma bt_get_notin k m :
  Forall (fun kv => ltb k kv.1 = true) m -> bt_get m k = None.
Proof.
  destruct m as [|[k' v'] m]; [done|]. intros [H _]%Forall_cons. simpl in *. by rewrite H.
Qed.

Lemma bt_insert_lt x m k v :
  ltb x.1 k = true -> Forall (key_lt x) m -> Forall (key_lt x) (bt_insert m k v).
Proof.
  intros Hx. induction m as [|[k' v'] m IH]; simpl; intros Hm.
  { by repeat constructor. }
  apply Forall_cons in Hm as [? ?].
  repeat split_match; repeat constructor; eauto.
Qed.

Lemma bt_remove_lt x m k :
  Forall (key_lt x) m -> Forall (key_lt x) (bt_remove m k).
Proof.
  induction m as [|[k' v'] m IH]; simpl; intros Hm; [done|].
  apply Forall_cons in Hm as [? ?].
  repeat split_match; repeat constructor; eauto.
Qed.

Lemma bt_insert_sorted m k v : bt_sorted m -> bt_sorted (bt_insert m k v).
Proof.
  induction m as [|[k' v'] m IH]; simpl; intros Hm.
  { apply bt_sorted_cons. split; [constructor | done]. }
  apply bt_sorted_cons in Hm as [Hs Hlt].
  destruct (ltb_cases k k') as [[E1 E2]|[[E1 E2]|[-> [E1 E2]]]]; rewrite E1, ?E2.
  - apply bt_sorted_cons. split; [by apply bt_sorted_cons|].
    constructor; [done|]. eapply Forall_key_lt_trans; [|exact Hlt]. done.
  - apply bt_sorted_cons. split; [by apply IH|]. by apply bt_insert_lt.
  - by apply bt_sorted_cons.
Qed.

Lemma bt_remove_sorted m k : bt_sorted m -> bt_sorted (bt_remove m k).
Proof.
  induction m as [|[k' v'] m IH]; simpl; intros Hm; [done|].
  pose proof Hm as [Hs Hlt]%bt_sorted_cons.
  repeat split_match; [done| |done].
  apply bt_sorted_cons. split; [by apply IH|]. by apply bt_remove_lt.
Qed.

Lemma bt_range_sorted m lo hi : bt_sorted m -> bt_sorted (bt_range m lo hi).
Proof.
  unfold bt_range. induction m as [|kv m IH]; intros Hm; [done|].
  apply bt_sorted_cons in Hm as [Hs Hlt].
  rewrite filter_cons. case_decide; [|by apply IH].
  apply bt_sorted_cons. split; [by apply IH|].
  apply Forall_forall. intros x [_ Hx]%list_elem_of_filter.
  rewrite Forall_forall in Hlt. by apply Hlt.
Qed.

(** Membership in a sorted map is lookup. *)
Lemma bt_get_elem m k v : bt_sorted m -> bt_get m k = Some v <-> (k, v) ∈ m.
Proof.
  induction m as [|[k' v'] m IH]; intros Hm; simpl.
  { split; [done|]. by intros ?%not_elem_of_nil. }
  apply bt_sorted_cons in Hm as [Hs Hlt]. rewrite elem_of_cons.
  assert (Hin : forall a b, (a, b) ∈ m -> ltb k' a = true).
  { intros a b Hab. rewrite Forall_forall in Hlt. apply (Hlt _ Hab). }
  destruct (ltb_cases k k') as [[E1 E2]|[[E1 E2]|[-> [E1 E2]]]]; rewrite E1, ?E2.
  - split; [done|]. intros [?|Hx]; [simplify_eq; by rewrite ltb_irrefl in E1|].
    rewrite (Hin _ _ Hx) in E2. done.
  - rewrite IH by done. split; [by right|].
    intros [?|?]; [simplify_eq; by rewrite ltb_irrefl in E2|done].
  - split; [intros; inv_ok; by left|].
    intros [?|Hx]; [by simplify_eq|]. rewrite (Hin _ _ Hx) in E1. done.
Qed.

Lemma bt_get_insert m k v j :
  bt_get (bt_insert m k v) j =
  if ltb j k then bt_get m j else if ltb k j then bt_get m j else Some v.
Proof.
  induction m as [|[k' v'] m IH]; simpl; [by repeat case_match|].
  destruct (ltb_cases k k') as [[E1 E2]|[[E1 E2]|[-> [E1 E2]]]]; rewrite E1, ?E2; simpl.
  - destruct (ltb_cases j k) as [[F1 F2]|[[F1 F2]|[-> [F1 F2]]]]; rewrite F1, ?F2; [|done|done].
    by rewrite (ltb_trans _ _ _ F1 E1).
  - destruct (ltb_cases j k') as [[F1 F2]|[[F1 F2]|[-> [F1 F2]]]]; rewrite F1, ?F2.
    + by rewrite (ltb_trans _ _ _ F1 E2).
    + apply IH.
    + by rewrite E2.
  - by destruct (ltb_cases j k') as [[F1 F2]|[[F1 F2]|[-> [F1 F2]]]]; rewrite F1, ?F2.
Qed.

Lemma bt_get_remove m k j :
  bt_sorted m ->
  bt_get (bt_remove m k) j =
  if ltb j k then bt_get m j else if ltb k j then bt_get m j else None.
Proof.
  induction m as [|[k' v'] m IH]; simpl; intros Hm; [by repeat case_match|].
  apply bt_sorted_cons in Hm as [Hs Hlt].
  destruct (ltb_cases k k') as [[E1 E2]|[[E1 E2]|[-> [E1 E2]]]]; rewrite E1, ?E2; simpl.
  - destruct (ltb_cases j k) as [[F1 F2]|[[F1 F2]|[-> [F1 F2]]]]; rewrite F1, ?F2; [done|done|].
    by rewrite E1.
  - destruct (ltb_cases j k') as [[F1 F2]|[[F1 F2]|[-> [F1 F2]]]]; rewrite F1, ?F2.
    + by rewrite (ltb_trans _ _ _ F1 E2).
    + by apply IH.
    + by rewrite E2.
  - destruct (ltb_cases j k') as [[F1 F2]|[[F1 F2]|[-> [F1 F2]]]]; rewrite F1, ?F2; [|done|].
    + apply bt_get_notin. eapply Forall_impl; [exact Hlt|]. intros x. by apply ltb_trans.
    + apply bt_get_notin. exact Hlt.
Qed.

Lemma bt_range_elem m lo hi k v :
  (k, v) ∈ bt_range m lo hi <-> (k, v) ∈ m /\ ltb k lo = false /\ ltb hi k = false.
Proof.
  unfold bt_range, leb. rewrite list_elem_of_filter. simpl.
  rewrite andb_true_iff, !negb_true_iff. naive_solver.
Qed.

(** [next_back] of a range is its greatest key. *)
Lemma bt_last_max m k v j w :
  bt_sorted m -> last m = Some (k, v) -> (j, w) ∈ m -> ltb k j = false.
Proof.
  intros Hm [m' ->]%last_Some Hin.
  assert (Forall (fun x => key_lt x (k, v)) m') as Hlt.
  { clear Hin. induction m' as [|x m' IH]; [done|].
    simpl in Hm. apply bt_sorted_cons in Hm as [Hs Hx].
    constructor; [|by apply IH]. apply Forall_app in Hx as [_ Hx]. by inversion Hx. }
  apply elem_of_app in Hin as [Hin|Hin].
  - rewrite Forall_forall in Hlt. apply ltb_asym. by apply (Hlt _ Hin).
  - apply list_elem_of_singleton in Hin as [= <- <-]. apply ltb_irrefl.
Qed.

(** ** The entries as a multiset *)

Lemma bt_remove_absent m k : bt_sorted m -> bt_get m k = None -> bt_remove m k = m.
Proof.
  induction m as [|[k' v'] m IH]; simpl; intros Hm; [done|].
  apply bt_sorted_cons in Hm as [Hs Hlt].
  repeat split_match; intros; [done| |done]. by rewrite IH.
Qed.

Lemma bt_remove_perm m k v :
  bt_get m k = Some v -> m ≡ₚ (k, v) :: bt_remove m k.
Proof.
  induction m as [|[k' v'] m IH]; simpl; [done|].
  destruct (ltb_cases k k') as [[E1 E2]|[[E1 E2]|[-> [E1 E2]]]]; rewrite E1, ?E2; [done| |].
  - intros Hg. rewrite (IH Hg) at 1. apply Permutation_swap.
  - by intros [= ->].
Qed.

Lemma bt_insert_perm m k v : bt_sorted m -> bt_insert m k v ≡ₚ (k, v) :: bt_remove m k.
Proof.
  induction m as [|[k' v'] m IH]; simpl; intros Hm; [done|].
  apply bt_sorted_cons in Hm as [Hs Hlt].
  repeat split_match; [done| |done].
  rewrite IH by done. apply Permutation_swap.
Qed.

Lemma bt_get_remove_eq m k : bt_sorted m -> bt_get (bt_remove m k) k = None.
Proof. intros. rewrite bt_get_remove by done. by rewrite ltb_irrefl. Qed.

Lemma bt_insert_remove m k v : bt_sorted m -> bt_insert (bt_remove m k) k v = bt_insert m k v.
Proof.
  induction m as [|[k' v'] m IH]; simpl; intros Hm; [done|].
  apply bt_sorted_cons in Hm as [Hs Hlt].
  destruct (ltb_cases k k') as [[E1 E2]|[[E1 E2]|[-> [E1 E2]]]]; rewrite E1, ?E2; simpl.
  - by rewrite E1.
  - rewrite E1, E2. by rewrite IH.
  - destruct m as [|[k2 v2] m]; [done|]. apply Forall_cons in Hlt as [Hlt _].
    unfold key_lt in Hlt. simpl in *. by rewrite Hlt.
Qed.

Lemma len_bt_insert m k v :
  bt_sorted m -> len (bt_insert m k v) = if bt_contains m k then len m else 1 + len m.
Proof.
  intros Hm. unfold bt_contains, len. rewrite (bt_insert_perm m k v Hm). simpl.
  destruct (bt_get m k) eqn:Hg.
  - rewrite (bt_remove_perm _ _ _ Hg) at 2. done.
  - rewrite bt_remove_absent by done. lia.
Qed.

Lemma len_bt_remove m k : bt_sorted m -> len (bt_remove m k) <= len m.
Proof.
  intros Hm. destruct (bt_get m k) as [v|] eqn:Hg; [|by rewrite bt_remove_absent].
  unfold len. rewrite (bt_remove_perm _ _ _ Hg) at 2. simpl. lia.
Qed.

(** ** Abstraction to finite maps *)

Context `{HE : EqDecision K} `{HC : !Countable K}.

Definition to_map (m : btree K V) : gmap K V := list_to_map m.

Lemma bt_sorted_NoDup m : bt_sorted m -> NoDup m.*1.
Proof.
  induction m as [|[k v] m IH]; intros Hm; [constructor|].
  apply bt_sorted_cons in Hm as [Hs Hlt]. simpl. constructor; [|by apply IH].
  intros ([k' v'] & Heq & Hin)%list_elem_of_fmap. simpl in Heq. subst k'.
  rewrite Forall_forall in Hlt. specialize (Hlt _ Hin). unfold key_lt in Hlt. simpl in Hlt.
  by rewrite ltb_irrefl in Hlt.
Qed.

Lemma to_map_lookup m k : bt_sorted m -> to_map m !! k = bt_get m k.
Proof.
  intros Hm. apply option_eq. intros v. rewrite bt_get_elem by done.
  unfold to_map. symmetry. apply elem_of_list_to_map. by apply bt_sorted_NoDup.
Qed.

Lemma to_map_insert m k v : bt_sorted m -> to_map (bt_insert m k v) = <[k:=v]> (to_map m).
Proof.
  intros Hm. apply map_eq. intros j.
  rewrite to_map_lookup by (by apply bt_insert_sorted). rewrite bt_get_insert, lookup_insert.
  destruct (ltb_cases j k) as [[F1 F2]|[[F1 F2]|[-> [F1 F2]]]]; rewrite F1, ?F2;
    case_decide; subst; rewrite ?ltb_irrefl in *; try done; by rewrite to_map_lookup.
Qed.

Lemma to_map_remove m k : bt_sorted m -> to_map (bt_remove m k) = delete k (to_map m).
Proof.
  intros Hm. apply map_eq. intros j.
  rewrite to_map_lookup by (by apply bt_remove_sorted). rewrite bt_get_remove, lookup_delete by done.
  destruct (ltb_cases j k) as [[F1 F2]|[[F1 F2]|[-> [F1 F2]]]]; rewrite F1, ?F2;
    case_decide; subst; rewrite ?ltb_irrefl in *; try done; by rewrite to_map_lookup.
Qed.

Lemma to_map_size m : bt_sorted m -> Z.of_nat (size (to_map m)) = len m.
Proof.
  intros Hm. unfold len. f_equal. rewrite <- (length_map_to_list (to_map m)).
  apply Permutation_length. unfold to_map. apply map_to_list_to_map. by apply bt_sorted_NoDup.
Qed.

Lemma bt_contains_spec m k : bt_sorted m -> bt_contains m k = true <-> is_Some (to_map m !! k).
Proof.
  intros Hm. unfold bt_contains. rewrite to_map_lookup by done.
  destruct (bt_get m k); split; [eauto|done|done|by intros [? [=]]].
Qed.

End BTree.

#[export] Hint Resolve bt_insert_sorted bt_remove_sorted bt_range_sorted : paxe.
