(* ===== verification/Sodium.v ===== *)
(** * The libsodium boundary: [src/sodium.rs]

    libsodium, libc and kernel32 are code outside the repository: the class
    [Libsodium] has one field per foreign function the module declares, and
    the classes [AeadSpec], [GuardedHeapSpec] and [RandomSpec] state the
    documented behaviour (the CONTRACT comments of the [extern] block) that
    theorems rely on.  The safe wrappers of the module are definitions over
    that class.  [SodiumState] is the process state behind the boundary: the
    guarded heap, the CSPRNG position, the page-locking budget and the core
    limit. *)

From S2P Require Export Prelude BTree.

Definition KEYBYTES : Z := 32.
Definition NPUBBYTES : Z := 12.
Definition ABYTES : Z := 16.

(** One [sodium_malloc] region: its contents and whether [sodium_mlock]
    has pinned it. *)
Record Block := MkBlock { blk_bytes : bytes; blk_locked : bool }.

Record SodiumState := MkSodium {
  inits : nat;                  (* [sodium_init] calls made *)
  heap : gmap Z Block;          (* live guarded allocations *)
  freed : list (Z * bytes);     (* [sodium_free] calls: address, contents handed over *)
  draws : nat;                  (* [randombytes_buf] calls made *)
  locks : nat;                  (* [sodium_mlock] calls made *)
  granted : Z;                  (* [GRANTED]: working-set growth so far, bytes *)
  working_set : Z * Z;          (* the process minimum and maximum working set *)
  rlimit_core : Z * Z;          (* [RLIMIT_CORE]: soft and hard limit *)
}.

Definition set_inits n s := MkSodium n s.(heap) s.(freed) s.(draws) s.(locks) s.(granted) s.(working_set) s.(rlimit_core).
Definition set_heap h s := MkSodium s.(inits) h s.(freed) s.(draws) s.(locks) s.(granted) s.(working_set) s.(rlimit_core).
Definition set_freed f s := MkSodium s.(inits) s.(heap) f s.(draws) s.(locks) s.(granted) s.(working_set) s.(rlimit_core).
Definition set_draws n s := MkSodium s.(inits) s.(heap) s.(freed) n s.(locks) s.(granted) s.(working_set) s.(rlimit_core).
Definition set_locks n s := MkSodium s.(inits) s.(heap) s.(freed) s.(draws) n s.(granted) s.(working_set) s.(rlimit_core).
Definition set_budget g ws s := MkSodium s.(inits) s.(heap) s.(freed) s.(draws) s.(locks) g ws s.(rlimit_core).
Definition set_rlimit r s := MkSodium s.(inits) s.(heap) s.(freed) s.(draws) s.(locks) s.(granted) s.(working_set) r.

(** The foreign functions.  A function whose answer depends on the outside
    world takes the number of calls made so far. *)
Class Libsodium := {
  sodium_init : nat -> Z;
  (* NULL, or the C string: not UTF-8, or its text *)
  sodium_version_string : option (option string);
  crypto_aead_aes256gcm_is_available : Z;
  crypto_aead_aes256gcm_keybytes : Z;
  crypto_aead_aes256gcm_npubbytes : Z;
  crypto_aead_aes256gcm_abytes : Z;
  (* message, ad, nonce, key: return code, [*clen_p], bytes written at [c] *)
  crypto_aead_aes256gcm_encrypt : bytes -> bytes -> bytes -> bytes -> Z * Z * bytes;
  (* ciphertext, ad, nonce, key: return code, [*mlen_p], bytes written at [m] *)
  crypto_aead_aes256gcm_decrypt : bytes -> bytes -> bytes -> bytes -> Z * Z * bytes;
  randombytes_buf : nat -> Z -> bytes;
  (* NULL, or the address of the region and its initial contents *)
  sodium_malloc : gmap Z Block -> Z -> option (Z * bytes);
  sodium_mlock : nat -> Z -> Z;
  sodium_munlock : Z -> Z;
  sodium_memcmp : bytes -> bytes -> Z;
  getrlimit_rc : Z;
  setrlimit_rc : Z;
  (* the target is Windows; kernel32's answers after the n-th lock attempt *)
  cfg_windows : bool;
  last_os_error : nat -> option Z;
  GetProcessWorkingSetSize_rc : nat -> Z;
  SetProcessWorkingSetSize_rc : nat -> Z;
}.

(** ** Errors *)

Inductive SodiumError :=
| InitFailed
| AbiMismatch (what : string) (ours theirs : Z)
| AesGcmUnavailable
| AuthFailed
| InvalidLength
| AllocFailed
| MlockFailed
| MunlockFailed
| Internal.

Global Instance SodiumError_eq_dec : EqDecision SodiumError.
Proof. solve_decision. Defined.

Definition show_SodiumError (e : SodiumError) : string :=
  match e with
  | InitFailed => "sodium_init failed"
  | AbiMismatch what ours theirs =>
      "libsodium ABI mismatch on " +:+ what +:+ ": crate constant " +:+ show ours
      +:+ ", linked library reports " +:+ show theirs
  | AesGcmUnavailable =>
      "AES-256-GCM unavailable: this libsodium build or CPU has " +:+
      "no hardware crypto path. Some distro builds ship without " +:+
      "it (e.g. Debian trixie arm64, Ubuntu 24.04 arm64); use a " +:+
      "libsodium with the ARM crypto extensions (>= 1.0.20) or " +:+
      "the self-contained build of this crate"
  | AuthFailed => "authentication failed"
  | InvalidLength => "invalid buffer length"
  | AllocFailed => "guarded allocation failed"
  | MlockFailed => "sodium_mlock failed"
  | MunlockFailed => "sodium_munlock failed"
  | Internal => "impossible libsodium result"
  end.

(** [Debug] of [Key], [Nonce] and [Tag]: the type and its size, never a byte. *)
Definition debug_fixed_bytes (name : string) (n : Z) (_ : bytes) : string :=
  name +:+ "([..; " +:+ show n +:+ "])".

Inductive InitStatus := Fresh | AlreadyInitialised.

Global Instance InitStatus_eq_dec : EqDecision InitStatus.
Proof. solve_decision. Defined.

(** [GuardedAllocation]: the address and length of a guarded region. *)
Record GuardedAllocation := MkGuarded { ga_ptr : Z; ga_len : Z }.

Global Instance GuardedAllocation_eq_dec : EqDecision GuardedAllocation.
Proof. solve_decision. Defined.

Section Wrappers.
Context `{Libsodium}.

(** ** Initialisation, ABI check, availability *)

Definition init : St SodiumState (result InitStatus SodiumError) := fun s =>
  let s' := set_inits (S s.(inits)) s in
  match sodium_init s.(inits) with
  | 0 => (Ok Fresh, s')
  | 1 => (Ok AlreadyInitialised, s')
  | _ => (Err InitFailed, s')
  end.

Definition version_string : string :=
  match sodium_version_string with
  | None => "(unknown)"
  | Some (Some s) => s
  | Some None => "(non-UTF-8 version string)"
  end.

Definition size_checks : list (string * Z * Z) :=
  [("KEYBYTES", KEYBYTES, crypto_aead_aes256gcm_keybytes);
   ("NPUBBYTES", NPUBBYTES, crypto_aead_aes256gcm_npubbytes);
   ("ABYTES", ABYTES, crypto_aead_aes256gcm_abytes)].

Fixpoint check_all (checks : list (string * Z * Z)) : result unit SodiumError :=
  match checks with
  | [] => Ok tt
  | (name, ours, theirs) :: rest =>
      if negb (ours =? theirs) then Err (AbiMismatch name ours theirs)
      else check_all rest
  end.

Definition check_sizes : result unit SodiumError := check_all size_checks.

Definition aes_gcm_available : bool := crypto_aead_aes256gcm_is_available =? 1.

Definition require_aes_gcm : result unit SodiumError :=
  if aes_gcm_available then Ok tt else Err AesGcmUnavailable.

Definition startup_check : St SodiumState (result string SodiumError) :=
  let? _ := init in
  let? _ := ret check_sizes in
  let? _ := ret require_aes_gcm in
  ret (Ok version_string).

(** ** AEAD seal and open

    [out] is the caller's buffer; the result carries its contents after the
    call. *)

Definition aead_encrypt (key nonce aad plaintext out : bytes)
    : result Z SodiumError * bytes :=
  match checked_add (len plaintext) ABYTES with
  | None => (Err InvalidLength, out)
  | Some needed =>
      if len out <? needed then (Err InvalidLength, out)
      else
        let '(rc, written, c) := crypto_aead_aes256gcm_encrypt plaintext aad nonce key in
        let out := write_front out c in
        if negb (rc =? 0) || negb (written =? needed) then (Err Internal, out)
        else (Ok needed, out)
  end.

Definition aead_decrypt (key nonce aad ciphertext out : bytes)
    : result Z SodiumError * bytes :=
  match checked_sub (len ciphertext) ABYTES with
  | None => (Err InvalidLength, out)
  | Some plen =>
      if len out <? plen then (Err InvalidLength, out)
      else
        let '(rc, written, m) := crypto_aead_aes256gcm_decrypt ciphertext aad nonce key in
        let out := write_front out m in
        if negb (rc =? 0) then (Err AuthFailed, write_front out (zeros plen))
        else if negb (written =? plen) then (Err Internal, out)
        else (Ok plen, out)
  end.

(** ** Randomness *)

Definition randombytes_fill (n : Z) : St SodiumState bytes := fun s =>
  if n =? 0 then ([], s)
  else (write_front (zeros n) (randombytes_buf s.(draws) n), set_draws (S s.(draws)) s).

Definition random_key : St SodiumState bytes := randombytes_fill KEYBYTES.
Definition random_nonce : St SodiumState bytes := randombytes_fill NPUBBYTES.

(** ** Secure memory *)

Definition guarded_new (n : Z) : St SodiumState (result GuardedAllocation SodiumError) :=
  fun s =>
  match sodium_malloc s.(heap) n with
  | Some (p, contents) =>
      (Ok (MkGuarded p n), set_heap (<[p := MkBlock contents false]> s.(heap)) s)
  | None => (Err AllocFailed, s)
  end.

(** [as_slice]: the live contents of the region. *)
Definition as_slice (s : SodiumState) (ga : GuardedAllocation) : bytes :=
  match s.(heap) !! ga.(ga_ptr) with
  | Some b => take (Z.to_nat ga.(ga_len)) b.(blk_bytes)
  | None => []
  end.

(** [as_mut_slice().copy_from_slice(bs)]. *)
Definition write_slice (ga : GuardedAllocation) (bs : bytes) : St SodiumState unit := fun s =>
  (tt, set_heap (alter (fun b => MkBlock (write_front b.(blk_bytes) bs) b.(blk_locked))
                   ga.(ga_ptr) s.(heap)) s).

(** [Drop for GuardedAllocation]: the region goes back to [sodium_free]. *)
Definition guarded_drop (ga : GuardedAllocation) : St SodiumState unit := fun s =>
  (tt, set_freed ((ga.(ga_ptr), as_slice s ga) :: s.(freed))
         (set_heap (delete ga.(ga_ptr) s.(heap)) s)).

Definition set_locked (p : Z) (s : SodiumState) : SodiumState :=
  set_heap (alter (fun b => MkBlock b.(blk_bytes) true) p s.(heap)) s.

Definition try_mlock (ga : GuardedAllocation) : St SodiumState bool := fun s =>
  let rc := sodium_mlock s.(locks) ga.(ga_len) in
  let s := set_locks (S s.(locks)) s in
  if rc =? 0 then (true, set_locked ga.(ga_ptr) s) else (false, s).

Definition ERROR_WORKING_SET_QUOTA : Z := 1453.
Definition ERROR_NOT_ENOUGH_QUOTA : Z := 1816.
Definition HEADROOM : Z := 8 * 1024 * 1024.
Definition MAX_TOTAL : Z := 64 * 1024 * 1024.

(** [grow_locked_page_budget(len)]: raise the working set after a quota
    refusal, within the cumulative ceiling. *)
Definition grow_locked_page_budget (n : Z) : St SodiumState bool := fun s =>
  let quota := match last_os_error s.(locks) with
               | Some e => (e =? ERROR_WORKING_SET_QUOTA) || (e =? ERROR_NOT_ENOUGH_QUOTA)
               | None => false
               end in
  if negb quota then (false, s) else
  let step := saturating_add n HEADROOM in
  let total := saturating_add s.(granted) step in
  if MAX_TOTAL <? total then (false, s) else
  if GetProcessWorkingSetSize_rc s.(locks) =? 0 then (false, s) else
  let '(minimum, maximum) := s.(working_set) in
  let new_minimum := saturating_add minimum step in
  let new_maximum := Z.max (saturating_add maximum step) new_minimum in
  if SetProcessWorkingSetSize_rc s.(locks) =? 0 then (false, s) else
  (true, set_budget total (new_minimum, new_maximum) s).

Definition mlock (ga : GuardedAllocation) : St SodiumState (result unit SodiumError) :=
  if ga.(ga_len) =? 0 then ret (Ok tt) else
  let* locked := try_mlock ga in
  if locked then ret (Ok tt) else
  if cfg_windows then
    let* grown := grow_locked_page_budget ga.(ga_len) in
    if grown then
      let* locked := try_mlock ga in
      ret (if locked then Ok tt else Err MlockFailed)
    else ret (Err MlockFailed)
  else ret (Err MlockFailed).

(** [GuardedAllocation::len] and [is_empty]. *)
Definition guarded_len (ga : GuardedAllocation) : Z := ga.(ga_len).
Definition guarded_is_empty (ga : GuardedAllocation) : bool := ga.(ga_len) =? 0.

(** [memzero] over a plain buffer, and over a guarded region. *)
Definition memzero (buf : bytes) : bytes := if len buf =? 0 then buf else zeros (len buf).

Definition guarded_memzero (ga : GuardedAllocation) : St SodiumState unit :=
  if ga.(ga_len) =? 0 then ret tt else write_slice ga (zeros ga.(ga_len)).

(** [munlock]: libsodium erases, then unlocks. *)
Definition munlock (ga : GuardedAllocation) : St SodiumState (result unit SodiumError) := fun s =>
  if ga.(ga_len) =? 0 then (Ok tt, s) else
  let s := (write_slice ga (zeros ga.(ga_len)) s).2 in
  match sodium_munlock ga.(ga_len) with
  | 0 => (Ok tt, set_heap (alter (fun b => MkBlock b.(blk_bytes) false) ga.(ga_ptr) s.(heap)) s)
  | _ => (Err MunlockFailed, s)
  end.

Definition ct_eq (a b : bytes) : bool :=
  if negb (len a =? len b) then false
  else if len a =? 0 then true
  else sodium_memcmp a b =? 0.

(** [disable_core_dumps]: only the soft limit moves. *)
Definition disable_core_dumps : St SodiumState (result unit unit) := fun s =>
  if negb (getrlimit_rc =? 0) then (Err tt, s) else
  let rlim_max := s.(rlimit_core).2 in
  if negb (setrlimit_rc =? 0) then (Err tt, s) else
  (Ok tt, set_rlimit (0, rlim_max) s).

End Wrappers.

(** ** What the crate relies on of libsodium *)

Definition aes_encrypt `{Libsodium} (m ad npub k : bytes) : bytes :=
  (crypto_aead_aes256gcm_encrypt m ad npub k).2.

(** Combined-mode AES-256-GCM.  [decrypt_tidy]: verification recomputes the
    tag, so a ciphertext that verifies is the encryption of its plaintext. *)
Class AeadSpec `{Libsodium} : Prop := {
  encrypt_succeeds m ad npub k :
    len npub = NPUBBYTES -> len k = KEYBYTES ->
    crypto_aead_aes256gcm_encrypt m ad npub k = (0, len m + ABYTES, aes_encrypt m ad npub k);
  encrypt_len m ad npub k :
    len npub = NPUBBYTES -> len k = KEYBYTES ->
    len (aes_encrypt m ad npub k) = len m + ABYTES;
  decrypt_encrypt m ad npub k :
    len npub = NPUBBYTES -> len k = KEYBYTES -> Forall is_u8 m ->
    crypto_aead_aes256gcm_decrypt (aes_encrypt m ad npub k) ad npub k = (0, len m, m);
  decrypt_tidy c ad npub k n m :
    len npub = NPUBBYTES -> len k = KEYBYTES ->
    crypto_aead_aes256gcm_decrypt c ad npub k = (0, n, m) -> c = aes_encrypt m ad npub k;
  decrypt_writes c ad npub k rc n m :
    len npub = NPUBBYTES -> len k = KEYBYTES -> ABYTES <= len c ->
    crypto_aead_aes256gcm_decrypt c ad npub k = (rc, n, m) ->
    len m <= len c - ABYTES /\ (rc = 0 -> n = len c - ABYTES /\ len m = n /\ Forall is_u8 m);
}.

(** The guarded heap never hands out a live address, and a region has the
    size asked for. *)
Class GuardedHeapSpec `{Libsodium} : Prop := {
  malloc_fresh h n p bs : sodium_malloc h n = Some (p, bs) -> h !! p = None;
  malloc_len h n p bs : 0 <= n -> sodium_malloc h n = Some (p, bs) -> len bs = n;
}.

Class RandomSpec `{Libsodium} : Prop := {
  randombytes_len i n : 0 <= n -> len (randombytes_buf i n) = n;
  randombytes_u8 i n : 0 <= n -> Forall is_u8 (randombytes_buf i n);
}.

(** ** Properties of the wrappers *)

Section AeadFacts.
Context `{AS : AeadSpec}.

Lemma aead_encrypt_short key nonce aad pt out :
  len out < len pt + ABYTES -> aead_encrypt key nonce aad pt out = (Err InvalidLength, out).
Proof.
  intros. unfold aead_encrypt, checked_add. case_match eqn:E; [|done].
  destruct (Z.leb_spec (len pt + ABYTES) USIZE_MAX); [|done]. inv_ok.
  by rewrite (proj2 (Z.ltb_lt _ _)).
Qed.

Lemma aead_encrypt_fits key nonce aad pt out :
  len key = KEYBYTES -> len nonce = NPUBBYTES ->
  len pt + ABYTES <= len out -> len pt + ABYTES <= USIZE_MAX ->
  aead_encrypt key nonce aad pt out =
    (Ok (len pt + ABYTES), write_front out (aes_encrypt pt aad nonce key)).
Proof.
  intros Hk Hn Hout Hmax. unfold aead_encrypt, checked_add.
  rewrite (proj2 (Z.leb_le _ _)) by done. rewrite (proj2 (Z.ltb_ge _ _)) by done.
  rewrite encrypt_succeeds by done. by rewrite !Z.eqb_refl.
Qed.

(** The three outcomes of opening a buffer that passed the length gates:
    the ciphertext is an encryption and its plaintext is in [out], or the
    verdict is [AuthFailed] and the plaintext region is zero. *)
Lemma aead_decrypt_cases key nonce aad ct out :
  len key = KEYBYTES -> len nonce = NPUBBYTES ->
  ABYTES <= len ct -> len ct - ABYTES <= len out ->
  (exists m, ct = aes_encrypt m aad nonce key /\ Forall is_u8 m /\ len m = len ct - ABYTES /\
     aead_decrypt key nonce aad ct out = (Ok (len m), m ++ drop (length m) out)) \/
  ((forall m, Forall is_u8 m -> ct <> aes_encrypt m aad nonce key) /\
   aead_decrypt key nonce aad ct out =
     (Err AuthFailed, zeros (len ct - ABYTES) ++ drop (Z.to_nat (len ct - ABYTES)) out)).
Proof.
  intros Hk Hn Hct Hout. unfold aead_decrypt, checked_sub.
  rewrite (proj2 (Z.leb_le _ _)) by done. rewrite (proj2 (Z.ltb_ge _ _)) by done.
  destruct (crypto_aead_aes256gcm_decrypt ct aad nonce key) as [[rc n] m] eqn:Hd.
  destruct (decrypt_writes _ _ _ _ _ _ _ Hn Hk Hct Hd) as [Hle Hrc].
  destruct (Z.eqb_spec rc 0) as [->|Hne]; simpl.
  - destruct (Hrc eq_refl) as (-> & Hlen & Hu8). left. exists m.
    split; [by eapply decrypt_tidy|]. split; [done|]. split; [done|].
    rewrite Z.eqb_refl. simpl. rewrite write_front_fits by lia. by rewrite Hlen.
  - right. split.
    { intros m' Hm' ->. rewrite decrypt_encrypt in Hd by done. congruence. }
    f_equal. assert (len (zeros (len ct - ABYTES)) = len ct - ABYTES) as Hz by (apply len_zeros; lia).
    rewrite write_front_fits by (rewrite len_write_front; lia). f_equal.
    rewrite write_front_fits by lia. unfold zeros. rewrite length_replicate.
    rewrite drop_app_ge by (unfold len in *; lia). rewrite drop_drop. f_equal. unfold len in *. lia.
Qed.

Lemma aead_decrypt_encrypt key nonce aad m out :
  len key = KEYBYTES -> len nonce = NPUBBYTES -> Forall is_u8 m -> len m <= len out ->
  aead_decrypt key nonce aad (aes_encrypt m aad nonce key) out =
    (Ok (len m), m ++ drop (length m) out).
Proof.
  intros Hk Hn Hm Hout. unfold aead_decrypt, checked_sub.
  rewrite encrypt_len by done. rewrite (proj2 (Z.leb_le _ _)) by (pose proof (len_nonneg m); lia).
  rewrite (proj2 (Z.ltb_ge _ _)) by lia. rewrite decrypt_encrypt by done. simpl.
  replace (len m + ABYTES - ABYTES) with (len m) by lia.
  rewrite Z.eqb_refl. simpl. by rewrite write_front_fits.
Qed.

End AeadFacts.

(** The wrapper's own guards: whatever the library does, a buffer that is too
    small or a ciphertext below one tag is refused before the call. *)
Lemma aead_decrypt_invalid_length `{Libsodium} key nonce aad ct out :
  len ct < ABYTES \/ len out < len ct - ABYTES ->
  aead_decrypt key nonce aad ct out = (Err InvalidLength, out).
Proof.
  intros Hbad. unfold aead_decrypt, checked_sub.
  destruct (Z.leb_spec ABYTES (len ct)); [|done].
  by rewrite (proj2 (Z.ltb_lt _ _)) by lia.
Qed.

Section RandomFacts.
Context `{RS : RandomSpec}.

Lemma randombytes_fill_len n s : 0 <= n -> len (randombytes_fill n s).1 = n.
Proof.
  intros. unfold randombytes_fill. destruct (Z.eqb_spec n 0); [by subst|]. simpl.
  rewrite len_write_front. by apply len_zeros.
Qed.

Lemma random_nonce_len s : len (random_nonce s).1 = NPUBBYTES.
Proof. by apply randombytes_fill_len. Qed.

Lemma random_key_len s : len (random_key s).1 = KEYBYTES.
Proof. by apply randombytes_fill_len. Qed.

Lemma randombytes_fill_u8 n s : 0 <= n -> Forall is_u8 (randombytes_fill n s).1.
Proof.
  intros. unfold randombytes_fill. destruct (Z.eqb_spec n 0); [constructor|]. simpl.
  rewrite write_front_exact; [by apply randombytes_u8|].
  by rewrite len_zeros, randombytes_len.
Qed.

Lemma randombytes_fill_heap n s : heap (randombytes_fill n s).2 = heap s.
Proof. unfold randombytes_fill. by case_match. Qed.

End RandomFacts.

Lemma check_all_ok checks :
  check_all checks = Ok tt <-> Forall (fun '(_, ours, theirs) => ours = theirs) checks.
Proof.
  induction checks as [|[[name ours] theirs] rest IH]; simpl; [by split|].
  rewrite Forall_cons, <- IH. destruct (Z.eqb_spec ours theirs); simpl; naive_solver.
Qed.

Lemma check_sizes_ok `{Libsodium} :
  check_sizes = Ok tt <->
  crypto_aead_aes256gcm_keybytes = KEYBYTES /\
  crypto_aead_aes256gcm_npubbytes = NPUBBYTES /\ crypto_aead_aes256gcm_abytes = ABYTES.
Proof.
  unfold check_sizes, size_checks. rewrite check_all_ok, !Forall_cons, Forall_nil.
  naive_solver.
Qed.

Lemma init_heap `{Libsodium} s : heap (init s).2 = heap s.
Proof. unfold init. by destruct (sodium_init (inits s)) as [|[]|]. Qed.

Lemma init_ok `{Libsodium} s :
  is_ok (init s).1 = true <-> sodium_init s.(inits) = 0 \/ sodium_init s.(inits) = 1.
Proof.
  unfold init. destruct (sodium_init (inits s)) as [|[p|p|]|p]; simpl; split; intros; naive_solver.
Qed.

(** [startup_check] succeeds exactly when the library initialises, agrees on
    the three sizes and offers the hardware path; then it returns the
    library's version string. *)
Theorem startup_check_ok_iff `{Libsodium} s v :
  (startup_check s).1 = Ok v <->
  (sodium_init s.(inits) = 0 \/ sodium_init s.(inits) = 1) /\
  (crypto_aead_aes256gcm_keybytes = KEYBYTES /\
   crypto_aead_aes256gcm_npubbytes = NPUBBYTES /\ crypto_aead_aes256gcm_abytes = ABYTES) /\
  crypto_aead_aes256gcm_is_available = 1 /\ v = version_string.
Proof.
  rewrite <- init_ok, <- check_sizes_ok, <- Z.eqb_eq.
  unfold startup_check, bindr, ret, require_aes_gcm, aes_gcm_available.
  destruct (init s) as [[] s'], check_sizes as [[]|], (_ =? 1); simpl; naive_solver.
Qed.

(** the page-locking budget: whatever the lock failed for, the cumulative
    growth stays below the 64 MiB ceiling; it moves only after one of the two
    quota refusals, and then by at least the headroom. *)
Theorem grow_budget_bounded `{Libsodium} n s b s' :
  0 <= n -> 0 <= s.(granted) <= MAX_TOTAL ->
  grow_locked_page_budget n s = (b, s') ->
  s.(granted) <= s'.(granted) <= MAX_TOTAL /\
  heap s' = heap s /\
  (b = true ->
     (last_os_error s.(locks) = Some ERROR_WORKING_SET_QUOTA \/
      last_os_error s.(locks) = Some ERROR_NOT_ENOUGH_QUOTA) /\
     s'.(granted) = s.(granted) + n + HEADROOM /\
     s'.(working_set).1 <= s'.(working_set).2) /\
  (b = false -> s' = s).
Proof.
  intros Hn Hg. unfold grow_locked_page_budget.
  destruct (last_os_error (locks s)) as [e|]; simpl; [|naive_solver].
  destruct (_ || _) eqn:Hq; simpl; [|naive_solver].
  apply orb_true_iff in Hq. rewrite !Z.eqb_eq in Hq.
  destruct (Z.ltb_spec MAX_TOTAL (saturating_add (granted s) (saturating_add n HEADROOM)));
    [naive_solver|].
  destruct (_ =? 0); [naive_solver|]. destruct (working_set s) as [mn mx].
  destruct (_ =? 0); [naive_solver|]. intros [= <- <-]. simpl.
  unfold saturating_add, MAX_TOTAL, HEADROOM, U64_MAX in *.
  split; [lia|]. split; [done|]. split; [|done]. intros _.
  split; [naive_solver|]. lia.
Qed.

(** core dumps: on success the soft limit is zero; the hard limit is never
    changed, and a failure changes nothing. *)
Theorem disable_core_dumps_spec `{Libsodium} s r s' :
  disable_core_dumps s = (r, s') ->
  s'.(rlimit_core).2 = s.(rlimit_core).2 /\ heap s' = heap s /\
  (r = Ok tt -> s'.(rlimit_core).1 = 0) /\ (r = Err tt -> s' = s).
Proof. unfold disable_core_dumps. repeat split_match; intros [= <- <-]; naive_solver. Qed.

(** ** The guarded heap *)

Lemma as_slice_lookup s p n b :
  heap s !! p = Some b -> len b.(blk_bytes) = n -> as_slice s (MkGuarded p n) = b.(blk_bytes).
Proof.
  intros Hp Hn. unfold as_slice. simpl. rewrite Hp. apply take_ge. unfold len in *. lia.
Qed.

(** A lock attempt changes at most the lock bit of the region. *)
Lemma try_mlock_heap `{Libsodium} ga s b s' :
  try_mlock ga s = (b, s') ->
  heap s' = (if b then alter (fun b => MkBlock b.(blk_bytes) true) ga.(ga_ptr) (heap s) else heap s)
  /\ freed s' = freed s.
Proof. unfold try_mlock, set_locked. by case_match; intros [= <- <-]. Qed.

Lemma mlock_heap `{Libsodium} ga s r s' :
  ga.(ga_len) <> 0 -> mlock ga s = (r, s') ->
  heap s' = (if is_ok r then alter (fun b => MkBlock b.(blk_bytes) true) ga.(ga_ptr) (heap s)
             else heap s)
  /\ freed s' = freed s.
Proof.
  intros Hlen. unfold mlock. rewrite (proj2 (Z.eqb_neq _ _)) by done. unfold bind, ret.
  destruct (try_mlock ga s) as [b1 s1] eqn:H1. apply try_mlock_heap in H1 as [Hh1 Hf1].
  destruct b1; [by intros [= <- <-]|]. destruct cfg_windows; [|by intros [= <- <-]].
  destruct (grow_locked_page_budget (ga_len ga) s1) as [g s2] eqn:H2.
  assert (heap s2 = heap s1 /\ freed s2 = freed s1) as [Hh2 Hf2].
  { revert H2. unfold grow_locked_page_budget. repeat split_match; intros [= <- <-]; done. }
  destruct g; [|intros [= <- <-]; simpl; split; congruence].
  destruct (try_mlock ga s2) as [b3 s3] eqn:H3. apply try_mlock_heap in H3 as [Hh3 Hf3].
  intros [= <- <-]. rewrite Hh3, Hf3, Hh2, Hh1, Hf2, Hf1. by destruct b3.
Qed.
