(* ===== verification/ToySodium.v ===== *)
(** * A concrete libsodium

    An executable instance of [Libsodium] that satisfies every specification
    class: the ciphertext is the plaintext followed by a 16-byte checksum of
    key, nonce, associated data and message; guarded memory and page locking
    always succeed.  It has no cryptographic strength; it shows that the
    specifications the theorems assume can hold together, and lets the
    definitions run.  The tag is a parameter: [weak_sodium] is the same library
    with a constant one. *)

From S2P Require Export Sodium.

(** A position-dependent 32-bit checksum of a byte string. *)
Definition checksum (bs : bytes) : Z :=
  fold_left (fun acc b => Z.land (acc * 257 + b + 1) 0xFFFFFFFF) bs 7.

Definition toy_tag (m ad npub k : bytes) : bytes :=
  to_be_bytes 16 (checksum (k ++ npub ++ [len ad] ++ ad ++ m)).

(** The AEAD with a given tag function. *)
Definition toy_encrypt (tag : bytes -> bytes -> bytes -> bytes -> bytes) (m ad npub k : bytes)
    : Z * Z * bytes :=
  (0, len m + ABYTES, m ++ tag m ad npub k).

Definition toy_decrypt (tag : bytes -> bytes -> bytes -> bytes -> bytes) (c ad npub k : bytes)
    : Z * Z * bytes :=
  let n := (length c - 16)%nat in
  let m := take n c in
  if decide (drop n c = tag m ad npub k /\ Forall is_u8 m) then (0, len m, m)
  else (-1, 0, []).

(** A host on which everything but the AEAD is as simple as it can be. *)
Definition host_with (encrypt decrypt : bytes -> bytes -> bytes -> bytes -> Z * Z * bytes)
    : Libsodium := {|
  sodium_init n := match n with O => 0 | S _ => 1 end;
  sodium_version_string := Some (Some "1.0.22");
  crypto_aead_aes256gcm_is_available := 1;
  crypto_aead_aes256gcm_keybytes := 32;
  crypto_aead_aes256gcm_npubbytes := 12;
  crypto_aead_aes256gcm_abytes := 16;
  crypto_aead_aes256gcm_encrypt := encrypt;
  crypto_aead_aes256gcm_decrypt := decrypt;
  randombytes_buf i n := replicate (Z.to_nat n) (Z.of_nat i `mod` 256);
  sodium_malloc h n := Some (fresh (dom h), zeros n);
  sodium_mlock _ _ := 0;
  sodium_munlock _ := 0;
  sodium_memcmp a b := if decide (a = b) then 0 else -1;
  getrlimit_rc := 0;
  setrlimit_rc := 0;
  cfg_windows := false;
  last_os_error _ := None;
  GetProcessWorkingSetSize_rc _ := 1;
  SetProcessWorkingSetSize_rc _ := 1;
|}.

Lemma host_heap e d : @GuardedHeapSpec (host_with e d).
Proof.
  split; simpl.
  - intros h n p bs [= <- <-]. apply not_elem_of_dom, is_fresh.
  - intros h n p bs Hn [= <- <-]. by apply len_zeros.
Qed.

Lemma host_random e d : @RandomSpec (host_with e d).
Proof.
  split; simpl; intros i n Hn.
  - rewrite len_replicate. lia.
  - apply Forall_replicate. pose proof (Z.mod_pos_bound (Z.of_nat i) 256). width.
Qed.

Definition toy_with (tag : bytes -> bytes -> bytes -> bytes -> bytes) : Libsodium :=
  host_with (toy_encrypt tag) (toy_decrypt tag).

Global Instance toy_sodium : Libsodium := toy_with toy_tag.

(** A library whose tag ignores everything: it meets the functional
    specification, and every pair of associated data collides in it. *)
Definition weak_sodium : Libsodium := toy_with (fun _ _ _ _ => zeros 16).

Definition toy_state : SodiumState := MkSodium 0 ∅ [] 0 0 0 (0, 0) (100, 200).

Section ToyAead.
Context (tag : bytes -> bytes -> bytes -> bytes -> bytes)
  (tag_len : forall m ad npub k, length (tag m ad npub k) = 16%nat).

Lemma toy_encrypt_split m ad npub k :
  let c := m ++ tag m ad npub k in
  take (length c - 16) c = m /\ drop (length c - 16) c = tag m ad npub k.
Proof.
  simpl. rewrite length_app, tag_len.
  replace (length m + 16 - 16)%nat with (length m) by lia.
  by rewrite take_app_length, drop_app_length.
Qed.

Lemma toy_with_aead : @AeadSpec (toy_with tag).
Proof.
  split.
  - done.
  - intros m ad npub k _ _. unfold aes_encrypt. simpl. unfold len.
    rewrite length_app, tag_len. unfold ABYTES. lia.
  - intros m ad npub k _ _ Hm. unfold aes_encrypt. simpl. unfold toy_decrypt.
    destruct (toy_encrypt_split m ad npub k) as [-> ->]. by rewrite decide_True.
  - intros c ad npub k n m _ _. simpl. unfold toy_decrypt.
    case_decide as Hd; [|done]. intros [= <- <-]. destruct Hd as [Hd _].
    unfold aes_encrypt. simpl. rewrite <- Hd. by rewrite take_drop.
  - intros c ad npub k rc n m _ _ Hc. simpl. unfold toy_decrypt.
    case_decide as Hd; intros [= <- <- <-]; unfold len, ABYTES in *.
    + rewrite length_take. destruct Hd. split; [lia|]. intros _. split; [lia|]. split; [lia|done].
    + simpl. split; [lia|done].
Qed.

End ToyAead.

Lemma toy_tag_len m ad npub k : length (toy_tag m ad npub k) = 16%nat.
Proof. apply Nat2Z.inj. apply (len_to_be_bytes 16). lia. Qed.

Global Instance toy_aead : AeadSpec.
Proof. apply toy_with_aead, toy_tag_len. Qed.

Lemma weak_aead : @AeadSpec weak_sodium.
Proof. by apply toy_with_aead. Qed.

Global Instance toy_heap : GuardedHeapSpec.
Proof. apply host_heap. Qed.

Global Instance toy_random : RandomSpec.
Proof. apply host_random. Qed.
