(* ===== verification/AesGcm.v ===== *)
(** * AES-256-GCM, executable

    The algorithm the crate's wrappers name: the block cipher of FIPS 197 with
    a 256-bit key and the Galois/Counter Mode of NIST SP 800-38D with a 96-bit
    nonce and a 128-bit tag, tag appended.  [gcm_sodium] is a host whose
    libsodium computes it.  It meets [AeadSpec], so the specification the
    theorems assume holds of the real algorithm, and the known answers the
    crate pins can be evaluated (file [Vectors]). *)

From S2P Require Export ToySodium.

(** ** GF(2^8) *)

(** Multiplication by [x] modulo [x^8 + x^4 + x^3 + x + 1]. *)
Definition xtime (b : Z) : Z :=
  let d := Z.shiftl b 1 in if Z.testbit b 7 then Z.lxor d 0x11B else d.

Fixpoint gf_mul_loop (n : nat) (a b acc : Z) : Z :=
  match n with
  | O => acc
  | S n => gf_mul_loop n (xtime a) (Z.shiftr b 1) (if Z.testbit b 0 then Z.lxor acc a else acc)
  end.

Definition gf_mul (a b : Z) : Z := gf_mul_loop 8 a b 0.

(** [x^254], the inverse of [x], with 0 for 0. *)
Definition gf_inv (x : Z) : Z := Nat.iter 254 (gf_mul x) 1.

Definition rotl8 (b i : Z) : Z := Z.lor (Z.land (Z.shiftl b i) 0xFF) (Z.shiftr b (8 - i)).

Definition sbox_formula (x : Z) : Z :=
  let b := gf_inv x in
  Z.lxor 0x63 (Z.lxor b (Z.lxor (rotl8 b 1) (Z.lxor (rotl8 b 2) (Z.lxor (rotl8 b 3) (rotl8 b 4))))).

Definition sbox_table : bytes :=
  Eval vm_compute in (fun i => sbox_formula (Z.of_nat i)) <$> seq 0 256.

Definition sub_byte (b : Z) : Z := nth (Z.to_nat b) sbox_table 0.

(** ** The cipher

    A block is its sixteen bytes, column after column. *)

Definition xor_bytes (a b : bytes) : bytes := zip_with Z.lxor a b.

Definition shift_rows (s : bytes) : bytes :=
  (fun i => nth i s 0) <$> [0; 5; 10; 15; 4; 9; 14; 3; 8; 13; 2; 7; 12; 1; 6; 11]%nat.

Fixpoint mix_columns (s : bytes) : bytes :=
  match s with
  | a :: b :: c :: d :: rest =>
      let mix p q r t := Z.lxor (xtime p) (Z.lxor (Z.lxor (xtime q) q) (Z.lxor r t)) in
      mix a b c d :: mix b c d a :: mix c d a b :: mix d a b c :: mix_columns rest
  | _ => []
  end.

(** The key schedule: each word from the eight before it; [i] is its index and
    [rcon] the round constant. *)
Fixpoint expand (n : nat) (i rcon : Z) (window : list bytes) : list bytes :=
  match n, window with
  | S n, oldest :: newer =>
      let last := default [] (last newer) in
      let rot := match last with b :: bs => bs ++ [b] | [] => [] end in
      let '(temp, rcon') :=
        if i `mod` 8 =? 0 then (xor_bytes (sub_byte <$> rot) [rcon; 0; 0; 0], xtime rcon)
        else if i `mod` 8 =? 4 then (sub_byte <$> last, rcon)
        else (last, rcon) in
      let w := xor_bytes oldest temp in
      w :: expand n (i + 1) rcon' (newer ++ [w])
  | _, _ => []
  end.

Fixpoint chunks (fuel n : nat) (bs : bytes) : list bytes :=
  match fuel, bs with
  | S fuel, _ :: _ => take n bs :: chunks fuel n (drop n bs)
  | _, _ => []
  end.

(** Fifteen round keys. *)
Definition round_keys (key : bytes) : list bytes :=
  let words := chunks 8 4 key in
  chunks 15 16 (mjoin (words ++ expand 52 8 1 words)).

Fixpoint rounds (keys : list bytes) (s : bytes) : bytes :=
  match keys with
  | [] => s
  | [k] => xor_bytes (shift_rows (sub_byte <$> s)) k
  | k :: keys => rounds keys (xor_bytes (mix_columns (shift_rows (sub_byte <$> s))) k)
  end.

Definition aes_block (keys : list bytes) (block : bytes) : bytes :=
  match keys with
  | [] => block
  | k :: keys => rounds keys (xor_bytes block k)
  end.

(** ** Galois/Counter Mode *)

(** Multiplication in GF(2^128), the most significant bit first. *)
Fixpoint gmul_loop (n : nat) (x v z : Z) : Z :=
  match n with
  | O => z
  | S n =>
      gmul_loop n x
        (if Z.testbit v 0 then Z.lxor (Z.shiftr v 1) (Z.shiftl 0xE1 120) else Z.shiftr v 1)
        (if Z.testbit x (Z.of_nat n) then Z.lxor z v else z)
  end.

Definition gmul (x y : Z) : Z := gmul_loop 128 x y 0.

(** The blocks of a byte string, the last one padded with zeros. *)
Definition ghash_blocks (bs : bytes) : list Z :=
  (fun c => from_be_bytes (c ++ replicate (16 - length c) 0)) <$> chunks (length bs) 16 bs.

Definition ghash (h : Z) (ad c : bytes) : Z :=
  fold_left (fun y x => gmul (Z.lxor y x) h)
    (ghash_blocks ad ++ ghash_blocks c ++ [Z.lor (Z.shiftl (8 * len ad) 64) (8 * len c)]) 0.

(** The counter block [i] of a 96-bit nonce. *)
Definition counter_block (npub : bytes) (i : Z) : bytes := npub ++ to_be_bytes 4 (i `mod` 2 ^ 32).

Fixpoint xor_stream (x ks : bytes) : bytes :=
  match x, ks with
  | a :: x, k :: ks => Z.lxor a k :: xor_stream x ks
  | _, _ => x
  end.

(** Counter mode from block 2 on. *)
Definition gctr (keys : list bytes) (npub x : bytes) : bytes :=
  xor_stream x
    (mjoin ((fun i => aes_block keys (counter_block npub (Z.of_nat i)))
              <$> seq 2 (Nat.div (length x + 15) 16))).

Definition gcm_tag (keys : list bytes) (npub ad c : bytes) : bytes :=
  let h := from_be_bytes (aes_block keys (zeros 16)) in
  let ek := from_be_bytes (aes_block keys (counter_block npub 1)) in
  to_be_bytes 16 (Z.lxor (ghash h ad c) ek).

Definition gcm_encrypt (m ad npub k : bytes) : Z * Z * bytes :=
  let keys := round_keys k in
  let c := gctr keys npub m in
  (0, len m + ABYTES, c ++ gcm_tag keys npub ad c).

(** The plaintext of a C function is made of bytes; the last conjunct says so
    of the model's. *)
Definition gcm_decrypt (c ad npub k : bytes) : Z * Z * bytes :=
  let keys := round_keys k in
  let n := (length c - 16)%nat in
  let m := gctr keys npub (take n c) in
  if decide (drop n c = gcm_tag keys npub ad (take n c) /\ Forall is_u8 m) then (0, len m, m)
  else (-1, 0, []).

Definition gcm_sodium : Libsodium := host_with gcm_encrypt gcm_decrypt.

(** ** The specification holds of it *)

Lemma xor_stream_len x ks : length (xor_stream x ks) = length x.
Proof. revert ks. induction x as [|a x IH]; intros [|k ks]; simpl; auto. Qed.

Lemma xor_stream_twice x ks : xor_stream (xor_stream x ks) ks = x.
Proof.
  revert ks. induction x as [|a x IH]; intros [|k ks]; simpl; try done.
  by rewrite Z.lxor_assoc, Z.lxor_nilpotent, Z.lxor_0_r, IH.
Qed.

Lemma gctr_len keys npub x : length (gctr keys npub x) = length x.
Proof. apply xor_stream_len. Qed.

Lemma gctr_twice keys npub x : gctr keys npub (gctr keys npub x) = x.
Proof. unfold gctr at 1. rewrite gctr_len. apply xor_stream_twice. Qed.

Lemma gcm_tag_len keys npub ad c : length (gcm_tag keys npub ad c) = 16%nat.
Proof. apply Nat2Z.inj. apply (len_to_be_bytes 16). lia. Qed.

(** A ciphertext with its tag, cut. *)
Lemma gcm_cut keys npub ad c :
  let t := c ++ gcm_tag keys npub ad c in
  take (length t - 16) t = c /\ drop (length t - 16) t = gcm_tag keys npub ad c.
Proof.
  simpl. rewrite length_app, gcm_tag_len.
  replace (length c + 16 - 16)%nat with (length c) by lia.
  by rewrite take_app_length, drop_app_length.
Qed.

Lemma gcm_aead : @AeadSpec gcm_sodium.
Proof.
  split.
  - done.
  - intros m ad npub k _ _. unfold aes_encrypt. cbn [snd gcm_sodium host_with gcm_encrypt crypto_aead_aes256gcm_encrypt].
    unfold gcm_encrypt, len. cbn [snd]. rewrite length_app, gctr_len, gcm_tag_len. unfold ABYTES. lia.
  - intros m ad npub k _ _ Hm. unfold aes_encrypt, gcm_sodium, host_with, gcm_encrypt, gcm_decrypt.
    cbn -[round_keys gctr gcm_tag]. destruct (gcm_cut (round_keys k) npub ad (gctr (round_keys k) npub m)) as [-> ->].
    rewrite gctr_twice. by rewrite decide_True.
  - intros c ad npub k n m _ _. unfold aes_encrypt, gcm_sodium, host_with, gcm_encrypt, gcm_decrypt.
    cbn -[round_keys gctr gcm_tag]. case_decide as Hd; [|done]. intros [= <- <-]. destruct Hd as [Hd _].
    rewrite gctr_twice, <- Hd. by rewrite take_drop.
  - intros c ad npub k rc n m _ _ Hc. unfold gcm_sodium, host_with, gcm_decrypt.
    cbn -[round_keys gctr gcm_tag]. case_decide as Hd; intros [= <- <- <-]; unfold len, ABYTES in *.
    + rewrite gctr_len, length_take. destruct Hd. split; [lia|]. intros _. split; [lia|]. split; [lia|done].
    + simpl. split; [lia|done].
Qed.
