(* ===== verification/Keystore.v ===== *)
(** * The keystore: [src/keystore.rs]

    Keys live in guarded allocations ([Sodium.heap]); the store maps
    [(peer, epoch)] to the allocation that holds the key.  An operation is a
    function of the store and of the libsodium state; dropping a [StoredKey]
    is the explicit [memzero] followed by [sodium_free], as its destructor
    does.  [view] is the abstract keystore: a finite map from slots to key
    bytes. *)

From S2P Require Export Sodium ToySodium.

Definition MAX_ENTRIES : Z := 1024.
Definition MAX_EPOCH : Z := 31.

(** [Epoch(u8)]: built only by [epoch_new]. *)
Record Epoch := MkEpoch { bits : Z }.

Global Instance Epoch_eq_dec : EqDecision Epoch.
Proof. solve_decision. Defined.
Global Program Instance Epoch_countable : Countable Epoch :=
  inj_countable bits (fun b => Some (MkEpoch b)) _.
Next Obligation. by intros []. Qed.
Global Program Instance Epoch_ord : TotalOrd Epoch := {| ltb a b := bits a <? bits b |}.
Next Obligation. intros; simpl; lia. Qed.
Next Obligation. intros a b c; simpl; lia. Qed.
Next Obligation. intros [a] [b]; simpl; intros. f_equal. lia. Qed.

Definition wf_epoch (e : Epoch) : Prop := 0 <= bits e <= MAX_EPOCH.

Inductive KeystoreError :=
| InvalidEpoch (b : Z)
| Full
| KSodium (e : SodiumError).

Global Instance KeystoreError_eq_dec : EqDecision KeystoreError.
Proof. solve_decision. Defined.

Definition show_KeystoreError (e : KeystoreError) : string :=
  match e with
  | InvalidEpoch b => "invalid key epoch " +:+ show b +:+ ": must be 0-" +:+ show MAX_EPOCH
  | Full => "keystore at capacity (" +:+ show MAX_ENTRIES +:+
            " entries); retire an epoch before installing more"
  | KSodium e => "secure-memory failure: " +:+ show_SodiumError e
  end.

Definition epoch_new (b : Z) : result Epoch KeystoreError :=
  if MAX_EPOCH <? b then Err (InvalidEpoch b) else Ok (MkEpoch b).

(** One key in guarded memory. *)
Record StoredKey := MkStored { mem : GuardedAllocation }.

Record KeyStore := MkKeyStore {
  local_id : Z;
  entries : btree (Z * Epoch) StoredKey;
}.

Section Operations.
Context `{Libsodium}.

(** [StoredKey::new]: allocate, copy, lock; a failed lock drops the
    allocation. *)
Definition stored_new (material : bytes) : St SodiumState (result StoredKey SodiumError) :=
  let? m := guarded_new KEYBYTES in
  let* _ := write_slice m material in
  let* locked := mlock m in
  match locked with
  | Ok _ => ret (Ok (MkStored m))
  | Err e => let* _ := guarded_drop m in ret (Err e)
  end.

Definition expose (s : SodiumState) (k : StoredKey) : bytes := as_slice s k.(mem).

(** [Debug for StoredKey]: an exact placeholder, whatever the key. *)
Definition debug_StoredKey (_ : StoredKey) : string := "StoredKey([..; " +:+ show KEYBYTES +:+ "])".

(** [Drop for StoredKey], then for its [GuardedAllocation]. *)
Definition stored_drop (k : StoredKey) : St SodiumState unit :=
  let* _ := guarded_memzero k.(mem) in
  guarded_drop k.(mem).

Fixpoint drop_all (ks : list ((Z * Epoch) * StoredKey)) : St SodiumState unit :=
  match ks with
  | [] => ret tt
  | (_, k) :: rest => let* _ := stored_drop k in drop_all rest
  end.

Definition keystore_new (id : Z) : St SodiumState (result KeyStore KeystoreError) :=
  let* r := init in
  ret (match r with
       | Ok _ => Ok (MkKeyStore id bt_empty)
       | Err e => Err (KSodium e)
       end).

Definition install (ks : KeyStore) (peer : Z) (epoch : Epoch) (material : bytes)
    : St SodiumState (result unit KeystoreError * KeyStore) :=
  if negb (bt_contains ks.(entries) (peer, epoch)) && (MAX_ENTRIES <=? len ks.(entries))
  then ret (Err Full, ks)
  else
    let* r := stored_new material in
    match r with
    | Err e => ret (Err (KSodium e), ks)
    | Ok key =>
        let replaced := bt_get ks.(entries) (peer, epoch) in
        let ks' := MkKeyStore ks.(local_id) (bt_insert ks.(entries) (peer, epoch) key) in
        match replaced with
        | Some old => let* _ := stored_drop old in ret (Ok tt, ks')
        | None => ret (Ok tt, ks')
        end
    end.

Definition key_for_send (ks : KeyStore) (to_id : Z) (epoch : Epoch) : option StoredKey :=
  bt_get ks.(entries) (to_id, epoch).

Definition key_for_receive (ks : KeyStore) (from_id : Z) (epoch : Epoch) : option StoredKey :=
  bt_get ks.(entries) (from_id, epoch).

(** The entries of one peer: [range((peer, Epoch(0))..=(peer, Epoch(MAX_EPOCH)))]. *)
Definition peer_range (ks : KeyStore) (peer : Z) : btree (Z * Epoch) StoredKey :=
  bt_range ks.(entries) (peer, MkEpoch 0) (peer, MkEpoch MAX_EPOCH).

Definition key_for_send_current (ks : KeyStore) (to_id : Z) : option (Epoch * StoredKey) :=
  match last (peer_range ks to_id) with
  | Some ((_, epoch), key) => Some (epoch, key)
  | None => None
  end.

Definition peer_known (ks : KeyStore) (peer : Z) : bool :=
  match head (peer_range ks peer) with Some _ => true | None => false end.

Definition retire (ks : KeyStore) (peer : Z) (epoch : Epoch) : St SodiumState (bool * KeyStore) :=
  let ks' := MkKeyStore ks.(local_id) (bt_remove ks.(entries) (peer, epoch)) in
  match bt_get ks.(entries) (peer, epoch) with
  | Some key => let* _ := stored_drop key in ret (true, ks')
  | None => ret (false, ks')
  end.

Definition clear (ks : KeyStore) : St SodiumState KeyStore :=
  let* _ := drop_all ks.(entries) in
  ret (MkKeyStore ks.(local_id) bt_empty).

(** Dropping the store drops the map, which drops every key. *)
Definition keystore_drop (ks : KeyStore) : St SodiumState unit := drop_all ks.(entries).

Definition keystore_len (ks : KeyStore) : Z := len ks.(entries).
Definition is_empty (ks : KeyStore) : bool := keystore_len ks =? 0.

End Operations.

(** ** Invariant and abstraction *)

Definition ptr (k : StoredKey) : Z := k.(mem).(ga_ptr).

(** The key's region is live, locked and exactly 32 bytes. *)
Definition owns_key (s : SodiumState) (k : StoredKey) : Prop :=
  k.(mem).(ga_len) = KEYBYTES /\
  exists bs, heap s !! ptr k = Some (MkBlock bs true) /\ len bs = KEYBYTES.

Definition ptrs (ks : KeyStore) : list Z := (fun kv => ptr kv.2) <$> ks.(entries).

Record ks_inv (s : SodiumState) (ks : KeyStore) : Prop := {
  inv_local : is_u16 ks.(local_id);
  inv_sorted : bt_sorted ks.(entries);
  inv_slots : Forall (fun kv => is_u16 kv.1.1 /\ wf_epoch kv.1.2) ks.(entries);
  inv_capacity : len ks.(entries) <= MAX_ENTRIES;
  inv_keys : Forall (fun kv => owns_key s kv.2) ks.(entries);
  inv_distinct : NoDup (ptrs ks);
}.

(** The guarded memory that belongs to nobody in the store. *)
Definition outside (s : SodiumState) (ks : KeyStore) : gmap Z Block :=
  filter (fun pb => pb.1 ∉ ptrs ks) (heap s).

(** The abstract keystore: which key bytes each slot holds. *)
Definition view (s : SodiumState) (ks : KeyStore) : gmap (Z * Epoch) bytes :=
  expose s <$> to_map ks.(entries).

(** ** One key: allocation and erasure *)

Section StoredKeyFacts.
Context `{GH : GuardedHeapSpec}.

(** [StoredKey::new] either adds exactly one locked region that holds the
    material, or leaves the guarded heap as it was. *)
Lemma stored_new_spec material s r s' :
  len material = KEYBYTES -> stored_new material s = (r, s') ->
  match r with
  | Ok k => exists p, k = MkStored (MkGuarded p KEYBYTES) /\ heap s !! p = None /\
              heap s' = <[p := MkBlock material true]> (heap s) /\ freed s' = freed s
  | Err e => heap s' = heap s /\
      ((e = AllocFailed /\ freed s' = freed s) \/
       (e = MlockFailed /\ exists p, freed s' = (p, material) :: freed s))
  end.
Proof.
  intros Hm. unfold stored_new, bindr, bind, guarded_new.
  destruct (sodium_malloc (heap s) KEYBYTES) as [[p junk]|] eqn:Hmal;
    [|intros [= <- <-]; simpl; auto].
  pose proof (malloc_fresh _ _ _ _ Hmal) as Hfresh.
  assert (len junk = KEYBYTES) as Hjunk by (by eapply malloc_len).
  unfold write_slice. simpl. rewrite alter_insert_eq. simpl.
  rewrite write_front_exact by congruence.
  set (s1 := set_heap _ (set_heap _ s)). set (ga := MkGuarded p KEYBYTES).
  assert (Hh1 : heap s1 = <[p := MkBlock material false]> (heap s)) by done.
  assert (Hf1 : freed s1 = freed s) by done. clearbody s1.
  destruct (mlock ga s1) as [r2 s2] eqn:Hl.
  pose proof Hl as Herr. apply mlock_heap in Hl as [Hh2 Hf2]; [|done].
  destruct r2 as [[]|e]; unfold ret; simpl in Hh2.
  - intros [= <- <-]. exists p. rewrite Hh2, Hh1, Hf2, Hf1, alter_insert_eq. done.
  - intros [= <- <-]. unfold guarded_drop. simpl.
    rewrite Hh2, Hh1, delete_insert_id by done. split; [done|]. right.
    rewrite Hf2, Hf1. split.
    { revert Herr. unfold mlock, bind, ret. simpl. repeat split_match; naive_solver. }
    exists p. subst ga. simpl. rewrite (as_slice_lookup _ _ _ (MkBlock material false)); [done| |done].
    rewrite Hh2, Hh1. apply lookup_insert_eq.
Qed.

(** Dropping a key releases its region, already zeroed when [sodium_free]
    receives it. *)
Lemma stored_drop_spec k s :
  owns_key s k ->
  heap (stored_drop k s).2 = delete (ptr k) (heap s) /\
  freed (stored_drop k s).2 = (ptr k, zeros KEYBYTES) :: freed s.
Proof.
  destruct k as [[p n]]. intros [Hn (bs & Hb & Hlen)]. simpl in Hn. subst n.
  unfold ptr in *. simpl in *.
  unfold stored_drop, guarded_memzero, guarded_drop, bind, write_slice. simpl.
  rewrite delete_alter_eq. split; [done|]. f_equal. f_equal.
  unfold as_slice. simpl. rewrite lookup_alter_eq, Hb. simpl.
  rewrite write_front_exact by (by rewrite Hlen). done.
Qed.

End StoredKeyFacts.

(** ** The store *)

Section StoreFacts.
Context `{GH : GuardedHeapSpec}.

Lemma owns_key_heap s s' k :
  heap s' !! ptr k = heap s !! ptr k -> owns_key s k -> owns_key s' k.
Proof. intros Heq [? H']. split; [done|]. by rewrite Heq. Qed.

Lemma expose_heap s s' k : heap s' !! ptr k = heap s !! ptr k -> expose s' k = expose s k.
Proof. unfold expose, as_slice, ptr. by intros ->. Qed.

Lemma owns_key_expose s k : owns_key s k -> len (expose s k) = KEYBYTES.
Proof.
  intros [Hn (bs & Hb & Hl)]. unfold expose, as_slice. unfold ptr in Hb. rewrite Hb.
  simpl. rewrite Hn, len_take, Hl. done.
Qed.

Lemma ks_inv_key s ks slot k :
  ks_inv s ks -> bt_get ks.(entries) slot = Some k ->
  owns_key s k /\ is_u16 slot.1 /\ wf_epoch slot.2.
Proof.
  intros [_ Hs Hsl _ Hk _] Hg. apply bt_get_elem in Hg; [|done].
  rewrite Forall_forall in Hk, Hsl. split; [exact (Hk _ Hg)|exact (Hsl _ Hg)].
Qed.

Lemma view_lookup s ks slot :
  ks_inv s ks -> view s ks !! slot = expose s <$> bt_get ks.(entries) slot.
Proof. intros Hi. unfold view. rewrite lookup_fmap, to_map_lookup; [done|apply Hi]. Qed.

Lemma view_size s ks : ks_inv s ks -> Z.of_nat (size (view s ks)) = len ks.(entries).
Proof. intros Hi. unfold view. rewrite map_size_fmap. apply to_map_size, Hi. Qed.

(** The store after a change of its map and of the heap at some addresses. *)
Lemma view_heap s s' ks :
  ks_inv s ks -> (forall p, p ∈ ptrs ks -> heap s' !! p = heap s !! p) ->
  view s' ks = view s ks.
Proof.
  intros Hi Hp. apply map_eq. intros slot. unfold view. rewrite !lookup_fmap.
  rewrite !to_map_lookup by apply Hi.
  destruct (bt_get (entries ks) slot) as [k|] eqn:Hg; [|done]. simpl. f_equal.
  apply expose_heap, Hp. unfold ptrs. apply list_elem_of_fmap. exists (slot, k).
  split; [done|]. apply bt_get_elem; [apply Hi|done].
Qed.

Lemma ks_inv_heap s s' ks :
  ks_inv s ks -> (forall p, p ∈ ptrs ks -> heap s' !! p = heap s !! p) -> ks_inv s' ks.
Proof.
  intros [? ? ? ? Hk ?] Hp. split; try done. apply Forall_forall. intros kv Hin.
  rewrite Forall_forall in Hk. apply (owns_key_heap s); [|by apply Hk].
  apply Hp. unfold ptrs. apply list_elem_of_fmap. eauto.
Qed.

(** Removing a slot: its region goes, nothing else moves. *)
Lemma remove_slot s s' ks slot k :
  ks_inv s ks -> bt_get ks.(entries) slot = Some k ->
  heap s' = delete (ptr k) (heap s) ->
  let ks' := MkKeyStore ks.(local_id) (bt_remove ks.(entries) slot) in
  ks_inv s' ks' /\ view s' ks' = delete slot (view s ks) /\ outside s' ks' = outside s ks.
Proof.
  intros Hi Hg Hh ks'. pose proof (bt_remove_perm _ _ _ Hg) as Hperm.
  assert (Hptrs : ptrs ks ≡ₚ ptr k :: ptrs ks').
  { exact (fmap_Permutation (fun kv => ptr kv.2) _ _ Hperm). }
  pose proof (inv_distinct _ _ Hi) as Hnd. rewrite Hptrs in Hnd.
  apply NoDup_cons in Hnd as [Hnin Hnd].
  assert (Hsame : forall p, p ∈ ptrs ks' -> heap s' !! p = heap s !! p).
  { intros p Hp. rewrite Hh. apply lookup_delete_ne. by intros <-. }
  assert (ks_inv s ks') as Hi1.
  { destruct Hi as [? Hs Hsl Hc Hk _]. rewrite Hperm in Hsl, Hk.
    apply Forall_cons in Hsl as [_ ?], Hk as [_ ?]. split; simpl; auto with paxe.
    unfold len in *. rewrite Hperm in Hc. simpl in Hc. lia. }
  split; [by eapply ks_inv_heap|]. split.
  - rewrite (view_heap s) by done. unfold view, ks'. simpl.
    rewrite to_map_remove by apply Hi. apply fmap_delete.
  - unfold outside. apply map_eq. intros p. rewrite !map_lookup_filter, Hh.
    destruct (decide (p = ptr k)) as [->|Hne].
    + rewrite lookup_delete_eq. simpl. destruct (heap s !! ptr k); [|done]. simpl.
      case_guard as Hx; [|done]. destruct Hx. rewrite Hptrs. by left.
    + rewrite lookup_delete_ne by done. destruct (heap s !! p); [|done]. simpl.
      assert ((p ∉ ptrs ks) <-> (p ∉ ptrs ks')) as Hiff.
      { rewrite Hptrs, elem_of_cons. naive_solver. }
      repeat case_guard; naive_solver.
Qed.

(** Adding a slot that was empty, with a region that was free. *)
Lemma add_slot s s' ks peer epoch p material :
  ks_inv s ks -> is_u16 peer -> wf_epoch epoch -> len material = KEYBYTES ->
  bt_get ks.(entries) (peer, epoch) = None -> len ks.(entries) < MAX_ENTRIES ->
  heap s !! p = None -> heap s' = <[p := MkBlock material true]> (heap s) ->
  let k := MkStored (MkGuarded p KEYBYTES) in
  let ks' := MkKeyStore ks.(local_id) (bt_insert ks.(entries) (peer, epoch) k) in
  ks_inv s' ks' /\ view s' ks' = <[(peer, epoch) := material]> (view s ks) /\
  outside s' ks' = outside s ks.
Proof.
  intros Hi Hpeer Hep Hm Hg Hcap Hfree Hh k ks'.
  pose proof (inv_sorted _ _ Hi) as Hs.
  pose proof (bt_insert_perm _ (peer, epoch) k Hs) as Hperm.
  rewrite bt_remove_absent in Hperm by done.
  assert (Hptrs : ptrs ks' ≡ₚ p :: ptrs ks).
  { exact (fmap_Permutation (fun kv => ptr kv.2) _ _ Hperm). }
  assert (Hnin : p ∉ ptrs ks).
  { intros (kv & -> & Hin)%list_elem_of_fmap. pose proof (inv_keys _ _ Hi) as Hk.
    rewrite Forall_forall in Hk. destruct (Hk _ Hin) as [_ (bs & Hb & _)]. congruence. }
  assert (Hsame : forall q, q ∈ ptrs ks -> heap s' !! q = heap s !! q).
  { intros q Hq. rewrite Hh. apply lookup_insert_ne. by intros <-. }
  assert (owns_key s' k) as Hown.
  { split; [done|]. exists material. rewrite Hh. split; [apply lookup_insert_eq|done]. }
  assert (ks_inv s' ks) as Hi'. { by apply (ks_inv_heap s). }
  split; [|split].
  - destruct Hi' as [? _ Hsl _ Hk Hnd]. split; simpl; auto with paxe.
    + rewrite Hperm. by constructor.
    + unfold len in *. rewrite Hperm. simpl. lia.
    + rewrite Hperm. by constructor.
    + rewrite Hptrs. by constructor.
  - rewrite <- (view_heap s s') by done. unfold view, ks'. simpl.
    rewrite to_map_insert, fmap_insert by done. f_equal.
    unfold expose, as_slice, k. simpl. rewrite Hh, lookup_insert_eq. simpl.
    apply take_ge. unfold len, KEYBYTES in *. lia.
  - unfold outside. apply map_eq. intros q. rewrite !map_lookup_filter, Hh.
    destruct (decide (q = p)) as [->|Hne].
    + rewrite lookup_insert_eq, Hfree. simpl. case_guard as Hx; [|done].
      destruct Hx. rewrite Hptrs. by left.
    + rewrite lookup_insert_ne by done. destruct (heap s !! q); [|done]. simpl.
      assert ((q ∉ ptrs ks') <-> (q ∉ ptrs ks)) as Hiff.
      { rewrite Hptrs, elem_of_cons. naive_solver. }
      repeat case_guard; naive_solver.
Qed.

(** [install] refines insertion into the abstract map: on success the slot
    holds the new bytes and every other slot is untouched; [Full] is reported
    exactly for a new slot of a full store, before any allocation; a failure of
    guarded memory leaves store and heap as they were.  In every case the
    invariant holds and no guarded region outside the store changes. *)
Lemma install_spec s ks peer epoch material r ks' s' :
  ks_inv s ks -> is_u16 peer -> wf_epoch epoch -> len material = KEYBYTES ->
  install ks peer epoch material s = ((r, ks'), s') ->
  ks_inv s' ks' /\ outside s' ks' = outside s ks /\ local_id ks' = local_id ks /\
  match r with
  | Ok _ => view s' ks' = <[(peer, epoch) := material]> (view s ks) /\
      freed s' = match bt_get ks.(entries) (peer, epoch) with
                 | Some old => (ptr old, zeros KEYBYTES) :: freed s
                 | None => freed s
                 end
  | Err Full => ks' = ks /\ s' = s /\
      view s ks !! (peer, epoch) = None /\ Z.of_nat (size (view s ks)) = MAX_ENTRIES
  | Err (KSodium e) => ks' = ks /\ heap s' = heap s /\ (e = AllocFailed \/ e = MlockFailed)
  | Err (InvalidEpoch _) => False
  end.
Proof.
  intros Hi Hpeer Hep Hm. unfold install. pose proof (inv_capacity _ _ Hi) as Hcap.
  destruct (_ && _) eqn:Hfull.
  { intros [= <- <- <-]. rewrite view_lookup, view_size by done.
    unfold bt_contains in Hfull. destruct (bt_get _ _); [done|]. simpl in Hfull.
    zbool. repeat split; try done; try apply Hi. lia. }
  unfold bind. destruct (stored_new material s) as [[k|e] s1] eqn:Hnew;
    pose proof (stored_new_spec _ _ _ _ Hm Hnew) as Hspec; cycle 1.
  { destruct Hspec as [Hh Hcase]. intros [= <- <- <-].
    assert (forall p, p ∈ ptrs ks -> heap s1 !! p = heap s !! p) as Hsame by (by rewrite Hh).
    unfold outside. rewrite Hh. repeat split; try done; try (by eapply ks_inv_heap). naive_solver. }
  destruct Hspec as (p & -> & Hfree & Hh & Hf).
  destruct (bt_get (entries ks) (peer, epoch)) as [old|] eqn:Hg.
  - (* overwrite: as if the slot had been retired first *)
    destruct (ks_inv_key _ _ _ _ Hi Hg) as [Hold _].
    assert (p <> ptr old) as Hne.
    { intros ->. destruct Hold as [_ (bs & Hb & _)]. congruence. }
    assert (owns_key s1 old) as Hold1.
    { apply (owns_key_heap s); [|done]. rewrite Hh. by apply lookup_insert_ne. }
    destruct (stored_drop_spec old s1 Hold1) as [Hh2 Hf2].
    destruct (stored_drop old s1) as [[] s2]. simpl in Hh2, Hf2.
    intros [= <- <- <-].
    set (sm := set_heap (delete (ptr old) (heap s)) s).
    destruct (remove_slot s sm ks _ _ Hi Hg eq_refl) as (Him & Hvm & Hom).
    set (ksm := MkKeyStore _ _) in *.
    assert (len (entries ksm) < MAX_ENTRIES) as Hcm.
    { unfold ksm. simpl. unfold len in *. rewrite (bt_remove_perm _ _ _ Hg) in Hcap.
      simpl in Hcap. lia. }
    destruct (add_slot sm s2 ksm peer epoch p material) as (Hi2 & Hv2 & Ho2); try done.
    { apply bt_get_remove_eq, Hi. }
    { unfold sm. simpl. rewrite lookup_delete_ne by done. done. }
    { rewrite Hh2, Hh. unfold sm. simpl. by rewrite delete_insert_ne. }
    unfold ksm in Hi2, Hv2, Ho2, Hvm, Hom. simpl in Hi2, Hv2, Ho2.
    rewrite bt_insert_remove in Hi2, Hv2, Ho2 by apply Hi.
    rewrite Hvm, insert_delete_eq in Hv2. rewrite Hom in Ho2.
    by rewrite Hv2, Ho2, Hf2, Hf.
  - (* a new slot, below the bound *)
    intros [= <- <- <-].
    unfold bt_contains in Hfull. rewrite Hg in Hfull. simpl in Hfull. zbool.
    destruct (add_slot s s1 ks peer epoch p material) as (Hi2 & Hv2 & Ho2); try done.
Qed.

(** [retire] removes exactly the addressed slot: it answers whether the slot
    was occupied, every other slot keeps its bytes, and the released region was
    already zero when [sodium_free] received it. *)
Lemma retire_spec s ks peer epoch b ks' s' :
  ks_inv s ks -> retire ks peer epoch s = ((b, ks'), s') ->
  ks_inv s' ks' /\ outside s' ks' = outside s ks /\ local_id ks' = local_id ks /\
  view s' ks' = delete (peer, epoch) (view s ks) /\
  b = bool_decide (is_Some (view s ks !! (peer, epoch))) /\
  freed s' = match bt_get ks.(entries) (peer, epoch) with
             | Some old => (ptr old, zeros KEYBYTES) :: freed s
             | None => freed s
             end.
Proof.
  intros Hi. unfold retire. rewrite view_lookup by done.
  destruct (bt_get (entries ks) (peer, epoch)) as [k|] eqn:Hg; unfold bind, ret.
  - destruct (ks_inv_key _ _ _ _ Hi Hg) as [Hk _].
    destruct (stored_drop_spec k s Hk) as [Hh Hf].
    destruct (stored_drop k s) as [[] s1]. simpl in Hh, Hf. intros [= <- <- <-].
    destruct (remove_slot s s1 ks _ _ Hi Hg Hh) as (Hi' & Hv & Ho). by split_and!.
  - intros [= <- <- <-]. rewrite bt_remove_absent by (done || apply Hi).
    destruct ks as [id es]. simpl. repeat split; try done; try apply Hi.
    symmetry. apply delete_id. rewrite view_lookup by done. by rewrite Hg.
Qed.

Lemma drop_all_spec l s :
  Forall (fun kv => owns_key s kv.2) l -> NoDup ((fun kv => ptr kv.2) <$> l) ->
  heap (drop_all l s).2 = filter (fun pb => pb.1 ∉ (fun kv => ptr kv.2) <$> l) (heap s) /\
  freed (drop_all l s).2 = reverse ((fun kv => (ptr kv.2, zeros KEYBYTES)) <$> l) ++ freed s.
Proof.
  revert s. induction l as [|[slot k] l IH]; intros s Hk Hnd; simpl.
  { split; [|done]. symmetry. apply map_filter_id. set_solver. }
  apply Forall_cons in Hk as [Hk Hl]. simpl in Hnd. apply NoDup_cons in Hnd as [Hnin Hnd].
  simpl in Hk. unfold bind. destruct (stored_drop_spec k s Hk) as [Hh Hf].
  destruct (stored_drop k s) as [[] s1]. simpl in Hh, Hf.
  destruct (IH s1) as [Hh2 Hf2]; [|done|].
  { apply Forall_forall. intros kv Hin. rewrite Forall_forall in Hl.
    apply (owns_key_heap s); [|by apply Hl]. rewrite Hh. apply lookup_delete_ne.
    intros Heq. apply Hnin. apply list_elem_of_fmap. eauto. }
  rewrite Hh2, Hf2, Hh, Hf. split.
  - apply map_eq. intros p. rewrite !map_lookup_filter.
    destruct (decide (p = ptr k)) as [->|Hne].
    + rewrite lookup_delete_eq. simpl. destruct (heap s !! ptr k); [|done]. simpl.
      case_guard as Hx; [|done]. destruct Hx. by left.
    + rewrite lookup_delete_ne by done. destruct (heap s !! p); [|done]. simpl.
      repeat case_guard; set_solver.
  - by rewrite reverse_cons, <- app_assoc.
Qed.

(** [clear] (and dropping the store) leaves no key: the abstract map is
    empty, the guarded heap is exactly what lay outside the store, and every
    region was zero when it was released. *)
Lemma clear_spec s ks ks' s' :
  ks_inv s ks -> clear ks s = (ks', s') ->
  ks_inv s' ks' /\ view s' ks' = ∅ /\ local_id ks' = local_id ks /\
  heap s' = outside s ks /\
  freed s' = reverse ((fun p => (p, zeros KEYBYTES)) <$> ptrs ks) ++ freed s.
Proof.
  intros Hi. unfold clear, bind, ret.
  destruct (drop_all_spec (entries ks) s) as [Hh Hf]; try apply Hi.
  destruct (drop_all (entries ks) s) as [[] s1]. simpl in *. intros [= <- <-].
  split; [|split; [|split; [done|split; [exact Hh|]]]].
  - split; simpl; try done; try constructor; apply Hi.
  - apply map_eq. intros slot. unfold view. by rewrite lookup_fmap.
  - rewrite Hf. f_equal. f_equal. unfold ptrs. rewrite <- list_fmap_compose. done.
Qed.

Lemma keystore_drop_spec s ks :
  ks_inv s ks ->
  heap (keystore_drop ks s).2 = outside s ks /\
  freed (keystore_drop ks s).2 = reverse ((fun p => (p, zeros KEYBYTES)) <$> ptrs ks) ++ freed s.
Proof.
  intros Hi. destruct (drop_all_spec (entries ks) s) as [Hh Hf]; try apply Hi.
  split; [exact Hh|]. unfold keystore_drop. rewrite Hf. f_equal. f_equal.
  unfold ptrs. rewrite <- list_fmap_compose. done.
Qed.

(** ** Lookups *)

Lemma peer_range_elem s ks peer q e k :
  ks_inv s ks ->
  ((q, e), k) ∈ peer_range ks peer <-> q = peer /\ bt_get ks.(entries) (peer, e) = Some k.
Proof.
  intros Hi. unfold peer_range. rewrite bt_range_elem, <- bt_get_elem by apply Hi. split.
  - intros (Hg & Hlo & Hhi). simpl in Hlo, Hhi.
    destruct (ks_inv_key _ _ _ _ Hi Hg) as (_ & _ & Hwf). unfold wf_epoch, MAX_EPOCH in *.
    simpl in *. assert (q = peer) as -> by lia. done.
  - intros [-> Hg]. split; [done|].
    destruct (ks_inv_key _ _ _ _ Hi Hg) as (_ & _ & Hwf). unfold wf_epoch, MAX_EPOCH in *.
    simpl in *. lia.
Qed.

(** The current send epoch of a peer is the newest installed one, with its
    key; there is none exactly when the peer has no key at all. *)
Lemma send_current_spec s ks peer :
  ks_inv s ks ->
  match key_for_send_current ks peer with
  | Some (e, k) => view s ks !! (peer, e) = Some (expose s k) /\ wf_epoch e /\
      forall e', is_Some (view s ks !! (peer, e')) -> bits e' <= bits e
  | None => forall e, view s ks !! (peer, e) = None
  end.
Proof.
  intros Hi. unfold key_for_send_current.
  destruct (last (peer_range ks peer)) as [[[q e] k]|] eqn:Hl.
  - assert (((q, e), k) ∈ peer_range ks peer) as Hin.
    { apply last_Some in Hl as [l' ->]. apply elem_of_app. right. by apply list_elem_of_singleton. }
    apply (peer_range_elem s) in Hin as [-> Hg]; [|done]. rewrite view_lookup, Hg by done.
    split; [done|]. split; [by destruct (ks_inv_key _ _ _ _ Hi Hg) as (_ & _ & ?)|].
    intros e'. rewrite view_lookup by done.
    intros [bs Hbs]. destruct (bt_get (entries ks) (peer, e')) as [k'|] eqn:Hg'; [|done].
    assert (ltb (peer, e) (peer, e') = false) as Hlt.
    { eapply bt_last_max; [|exact Hl|by apply (peer_range_elem s)]. apply bt_range_sorted, Hi. }
    simpl in Hlt. lia.
  - intros e. rewrite view_lookup by done.
    destruct (bt_get (entries ks) (peer, e)) as [k|] eqn:Hg; [|done]. exfalso.
    apply last_None in Hl. assert (((peer, e), k) ∈ peer_range ks peer) as Hin
      by (by apply (peer_range_elem s)). rewrite Hl in Hin. by apply not_elem_of_nil in Hin.
Qed.

Lemma peer_known_spec s ks peer :
  ks_inv s ks -> peer_known ks peer = true <-> exists e, is_Some (view s ks !! (peer, e)).
Proof.
  intros Hi. unfold peer_known. destruct (peer_range ks peer) as [|[[q e] k] l] eqn:Hr; simpl.
  - split; [done|]. intros [e [bs Hbs]]. rewrite view_lookup in Hbs by done.
    destruct (bt_get (entries ks) (peer, e)) as [k|] eqn:Hg; [|done].
    assert (((peer, e), k) ∈ peer_range ks peer) as Hin by (by apply (peer_range_elem s)).
    rewrite Hr in Hin. by apply not_elem_of_nil in Hin.
  - split; [|done]. intros _. assert (((q, e), k) ∈ peer_range ks peer) as Hin
      by (rewrite Hr; by left).
    apply (peer_range_elem s) in Hin as [-> Hg]; [|done]. exists e.
    rewrite view_lookup, Hg by done. eauto.
Qed.

End StoreFacts.

Lemma epoch_new_ok b e : 0 <= b -> epoch_new b = Ok e <-> e = MkEpoch b /\ wf_epoch e.
Proof.
  intros. unfold epoch_new, wf_epoch. destruct (Z.ltb_spec MAX_EPOCH b);
    split; [done|naive_solver lia|naive_solver lia|naive_solver].
Qed.

(** ** The abstract keystore and the refinement

    The contract of the store, over [gmap (peer, epoch) bytes]: what each
    operation may answer and what it does to the map. *)

Inductive KsOp :=
| OpInstall (peer : Z) (epoch : Epoch) (material : bytes)
| OpRetire (peer : Z) (epoch : Epoch)
| OpClear.

Inductive KsOut :=
| OutInstall (r : result unit KeystoreError)
| OutRetire (b : bool)
| OutClear.

Definition wf_op (op : KsOp) : Prop :=
  match op with
  | OpInstall peer epoch material => is_u16 peer /\ wf_epoch epoch /\ len material = KEYBYTES
  | OpRetire _ _ | OpClear => True
  end.

Inductive abs_step (m : gmap (Z * Epoch) bytes) : KsOp -> KsOut -> gmap (Z * Epoch) bytes -> Prop :=
| abs_install peer epoch material :
    abs_step m (OpInstall peer epoch material) (OutInstall (Ok tt)) (<[(peer, epoch) := material]> m)
| abs_full peer epoch material :
    m !! (peer, epoch) = None -> Z.of_nat (size m) = MAX_ENTRIES ->
    abs_step m (OpInstall peer epoch material) (OutInstall (Err Full)) m
| abs_nomem peer epoch material e :
    e = AllocFailed \/ e = MlockFailed ->
    abs_step m (OpInstall peer epoch material) (OutInstall (Err (KSodium e))) m
| abs_retire peer epoch :
    abs_step m (OpRetire peer epoch) (OutRetire (bool_decide (is_Some (m !! (peer, epoch)))))
      (delete (peer, epoch) m)
| abs_clear : abs_step m OpClear OutClear ∅.

Inductive abs_run : gmap (Z * Epoch) bytes -> list (KsOp * KsOut) -> gmap (Z * Epoch) bytes -> Prop :=
| abs_nil m : abs_run m [] m
| abs_cons m op out m' rest m'' :
    abs_step m op out m' -> abs_run m' rest m'' -> abs_run m ((op, out) :: rest) m''.

Section Refinement.
Context `{GH : GuardedHeapSpec}.

Definition exec_op (op : KsOp) (ks : KeyStore) : St SodiumState (KsOut * KeyStore) :=
  match op with
  | OpInstall peer epoch material =>
      let* (r, ks') := install ks peer epoch material in ret (OutInstall r, ks')
  | OpRetire peer epoch => let* (b, ks') := retire ks peer epoch in ret (OutRetire b, ks')
  | OpClear => let* ks' := clear ks in ret (OutClear, ks')
  end.

Fixpoint exec_ops (ops : list KsOp) (ks : KeyStore)
    : St SodiumState (list (KsOp * KsOut) * KeyStore) :=
  match ops with
  | [] => ret ([], ks)
  | op :: rest =>
      let* (out, ks') := exec_op op ks in
      let* (trace, ks'') := exec_ops rest ks' in
      ret ((op, out) :: trace, ks'')
  end.

Lemma exec_op_refines op s ks out ks' s' :
  ks_inv s ks -> wf_op op -> exec_op op ks s = ((out, ks'), s') ->
  ks_inv s' ks' /\ abs_step (view s ks) op out (view s' ks') /\ outside s' ks' = outside s ks.
Proof.
  intros Hi Hop. destruct op as [peer epoch material|peer epoch|]; unfold exec_op, bind, ret.
  - destruct Hop as (Hp & He & Hm).
    destruct (install ks peer epoch material s) as [[r k1] s1] eqn:Hx. intros [= <- <- <-].
    destruct (install_spec _ _ _ _ _ _ _ _ Hi Hp He Hm Hx) as (Hi' & Ho & _ & Hr).
    split; [done|]. split; [|done]. destruct r as [[]|[b| |e]]; [|done| |].
    + destruct Hr as [-> _]. constructor.
    + destruct Hr as (-> & -> & ? & ?). by constructor.
    + destruct Hr as (-> & Hh & ?). rewrite (view_heap s s1); [by constructor|done|by rewrite Hh].
  - destruct (retire ks peer epoch s) as [[b k1] s1] eqn:Hx. intros [= <- <- <-].
    destruct (retire_spec _ _ _ _ _ _ _ Hi Hx) as (Hi' & Ho & _ & -> & -> & _).
    split; [done|]. split; [constructor|done].
  - destruct (clear ks s) as [k1 s1] eqn:Hx. intros [= <- <- <-].
    destruct (clear_spec _ _ _ _ Hi Hx) as (Hi' & Hv & _ & Hh & _). rewrite Hv.
    split; [done|]. split; [constructor|]. unfold outside at 1. rewrite Hh.
    apply map_filter_id. intros. unfold clear, bind, ret in Hx.
    destruct (drop_all _ s). injection Hx as <- _. simpl. apply not_elem_of_nil.
Qed.

(** C5: a store that satisfies the invariant refines the abstract keystore over
    any sequence of operations: the invariant is kept (sorted slots, at most
    1024 of them, every key in its own locked 32-byte region), the answers and
    the slot-to-bytes map are those of the abstract map, and no guarded region
    outside the store is touched or leaked. *)
Theorem keystore_refines ops s ks trace ks' s' :
  ks_inv s ks -> Forall wf_op ops -> exec_ops ops ks s = ((trace, ks'), s') ->
  ks_inv s' ks' /\ abs_run (view s ks) trace (view s' ks') /\ outside s' ks' = outside s ks.
Proof.
  revert s ks trace. induction ops as [|op ops IH]; intros s ks trace Hi Hops; simpl; unfold bind, ret.
  { intros [= <- <- <-]. split; [done|]. split; [constructor|done]. }
  apply Forall_cons in Hops as [Hop Hops].
  destruct (exec_op op ks s) as [[out k1] s1] eqn:Hx.
  destruct (exec_ops ops k1 s1) as [[tr k2] s2] eqn:Hy. intros [= <- <- <-].
  destruct (exec_op_refines _ _ _ _ _ _ Hi Hop Hx) as (Hi1 & Hv1 & Ho1).
  destruct (IH _ _ _ Hi1 Hops Hy) as (Hi2 & Hv2 & Ho2).
  split; [done|]. split; [by econstructor|congruence].
Qed.

(** The one outcome on which a region reaches [sodium_free] unwiped. *)
Definition lock_failure (out : KsOut) : Prop := out = OutInstall (Err (KSodium MlockFailed)).

Lemma exec_op_erases op s ks out ks' s' :
  ks_inv s ks -> wf_op op -> exec_op op ks s = ((out, ks'), s') ->
  exists released, freed s' = released ++ freed s /\
    (forall p, p ∈ ptrs ks -> p ∈ ptrs ks' \/ (p, zeros KEYBYTES) ∈ released) /\
    (~ lock_failure out -> Forall (fun pb => pb.2 = zeros KEYBYTES) released).
Proof.
  intros Hi Hop. destruct op as [peer epoch material|peer epoch|]; unfold exec_op, bind, ret.
  - destruct Hop as (Hp & He & Hm).
    destruct (install ks peer epoch material s) as [[r k1] s1] eqn:Hx. intros [= <- <- <-].
    pose proof (install_spec _ _ _ _ _ _ _ _ Hi Hp He Hm Hx) as (_ & _ & _ & Hr).
    revert Hx. unfold install, bind, ret.
    destruct (_ && _); [intros [= <- <- <-]; exists []; split; [done|]; split; [auto|constructor]|].
    destruct (stored_new material s) as [[k|e] s2] eqn:Hnew.
    + pose proof (stored_new_spec _ _ _ _ Hm Hnew) as (p & -> & Hfree & Hh & Hf).
      pose proof (bt_insert_perm _ (peer, epoch) (MkStored (MkGuarded p KEYBYTES)) (inv_sorted _ _ Hi)) as Hperm.
      destruct (bt_get (entries ks) (peer, epoch)) as [old|] eqn:Hg.
      * destruct (stored_drop old s2) as [[] s3]. intros [= <- <- <-]. destruct Hr as [_ Hfr].
        exists [(ptr old, zeros KEYBYTES)]. split; [done|]. split; [|by repeat constructor].
        intros q Hq. unfold ptrs in *. simpl. rewrite Hperm.
        rewrite (fmap_Permutation _ _ _ (bt_remove_perm _ _ _ Hg)) in Hq.
        rewrite fmap_cons, elem_of_cons in Hq. simpl in Hq.
        destruct Hq as [->|Hq]; [right; by left|left; by right].
      * intros [= <- <- <-]. exists []. destruct Hr as [_ Hfr]. split; [done|].
        split; [|constructor]. intros q Hq. left. unfold ptrs in *. simpl. rewrite Hperm.
        rewrite bt_remove_absent by (done || apply Hi). by right.
    + pose proof (stored_new_spec _ _ _ _ Hm Hnew) as (Hh & Hcase). intros [= <- <- <-].
      destruct Hcase as [[-> Hf]|(-> & p & Hf)].
      * exists []. split; [done|]. split; [auto|constructor].
      * exists [(p, material)]. split; [done|]. split; [auto|]. intros Hno. by destruct Hno.
  - destruct (retire ks peer epoch s) as [[b k1] s1] eqn:Hx. intros [= <- <- <-].
    pose proof (retire_spec _ _ _ _ _ _ _ Hi Hx) as (_ & _ & _ & _ & _ & Hf).
    revert Hx. unfold retire, bind, ret.
    destruct (bt_get (entries ks) (peer, epoch)) as [old|] eqn:Hg.
    + destruct (stored_drop old s) as [[] s3]. intros [= <- <- <-].
      exists [(ptr old, zeros KEYBYTES)]. split; [done|]. split; [|by repeat constructor].
      intros q Hq. unfold ptrs in *. simpl.
      rewrite (fmap_Permutation _ _ _ (bt_remove_perm _ _ _ Hg)) in Hq.
      rewrite fmap_cons, elem_of_cons in Hq. simpl in Hq.
      destruct Hq as [->|Hq]; [right; by left|by left].
    + intros [= <- <- <-]. exists []. split; [done|]. split; [|constructor].
      intros q Hq. left. unfold ptrs in *. simpl. by rewrite bt_remove_absent by (done || apply Hi).
  - destruct (clear ks s) as [k1 s1] eqn:Hx. intros [= <- <- <-].
    pose proof (clear_spec _ _ _ _ Hi Hx) as (_ & _ & _ & _ & Hf).
    eexists. split; [exact Hf|]. split.
    + intros q Hq. right. rewrite elem_of_reverse, list_elem_of_fmap. eauto.
    + intros _. apply Forall_reverse, Forall_fmap, Forall_true. done.
Qed.

(** C6: erasure: over any sequence of operations, a region that leaves the store
    (overwritten, retired or cleared) was all zeros when it was handed to
    [sodium_free]; a region is released unwiped only when [sodium_mlock] refused
    a key that never entered the store. *)
Theorem keys_erased_before_free ops s ks trace ks' s' :
  ks_inv s ks -> Forall wf_op ops -> exec_ops ops ks s = ((trace, ks'), s') ->
  exists released, freed s' = released ++ freed s /\
    (forall p, p ∈ ptrs ks -> p ∈ ptrs ks' \/ (p, zeros KEYBYTES) ∈ released) /\
    (Forall (fun x => ~ lock_failure x.2) trace ->
       Forall (fun pb => pb.2 = zeros KEYBYTES) released).
Proof.
  revert s ks trace. induction ops as [|op ops IH]; intros s ks trace Hi Hops; simpl; unfold bind, ret.
  { intros [= <- <- <-]. exists []. split; [done|]. split; [auto|constructor]. }
  apply Forall_cons in Hops as [Hop Hops].
  destruct (exec_op op ks s) as [[out k1] s1] eqn:Hx.
  destruct (exec_ops ops k1 s1) as [[tr k2] s2] eqn:Hy. intros [= <- <- <-].
  destruct (exec_op_refines _ _ _ _ _ _ Hi Hop Hx) as (Hi1 & _ & _).
  destruct (exec_op_erases _ _ _ _ _ _ Hi Hop Hx) as (r1 & Hf1 & Hp1 & Hz1).
  destruct (IH _ _ _ Hi1 Hops Hy) as (r2 & Hf2 & Hp2 & Hz2).
  exists (r2 ++ r1). split; [by rewrite Hf2, Hf1, app_assoc|]. split.
  - intros p Hp. rewrite elem_of_app. destruct (Hp1 p Hp) as [H1|H1]; [|auto].
    destruct (Hp2 p H1); auto.
  - intros [Hno Hrest]%Forall_cons. apply Forall_app. auto.
Qed.

(** rotation: a successful install under an epoch at least as new as every
    installed one makes it the sender's epoch at once, with exactly the
    installed bytes, while every other slot keeps opening what it opened. *)
Theorem rotation_switches_sender s ks peer epoch material ks' s' :
  ks_inv s ks -> is_u16 peer -> wf_epoch epoch -> len material = KEYBYTES ->
  (forall e, is_Some (view s ks !! (peer, e)) -> bits e <= bits epoch) ->
  install ks peer epoch material s = ((Ok tt, ks'), s') ->
  (exists k, key_for_send_current ks' peer = Some (epoch, k) /\ expose s' k = material) /\
  (forall q e, (q, e) <> (peer, epoch) ->
     expose s' <$> key_for_receive ks' q e = expose s <$> key_for_receive ks q e).
Proof.
  intros Hi Hp He Hm Hnew Hx.
  destruct (install_spec _ _ _ _ _ _ _ _ Hi Hp He Hm Hx) as (Hi' & _ & _ & Hv & _).
  split.
  - pose proof (send_current_spec s' ks' peer Hi') as Hcur. rewrite Hv in Hcur.
    destruct (key_for_send_current ks' peer) as [[e k]|].
    + destruct Hcur as (Hl & Hwf & Hmax). assert (e = epoch) as ->.
      { destruct (decide (e = epoch)) as [->|Hne]; [done|].
        rewrite lookup_insert_ne in Hl by congruence.
        assert (bits e <= bits epoch) by (apply Hnew; eauto).
        assert (bits epoch <= bits e).
        { apply Hmax. rewrite lookup_insert_eq. eauto. }
        destruct e as [e], epoch as [ep]. simpl in *. f_equal. lia. }
      exists k. split; [done|]. rewrite lookup_insert_eq in Hl. by inv_ok.
    + specialize (Hcur epoch). by rewrite lookup_insert_eq in Hcur.
  - intros q e Hne. unfold key_for_receive.
    rewrite <- (view_lookup s'), <- (view_lookup s) by done. rewrite Hv.
    by rewrite lookup_insert_ne by congruence.
Qed.

End Refinement.

(** ** Witnesses, on the concrete libsodium *)

Lemma empty_store_inv s id : is_u16 id -> ks_inv s (MkKeyStore id bt_empty).
Proof. intros. split; simpl; try done; constructor. Qed.

Definition demo_ops : list KsOp :=
  [OpInstall 200 (MkEpoch 1) (replicate 32 17); OpInstall 200 (MkEpoch 3) (replicate 32 34);
   OpInstall 200 (MkEpoch 1) (replicate 32 51); OpRetire 200 (MkEpoch 3); OpRetire 7 (MkEpoch 0)].

Definition demo_run := exec_ops demo_ops (MkKeyStore 100 bt_empty) toy_state.

Lemma demo_ops_wf : Forall wf_op demo_ops.
Proof. repeat constructor; done. Qed.

Lemma keystore_refines_witness :
  ks_inv demo_run.2 demo_run.1.2 /\
  abs_run ∅ demo_run.1.1 (view demo_run.2 demo_run.1.2) /\
  view demo_run.2 demo_run.1.2 !! (200, MkEpoch 1) = Some (replicate 32 51).
Proof.
  destruct (keystore_refines demo_ops toy_state (MkKeyStore 100 bt_empty)
              demo_run.1.1 demo_run.1.2 demo_run.2) as (H1 & H2 & _).
  - by apply empty_store_inv.
  - apply demo_ops_wf.
  - unfold demo_run. by destruct (exec_ops _ _ _) as [[? ?] ?].
  - split; [exact H1|]. split; [exact H2|]. vm_compute. reflexivity.
Defined.

Lemma keys_erased_before_free_witness :
  length (freed demo_run.2) = 2%nat /\
  exists released, freed demo_run.2 = released ++ freed toy_state /\
    (Forall (fun x => ~ lock_failure x.2) demo_run.1.1 ->
       Forall (fun pb => pb.2 = zeros KEYBYTES) released).
Proof.
  split; [vm_compute; reflexivity|].
  destruct (keys_erased_before_free demo_ops toy_state (MkKeyStore 100 bt_empty)
              demo_run.1.1 demo_run.1.2 demo_run.2) as (rel & H1 & _ & H3).
  - by apply empty_store_inv.
  - apply demo_ops_wf.
  - unfold demo_run. by destruct (exec_ops _ _ _) as [[? ?] ?].
  - exists rel. split; [exact H1|exact H3].
Defined.

Definition demo_install :=
  install (MkKeyStore 100 bt_empty) 200 (MkEpoch 5) (replicate 32 9) toy_state.

Lemma rotation_switches_sender_witness :
  exists k, key_for_send_current demo_install.1.2 200 = Some (MkEpoch 5, k) /\
            expose demo_install.2 k = replicate 32 9.
Proof.
  apply (rotation_switches_sender toy_state (MkKeyStore 100 bt_empty) 200 (MkEpoch 5)
           (replicate 32 9) demo_install.1.2 demo_install.2).
  - by apply empty_store_inv.
  - done.
  - done.
  - done.
  - intros e [bs Hbs]. discriminate Hbs.
  - reflexivity.
Defined.


(** A node with one key, shared with one peer under epoch 5. *)
Definition demo_key : bytes := replicate 32 7.

Definition demo_node (id peer : Z) : SodiumState * KeyStore :=
  let r := install (MkKeyStore id bt_empty) peer (MkEpoch 5) demo_key toy_state in (r.2, r.1.2).

Lemma demo_node_inv id peer :
  is_u16 id -> is_u16 peer ->
  ks_inv (demo_node id peer).1 (demo_node id peer).2 /\
  local_id (demo_node id peer).2 = id /\
  view (demo_node id peer).1 (demo_node id peer).2 = {[(peer, MkEpoch 5) := demo_key]}.
Proof.
  intros Hid Hp. unfold demo_node.
  destruct (install (MkKeyStore id bt_empty) peer (MkEpoch 5) demo_key toy_state)
    as [[r ks] s] eqn:Hx.
  assert (r = Ok tt) as -> by (revert Hx; vm_compute; by intros [= <- _ _]).
  assert (wf_epoch (MkEpoch 5)) as Hep by done.
  assert (len demo_key = KEYBYTES) as Hk by done.
  destruct (install_spec _ _ _ _ _ _ _ _ (empty_store_inv toy_state id Hid) Hp
    Hep Hk Hx) as (Hi & _ & Hl & Hv & _). simpl.
  split_and!; [done|done|]. rewrite Hv. unfold view. simpl. by rewrite fmap_empty.
Qed.
