(* ===== verification/Codec.v ===== *)
(** * The header and flags codec: [src/codec.rs]

    The 9-byte frame prefix: [fromId | toId | channel | flags].  Parsing is a
    total function of the input bytes; serialisation is its inverse on
    well-formed headers and flags. *)

From S2P Require Export Keystore.

Definition HEADER_LEN : Z := 8.
Definition FLAGS_OFFSET : Z := HEADER_LEN.
Definition PREFIX_LEN : Z := 9.

Definition DEK_BIT : Z := 0x01.
Definition FIXED_MASK : Z := 0x06.
Definition FIXED_PATTERN : Z := 0x04.

Inductive Mode := Standard | Dek.

Global Instance Mode_eq_dec : EqDecision Mode.
Proof. solve_decision. Defined.

Record Header := MkHeader { from_id : Z; to_id : Z; channel : Z }.

Global Instance Header_eq_dec : EqDecision Header.
Proof. solve_decision. Defined.

(** The fields are machine integers: [u16], [u16], [u32]. *)
Definition wf_header (h : Header) : Prop :=
  is_u16 h.(from_id) /\ is_u16 h.(to_id) /\ is_u32 h.(channel).

Definition to_bytes (h : Header) : bytes :=
  to_be_bytes 2 h.(from_id) ++ to_be_bytes 2 h.(to_id) ++ to_be_bytes 4 h.(channel).

(** [Header::from_bytes], by the 8-byte array pattern. *)
Definition from_bytes (bs : bytes) : Header :=
  match bs with
  | [f0; f1; t0; t1; c0; c1; c2; c3] =>
      MkHeader (from_be_bytes [f0; f1]) (from_be_bytes [t0; t1]) (from_be_bytes [c0; c1; c2; c3])
  | _ => MkHeader 0 0 0
  end.

Record Flags := MkFlags { mode : Mode; epoch : Epoch }.

Global Instance Flags_eq_dec : EqDecision Flags.
Proof. solve_decision. Defined.

Definition wf_flags (f : Flags) : Prop := wf_epoch f.(epoch).

(** [epoch.bits() << 3] is a shift on [u8]: bits above the width are lost. *)
Definition to_byte (f : Flags) : Z :=
  let mode_bit := match f.(mode) with Standard => 0 | Dek => DEK_BIT end in
  Z.lor (Z.lor mode_bit FIXED_PATTERN) (Z.land (Z.shiftl (bits f.(epoch)) 3) 0xFF).

Inductive CodecError :=
| TooShort (n : Z)
| InvalidFlags (b : Z).

Global Instance CodecError_eq_dec : EqDecision CodecError.
Proof. solve_decision. Defined.

Definition from_byte (byte : Z) : result Flags CodecError :=
  if negb (Z.land byte FIXED_MASK =? FIXED_PATTERN) then Err (InvalidFlags byte)
  else
    let mode := if Z.land byte DEK_BIT =? 0 then Standard else Dek in
    match epoch_new (Z.shiftr byte 3) with
    | Ok e => Ok (MkFlags mode e)
    | Err _ => Err (InvalidFlags byte)
    end.

Definition parse_prefix (bs : bytes) : result (Header * Flags) CodecError :=
  match get_to bs PREFIX_LEN with
  | Some [f0; f1; t0; t1; c0; c1; c2; c3; flags_byte] =>
      let! flags := from_byte flags_byte in
      Ok (from_bytes [f0; f1; t0; t1; c0; c1; c2; c3], flags)
  | _ => Err (TooShort (len bs))
  end.

Definition serialize_prefix (h : Header) (f : Flags) : bytes :=
  to_bytes h ++ [to_byte f].

#[global] Arguments to_bytes : simpl never.
#[global] Arguments serialize_prefix : simpl never.

(** The lower-case hex digits of a byte, as [{b:#04x}] prints them. *)
Definition hex_digit (d : Z) : string :=
  match d with
  | 0 => "0" | 1 => "1" | 2 => "2" | 3 => "3" | 4 => "4" | 5 => "5" | 6 => "6" | 7 => "7"
  | 8 => "8" | 9 => "9" | 10 => "a" | 11 => "b" | 12 => "c" | 13 => "d" | 14 => "e" | _ => "f"
  end.
Definition show_hex (b : Z) : string := "0x" +:+ hex_digit (b `div` 16) +:+ hex_digit (b `mod` 16).

Definition show_CodecError (e : CodecError) : string :=
  match e with
  | TooShort n => "datagram too short: " +:+ show n +:+ " bytes, need at least " +:+ show PREFIX_LEN
  | InvalidFlags b => "invalid flags byte " +:+ show_hex b +:+ ": bit 1 must be 0 and bit 2 must be 1"
  end.

(** ** The flags byte *)

Lemma to_byte_u8 f : wf_flags f -> is_u8 (to_byte f).
Proof.
  destruct f as [m [b]]. intros Hb.
  refine (below_forall 32 (fun b => is_u8 (to_byte (MkFlags m (MkEpoch b)))) _ b _).
  - by destruct m; vm_compute.
  - unfold wf_flags, wf_epoch, MAX_EPOCH in Hb. simpl in Hb. lia.
Qed.

Lemma from_to_byte f : wf_flags f -> from_byte (to_byte f) = Ok f.
Proof.
  destruct f as [m [b]]. intros Hb.
  refine (below_forall 32 (fun b => from_byte (to_byte (MkFlags m (MkEpoch b))) =
                                    Ok (MkFlags m (MkEpoch b))) _ b _).
  - by destruct m; vm_compute.
  - unfold wf_flags, wf_epoch, MAX_EPOCH in Hb. simpl in Hb. lia.
Qed.

(** What [from_byte] accepts and extracts, for each of the 256 bytes. *)
Definition from_byte_spec (b : Z) : Prop :=
  from_byte b =
    if decide (Z.testbit b 1 = false /\ Z.testbit b 2 = true)
    then Ok (MkFlags (if Z.testbit b 0 then Dek else Standard) (MkEpoch (b `div` 8)))
    else Err (InvalidFlags b).

Global Instance from_byte_spec_dec b : Decision (from_byte_spec b).
Proof. unfold from_byte_spec. apply _. Defined.

Lemma from_byte_all b : is_u8 b -> from_byte_spec b.
Proof.
  intros Hb. refine (below_forall 256 from_byte_spec _ b _); [by vm_compute|width].
Qed.

Definition from_byte_inv (b : Z) : Prop :=
  match from_byte b with Ok f => to_byte f = b | Err e => e = InvalidFlags b end.

Global Instance from_byte_inv_dec b : Decision (from_byte_inv b).
Proof. unfold from_byte_inv. destruct (from_byte b); apply _. Defined.

Lemma from_byte_inverse b : is_u8 b -> from_byte_inv b.
Proof.
  intros Hb. refine (below_forall 256 from_byte_inv _ b _); [by vm_compute|width].
Qed.

Lemma from_byte_wf b f : is_u8 b -> from_byte b = Ok f -> wf_flags f.
Proof.
  intros Hb Hf. pose proof (from_byte_all b Hb) as Hs. unfold from_byte_spec in Hs.
  rewrite Hf in Hs. case_decide; [|done]. inv_ok. unfold wf_flags, wf_epoch, MAX_EPOCH. simpl.
  unfold_widths. split; [apply Z.div_pos; lia|].
  assert (b `div` 8 < 32); [|lia]. apply Z.div_lt_upper_bound; lia.
Qed.

(** ** The header *)

Lemma to_bytes_len h : len (to_bytes h) = HEADER_LEN.
Proof. unfold to_bytes. by rewrite !len_app, !len_to_be_bytes. Qed.

Lemma to_bytes_u8 h : Forall is_u8 (to_bytes h).
Proof. unfold to_bytes. rewrite !Forall_app. split_and!; by apply to_be_bytes_u8. Qed.

Lemma serialize_prefix_len h f : len (serialize_prefix h f) = PREFIX_LEN.
Proof. unfold serialize_prefix. by rewrite len_app, to_bytes_len. Qed.

Lemma serialize_prefix_u8 h f : wf_flags f -> Forall is_u8 (serialize_prefix h f).
Proof.
  intros. unfold serialize_prefix. apply Forall_app. split; [apply to_bytes_u8|].
  repeat constructor; by apply to_byte_u8.
Qed.

(** A list of known length, element by element. *)
Lemma len_2_inv {A} (l : list A) : len l = 2 -> exists a b, l = [a; b].
Proof. destruct l as [|a [|b []]]; unfold len; simpl; intros; try lia. eauto. Qed.

Lemma len_4_inv {A} (l : list A) : len l = 4 -> exists a b c d, l = [a; b; c; d].
Proof. destruct l as [|a [|b [|c [|d []]]]]; unfold len; simpl; intros; try lia. eauto. Qed.

Lemma len_prefix_inv {A} (l : list A) :
  len l = PREFIX_LEN ->
  exists f0 f1 t0 t1 c0 c1 c2 c3 b, l = [f0; f1; t0; t1; c0; c1; c2; c3; b].
Proof.
  unfold PREFIX_LEN, len.
  destruct l as [|? [|? [|? [|? [|? [|? [|? [|? [|? []]]]]]]]]]; simpl; intros; try lia. eauto 10.
Qed.

Lemma from_to_bytes h : wf_header h -> from_bytes (to_bytes h) = h.
Proof.
  intros (Hf & Ht & Hc). destruct h as [f t c]. unfold to_bytes. cbn [from_id to_id channel] in *.
  assert (Hf' : from_be_bytes (to_be_bytes 2 f) = f) by (apply from_to_be_bytes; width).
  assert (Ht' : from_be_bytes (to_be_bytes 2 t) = t) by (apply from_to_be_bytes; width).
  assert (Hc' : from_be_bytes (to_be_bytes 4 c) = c) by (apply from_to_be_bytes; width).
  destruct (len_2_inv (to_be_bytes 2 f)) as (? & ? & E1); [by apply len_to_be_bytes|].
  destruct (len_2_inv (to_be_bytes 2 t)) as (? & ? & E2); [by apply len_to_be_bytes|].
  destruct (len_4_inv (to_be_bytes 4 c)) as (? & ? & ? & ? & E3); [by apply len_to_be_bytes|].
  rewrite E1 in Hf' |- *. rewrite E2 in Ht' |- *. rewrite E3 in Hc' |- *.
  simpl. by rewrite Hf', Ht', Hc'.
Qed.

Lemma from_be_bytes_u16 a b : is_u8 a -> is_u8 b -> is_u16 (from_be_bytes [a; b]).
Proof.
  intros. pose proof (from_be_bytes_bound [a; b]) as Hb.
  rewrite !Forall_cons in Hb. change (2 ^ (8 * len [a; b])) with 65536 in Hb.
  assert (0 <= from_be_bytes [a; b] < 65536) by (apply Hb; auto). width.
Qed.

Lemma from_be_bytes_u32 a b c d :
  is_u8 a -> is_u8 b -> is_u8 c -> is_u8 d -> is_u32 (from_be_bytes [a; b; c; d]).
Proof.
  intros. pose proof (from_be_bytes_bound [a; b; c; d]) as Hb.
  rewrite !Forall_cons in Hb. change (2 ^ (8 * len [a; b; c; d])) with 4294967296 in Hb.
  assert (0 <= from_be_bytes [a; b; c; d] < 4294967296) by (apply Hb; auto). width.
Qed.

(** ** The prefix *)

(** [parse_prefix] by cases: the length gate, then the flags gate. *)
Lemma parse_prefix_short bs : len bs < PREFIX_LEN -> parse_prefix bs = Err (TooShort (len bs)).
Proof.
  intros. unfold parse_prefix, get_to, get_range.
  by rewrite (proj2 (Z.leb_gt PREFIX_LEN (len bs))), andb_false_r by done.
Qed.

Lemma parse_prefix_split bs :
  PREFIX_LEN <= len bs ->
  exists f0 f1 t0 t1 c0 c1 c2 c3 b rest,
    bs = [f0; f1; t0; t1; c0; c1; c2; c3; b] ++ rest /\
    parse_prefix bs =
      (let! flags := from_byte b in Ok (from_bytes [f0; f1; t0; t1; c0; c1; c2; c3], flags)).
Proof.
  intros Hl. destruct (len_prefix_inv (take 9 bs)) as (f0&f1&t0&t1&c0&c1&c2&c3&b&Ht).
  { rewrite len_take. unfold PREFIX_LEN in *. lia. }
  exists f0, f1, t0, t1, c0, c1, c2, c3, b, (drop 9 bs).
  split; [by rewrite <- Ht, take_drop|]. unfold parse_prefix.
  rewrite <- (take_drop 9 bs) at 1. rewrite Ht.
  by rewrite (get_to_app [f0; f1; t0; t1; c0; c1; c2; c3; b]).
Qed.

Lemma parse_serialize_prefix h f rest :
  wf_header h -> wf_flags f -> parse_prefix (serialize_prefix h f ++ rest) = Ok (h, f).
Proof.
  intros Hh Hf. destruct (len_prefix_inv (serialize_prefix h f)) as (f0&f1&t0&t1&c0&c1&c2&c3&b&E);
    [apply serialize_prefix_len|].
  unfold parse_prefix. rewrite get_to_app by (by rewrite serialize_prefix_len). rewrite E.
  unfold serialize_prefix in E.
  change [f0; f1; t0; t1; c0; c1; c2; c3; b] with ([f0; f1; t0; t1; c0; c1; c2; c3] ++ [b]) in E.
  apply app_inj_tail in E as [Eh Eb]. rewrite <- Eb, <- Eh, from_to_byte by done.
  cbn [rbind]. by rewrite from_to_bytes.
Qed.

Lemma parse_prefix_wf bs h f :
  Forall is_u8 bs -> parse_prefix bs = Ok (h, f) -> wf_header h /\ wf_flags f.
Proof.
  intros Hu Hp. destruct (Z.lt_ge_cases (len bs) PREFIX_LEN) as [Hl|Hl].
  { by rewrite parse_prefix_short in Hp. }
  destruct (parse_prefix_split bs Hl) as (f0&f1&t0&t1&c0&c1&c2&c3&b&rest&->&E).
  rewrite E in Hp. apply Forall_app in Hu as [Hu _]. rewrite !Forall_cons in Hu.
  destruct_and! Hu. apply rbind_ok in Hp as (fl & Hb & Hp). inv_ok. split.
  - unfold wf_header. simpl. auto using from_be_bytes_u16, from_be_bytes_u32.
  - eauto using from_byte_wf.
Qed.

Lemma serialize_parse_prefix bs h f :
  Forall is_u8 bs -> parse_prefix bs = Ok (h, f) ->
  PREFIX_LEN <= len bs /\ serialize_prefix h f = take 9 bs.
Proof.
  intros Hu Hp. destruct (Z.lt_ge_cases (len bs) PREFIX_LEN) as [Hl|Hl].
  { by rewrite parse_prefix_short in Hp. }
  split; [done|].
  destruct (parse_prefix_split bs Hl) as (f0&f1&t0&t1&c0&c1&c2&c3&b&rest&->&E).
  rewrite E in Hp. apply Forall_app in Hu as [Hu _]. rewrite !Forall_cons in Hu.
  destruct_and! Hu. apply rbind_ok in Hp as (fl & Hb & Hp). inv_ok.
  unfold serialize_prefix, to_bytes, from_bytes. cbn [from_id to_id channel].
  assert (Hfl := from_byte_inverse b ltac:(done)). unfold from_byte_inv in Hfl.
  rewrite Hb in Hfl. rewrite Hfl.
  by rewrite !to_from_be_bytes by (done || by repeat (apply Forall_cons; split)).
Qed.

(** ** Claims *)

(** C22: the codec is a bijection between prefixes and well-formed (header, flags)
    pairs: a datagram parses to [(h, f)] exactly when the fields are in range
    and the datagram starts with the nine bytes [serialize_prefix h f]. *)
Theorem prefix_codec_exact bs h f :
  Forall is_u8 bs ->
  parse_prefix bs = Ok (h, f) <->
  wf_header h /\ wf_flags f /\ exists rest, bs = serialize_prefix h f ++ rest.
Proof.
  intros Hu. split.
  - intros Hp. destruct (parse_prefix_wf _ _ _ Hu Hp).
    destruct (serialize_parse_prefix _ _ _ Hu Hp) as [_ ->].
    split_and!; [done|done|]. exists (drop 9 bs). by rewrite take_drop.
  - intros (Hh & Hf & rest & ->). by apply parse_serialize_prefix.
Qed.

Lemma prefix_codec_exact_witness :
  parse_prefix [0; 1; 0; 2; 0; 0; 0; 100; 0x2C; 9; 9] =
    Ok (MkHeader 1 2 100, MkFlags Standard (MkEpoch 5)).
Proof.
  apply (prefix_codec_exact [0; 1; 0; 2; 0; 0; 0; 100; 0x2C; 9; 9]
           (MkHeader 1 2 100) (MkFlags Standard (MkEpoch 5))).
  - by repeat constructor.
  - split; [done|]. split; [done|]. by exists [9; 9].
Defined.

(** C23: parsing is total and exact: every byte string is [TooShort] with its
    length exactly when it has fewer than nine bytes; otherwise [InvalidFlags]
    with byte 8 exactly when bit 1 of it is set or bit 2 is clear; otherwise it
    is accepted, the fields are in range, and serialising them reproduces the
    nine bytes. *)
Theorem parse_prefix_total bs :
  Forall is_u8 bs ->
  match parse_prefix bs with
  | Err (TooShort n) => n = len bs /\ len bs < PREFIX_LEN
  | Err (InvalidFlags b) => bs !! 8%nat = Some b /\ ~ (Z.testbit b 1 = false /\ Z.testbit b 2 = true)
  | Ok (h, f) => (exists b, bs !! 8%nat = Some b /\ Z.testbit b 1 = false /\ Z.testbit b 2 = true) /\
      wf_header h /\ wf_flags f /\ serialize_prefix h f = take 9 bs
  end.
Proof.
  intros Hu. destruct (Z.lt_ge_cases (len bs) PREFIX_LEN) as [Hl|Hl].
  { by rewrite parse_prefix_short. }
  pose proof (parse_prefix_wf bs) as Hwf. pose proof (serialize_parse_prefix bs) as Hser.
  destruct (parse_prefix_split bs Hl) as (f0&f1&t0&t1&c0&c1&c2&c3&b&rest&Hbs&E).
  assert (is_u8 b) as Hb.
  { rewrite Hbs in Hu. apply Forall_app in Hu as [Hu _]. by rewrite !Forall_cons in Hu; destruct_and! Hu. }
  assert (bs !! 8%nat = Some b) as H8 by (by rewrite Hbs).
  assert (Hs := from_byte_all b Hb). unfold from_byte_spec in Hs.
  rewrite E in *. rewrite Hs in *. case_decide as Hd; simpl in *; [|done].
  destruct (Hwf _ _ Hu eq_refl). destruct (Hser _ _ Hu eq_refl). naive_solver.
Qed.

Lemma parse_prefix_total_witness :
  parse_prefix [0; 0; 0; 0; 0; 0; 0; 0; 0xFF] = Err (InvalidFlags 0xFF) /\
  ~ (Z.testbit 0xFF 1 = false /\ Z.testbit 0xFF 2 = true).
Proof.
  split; [reflexivity|].
  refine (proj2 (parse_prefix_total [0; 0; 0; 0; 0; 0; 0; 0; 0xFF] _)).
  by repeat constructor.
Defined.
