(* ===== verification/Stats.v ===== *)
(** * Statistics counters and the failure policy: [src/stats.rs]

    The three thread-local cells ([STATS], [POLICY], [LOGGED]) are one record
    that every recording function threads; [stderr] collects the policy lines
    written, oldest first. *)

From S2P Require Export Codec.

Inductive RejectReason :=
| Plaintext
| RTooShort
| BadFlags
| LenMismatch
| NoPeer
| NoEpoch
| RAuthFailed.

Global Instance RejectReason_eq_dec : EqDecision RejectReason.
Proof. solve_decision. Defined.

Definition COUNT : Z := 7.

Definition ALL : list RejectReason :=
  [Plaintext; RTooShort; BadFlags; LenMismatch; NoPeer; NoEpoch; RAuthFailed].

Definition index (r : RejectReason) : nat :=
  match r with
  | Plaintext => 0 | RTooShort => 1 | BadFlags => 2 | LenMismatch => 3
  | NoPeer => 4 | NoEpoch => 5 | RAuthFailed => 6
  end.

Definition line (r : RejectReason) : string :=
  match r with
  | Plaintext => "[PAXE] drop: plaintext on a protected socket"
  | RTooShort => "[PAXE] drop: frame too short"
  | BadFlags => "[PAXE] drop: flags constant-bit violation"
  | LenMismatch => "[PAXE] drop: declared length inconsistent with frame size"
  | NoPeer => "[PAXE] drop: unknown peer"
  | NoEpoch => "[PAXE] drop: unknown epoch for known peer"
  | RAuthFailed => "[PAXE] drop: authentication failure"
  end.

Definition from_codec (e : CodecError) : RejectReason :=
  match e with
  | TooShort _ => RTooShort
  | InvalidFlags _ => BadFlags
  end.

Inductive FailPolicy := Silent | LogOnce | Verbose.

Global Instance FailPolicy_eq_dec : EqDecision FailPolicy.
Proof. solve_decision. Defined.

Definition policy_name (p : FailPolicy) : string :=
  match p with
  | Silent => "silent"
  | LogOnce => "log_once"
  | Verbose => "verbose"
  end.

Definition from_name (name : string) : option FailPolicy :=
  if decide (name = "silent") then Some Silent
  else if decide (name = "log_once") then Some LogOnce
  else if decide (name = "verbose") then Some Verbose
  else None.

Definition SNAPSHOT_FIELD_COUNT : Z := 13.

Record Stats := MkStats {
  rx_total : Z;
  rx_ok : Z;
  rx_rejects : list Z;
  tx_total : Z;
  tx_standard : Z;
  tx_dek : Z;
  tx_oversize : Z;
}.

Definition ZERO : Stats := MkStats 0 0 (replicate 7 0) 0 0 0 0.

(** [rx_rejects.get(index).copied().unwrap_or(0)]. *)
Definition reject (s : Stats) (r : RejectReason) : Z := default 0 (s.(rx_rejects) !! index r).

Definition reject_sum (s : Stats) : Z :=
  fold_left (fun sum r => saturating_add sum (reject s r)) ALL 0.

Definition fields (s : Stats) : list Z :=
  [s.(rx_total); s.(rx_ok);
   reject s Plaintext; reject s RTooShort; reject s BadFlags; reject s LenMismatch;
   reject s NoPeer; reject s NoEpoch; reject s RAuthFailed;
   s.(tx_total); s.(tx_standard); s.(tx_dek); s.(tx_oversize)].

Record StatsState := MkStatsState {
  STATS : Stats;
  POLICY : FailPolicy;
  LOGGED : Z;
  stderr : list string;
}.

Definition stats_init : StatsState := MkStatsState ZERO Silent 0 [].

Definition bump (f : Stats -> Stats) : St StatsState unit :=
  modify (fun w => MkStatsState (f w.(STATS)) w.(POLICY) w.(LOGGED) w.(stderr)).

Definition set_logged (l : Z) : St StatsState unit :=
  modify (fun w => MkStatsState w.(STATS) w.(POLICY) l w.(stderr)).

Definition record_rx_ok : St StatsState unit :=
  bump (fun s => MkStats (saturating_add s.(rx_total) 1) (saturating_add s.(rx_ok) 1)
                   s.(rx_rejects) s.(tx_total) s.(tx_standard) s.(tx_dek) s.(tx_oversize)).

Definition record_rx_drop : St StatsState unit :=
  bump (fun s => MkStats (saturating_add s.(rx_total) 1) s.(rx_ok)
                   s.(rx_rejects) s.(tx_total) s.(tx_standard) s.(tx_dek) s.(tx_oversize)).

Definition record_tx_sealed (m : Mode) : St StatsState unit :=
  bump (fun s =>
    let total := saturating_add s.(tx_total) 1 in
    match m with
    | Standard => MkStats s.(rx_total) s.(rx_ok) s.(rx_rejects) total
                    (saturating_add s.(tx_standard) 1) s.(tx_dek) s.(tx_oversize)
    | Dek => MkStats s.(rx_total) s.(rx_ok) s.(rx_rejects) total
               s.(tx_standard) (saturating_add s.(tx_dek) 1) s.(tx_oversize)
    end).

Definition record_tx_oversize : St StatsState unit :=
  bump (fun s => MkStats s.(rx_total) s.(rx_ok) s.(rx_rejects) s.(tx_total)
                   s.(tx_standard) s.(tx_dek) (saturating_add s.(tx_oversize) 1)).

Definition count_reject (r : RejectReason) (s : Stats) : Stats :=
  MkStats s.(rx_total) s.(rx_ok) (alter (fun c => saturating_add c 1) (index r) s.(rx_rejects))
    s.(tx_total) s.(tx_standard) s.(tx_dek) s.(tx_oversize).

(** Under log_once this test-and-sets the reason's bit of the memo. *)
Definition should_log (r : RejectReason) : St StatsState bool :=
  let* policy := gets POLICY in
  match policy with
  | Silent => ret false
  | Verbose => ret true
  | LogOnce =>
      let* bits := gets LOGGED in
      let bit := Z.shiftl 1 (Z.of_nat (index r)) in
      if negb (Z.land bits bit =? 0) then ret false
      else let* _ := set_logged (Z.lor bits bit) in ret true
  end.

Definition emit (r : RejectReason) : St StatsState unit :=
  modify (fun w => MkStatsState w.(STATS) w.(POLICY) w.(LOGGED) (w.(stderr) ++ [line r])).

Definition record_reject (r : RejectReason) : St StatsState unit :=
  let* _ := bump (count_reject r) in
  let* log := should_log r in
  if log then emit r else ret tt.

Definition snapshot : St StatsState Stats := gets STATS.

Definition policy : St StatsState FailPolicy := gets POLICY.

Definition reset_log_once_memo : St StatsState unit := set_logged 0.

Definition set_policy (p : FailPolicy) : St StatsState unit :=
  let* _ := modify (fun w => MkStatsState w.(STATS) p w.(LOGGED) w.(stderr)) in
  if decide (p = LogOnce) then reset_log_once_memo else ret tt.


(** ** The accounting invariant

    [rx_total == rx_ok + sum(rx_rejects)], as saturating [u64] counters keep
    it: every counter is in range and the total is the sum cut off at
    [u64::MAX]. *)

Definition rejects_total (s : Stats) : Z := foldr Z.add 0 s.(rx_rejects).

Definition wf_stats (s : Stats) : Prop :=
  length s.(rx_rejects) = 7%nat /\ Forall is_u64 s.(rx_rejects) /\
  is_u64 s.(rx_total) /\ is_u64 s.(rx_ok) /\ is_u64 s.(tx_total) /\
  is_u64 s.(tx_standard) /\ is_u64 s.(tx_dek) /\ is_u64 s.(tx_oversize).

Definition rx_balanced (s : Stats) : Prop :=
  s.(rx_total) = Z.min U64_MAX (s.(rx_ok) + rejects_total s).

(** Expose the seven counters of a well-formed record. *)
Ltac open_stats s :=
  let Hl := fresh "Hl" in let Hr := fresh "Hr" in let Ht := fresh "Ht" in
  intros (Hl & Hr & Ht); destruct s as [tot ok rej txt txs txd txo]; simpl in *;
  destruct rej as [|c0 [|c1 [|c2 [|c3 [|c4 [|c5 [|c6 []]]]]]]]; try discriminate Hl; clear Hl;
  rewrite ?Forall_cons in Hr; destruct_and! Hr; destruct_and! Ht.

Lemma min_min x c : 0 <= c -> Z.min U64_MAX (Z.min U64_MAX x + c) = Z.min U64_MAX (x + c).
Proof. width. Qed.

Lemma reject_sum_spec s :
  wf_stats s -> reject_sum s = Z.min U64_MAX (rejects_total s).
Proof.
  open_stats s. unfold reject_sum, rejects_total, reject. simpl. unfold is_u64 in *.
  unfold saturating_add. repeat (rewrite min_min by lia; rewrite <- ?Z.add_assoc). f_equal. lia.
Qed.

Lemma sat_u64 c : is_u64 c -> is_u64 (saturating_add c 1).
Proof. unfold saturating_add. width. Qed.

Lemma count_reject_wf r s : wf_stats s -> wf_stats (count_reject r s).
Proof.
  open_stats s. unfold wf_stats, count_reject. simpl.
  split; [by destruct r|]. split; [|done].
  destruct r; simpl; repeat (apply Forall_cons; split); try done; by apply sat_u64.
Qed.

(** One reject counts once: the reason's counter moves by one (or sits at the
    ceiling), and no other counter moves. *)
Lemma count_reject_reject r r' s :
  wf_stats s ->
  reject (count_reject r s) r' = if decide (r' = r) then saturating_add (reject s r) 1 else reject s r'.
Proof. open_stats s. unfold reject. by destruct r, r'. Qed.

Lemma count_reject_total r s :
  wf_stats s ->
  rejects_total (count_reject r s) =
    if decide (reject s r = U64_MAX) then rejects_total s else rejects_total s + 1.
Proof.
  open_stats s. unfold rejects_total, reject.
  destruct r; simpl; case_decide; unfold saturating_add; width.
Qed.

Lemma rejects_total_ge r s : wf_stats s -> 0 <= reject s r <= rejects_total s.
Proof. open_stats s. unfold rejects_total, reject. unfold_widths. destruct r; simpl; lia. Qed.

Lemma rx_balanced_unsaturated s :
  wf_stats s -> rx_balanced s -> s.(rx_total) < U64_MAX ->
  s.(rx_total) = s.(rx_ok) + reject_sum s.
Proof.
  intros Hw Hb Hlt. rewrite reject_sum_spec by done. unfold rx_balanced in Hb.
  pose proof (rejects_total_ge Plaintext s Hw). destruct Hw as (_ & _ & _ & Hok & _). width.
Qed.

(** The counters after a drop with its reason, and after an opened frame. *)
Definition drop_stats (s : Stats) : Stats :=
  MkStats (saturating_add s.(rx_total) 1) s.(rx_ok) s.(rx_rejects) s.(tx_total)
    s.(tx_standard) s.(tx_dek) s.(tx_oversize).

Lemma drop_balanced r s :
  wf_stats s -> rx_balanced s -> rx_balanced (drop_stats (count_reject r s)).
Proof.
  intros Hw Hb. unfold rx_balanced in *.
  change (rejects_total (drop_stats (count_reject r s))) with (rejects_total (count_reject r s)).
  rewrite count_reject_total by done. pose proof (rejects_total_ge r s Hw).
  destruct Hw as (_ & _ & _ & Hok & _).
  simpl. unfold saturating_add. case_decide; width.
Qed.

Lemma ok_balanced s :
  wf_stats s -> rx_balanced s ->
  rx_balanced (STATS (record_rx_ok (MkStatsState s Silent 0 [])).2).
Proof.
  intros Hw Hb. unfold rx_balanced in *. simpl.
  change (rejects_total _) with (rejects_total s) at 1.
  pose proof (rejects_total_ge Plaintext s Hw). destruct Hw as (_ & _ & _ & Hok & _).
  unfold saturating_add. width.
Qed.

(** ** The failure policy *)

(** What a reject writes: nothing, a line, or a line the first time. *)
Fixpoint firsts (seen : list RejectReason) (rs : list RejectReason) : list RejectReason :=
  match rs with
  | [] => []
  | r :: rest =>
      if decide (r ∈ seen) then firsts seen rest else r :: firsts (r :: seen) rest
  end.

Fixpoint record_rejects (rs : list RejectReason) : St StatsState unit :=
  match rs with
  | [] => ret tt
  | r :: rest => let* _ := record_reject r in record_rejects rest
  end.

Definition memo_is (w : StatsState) (seen : list RejectReason) : Prop :=
  forall r, Z.testbit w.(LOGGED) (Z.of_nat (index r)) = bool_decide (r ∈ seen).

Lemma index_inj r r' : index r = index r' -> r = r'.
Proof. by destruct r, r'. Qed.

Lemma memo_bit l r :
  (Z.land l (Z.shiftl 1 (Z.of_nat (index r))) =? 0) = negb (Z.testbit l (Z.of_nat (index r))).
Proof.
  rewrite Z.shiftl_1_l. destruct (Z.testbit l (Z.of_nat (index r))) eqn:Hb; simpl.
  - apply Z.eqb_neq. intros H0. assert (Z.testbit 0 (Z.of_nat (index r)) = true) as Hx.
    { rewrite <- H0, Z.land_spec, Hb, Z.pow2_bits_true by lia. done. }
    by rewrite Z.bits_0 in Hx.
  - apply Z.eqb_eq. apply Z.bits_inj_0. intros n. rewrite Z.land_spec.
    destruct (decide (n = Z.of_nat (index r))) as [->|Hne]; [by rewrite Hb|].
    rewrite Z.pow2_bits_false by done. apply andb_false_r.
Qed.

Lemma memo_set w r seen l :
  memo_is w seen -> l = Z.lor w.(LOGGED) (Z.shiftl 1 (Z.of_nat (index r))) ->
  forall r', Z.testbit l (Z.of_nat (index r')) = bool_decide (r' ∈ r :: seen).
Proof.
  intros Hm -> r'. rewrite Z.lor_spec, Hm, Z.shiftl_1_l.
  destruct (decide (r' = r)) as [->|Hne].
  - rewrite Z.pow2_bits_true, orb_true_r by lia. symmetry. apply bool_decide_eq_true. by left.
  - rewrite Z.pow2_bits_false, orb_false_r; [|intros Heq; apply Hne, index_inj; lia].
    apply bool_decide_ext. rewrite elem_of_cons. naive_solver.
Qed.

(** One reject under each policy. *)
Lemma record_reject_spec r seen w :
  memo_is w seen ->
  let w' := (record_reject r w).2 in
  STATS w' = count_reject r (STATS w) /\ POLICY w' = POLICY w /\
  match POLICY w with
  | Silent => stderr w' = stderr w /\ memo_is w' seen
  | Verbose => stderr w' = stderr w ++ [line r] /\ memo_is w' seen
  | LogOnce =>
      if decide (r ∈ seen) then stderr w' = stderr w /\ memo_is w' seen
      else stderr w' = stderr w ++ [line r] /\ memo_is w' (r :: seen)
  end.
Proof.
  intros Hm. unfold record_reject, should_log, bump, gets, modify, bind, ret. simpl.
  destruct (POLICY w) eqn:Hp; simpl; try done.
  pose proof (Hm r) as Hr. rewrite memo_bit, Hr. case_bool_decide as Hin; simpl.
  - rewrite decide_True by done. done.
  - rewrite decide_False by done. split; [done|]. split; [done|]. split; [done|].
    unfold memo_is. simpl. intros r'. by apply (memo_set w r seen).
Qed.

(** How often a reason occurs. *)
Definition occurrences (r : RejectReason) (rs : list RejectReason) : Z :=
  len (filter (fun x => x = r) rs).

Lemma record_rejects_spec rs seen w :
  memo_is w seen -> wf_stats (STATS w) ->
  let w' := (record_rejects rs w).2 in
  stderr w' = stderr w ++
    match POLICY w with
    | Silent => []
    | LogOnce => line <$> firsts seen rs
    | Verbose => line <$> rs
    end /\
  forall r, reject (STATS w') r = Z.min U64_MAX (reject (STATS w) r + occurrences r rs).
Proof.
  revert seen w. induction rs as [|r rs IH]; intros seen w Hm Hw; simpl.
  { split; [by destruct (POLICY w); rewrite app_nil_r|]. intros r.
    change (occurrences r []) with 0.
    pose proof (rejects_total_ge r _ Hw). unfold wf_stats in Hw.
    assert (is_u64 (reject (STATS w) r)) as Hr; [|revert Hr; generalize (reject (STATS w) r); clear; width].
    revert Hw. generalize (STATS w) as s. intros s. open_stats s.
    unfold reject. destruct r; simpl; done. }
  unfold bind. destruct (record_reject r w) as [[] w1] eqn:E.
  pose proof (record_reject_spec r seen w Hm) as (Hs & Hp & Hc). rewrite E in Hs, Hp, Hc. simpl in *.
  assert (Hw1 : wf_stats (STATS w1)) by (rewrite Hs; by apply count_reject_wf).
  assert (Hcnt : forall r', reject (STATS (record_rejects rs w1).2) r' =
            Z.min U64_MAX (reject (STATS w1) r' + occurrences r' rs) ->
          reject (STATS (record_rejects rs w1).2) r' =
            Z.min U64_MAX (reject (STATS w) r' + occurrences r' (r :: rs))).
  { intros r' ->. rewrite Hs, count_reject_reject by done. unfold occurrences.
    rewrite filter_cons. pose proof (len_nonneg (filter (fun x => x = r') rs)).
    repeat case_decide; subst; try done; rewrite ?len_cons; unfold saturating_add; try lia. }
  destruct (POLICY w) eqn:Hpol.
  - destruct Hc as [He Hm1]. destruct (IH seen w1 Hm1 Hw1) as [H1 H2]. rewrite Hp in H1.
    rewrite H1, He. auto.
  - case_decide; destruct Hc as [He Hm1]; destruct (IH _ w1 Hm1 Hw1) as [H1 H2];
      rewrite Hp in H1; rewrite H1, He; split; auto.
    by rewrite <- app_assoc.
  - destruct Hc as [He Hm1]. destruct (IH seen w1 Hm1 Hw1) as [H1 H2]. rewrite Hp in H1.
    rewrite H1, He, <- app_assoc. auto.
Qed.

Lemma firsts_NoDup seen rs : NoDup (firsts seen rs) /\ Forall (fun r => r ∉ seen) (firsts seen rs).
Proof.
  revert seen. induction rs as [|r rs IH]; intros seen; simpl; [by repeat constructor|].
  case_decide as Hd; [apply IH|]. destruct (IH (r :: seen)) as [Hn Hf]. split.
  - constructor; [|done]. intros Hin. rewrite Forall_forall in Hf. apply (Hf _ Hin). by left.
  - constructor; [done|]. eapply Forall_impl; [exact Hf|]. intros x. set_solver.
Qed.

Lemma firsts_complete seen rs r : r ∈ rs -> r ∈ seen \/ r ∈ firsts seen rs.
Proof.
  revert seen. induction rs as [|x rs IH]; intros seen; simpl; [set_solver|].
  rewrite elem_of_cons. intros [->|Hin]; case_decide; [by left|right; by left|by apply IH|].
  destruct (IH (x :: seen) Hin) as [H1|H1]; set_solver.
Qed.

Lemma line_inj r r' : line r = line r' -> r = r'.
Proof. by destruct r, r'. Qed.

Lemma memo_exists w : exists seen, memo_is w seen.
Proof.
  exists (filter (fun r => Z.testbit (LOGGED w) (Z.of_nat (index r)) = true) ALL). intros r.
  destruct (Z.testbit (LOGGED w) (Z.of_nat (index r))) eqn:Hb; symmetry.
  - apply bool_decide_eq_true, list_elem_of_filter. split; [done|]. destruct r; set_solver.
  - apply bool_decide_eq_false. rewrite list_elem_of_filter, Hb. naive_solver.
Qed.

Lemma firsts_sound seen rs r : r ∈ firsts seen rs -> r ∈ rs.
Proof.
  revert seen. induction rs as [|y rs IH]; intros seen; simpl; [done|]. case_decide; set_solver.
Qed.

(** C34: the failure policy, from any state of the log-once memo: selecting a
    policy and then rejecting frames for the reasons [rs] writes nothing under
    silent, one line per drop under verbose, and under log_once exactly one line
    for each reason that occurred, in order of first occurrence, however many
    drops there are.  The reason counters move by the number of occurrences
    under every policy, and stop at [u64::MAX]. *)
Theorem policy_lines p rs w :
  wf_stats (STATS w) ->
  let w' := (record_rejects rs (set_policy p w).2).2 in
  exists lines, stderr w' = stderr w ++ lines /\
    match p with
    | Silent => lines = []
    | LogOnce => lines = line <$> firsts [] rs /\ NoDup lines /\ forall r, line r ∈ lines <-> r ∈ rs
    | Verbose => lines = line <$> rs
    end /\
    forall r, reject (STATS w') r = Z.min U64_MAX (reject (STATS w) r + occurrences r rs).
Proof.
  intros Hw w'. unfold w'. set (w0 := (set_policy p w).2).
  assert (STATS w0 = STATS w /\ POLICY w0 = p /\ stderr w0 = stderr w) as (Hs & Hp & He).
  { unfold w0, set_policy, bind, modify, reset_log_once_memo, set_logged, ret. by destruct p. }
  assert (exists seen, memo_is w0 seen /\ (p = LogOnce -> seen = [])) as (seen & Hm & Hseen).
  { destruct (decide (p = LogOnce)) as [->|Hne].
    - exists []. split; [|done]. intros r. simpl. by rewrite Z.bits_0.
    - destruct (memo_exists w0) as [seen Hm]. by exists seen. }
  destruct (record_rejects_spec rs seen w0 Hm) as [H1 H2]; [by rewrite Hs|].
  rewrite Hp, He in H1. rewrite Hs in H2.
  eexists. split; [exact H1|]. split; [|exact H2]. destruct p; [done| |done].
  rewrite (Hseen eq_refl). destruct (firsts_NoDup [] rs) as [Hn _]. split; [done|]. split.
  - apply NoDup_fmap_2_strong; [|done]. intros x y _ _. apply line_inj.
  - intros r. rewrite list_elem_of_fmap. split.
    + intros (x & ->%line_inj & Hin). by apply firsts_sound in Hin.
    + intros Hin. exists r. split; [done|]. destruct (firsts_complete [] rs r Hin); set_solver.
Qed.

Lemma policy_lines_witness :
  stderr (record_rejects [NoPeer; NoEpoch; NoPeer] (set_policy LogOnce stats_init).2).2 =
    [line NoPeer; line NoEpoch].
Proof.
  destruct (policy_lines LogOnce [NoPeer; NoEpoch; NoPeer] stats_init) as (ls & H1 & [H2 _] & _).
  - by repeat constructor.
  - rewrite H1, H2. reflexivity.
Defined.
