(* ===== verification/Standard.v ===== *)
(** * Standard-mode seal and open: [src/standard.rs]

    The frame [Header(8) | Flags(1) | Nonce(12) | Ciphertext(N) | Tag(16)].
    A function that writes the caller's buffer returns its contents after the
    call next to the verdict; [open] also threads the statistics, which record
    the reject reason before the opaque verdict is returned. *)

From S2P Require Export Stats.

Definition OVERHEAD : Z := PREFIX_LEN + NPUBBYTES + ABYTES.
Definition MAX_UDP_DATAGRAM : Z := 65507.
Definition MAX_PAYLOAD : Z := MAX_UDP_DATAGRAM - OVERHEAD.

(** The single construction of the authenticated span. *)
Definition frame_aad (frame : bytes) : option bytes := get_to frame PREFIX_LEN.

Inductive SealError :=
| PayloadTooLarge (n : Z)
| OutputTooSmall (needed actual : Z)
| NoKey
| Sodium (e : SodiumError).

Global Instance SealError_eq_dec : EqDecision SealError.
Proof. solve_decision. Defined.

Definition show_SealError (e : SealError) : string :=
  match e with
  | PayloadTooLarge n =>
      "payload too large: " +:+ show n +:+ " bytes exceeds the standard-mode maximum of "
      +:+ show MAX_PAYLOAD
  | OutputTooSmall needed actual =>
      "output buffer too small: the frame needs " +:+ show needed +:+ " bytes, have "
      +:+ show actual
  | NoKey => "no key installed for the destination peer and epoch"
  | Sodium e => "libsodium failure: " +:+ show_SodiumError e
  end.

Inductive OpenError := Rejected.

Definition show_OpenError (e : OpenError) : string :=
  match e with Rejected => "frame rejected" end.

Section Operations.
Context `{Libsodium}.

(** [seal_core]: gates on the payload and the buffer, key selection by
    [to_id], then prefix, nonce and ciphertext into the three regions of
    [out]. *)
Definition seal_core (s : SodiumState) (store : KeyStore) (to_id channel : Z) (epoch : Epoch)
    (payload nonce out : bytes) : result Z SealError * bytes :=
  if MAX_PAYLOAD <? len payload then (Err (PayloadTooLarge (len payload)), out) else
  let frame_len := len payload + OVERHEAD in
  if len out <? frame_len then (Err (OutputTooSmall frame_len (len out)), out) else
  match key_for_send store to_id epoch with
  | None => (Err NoKey, out)
  | Some stored =>
      match try_into_array KEYBYTES (expose s stored) with
      | None => (Err (Sodium Internal), out)
      | Some key =>
          let header := MkHeader (local_id store) to_id channel in
          let flags := MkFlags Standard epoch in
          let prefix := serialize_prefix header flags in
          let rest := drop (Z.to_nat PREFIX_LEN) out in
          let ct_slot := drop (Z.to_nat NPUBBYTES) rest in
          match frame_aad prefix with
          | None => (Err (Sodium Internal), prefix ++ nonce ++ ct_slot)
          | Some aad =>
              match aead_encrypt key nonce aad payload ct_slot with
              | (Ok _, ct) => (Ok frame_len, prefix ++ nonce ++ ct)
              | (Err e, ct) => (Err (Sodium e), prefix ++ nonce ++ ct)
              end
          end
      end
  end.

(** [seal]: one draw from the CSPRNG, then the core. *)
Definition seal (store : KeyStore) (to_id channel : Z) (epoch : Epoch) (payload out : bytes)
    : St SodiumState (result Z SealError * bytes) :=
  let* nonce := random_nonce in
  gets (fun s => seal_core s store to_id channel epoch payload nonce out).

Definition open (s : SodiumState) (store : KeyStore) (frame out : bytes)
    : St StatsState (result (Header * Flags * Z) OpenError * bytes) :=
  let reject reason := let* _ := record_reject reason in ret (Err Rejected, out) in
  match parse_prefix frame with
  | Err e => reject (from_codec e)
  | Ok (header, flags) =>
      if negb (header.(to_id) =? local_id store) then reject Plaintext else
      if negb (bool_decide (flags.(mode) = Standard)) then ret (Err Rejected, out) else
      if len frame <? OVERHEAD then reject LenMismatch else
      match key_for_receive store header.(from_id) flags.(epoch) with
      | None => reject (if peer_known store header.(from_id) then NoEpoch else NoPeer)
      | Some stored =>
          match
            (let! key := ok_or (try_into_array KEYBYTES (expose s stored)) Rejected in
             let! aad := ok_or (frame_aad frame) Rejected in
             let! nonce_bytes := ok_or (get_range frame PREFIX_LEN (PREFIX_LEN + NPUBBYTES)) Rejected in
             let! nonce := ok_or (try_into_array NPUBBYTES nonce_bytes) Rejected in
             let! ciphertext := ok_or (get_from frame (PREFIX_LEN + NPUBBYTES)) Rejected in
             Ok (key, nonce, aad, ciphertext))
          with
          | Err e => ret (Err e, out)
          | Ok (key, nonce, aad, ciphertext) =>
              match aead_decrypt key nonce aad ciphertext out with
              | (Ok payload_len, out) => ret (Ok (header, flags, payload_len), out)
              | (Err AuthFailed, out) =>
                  let* _ := record_reject RAuthFailed in ret (Err Rejected, out)
              | (Err _, out) => ret (Err Rejected, out)
              end
          end
      end
  end.

(** The known-answer seam: the core with a supplied nonce. *)
Definition seal_standard_deterministic (s : SodiumState) (store : KeyStore) (to_id channel : Z)
    (epoch : Epoch) (payload nonce : bytes) : result bytes SealError :=
  if MAX_PAYLOAD <? len payload then Err (PayloadTooLarge (len payload)) else
  match seal_core s store to_id channel epoch payload nonce (zeros (len payload + OVERHEAD)) with
  | (Ok _, frame) => Ok frame
  | (Err e, _) => Err e
  end.

(** ** Specification

    The frame that carries [payload] from one node to another, as a value. *)

Definition standard_frame (key : bytes) (h : Header) (f : Flags) (nonce payload : bytes) : bytes :=
  serialize_prefix h f ++ nonce ++ aes_encrypt payload (serialize_prefix h f) nonce key.

(** What a node [me] with the abstract keystore [m] must accept, and as what. *)
Record accepts (me : Z) (m : gmap (Z * Epoch) bytes) (frame : bytes)
    (h : Header) (f : Flags) (key nonce payload : bytes) : Prop := {
  acc_frame : frame = standard_frame key h f nonce payload;
  acc_header : wf_header h;
  acc_flags : wf_flags f;
  acc_to : h.(to_id) = me;
  acc_mode : f.(mode) = Standard;
  acc_key : m !! (h.(from_id), f.(epoch)) = Some key;
  acc_nonce : len nonce = NPUBBYTES;
  acc_payload : Forall is_u8 payload;
}.

(** The peers an abstract keystore has some key for. *)
Definition knows (m : gmap (Z * Epoch) bytes) (peer : Z) : bool :=
  bool_decide (map_Exists (fun slot _ => slot.1 = peer) m).

(** Why a frame that fails is dropped, from the abstract keystore [m] of node
    [me]; [None] is a frame no reason counter speaks of. *)
Definition drop_reason (me : Z) (m : gmap (Z * Epoch) bytes) (frame : bytes)
    : option RejectReason :=
  match parse_prefix frame with
  | Err e => Some (from_codec e)
  | Ok (h, f) =>
      if negb (h.(to_id) =? me) then Some Plaintext else
      match f.(mode) with
      | Dek => None
      | Standard =>
          if len frame <? OVERHEAD then Some LenMismatch else
          match m !! (h.(from_id), f.(epoch)) with
          | None => Some (if knows m h.(from_id) then NoEpoch else NoPeer)
          | Some _ => Some RAuthFailed
          end
      end
  end.

End Operations.

(** ** Lemmas *)

Section Facts.
Context `{AS : AeadSpec}.

Lemma view_key s ks slot key :
  ks_inv s ks -> view s ks !! slot = Some key ->
  exists stored, bt_get ks.(entries) slot = Some stored /\
    try_into_array KEYBYTES (expose s stored) = Some key /\ len key = KEYBYTES.
Proof.
  intros Hi Hv. rewrite view_lookup in Hv by done.
  destruct (bt_get (entries ks) slot) as [k|] eqn:Hg; [|done]. simpl in Hv. inv_ok.
  exists k. assert (len (expose s k) = KEYBYTES) by (apply owns_key_expose; by eapply ks_inv_key).
  split_and!; [done|by apply try_into_array_id|done].
Qed.

Lemma view_no_key s ks slot :
  ks_inv s ks -> view s ks !! slot = None -> bt_get ks.(entries) slot = None.
Proof. intros Hi. rewrite view_lookup by done. by destruct (bt_get _ _). Qed.

Lemma peer_known_knows s ks peer :
  ks_inv s ks -> peer_known ks peer = knows (view s ks) peer.
Proof.
  intros Hi. unfold knows. apply eq_true_iff_eq.
  rewrite (peer_known_spec s), bool_decide_eq_true by done. unfold map_Exists. split.
  - intros (e & bs & He). by exists (peer, e), bs.
  - intros ([p e] & bs & He & <-). exists e. eauto.
Qed.

Lemma frame_aad_prefix h f rest :
  frame_aad (serialize_prefix h f ++ rest) = Some (serialize_prefix h f).
Proof. unfold frame_aad. apply get_to_app. by rewrite serialize_prefix_len. Qed.

Lemma standard_frame_len key h f nonce payload :
  len key = KEYBYTES -> len nonce = NPUBBYTES ->
  len (standard_frame key h f nonce payload) = len payload + OVERHEAD.
Proof.
  intros. unfold standard_frame. rewrite !len_app, serialize_prefix_len, encrypt_len by done.
  unfold OVERHEAD. lia.
Qed.

(** The core, on every branch, in terms of the abstract keystore. *)
Lemma seal_core_spec s ks to_id channel epoch payload nonce out :
  ks_inv s ks -> len nonce = NPUBBYTES ->
  seal_core s ks to_id channel epoch payload nonce out =
    if decide (MAX_PAYLOAD < len payload) then (Err (PayloadTooLarge (len payload)), out)
    else if decide (len out < len payload + OVERHEAD)
    then (Err (OutputTooSmall (len payload + OVERHEAD) (len out)), out)
    else match view s ks !! (to_id, epoch) with
         | None => (Err NoKey, out)
         | Some key =>
             (Ok (len payload + OVERHEAD),
              standard_frame key (MkHeader (local_id ks) to_id channel) (MkFlags Standard epoch)
                nonce payload ++ drop (Z.to_nat (len payload + OVERHEAD)) out)
         end.
Proof.
  intros Hi Hn. unfold seal_core.
  destruct (Z.ltb_spec MAX_PAYLOAD (len payload)); case_decide; try lia; [done|].
  destruct (Z.ltb_spec (len out) (len payload + OVERHEAD)); case_decide; try lia; [done|].
  destruct (view s ks !! (to_id, epoch)) as [key|] eqn:Hv.
  2: { unfold key_for_send. by rewrite (view_no_key s) by done. }
  destruct (view_key _ _ _ _ Hi Hv) as (stored & Hg & Ha & Hlen).
  unfold key_for_send. rewrite Hg, Ha.
  rewrite <- (app_nil_r (serialize_prefix _ _)) at 1. rewrite frame_aad_prefix.
  unfold OVERHEAD, PREFIX_LEN, NPUBBYTES, ABYTES, MAX_PAYLOAD, MAX_UDP_DATAGRAM, OVERHEAD in *.
  rewrite aead_encrypt_fits; [|done|done| |]; cycle 1.
  { rewrite !len_drop. unfold ABYTES. lia. }
  { unfold PREFIX_LEN, NPUBBYTES, ABYTES in *. width. }
  f_equal. unfold standard_frame. rewrite <- !app_assoc. f_equal. f_equal.
  rewrite write_front_fits by (rewrite encrypt_len, !len_drop by done; unfold ABYTES; lia).
  f_equal. rewrite !drop_drop. f_equal.
  pose proof (encrypt_len payload
    (serialize_prefix (MkHeader (local_id ks) to_id channel) (MkFlags Standard epoch)) nonce key) as He.
  unfold ABYTES, len in *. specialize (He Hn Hlen). lia.
Qed.

(** A frame that passed the prefix and geometry gates, cut at its regions. *)
Lemma frame_regions frame h f :
  Forall is_u8 frame -> parse_prefix frame = Ok (h, f) -> OVERHEAD <= len frame ->
  exists nonce ct, frame = serialize_prefix h f ++ nonce ++ ct /\
    len nonce = NPUBBYTES /\ len ct = len frame - OVERHEAD + ABYTES.
Proof.
  intros Hu Hp Hl. destruct (serialize_parse_prefix _ _ _ Hu Hp) as [_ Hpre].
  exists (take 12 (drop 9 frame)), (drop 12 (drop 9 frame)).
  split; [by rewrite Hpre, !take_drop|].
  rewrite len_take, !len_drop. unfold OVERHEAD, PREFIX_LEN, NPUBBYTES, ABYTES in *. lia.
Qed.

Lemma prefix_regions h f nonce ct :
  len nonce = NPUBBYTES ->
  let frame := serialize_prefix h f ++ nonce ++ ct in
  frame_aad frame = Some (serialize_prefix h f) /\
  get_range frame PREFIX_LEN (PREFIX_LEN + NPUBBYTES) = Some nonce /\
  get_from frame (PREFIX_LEN + NPUBBYTES) = Some ct.
Proof.
  intros Hn frame. subst frame. split; [apply frame_aad_prefix|]. split.
  - apply get_range_app; rewrite serialize_prefix_len; [done|]. by rewrite Hn.
  - rewrite app_assoc. apply get_from_app. by rewrite len_app, serialize_prefix_len, Hn.
Qed.

Lemma reject_ret {A} r (a : A) w :
  (let* _ := record_reject r in ret a) w = (a, (record_reject r w).2).
Proof. unfold bind, ret. by destruct (record_reject r w). Qed.

Lemma accepts_parses me m frame h f key nonce payload :
  accepts me m frame h f key nonce payload -> parse_prefix frame = Ok (h, f).
Proof. intros [-> Hh Hf _ _ _ _ _]. by apply parse_serialize_prefix. Qed.

(** A frame that fails one of the gates is not acceptable. *)
Lemma not_accepts me m frame h f :
  parse_prefix frame = Ok (h, f) ->
  to_id h <> me \/ mode f <> Standard \/ len frame < OVERHEAD \/ m !! (from_id h, epoch f) = None ->
  (forall slot key, m !! slot = Some key -> len key = KEYBYTES) ->
  forall h' f' key nonce payload, ~ accepts me m frame h' f' key nonce payload.
Proof.
  intros Hp Hbad Hkl h' f' key nonce payload Ha.
  pose proof (accepts_parses _ _ _ _ _ _ _ _ Ha) as Hp'. rewrite Hp in Hp'. inv_ok.
  destruct Ha as [Hfr _ _ ? ? Hk Hn _]. destruct Hbad as [?|[?|[Hs|?]]]; try congruence.
  rewrite Hfr, standard_frame_len in Hs by eauto. pose proof (len_nonneg payload). lia.
Qed.

(** Opening a frame into a buffer that can hold the payload: the frame is the
    sealed frame of its plaintext under the installed key, or the verdict is
    the opaque rejection, the reason of [drop_reason] has been recorded, and
    the buffer is untouched or wiped. *)
Lemma open_cases s ks frame out w :
  ks_inv s ks -> Forall is_u8 frame -> len frame - OVERHEAD <= len out ->
  (exists h f key nonce payload,
     accepts (local_id ks) (view s ks) frame h f key nonce payload /\
     open s ks frame out w =
       ((Ok (h, f, len payload), payload ++ drop (length payload) out), w)) \/
  ((forall h f key nonce payload,
      ~ accepts (local_id ks) (view s ks) frame h f key nonce payload) /\
   exists out',
     (out' = out \/ out' = zeros (len frame - OVERHEAD) ++ drop (Z.to_nat (len frame - OVERHEAD)) out) /\
     open s ks frame out w =
       ((Err Rejected, out'),
        match drop_reason (local_id ks) (view s ks) frame with
        | Some r => (record_reject r w).2
        | None => w
        end)).
Proof.
  intros Hi Hu Hroom.
  assert (Hkl : forall slot key, view s ks !! slot = Some key -> len key = KEYBYTES).
  { intros slot key Hv. by destruct (view_key _ _ _ _ Hi Hv) as (? & _ & _ & ?). }
  unfold open, drop_reason. destruct (parse_prefix frame) as [[h f]|e] eqn:Hp.
  2: { right. split; [|by exists out; rewrite ?reject_ret; split; [left|]].
       intros h f key nonce payload Ha. apply accepts_parses in Ha. congruence. }
  destruct (Z.eqb_spec (to_id h) (local_id ks)) as [Hto|Hto]; simpl.
  2: { right. split; [|by exists out; rewrite ?reject_ret; split; [left|]]. eapply not_accepts; eauto. }
  destruct (mode f) eqn:Hm; simpl.
  2: { right. split; [|by exists out; rewrite ?reject_ret; split; [left|]]. eapply not_accepts; eauto. right. left. congruence. }
  destruct (Z.ltb_spec (len frame) OVERHEAD) as [Hl|Hl].
  { right. split; [|by exists out; rewrite ?reject_ret; split; [left|]]. eapply not_accepts; eauto. }
  destruct (view s ks !! (from_id h, epoch f)) as [key|] eqn:Hv; cycle 1.
  { right. split; [eapply not_accepts; eauto|]. exists out. split; [by left|].
    unfold key_for_receive. by rewrite (view_no_key s), reject_ret, (peer_known_knows s). }
  destruct (view_key _ _ _ _ Hi Hv) as (stored & Hg & Harr & Hlen).
  destruct (frame_regions _ _ _ Hu Hp Hl) as (nonce & ct & Hfr & Hn & Hct).
  destruct (prefix_regions h f nonce ct Hn) as (Haad & Hrn & Hrc). rewrite <- Hfr in Haad, Hrn, Hrc.
  unfold key_for_receive. rewrite Hg, Harr, Haad, Hrn. cbn [ok_or rbind].
  rewrite (try_into_array_id NPUBBYTES) by done. rewrite Hrc. cbn [ok_or rbind].
  destruct (aead_decrypt_cases key nonce (serialize_prefix h f) ct out)
    as [(payload & Hc & Hu8 & Hpl & ->)|[Hnot ->]]; try done; try (rewrite Hct; lia).
  - left. exists h, f, key, nonce, payload. split; [|done].
    destruct (parse_prefix_wf _ _ _ Hu Hp). split; try done.
    unfold standard_frame. by rewrite <- Hc.
  - right. rewrite Hct in *. replace (len frame - OVERHEAD + ABYTES - ABYTES) with (len frame - OVERHEAD) by lia.
    split; [|by eexists; rewrite ?reject_ret; split; [right|]].
    intros h' f' key' nonce' payload Ha. pose proof (accepts_parses _ _ _ _ _ _ _ _ Ha) as Hp'.
    rewrite Hp in Hp'. inv_ok. destruct Ha as [Hfr' _ _ _ _ Hk' Hn' Hu8].
    rewrite Hv in Hk'. inv_ok. unfold standard_frame in Hfr'.
    apply app_inv_head in Hfr'. apply app_inj_1 in Hfr' as [-> ->]; [by eapply Hnot|].
    unfold len in *. lia.
Qed.

(** An acceptable frame is accepted, whatever the statistics are. *)
Lemma open_accepts s ks frame out w h f key nonce payload :
  ks_inv s ks -> accepts (local_id ks) (view s ks) frame h f key nonce payload ->
  len payload <= len out ->
  open s ks frame out w = ((Ok (h, f, len payload), payload ++ drop (length payload) out), w).
Proof.
  intros Hi Ha Hroom. pose proof (accepts_parses _ _ _ _ _ _ _ _ Ha) as Hp.
  destruct Ha as [Hfr Hh Hf Hto Hm Hv Hn Hu].
  destruct (view_key _ _ _ _ Hi Hv) as (stored & Hg & Harr & Hlen).
  unfold open. rewrite Hp, Hto, Z.eqb_refl, Hm. simpl.
  assert (len frame = len payload + OVERHEAD) as Hl by (rewrite Hfr; by apply standard_frame_len).
  rewrite (proj2 (Z.ltb_ge _ _)) by (pose proof (len_nonneg payload); lia).
  destruct (prefix_regions h f nonce (aes_encrypt payload (serialize_prefix h f) nonce key) Hn)
    as (Haad & Hrn & Hrc).
  unfold standard_frame in Hfr. rewrite <- Hfr in Haad, Hrn, Hrc.
  unfold key_for_receive. rewrite Hg, Harr, Haad, Hrn. cbn [ok_or rbind].
  rewrite (try_into_array_id NPUBBYTES) by done. rewrite Hrc. cbn [ok_or rbind].
  by rewrite aead_decrypt_encrypt.
Qed.

Lemma seal_run s ks to_id channel epoch payload out :
  ks_inv s ks ->
  exists nonce s', random_nonce s = (nonce, s') /\ len nonce = NPUBBYTES /\
    heap s' = heap s /\ draws s' = S (draws s) /\ view s' ks = view s ks /\ ks_inv s' ks /\
    seal ks to_id channel epoch payload out s =
      (seal_core s' ks to_id channel epoch payload nonce out, s').
Proof.
  intros Hi. destruct (random_nonce s) as [nonce s'] eqn:Hr.
  pose proof (random_nonce_len s) as Hn. rewrite Hr in Hn. simpl in Hn.
  assert (heap s' = heap s /\ draws s' = S (draws s)) as [Hh Hd].
  { revert Hr. unfold random_nonce, randombytes_fill. simpl. by intros [= _ <-]. }
  exists nonce, s'. split_and!; try done.
  - apply view_heap; [done|]. by rewrite Hh.
  - eapply ks_inv_heap; [done|]. by rewrite Hh.
  - unfold seal, bind, gets. by rewrite Hr.
Qed.

(** ** Claims *)

(** C30: [standard::seal] on every branch.  It draws exactly one fresh nonce from
    the CSPRNG and touches no key.  An oversized payload, a short buffer and a
    missing key are reported in that order and leave the buffer untouched;
    otherwise the buffer starts with the frame
    [prefix | nonce | ciphertext | tag] of exactly [N + 37] bytes, sealed under
    the key of [(to_id, epoch)] with the frame's own prefix as associated data
    and this node as source, and the rest of the buffer is untouched. *)
Theorem standard_seal_exact s ks to_id channel epoch payload out :
  ks_inv s ks ->
  let '((r, out'), s') := seal ks to_id channel epoch payload out s in
  heap s' = heap s /\ draws s' = S (draws s) /\
  if decide (MAX_PAYLOAD < len payload) then r = Err (PayloadTooLarge (len payload)) /\ out' = out
  else if decide (len out < len payload + OVERHEAD)
  then r = Err (OutputTooSmall (len payload + OVERHEAD) (len out)) /\ out' = out
  else match view s ks !! (to_id, epoch) with
       | None => r = Err NoKey /\ out' = out
       | Some key =>
           let frame := standard_frame key (MkHeader (local_id ks) to_id channel)
                          (MkFlags Standard epoch) (random_nonce s).1 payload in
           r = Ok (len frame) /\ len frame = len payload + 37 /\
           out' = frame ++ drop (length frame) out
       end.
Proof.
  intros Hi. destruct (seal_run s ks to_id channel epoch payload out Hi)
    as (nonce & s' & Hr & Hn & Hh & Hd & Hv & Hi' & ->).
  rewrite seal_core_spec, Hv, Hr by done. cbn [fst].
  repeat case_decide; try done. destruct (view s ks !! (to_id, epoch)) as [key|] eqn:Hk; [|done].
  destruct (view_key _ _ _ _ Hi Hk) as (_ & _ & _ & Hlen).
  set (frame := standard_frame _ _ _ _ _). cbv zeta.
  assert (len frame = len payload + OVERHEAD) as Hfl by (by apply standard_frame_len).
  rewrite <- (to_nat_len frame), Hfl. by split_and!.
Qed.

(** [standard::open] accepts exactly the frames sealed for this node: given
    room for the payload, the verdict is [(h, f, n)] if and only if the frame
    is, byte for byte, the standard frame of some payload under the key
    installed for [(h.from_id, f.epoch)], addressed to this node; then the
    payload is in the output buffer and no counter has moved. *)
Theorem standard_open_exact s ks frame out w h f n out' w' :
  ks_inv s ks -> Forall is_u8 frame -> len frame - OVERHEAD <= len out ->
  open s ks frame out w = ((Ok (h, f, n), out'), w') <->
  exists key nonce payload,
    accepts (local_id ks) (view s ks) frame h f key nonce payload /\
    n = len payload /\ out' = payload ++ drop (length payload) out /\ w' = w.
Proof.
  intros Hi Hu Hroom. split.
  - intros Ho. destruct (open_cases s ks frame out w Hi Hu Hroom)
      as [(h' & f' & key & nonce & payload & Ha & Ho')|(_ & o & _ & Ho')];
      rewrite Ho in Ho'; [|done]. injection Ho' as <- <- -> -> ->. by exists key, nonce, payload.
  - intros (key & nonce & payload & Ha & -> & -> & ->). eapply open_accepts; [done|exact Ha|].
    destruct (view_key _ _ _ _ Hi (acc_key _ _ _ _ _ _ _ _ Ha)) as (_ & _ & _ & Hk).
    pose proof (acc_frame _ _ _ _ _ _ _ _ Ha) as ->.
    rewrite standard_frame_len in Hroom; [lia|done|apply Ha].
Qed.

(** a rejected frame is opaque and accounted: whatever is wrong with it, the
    verdict is the same [Rejected]; the output buffer is untouched or its
    plaintext region is zero, so nothing unverified escapes; and exactly the
    reason the protocol assigns has been recorded (none for a frame of the
    other mode). *)
Theorem standard_open_rejects s ks frame out w e out' w' :
  ks_inv s ks -> Forall is_u8 frame -> len frame - OVERHEAD <= len out ->
  open s ks frame out w = ((Err e, out'), w') ->
  (out' = out \/
   out' = zeros (len frame - OVERHEAD) ++ drop (Z.to_nat (len frame - OVERHEAD)) out) /\
  w' = match drop_reason (local_id ks) (view s ks) frame with
       | Some r => (record_reject r w).2
       | None => w
       end /\
  (drop_reason (local_id ks) (view s ks) frame = None ->
   exists h f, parse_prefix frame = Ok (h, f) /\ mode f = Dek).
Proof.
  intros Hi Hu Hroom Ho. destruct (open_cases s ks frame out w Hi Hu Hroom)
    as [(h' & f' & key & nonce & payload & _ & Ho')|(_ & o & Hout & Ho')]; rewrite Ho in Ho'; [done|].
  destruct e. injection Ho' as -> ->. split; [done|]. split; [done|].
  unfold drop_reason. destruct (parse_prefix frame) as [[h f]|]; [|done].
  destruct (negb _); [done|]. destruct (mode f) eqn:Hm; [|by exists h, f].
  by repeat case_match.
Qed.

(** seal at one node, open at another: when node A holds under
    [(B, epoch)] the key that node B holds under [(A, epoch)], every payload up
    to the maximum that A seals for B opens at B to the same payload, with A as
    authenticated source, B as destination and A's channel and epoch, for any
    state of B's counters and any nonce. *)
Theorem standard_roundtrip sA A sB B channel epoch key payload buf out w :
  ks_inv sA A -> ks_inv sB B -> is_u32 channel ->
  view sA A !! (local_id B, epoch) = Some key -> view sB B !! (local_id A, epoch) = Some key ->
  Forall is_u8 payload -> len payload <= MAX_PAYLOAD ->
  len payload + OVERHEAD <= len buf -> len payload <= len out ->
  exists n buf' sA',
    seal A (local_id B) channel epoch payload buf sA = ((Ok n, buf'), sA') /\
    open sB B (take (Z.to_nat n) buf') out w =
      ((Ok (MkHeader (local_id A) (local_id B) channel, MkFlags Standard epoch, len payload),
        payload ++ drop (length payload) out), w).
Proof.
  intros HA HB Hc HkA HkB Hu Hmax Hbuf Hout.
  destruct (seal_run sA A (local_id B) channel epoch payload buf HA)
    as (nonce & s' & Hr & Hn & Hh & Hd & Hv & HA' & ->).
  rewrite seal_core_spec, Hv, HkA by done. rewrite !decide_False by lia.
  eexists _, _, _. split; [done|].
  destruct (view_key _ _ _ _ HA HkA) as (stored & Hg & _ & Hlen).
  rewrite <- (standard_frame_len key (MkHeader (local_id A) (local_id B) channel)
    (MkFlags Standard epoch) nonce payload) at 1 by done.
  rewrite to_nat_len, take_app_length.
  destruct (ks_inv_key _ _ _ _ HA Hg) as (_ & _ & Hep).
  eapply open_accepts; [done| |done]. split; try done.
  split_and!; simpl; [apply HA|apply HB|done].
Qed.

End Facts.

(** ** Witnesses, on the concrete libsodium *)

(** Node 100 seals four bytes for node 200 on channel 1000 under epoch 5. *)
Definition node_a := demo_node 100 200.
Definition node_b := demo_node 200 100.
Definition demo_header := MkHeader 100 200 1000.
Definition demo_flags := MkFlags Standard (MkEpoch 5).
Definition demo_payload : bytes := [1; 2; 3; 4].
Definition demo_nonce : bytes := zeros 12.
Definition demo_frame : bytes :=
  standard_frame demo_key demo_header demo_flags demo_nonce demo_payload.

Lemma node_a_inv : ks_inv node_a.1 node_a.2.
Proof. by apply demo_node_inv. Qed.

Lemma node_b_inv : ks_inv node_b.1 node_b.2.
Proof. by apply demo_node_inv. Qed.

Lemma demo_frame_u8 : Forall is_u8 demo_frame.
Proof. apply (bool_decide_unpack (Forall is_u8 _)). vm_compute. exact I. Qed.

Lemma demo_frame_accepts :
  accepts (local_id node_b.2) (view node_b.1 node_b.2) demo_frame demo_header demo_flags
    demo_key demo_nonce demo_payload.
Proof.
  destruct (demo_node_inv 200 100) as (_ & Hl & Hv); [done..|].
  unfold node_b. rewrite Hl, Hv. by repeat constructor.
Qed.

Lemma standard_seal_exact_witness :
  (seal node_a.2 200 1000 (MkEpoch 5) demo_payload (zeros 50) node_a.1).1 =
    (Ok 41, demo_frame ++ zeros 9) /\
  heap (seal node_a.2 200 1000 (MkEpoch 5) demo_payload (zeros 50) node_a.1).2 = heap node_a.1.
Proof.
  split; [vm_compute; reflexivity|].
  pose proof (standard_seal_exact node_a.1 node_a.2 200 1000 (MkEpoch 5) demo_payload (zeros 50)
    node_a_inv) as Hx.
  destruct (seal _ _ _ _ _ _ _) as [[r o] s']. apply Hx.
Defined.

Lemma standard_open_exact_witness :
  open node_b.1 node_b.2 demo_frame (zeros 6) stats_init =
    ((Ok (demo_header, demo_flags, 4), [1; 2; 3; 4; 0; 0]), stats_init).
Proof.
  apply (standard_open_exact node_b.1 node_b.2 demo_frame (zeros 6) stats_init
           demo_header demo_flags 4 [1; 2; 3; 4; 0; 0] stats_init).
  - exact node_b_inv.
  - apply demo_frame_u8.
  - done.
  - exists demo_key, demo_nonce, demo_payload. split; [apply demo_frame_accepts|]. done.
Defined.

(** The same frame with its channel altered in flight. *)
Definition tampered_frame : bytes := <[7%nat := 233]> demo_frame.

Lemma standard_open_rejects_witness :
  open node_b.1 node_b.2 tampered_frame (replicate 4 9) stats_init =
    ((Err Rejected, zeros 4), (record_reject RAuthFailed stats_init).2) /\
  drop_reason (local_id node_b.2) (view node_b.1 node_b.2) tampered_frame = Some RAuthFailed.
Proof.
  assert (drop_reason (local_id node_b.2) (view node_b.1 node_b.2) tampered_frame = Some RAuthFailed)
    as Hd by (vm_compute; reflexivity).
  assert ((open node_b.1 node_b.2 tampered_frame (replicate 4 9) stats_init).1 = (Err Rejected, zeros 4))
    as Hr by (vm_compute; reflexivity).
  split; [|exact Hd].
  destruct (open node_b.1 node_b.2 tampered_frame (replicate 4 9) stats_init) as [[r o] w] eqn:Ho.
  cbn [fst] in Hr. injection Hr as -> ->.
  destruct (standard_open_rejects node_b.1 node_b.2 tampered_frame (replicate 4 9) stats_init
    Rejected (zeros 4) w) as (_ & Hw & _).
  - exact node_b_inv.
  - apply (bool_decide_unpack (Forall is_u8 _)). vm_compute. exact I.
  - vm_compute. done.
  - exact Ho.
  - rewrite Hd in Hw. by rewrite Hw.
Defined.

Lemma standard_roundtrip_witness :
  exists n buf' sA',
    seal node_a.2 200 1000 (MkEpoch 5) demo_payload (zeros 41) node_a.1 = ((Ok n, buf'), sA') /\
    open node_b.1 node_b.2 (take (Z.to_nat n) buf') (zeros 4) stats_init =
      ((Ok (demo_header, demo_flags, 4), demo_payload), stats_init).
Proof.
  apply (standard_roundtrip node_a.1 node_a.2 node_b.1 node_b.2 1000 (MkEpoch 5) demo_key
           demo_payload (zeros 41) (zeros 4) stats_init).
  - exact node_a_inv.
  - exact node_b_inv.
  - done.
  - vm_compute. reflexivity.
  - vm_compute. reflexivity.
  - by repeat constructor.
  - done.
  - done.
  - done.
Defined.
