(* ===== verification/Dek.v ===== *)
(** * Reusable-DEK fanout frames and dispatch: [src/dek.rs]

    [Prefix(9) | EnvelopeNonce(12) | EncryptedDEK(32) | EnvelopeTag(16)
     | BodyNonce(12) | BodyCiphertext(N) | BodyTag(16)].
    One payload is encrypted once under a fresh key; every recipient gets its
    own prefix and envelope before the shared body.  The data key is a value
    here; the memory it occupies and its erasure are in [KeyGuard]. *)

From S2P Require Export Standard.

Definition UDP_DATAGRAM_MAX : Z := 65507.
Definition ENVELOPE_LEN : Z := KEYBYTES + ABYTES.
Definition BODY_START : Z := PREFIX_LEN + NPUBBYTES + ENVELOPE_LEN.
Definition BODY_TAG_LEN : Z := ABYTES.
Definition DEK_OVERHEAD : Z := BODY_START + NPUBBYTES + BODY_TAG_LEN.
Definition DEK_MAX_PAYLOAD : Z := UDP_DATAGRAM_MAX - DEK_OVERHEAD.

Module layout.
Definition ENVELOPE_NONCE : Z := PREFIX_LEN.
Definition ENCRYPTED_DEK : Z := ENVELOPE_NONCE + NPUBBYTES.
Definition ENVELOPE_TAG : Z := ENCRYPTED_DEK + KEYBYTES.
Definition BODY_NONCE : Z := ENVELOPE_TAG + ABYTES.
Definition BODY : Z := BODY_NONCE + NPUBBYTES.
End layout.

Record FanoutFrame := MkFanout { ff_to_id : Z; ff_epoch : Epoch; ff_frame : bytes }.

Inductive SealError :=
| Oversize (n : Z)
| SealNoKey
| EmptyRecipients
| DuplicateRecipient (peer : Z)
| SealSodium (e : SodiumError).

Global Instance DekSealError_eq_dec : EqDecision SealError.
Proof. solve_decision. Defined.

Definition show_SealError (e : SealError) : string :=
  match e with
  | Oversize n => "payload too large: " +:+ show n +:+ " bytes"
  | SealNoKey => "no PSK installed for the destination peer"
  | EmptyRecipients => "fanout needs at least one recipient"
  | DuplicateRecipient peer => "duplicate fanout recipient " +:+ show peer
  | SealSodium e => "libsodium failure: " +:+ show_SodiumError e
  end.

Inductive OpenError :=
| Prefix (e : CodecError)
| FrameTooShort (n : Z)
| LengthMismatch
| OpenNoKey
| OpenAuthFailed
| WrongDestination
| StandardRejected
| OpenSodium (e : SodiumError).

Global Instance DekOpenError_eq_dec : EqDecision OpenError.
Proof. solve_decision. Defined.

Definition show_OpenError (e : OpenError) : string :=
  match e with
  | Prefix e => show_CodecError e
  | FrameTooShort n => "reusable-DEK frame too short: " +:+ show n +:+ " bytes"
  | LengthMismatch => "declared length disagrees with frame size"
  | OpenNoKey => "no PSK installed for source and epoch"
  | OpenAuthFailed => "authentication failed"
  | WrongDestination => "frame addressed to another node"
  | StandardRejected => "standard frame rejected"
  | OpenSodium e => "libsodium failure: " +:+ show_SodiumError e
  end.

Definition body_aad (from_id channel : Z) : bytes :=
  to_be_bytes 2 from_id ++ to_be_bytes 4 channel ++ [0x05].

Definition envelope_aad (prefix body_nonce body_tag : bytes) : bytes :=
  prefix ++ body_nonce ++ body_tag.

Section Operations.
Context `{Libsodium}.

Definition psk (s : SodiumState) (stored : StoredKey) : result bytes SodiumError :=
  ok_or (try_into_array KEYBYTES (expose s stored)) Internal.

(** [seal]: one recipient, always a standard frame. *)
Definition seal (store : KeyStore) (to_id channel : Z) (epoch : Epoch) (payload : bytes)
    : St SodiumState (result bytes SealError) :=
  if MAX_PAYLOAD <? len payload then ret (Err (Oversize (len payload))) else
  let* (r, frame) := Standard.seal store to_id channel epoch payload
                       (zeros (len payload + OVERHEAD)) in
  ret (match r with
       | Ok _ => Ok frame
       | Err (PayloadTooLarge n) => Err (Oversize n)
       | Err NoKey => Err SealNoKey
       | Err (Sodium e) => Err (SealSodium e)
       | Err (OutputTooSmall _ _) => Err (SealSodium Internal)
       end).

(** The loop of [select_fanout]: [seen] is the [BTreeSet], [selected] the
    vector built so far. *)
Fixpoint select_loop (store : KeyStore) (recipients : list Z) (seen : gset Z)
    (selected : list (Z * Epoch * StoredKey)) : result (list (Z * Epoch * StoredKey)) SealError :=
  match recipients with
  | [] => Ok selected
  | to_id :: rest =>
      if bool_decide (to_id ∈ seen) then Err (DuplicateRecipient to_id)
      else
        match key_for_send_current store to_id with
        | None => Err SealNoKey
        | Some (epoch, stored) =>
            select_loop store rest ({[to_id]} ∪ seen) (selected ++ [(to_id, epoch, stored)])
        end
  end.

Definition select_fanout (store : KeyStore) (recipients : list Z) (payload : bytes)
    : result (list (Z * Epoch * StoredKey)) SealError :=
  match recipients with
  | [] => Err EmptyRecipients
  | _ :: _ =>
      if DEK_MAX_PAYLOAD <? len payload then Err (Oversize (len payload))
      else select_loop store recipients ∅ []
  end.

(** One recipient of [seal_fanout_core]'s loop: prefix, envelope nonce, the
    DEK sealed under the recipient's key, then the shared body. *)
Definition fanout_one (s : SodiumState) (local_id channel : Z) (dek body : bytes)
    (sel : Z * Epoch * StoredKey) (envelope_nonce : bytes) : result FanoutFrame SealError :=
  let '(to_id, epoch, stored) := sel in
  let header := MkHeader local_id to_id channel in
  let flags := MkFlags Dek epoch in
  let prefix := serialize_prefix header flags in
  let body_tag := drop (length body - Z.to_nat ABYTES) body in
  let! body_nonce := ok_or (try_into_array NPUBBYTES (take (Z.to_nat NPUBBYTES) body))
                       (SealSodium Internal) in
  let! body_tag := ok_or (try_into_array ABYTES body_tag) (SealSodium Internal) in
  let aad := envelope_aad prefix body_nonce body_tag in
  let! key := map_err SealSodium (psk s stored) in
  match aead_encrypt key envelope_nonce aad dek (zeros (BODY_START - layout.ENCRYPTED_DEK)) with
  | (Err e, _) => Err (SealSodium e)
  | (Ok _, envelope) => Ok (MkFanout to_id epoch (prefix ++ envelope_nonce ++ envelope ++ body))
  end.

Fixpoint fanout_loop (s : SodiumState) (local_id channel : Z) (dek body : bytes)
    (zipped : list ((Z * Epoch * StoredKey) * bytes)) (frames : list FanoutFrame)
    : result (list FanoutFrame) SealError :=
  match zipped with
  | [] => Ok frames
  | (sel, nonce) :: rest =>
      let! frame := fanout_one s local_id channel dek body sel nonce in
      fanout_loop s local_id channel dek body rest (frames ++ [frame])
  end.

Definition seal_fanout_core (s : SodiumState) (local_id : Z)
    (selected : list (Z * Epoch * StoredKey)) (channel : Z) (payload dek body_nonce : bytes)
    (envelope_nonces : list bytes) : result (list FanoutFrame) SealError :=
  let aad := body_aad local_id channel in
  match aead_encrypt dek body_nonce aad payload (zeros (len payload + ABYTES)) with
  | (Err e, _) => Err (SealSodium e)
  | (Ok _, ct) =>
      fanout_loop s local_id channel dek (body_nonce ++ ct) (zip selected envelope_nonces) []
  end.

(** [recipients.iter().map(|_| random_nonce()).collect()]. *)
Fixpoint random_nonces {A} (recipients : list A) : St SodiumState (list bytes) :=
  match recipients with
  | [] => ret []
  | _ :: rest =>
      let* nonce := random_nonce in
      let* nonces := random_nonces rest in
      ret (nonce :: nonces)
  end.

Definition seal_fanout (store : KeyStore) (recipients : list Z) (channel : Z) (payload : bytes)
    : St SodiumState (result (list FanoutFrame) SealError) :=
  match select_fanout store recipients payload with
  | Err e => ret (Err e)
  | Ok selected =>
      let* envelope_nonces := random_nonces recipients in
      let* dek := random_key in
      let* body_nonce := random_nonce in
      gets (fun s => seal_fanout_core s (local_id store) selected channel payload dek body_nonce
                       envelope_nonces)
  end.

(** The known-answer seam: the core with supplied key and nonces.  [None] is
    the panic of its [assert_eq!]. *)
Definition seal_fanout_deterministic (s : SodiumState) (store : KeyStore) (recipients : list Z)
    (channel : Z) (payload dek body_nonce : bytes) (envelope_nonces : list bytes)
    : option (result (list FanoutFrame) SealError) :=
  match select_fanout store recipients payload with
  | Err e => Some (Err e)
  | Ok selected =>
      if decide (length envelope_nonces = length selected) then
        Some (seal_fanout_core s (local_id store) selected channel payload dek body_nonce
                envelope_nonces)
      else None
  end.

(** [frame[lo..hi]]: the callers have passed the length gate, so the range is
    in bounds (lemma [dek_slices_in_bounds]). *)
Definition index_range (l : bytes) (lo hi : Z) : bytes :=
  take (Z.to_nat (hi - lo)) (drop (Z.to_nat lo) l).

(** The regions [open_dek] cuts a frame into, each conversion mapped to the
    impossible [Internal]. *)
Definition dek_regions (frame : bytes) : result (bytes * bytes * bytes * bytes) OpenError :=
  let internal := OpenSodium Internal in
  let! envelope_nonce := ok_or (try_into_array NPUBBYTES
        (index_range frame layout.ENVELOPE_NONCE layout.ENCRYPTED_DEK)) internal in
  let! body_nonce := ok_or (try_into_array NPUBBYTES
        (index_range frame layout.BODY_NONCE layout.BODY)) internal in
  let! tag_slice := ok_or (get_from frame (len frame - ABYTES)) internal in
  let! body_tag := ok_or (try_into_array ABYTES tag_slice) internal in
  let! prefix_slice := ok_or (get_to frame PREFIX_LEN) internal in
  let! prefix := ok_or (try_into_array PREFIX_LEN prefix_slice) internal in
  let! nonce_slice := ok_or (get_range frame layout.BODY_NONCE layout.BODY) internal in
  let! body_nonce_bytes := ok_or (try_into_array NPUBBYTES nonce_slice) internal in
  let envelope_aad := envelope_aad prefix body_nonce_bytes body_tag in
  let! envelope := ok_or (get_range frame layout.ENCRYPTED_DEK layout.BODY_NONCE) internal in
  Ok (envelope_nonce, body_nonce, envelope_aad, envelope).

Definition open_dek (s : SodiumState) (store : KeyStore) (frame : bytes) (header : Header)
    (flags : Flags) : St StatsState (result (Header * Flags * bytes) OpenError) :=
  let reject reason e := let* _ := record_reject reason in ret (Err e) in
  if len frame <? DEK_OVERHEAD then reject RTooShort (FrameTooShort (len frame)) else
  let payload_len := len frame - DEK_OVERHEAD in
  if negb (header.(to_id) =? local_id store) then reject Plaintext WrongDestination else
  match key_for_receive store header.(from_id) flags.(epoch) with
  | None => reject (if peer_known store header.(from_id) then NoEpoch else NoPeer) OpenNoKey
  | Some stored =>
      let? (envelope_nonce, body_nonce, aad, envelope) := ret (dek_regions frame) in
      let? key := ret (map_err OpenSodium (psk s stored)) in
      match aead_decrypt key envelope_nonce aad envelope (zeros KEYBYTES) with
      | (Err AuthFailed, _) => reject RAuthFailed OpenAuthFailed
      | (Err e, _) => ret (Err (OpenSodium e))
      | (Ok _, dek) =>
          let? body := ret (ok_or (get_from frame layout.BODY) (OpenSodium Internal)) in
          match aead_decrypt dek body_nonce (body_aad header.(from_id) header.(channel)) body
                  (zeros payload_len) with
          | (Ok n, out) => ret (Ok (header, flags, take (Z.to_nat n) out))
          | (Err AuthFailed, _) => reject RAuthFailed OpenAuthFailed
          | (Err e, _) => ret (Err (OpenSodium e))
          end
      end
  end.

Definition open (s : SodiumState) (store : KeyStore) (frame : bytes)
    : St StatsState (result (Header * Flags * bytes) OpenError) :=
  match parse_prefix frame with
  | Err e => let* _ := record_reject (from_codec e) in ret (Err (Prefix e))
  | Ok (header, flags) =>
      if bool_decide (flags.(mode) = Standard) then
        let max_payload := saturating_sub (len frame) OVERHEAD in
        let* (r, out) := Standard.open s store frame (zeros max_payload) in
        ret (match r with
             | Ok (h, f, n) => Ok (h, f, take (Z.to_nat n) out)
             | Err _ => Err StandardRejected
             end)
      else open_dek s store frame header flags
  end.

(** ** Specification *)

(** The tag of a combined-mode ciphertext: its last 16 bytes. *)
Definition tag_of (ct : bytes) : bytes := drop (length ct - Z.to_nat ABYTES) ct.

Definition sealed_body (from_id channel : Z) (dek body_nonce payload : bytes) : bytes :=
  aes_encrypt payload (body_aad from_id channel) body_nonce dek.

(** The reusable-DEK frame that carries [payload], as a value. *)
Definition fanout_frame (key : bytes) (h : Header) (f : Flags)
    (envelope_nonce dek body_nonce payload : bytes) : bytes :=
  let body := sealed_body h.(from_id) h.(channel) dek body_nonce payload in
  let prefix := serialize_prefix h f in
  prefix ++ envelope_nonce ++
  aes_encrypt dek (envelope_aad prefix body_nonce (tag_of body)) envelope_nonce key ++
  body_nonce ++ body.

Record dek_accepts (me : Z) (m : gmap (Z * Epoch) bytes) (frame : bytes) (h : Header) (f : Flags)
    (key envelope_nonce dek body_nonce payload : bytes) : Prop := {
  dacc_frame : frame = fanout_frame key h f envelope_nonce dek body_nonce payload;
  dacc_header : wf_header h;
  dacc_flags : wf_flags f;
  dacc_to : h.(to_id) = me;
  dacc_mode : f.(mode) = Dek;
  dacc_key : m !! (h.(from_id), f.(epoch)) = Some key;
  dacc_envelope_nonce : len envelope_nonce = NPUBBYTES;
  dacc_dek : len dek = KEYBYTES /\ Forall is_u8 dek;
  dacc_body_nonce : len body_nonce = NPUBBYTES;
  dacc_payload : Forall is_u8 payload;
}.

(** What node [me] with keystore [m] reads from a frame of either mode. *)
Definition delivers (me : Z) (m : gmap (Z * Epoch) bytes) (frame : bytes) (h : Header) (f : Flags)
    (payload : bytes) : Prop :=
  (exists key nonce, accepts me m frame h f key nonce payload) \/
  (exists key envelope_nonce dek body_nonce,
     dek_accepts me m frame h f key envelope_nonce dek body_nonce payload).

(** The one reason a frame that is not delivered is counted under, as the code
    has it: a wrong destination is [Plaintext] on this path as well. *)
Definition open_reason (me : Z) (m : gmap (Z * Epoch) bytes) (frame : bytes) : RejectReason :=
  match parse_prefix frame with
  | Err e => from_codec e
  | Ok (h, f) =>
      match f.(mode) with
      | Standard =>
          if negb (h.(to_id) =? me) then Plaintext else
          if len frame <? OVERHEAD then LenMismatch else
          match m !! (h.(from_id), f.(epoch)) with
          | None => if knows m h.(from_id) then NoEpoch else NoPeer
          | Some _ => RAuthFailed
          end
      | Dek =>
          if len frame <? DEK_OVERHEAD then RTooShort else
          if negb (h.(to_id) =? me) then Plaintext else
          match m !! (h.(from_id), f.(epoch)) with
          | None => if knows m h.(from_id) then NoEpoch else NoPeer
          | Some _ => RAuthFailed
          end
      end
  end.

End Operations.

(** ** Lemmas *)

(** Unfold the geometry of the frame, for [lia]. *)
Ltac geometry :=
  unfold DEK_MAX_PAYLOAD, UDP_DATAGRAM_MAX, DEK_OVERHEAD, BODY_START, ENVELOPE_LEN, BODY_TAG_LEN,
    layout.BODY, layout.BODY_NONCE, layout.ENVELOPE_TAG, layout.ENCRYPTED_DEK,
    layout.ENVELOPE_NONCE, MAX_PAYLOAD, MAX_UDP_DATAGRAM, OVERHEAD, PREFIX_LEN, NPUBBYTES, ABYTES, KEYBYTES in *.

(** Every [frame[a..b]] of [open_dek] is in bounds behind the length gate. *)
Lemma dek_slices_in_bounds frame :
  DEK_OVERHEAD <= len frame ->
  get_range frame layout.ENVELOPE_NONCE layout.ENCRYPTED_DEK =
    Some (index_range frame layout.ENVELOPE_NONCE layout.ENCRYPTED_DEK) /\
  get_range frame layout.BODY_NONCE layout.BODY =
    Some (index_range frame layout.BODY_NONCE layout.BODY).
Proof.
  intros Hl. split; apply get_range_Some; (split; [|done]); geometry; lia.
Qed.

(** One-recipient sealing leaves the guarded memory alone, whatever it
    returns. *)
Lemma dek_seal_heap `{Libsodium} ks to_id ch e payload s :
  heap (seal ks to_id ch e payload s).2 = heap s.
Proof.
  unfold seal. destruct (MAX_PAYLOAD <? len payload); [done|].
  unfold Standard.seal, gets. unfold bind at 1. unfold bind. unfold random_nonce, randombytes_fill.
  cbn [Z.eqb NPUBBYTES]. by destruct (seal_core _ _ _ _ _ _ _ _).
Qed.

Section Facts.
Context `{AS : AeadSpec}.

Lemma body_aad_len from_id channel : len (body_aad from_id channel) = 7.
Proof. unfold body_aad. by rewrite !len_app, !len_to_be_bytes. Qed.

Lemma sealed_body_len from_id channel dek nonce payload :
  len dek = KEYBYTES -> len nonce = NPUBBYTES ->
  len (sealed_body from_id channel dek nonce payload) = len payload + ABYTES.
Proof. intros. unfold sealed_body. by apply encrypt_len. Qed.

Lemma fanout_frame_len key h f en dek bn payload :
  len key = KEYBYTES -> len en = NPUBBYTES -> len dek = KEYBYTES -> len bn = NPUBBYTES ->
  len (fanout_frame key h f en dek bn payload) = len payload + DEK_OVERHEAD.
Proof.
  intros. unfold fanout_frame.
  rewrite !len_app, serialize_prefix_len, encrypt_len, sealed_body_len by done.
  geometry. lia.
Qed.

(** A frame of known shape, cut into its regions. *)
Lemma dek_regions_shape prefix en env bn body :
  len prefix = PREFIX_LEN -> len en = NPUBBYTES -> len env = ENVELOPE_LEN -> len bn = NPUBBYTES ->
  ABYTES <= len body ->
  let frame := prefix ++ en ++ env ++ bn ++ body in
  dek_regions frame = Ok (en, bn, envelope_aad prefix bn (tag_of body), env) /\
  get_from frame layout.BODY = Some body.
Proof.
  intros Hp Hen Henv Hbn Hbody frame.
  assert (DEK_OVERHEAD <= len frame) as Hl.
  { unfold frame. rewrite !len_app, Hp, Hen, Henv, Hbn.
    geometry. lia. }
  destruct (dek_slices_in_bounds frame Hl) as [H1 H2].
  assert (get_range frame layout.ENVELOPE_NONCE layout.ENCRYPTED_DEK = Some en) as G1.
  { apply get_range_app; rewrite Hp; [done|]. by rewrite Hen. }
  assert (get_range frame layout.BODY_NONCE layout.BODY = Some bn) as G2.
  { replace frame with ((prefix ++ en ++ env) ++ bn ++ body) by (by rewrite <- !app_assoc).
    apply get_range_app; rewrite !len_app, Hp, Hen, Henv; [done|]. by rewrite Hbn. }
  assert (get_range frame layout.ENCRYPTED_DEK layout.BODY_NONCE = Some env) as G3.
  { replace frame with ((prefix ++ en) ++ env ++ bn ++ body) by (by rewrite <- !app_assoc).
    apply get_range_app; rewrite !len_app, Hp, Hen; [done|]. by rewrite Henv. }
  assert (get_from frame layout.BODY = Some body) as G4.
  { replace frame with ((prefix ++ en ++ env ++ bn) ++ body) by (by rewrite <- !app_assoc).
    apply get_from_app. by rewrite !len_app, Hp, Hen, Henv, Hbn. }
  assert (get_to frame PREFIX_LEN = Some prefix) as G5 by (by apply get_to_app).
  assert (get_from frame (len frame - ABYTES) = Some (tag_of body)) as G6.
  { unfold frame, tag_of. rewrite <- (take_drop (length body - Z.to_nat ABYTES) body) at 1 2.
    rewrite !app_assoc. apply get_from_app. rewrite (len_app _ (drop _ _)), len_drop.
    unfold ABYTES, len in *. lia. }
  assert (len (tag_of body) = ABYTES) as Ht.
  { unfold tag_of. rewrite len_drop. unfold ABYTES, len in *. lia. }
  rewrite G1 in H1. rewrite G2 in H2. split; [|done]. unfold dek_regions.
  injection H1 as <-. injection H2 as <-. cbn [ok_or rbind].
  rewrite !(try_into_array_id NPUBBYTES) by done. cbn [ok_or rbind].
  rewrite G6. cbn [ok_or rbind]. rewrite (try_into_array_id ABYTES) by done. cbn [ok_or rbind].
  rewrite G5. cbn [ok_or rbind]. rewrite (try_into_array_id PREFIX_LEN) by done. cbn [ok_or rbind].
  rewrite G2. cbn [ok_or rbind]. rewrite (try_into_array_id NPUBBYTES) by done. cbn [ok_or rbind].
  by rewrite G3.
Qed.

Lemma encrypt_inj m m' ad nonce key :
  len nonce = NPUBBYTES -> len key = KEYBYTES -> Forall is_u8 m -> Forall is_u8 m' ->
  aes_encrypt m ad nonce key = aes_encrypt m' ad nonce key -> m = m'.
Proof.
  intros Hn Hk Hm Hm' Heq. pose proof (decrypt_encrypt m ad nonce key Hn Hk Hm) as H1.
  rewrite Heq, decrypt_encrypt in H1 by done. congruence.
Qed.

Lemma dek_frame_shape frame h f :
  Forall is_u8 frame -> parse_prefix frame = Ok (h, f) -> DEK_OVERHEAD <= len frame ->
  exists en env bn body, frame = serialize_prefix h f ++ en ++ env ++ bn ++ body /\
    len en = NPUBBYTES /\ len env = ENVELOPE_LEN /\ len bn = NPUBBYTES /\
    len body = len frame - DEK_OVERHEAD + ABYTES.
Proof.
  intros Hu Hp Hl. destruct (serialize_parse_prefix _ _ _ Hu Hp) as [_ Hpre].
  exists (take 12 (drop 9 frame)), (take 48 (drop 12 (drop 9 frame))),
    (take 12 (drop 48 (drop 12 (drop 9 frame)))), (drop 12 (drop 48 (drop 12 (drop 9 frame)))).
  split; [by rewrite Hpre, !take_drop|].
  rewrite !len_take, !len_drop. geometry. lia.
Qed.

Lemma dek_accepts_parses me m frame h f key en dek bn payload :
  dek_accepts me m frame h f key en dek bn payload -> parse_prefix frame = Ok (h, f).
Proof. intros [-> Hh Hf _ _ _ _ _ _ _]. by apply parse_serialize_prefix. Qed.

(** The pieces of a frame determine which sealed frame it can be. *)
Lemma dek_accepts_inv me m h f en env bn body h' f' key en' dek bn' payload :
  len en = NPUBBYTES -> len env = ENVELOPE_LEN -> len bn = NPUBBYTES ->
  wf_header h -> wf_flags f -> len key = KEYBYTES ->
  dek_accepts me m (serialize_prefix h f ++ en ++ env ++ bn ++ body) h' f' key en' dek bn' payload ->
  h' = h /\ f' = f /\ en' = en /\ bn' = bn /\
  body = sealed_body (from_id h) (channel h) dek bn payload /\
  env = aes_encrypt dek (envelope_aad (serialize_prefix h f) bn (tag_of body)) en key.
Proof.
  intros Hen Henv Hbn Hh Hf Hk Ha. pose proof (dek_accepts_parses _ _ _ _ _ _ _ _ _ _ Ha) as Hp.
  rewrite parse_serialize_prefix in Hp by done. injection Hp as <- <-.
  destruct Ha as [Hfr _ _ _ _ _ Hen' [Hdl _] Hbn' _]. unfold fanout_frame in Hfr.
  apply app_inv_head in Hfr.
  apply app_inj_1 in Hfr as [-> Hfr]; [|unfold len in *; lia].
  apply app_inj_1 in Hfr as [-> Hfr]; cycle 1.
  { apply Nat2Z.inj. change (len env = len (aes_encrypt dek
      (envelope_aad (serialize_prefix h f) bn'
        (tag_of (sealed_body (from_id h) (channel h) dek bn' payload))) en' key)).
    rewrite encrypt_len, Hdl by done. by rewrite Henv. }
  apply app_inj_1 in Hfr as [-> ->]; [done|unfold len in *; lia].
Qed.

(** A frame that fails one of the gates is not acceptable. *)
Lemma not_dek_accepts me m frame h f :
  parse_prefix frame = Ok (h, f) ->
  to_id h <> me \/ mode f <> Dek \/ len frame < DEK_OVERHEAD \/ m !! (from_id h, epoch f) = None ->
  (forall slot key, m !! slot = Some key -> len key = KEYBYTES) ->
  forall h' f' key en dek bn payload, ~ dek_accepts me m frame h' f' key en dek bn payload.
Proof.
  intros Hp Hbad Hkl h' f' key en dek bn payload Ha.
  pose proof (dek_accepts_parses _ _ _ _ _ _ _ _ _ _ Ha) as Hp'. rewrite Hp in Hp'. inv_ok.
  destruct Ha as [Hfr _ _ ? ? Hk Hen [Hd _] Hbn _]. destruct Hbad as [?|[?|[Hs|?]]]; try congruence.
  rewrite Hfr, fanout_frame_len in Hs by eauto. pose proof (len_nonneg payload). lia.
Qed.

(** Envelope, then body: either both are encryptions and the payload comes
    out, or one of the two verdicts is [AuthFailed] and no pair of plaintexts
    explains the bytes. *)
Lemma unseal_cases key aad en env bn fid ch body :
  len key = KEYBYTES -> len en = NPUBBYTES -> len env = ENVELOPE_LEN -> len bn = NPUBBYTES ->
  ABYTES <= len body ->
  (exists dek payload, (len dek = KEYBYTES /\ Forall is_u8 dek) /\ Forall is_u8 payload /\
     env = aes_encrypt dek aad en key /\ body = sealed_body fid ch dek bn payload /\
     aead_decrypt key en aad env (zeros KEYBYTES) = (Ok KEYBYTES, dek) /\
     aead_decrypt dek bn (body_aad fid ch) body (zeros (len body - ABYTES)) = (Ok (len payload), payload)) \/
  ((forall dek payload, Forall is_u8 dek -> len dek = KEYBYTES -> Forall is_u8 payload ->
      env = aes_encrypt dek aad en key -> body = sealed_body fid ch dek bn payload -> False) /\
   ((exists o, aead_decrypt key en aad env (zeros KEYBYTES) = (Err AuthFailed, o)) \/
    (exists dek o, aead_decrypt key en aad env (zeros KEYBYTES) = (Ok KEYBYTES, dek) /\
       aead_decrypt dek bn (body_aad fid ch) body (zeros (len body - ABYTES)) = (Err AuthFailed, o)))).
Proof.
  intros Hk Hen Henv Hbn Hb.
  destruct (aead_decrypt_cases key en aad env (zeros KEYBYTES))
    as [(dek & He & Hu & Hl & Hd)|[Hnot Hd]]; [done|done|by rewrite Henv|by rewrite Henv| |].
  2: { right. split; [naive_solver|eauto]. }
  rewrite Henv in Hl. change (ENVELOPE_LEN - ABYTES) with KEYBYTES in Hl.
  rewrite (drop_ge (zeros KEYBYTES)), app_nil_r, Hl in Hd.
  2: { unfold zeros. rewrite length_replicate. unfold len in Hl. lia. }
  destruct (aead_decrypt_cases dek bn (body_aad fid ch) body (zeros (len body - ABYTES)))
    as [(payload & Hbo & Hup & Hlp & Hdp)|[Hnotp Hdp]];
    [done|done|done|rewrite len_zeros; lia| |].
  - left. exists dek, payload. rewrite (drop_ge (zeros _)), app_nil_r in Hdp; [by split_and!|].
    unfold zeros. rewrite length_replicate. unfold len in *. lia.
  - right. split; [|eauto]. intros dek' payload Hu' Hl' Hup He' Hbo.
    assert (dek' = dek) as -> by (apply (encrypt_inj dek' dek aad en key); congruence).
    by apply (Hnotp payload Hup).
Qed.

(** [open_dek] behind a parsed prefix of a reusable-DEK frame. *)
Lemma open_dek_cases s ks frame h f w :
  ks_inv s ks -> Forall is_u8 frame -> parse_prefix frame = Ok (h, f) -> mode f = Dek ->
  (exists key en dek bn payload,
     dek_accepts (local_id ks) (view s ks) frame h f key en dek bn payload /\
     open_dek s ks frame h f w = (Ok (h, f, payload), w)) \/
  ((forall h' f' key en dek bn payload,
      ~ dek_accepts (local_id ks) (view s ks) frame h' f' key en dek bn payload) /\
   exists e, (forall x, e <> OpenSodium x) /\
     open_dek s ks frame h f w =
       (Err e, (record_reject (open_reason (local_id ks) (view s ks) frame) w).2)).
Proof.
  intros Hi Hu Hp Hm. destruct (parse_prefix_wf _ _ _ Hu Hp) as [Hh Hf].
  assert (Hkl : forall slot key, view s ks !! slot = Some key -> len key = KEYBYTES).
  { intros slot key Hv. by destruct (view_key _ _ _ _ Hi Hv) as (? & _ & _ & ?). }
  unfold open_dek, open_reason. rewrite Hp, Hm.
  destruct (Z.ltb_spec (len frame) DEK_OVERHEAD) as [Hl|Hl].
  { right. rewrite reject_ret. split; [eapply not_dek_accepts; eauto|by eexists; split; [|done]]. }
  destruct (Z.eqb_spec (to_id h) (local_id ks)) as [Hto|Hto]; simpl.
  2: { right. rewrite reject_ret. split; [eapply not_dek_accepts; eauto|by eexists; split; [|done]]. }
  destruct (view s ks !! (from_id h, epoch f)) as [key|] eqn:Hv; cycle 1.
  { right. unfold key_for_receive. rewrite (view_no_key s), reject_ret, (peer_known_knows s) by done.
    split; [eapply not_dek_accepts; eauto|by eexists; split; [|done]]. }
  destruct (view_key _ _ _ _ Hi Hv) as (stored & Hg & Harr & Hk).
  destruct (dek_frame_shape _ _ _ Hu Hp Hl) as (en & env & bn & body & Hfr & Hen & Henv & Hbn & Hb).
  destruct (dek_regions_shape (serialize_prefix h f) en env bn body) as [Hr1 Hr2];
    [apply serialize_prefix_len|done..|rewrite Hb; lia|]. rewrite <- Hfr in Hr1, Hr2.
  unfold key_for_receive. rewrite Hg, Hr1, bindr_ret_ok. unfold psk. rewrite Harr, Hr2.
  cbn [ok_or map_err]. rewrite !bindr_ret_ok. replace (len frame - DEK_OVERHEAD) with (len body - ABYTES) by lia.
  destruct (unseal_cases key (envelope_aad (serialize_prefix h f) bn (tag_of body)) en env bn
    (from_id h) (channel h) body)
    as [(dek & payload & Hd & Hup & He & Hbo & Hd1 & Hd2)|[Hnot Hverdict]]; try done; try lia.
  - left. rewrite Hd1, bindr_ret_ok, Hd2. exists key, en, dek, bn, payload. rewrite to_nat_len, take_ge by done. split; [|done].
    split; try done. unfold fanout_frame. by rewrite <- Hbo, <- He.
  - right. split.
    + intros h' f' key' en' dek bn' payload Ha. pose proof (dacc_key _ _ _ _ _ _ _ _ _ _ Ha) as Hk'.
      pose proof Ha as Ha'. rewrite Hfr in Ha.
      apply dek_accepts_inv in Ha as (-> & -> & -> & -> & Hbo & He); try done; [|by eauto].
      rewrite Hv in Hk'. injection Hk' as <-. destruct Ha' as [_ _ _ _ _ _ _ [Hdl Hdu] _ Hpu].
      by apply (Hnot dek payload).
    + exists OpenAuthFailed. split; [done|].
      by destruct Hverdict as [[o ->]|(dek & o & -> & Hd2)]; rewrite ?bindr_ret_ok, ?Hd2, reject_ret.
Qed.

Lemma accepts_payload_len s ks frame h f key nonce payload :
  ks_inv s ks -> accepts (local_id ks) (view s ks) frame h f key nonce payload ->
  len frame = len payload + OVERHEAD.
Proof.
  intros Hi Ha. destruct (view_key _ _ _ _ Hi (acc_key _ _ _ _ _ _ _ _ Ha)) as (_ & _ & _ & Hk).
  rewrite (acc_frame _ _ _ _ _ _ _ _ Ha). apply standard_frame_len; [done|apply Ha].
Qed.

(** A sealed reusable-DEK frame opens. *)
Lemma open_dek_accepts s ks frame h f key en dek bn payload w :
  ks_inv s ks -> dek_accepts (local_id ks) (view s ks) frame h f key en dek bn payload ->
  open_dek s ks frame h f w = (Ok (h, f, payload), w).
Proof.
  intros Hi [Hfr Hh Hf Hto Hm Hv Hen [Hdl Hdu] Hbn Hu].
  destruct (view_key _ _ _ _ Hi Hv) as (stored & Hg & Harr & Hk).
  assert (len frame = len payload + DEK_OVERHEAD) as Hl by (rewrite Hfr; by apply fanout_frame_len).
  unfold open_dek. rewrite (proj2 (Z.ltb_ge _ _)) by (pose proof (len_nonneg payload); lia).
  rewrite Hto, Z.eqb_refl. cbn [negb]. unfold key_for_receive. rewrite Hg.
  set (body := sealed_body (from_id h) (channel h) dek bn payload) in *.
  assert (len body = len payload + ABYTES) as Hb by (by apply sealed_body_len).
  set (aad := envelope_aad (serialize_prefix h f) bn (tag_of body)) in *.
  destruct (dek_regions_shape (serialize_prefix h f) en (aes_encrypt dek aad en key) bn body)
    as [Hr1 Hr2];
    [apply serialize_prefix_len|done|by rewrite encrypt_len, Hdl|done
    |rewrite Hb; pose proof (len_nonneg payload); lia|].
  unfold fanout_frame in Hfr. fold body aad in Hfr. rewrite <- Hfr in Hr1, Hr2. fold aad in Hr1.
  rewrite Hr1, bindr_ret_ok. unfold psk. rewrite Harr. cbn [ok_or map_err]. rewrite bindr_ret_ok.
  rewrite aead_decrypt_encrypt; [|done..|by rewrite Hdl]. rewrite Hr2. cbn [ok_or].
  rewrite bindr_ret_ok, (drop_ge (zeros KEYBYTES)), app_nil_r.
  2: { unfold zeros. rewrite length_replicate. unfold len in Hdl. lia. }
  unfold body, sealed_body. rewrite Hl.
  replace (len payload + DEK_OVERHEAD - DEK_OVERHEAD) with (len payload) by lia.
  rewrite aead_decrypt_encrypt; [|done..|rewrite len_zeros; [done|apply len_nonneg]].
  by rewrite to_nat_len, take_app_length.
Qed.

(** Both modes behind the dispatch. *)
Lemma open_delivers s ks frame h f payload w :
  ks_inv s ks -> delivers (local_id ks) (view s ks) frame h f payload ->
  open s ks frame w = (Ok (h, f, payload), w).
Proof.
  intros Hi [(key & nonce & Ha)|(key & en & dek & bn & Ha)]; unfold open.
  - rewrite (accepts_parses _ _ _ _ _ _ _ _ Ha), bool_decide_true by apply Ha. unfold bind.
    pose proof (accepts_payload_len _ _ _ _ _ _ _ _ Hi Ha) as Hl.
    pose proof (len_nonneg payload).
    rewrite (Standard.open_accepts s ks frame _ w h f key nonce payload); [|done|done|].
    + by rewrite to_nat_len, take_app_length.
    + unfold saturating_sub. rewrite len_zeros; lia.
  - rewrite (dek_accepts_parses _ _ _ _ _ _ _ _ _ _ Ha), bool_decide_false.
    + by apply (open_dek_accepts s ks frame h f key en dek bn).
    + rewrite (dacc_mode _ _ _ _ _ _ _ _ _ _ Ha). done.
Qed.

Lemma drop_reason_standard me m frame h f :
  parse_prefix frame = Ok (h, f) -> mode f = Standard ->
  drop_reason me m frame = Some (open_reason me m frame).
Proof.
  intros Hp Hm. unfold drop_reason, open_reason. rewrite Hp, Hm.
  repeat case_match; done.
Qed.

(** Every frame is delivered, with the counters untouched, or rejected under
    exactly one reason. *)
Lemma dispatch_cases s ks frame w :
  ks_inv s ks -> Forall is_u8 frame ->
  (exists h f payload, delivers (local_id ks) (view s ks) frame h f payload /\
     open s ks frame w = (Ok (h, f, payload), w)) \/
  ((forall h f payload, ~ delivers (local_id ks) (view s ks) frame h f payload) /\
   exists e, (forall x, e <> OpenSodium x) /\
     open s ks frame w =
       (Err e, (record_reject (open_reason (local_id ks) (view s ks) frame) w).2)).
Proof.
  intros Hi Hu.
  assert (Hkl : forall slot key, view s ks !! slot = Some key -> len key = KEYBYTES).
  { intros slot key Hv. by destruct (view_key _ _ _ _ Hi Hv) as (? & _ & _ & ?). }
  destruct (parse_prefix frame) as [[h f]|e] eqn:Hp.
  2: { right. split.
       - intros h f payload [(key & nonce & Ha)|(key & en & dek & bn & Ha)];
           [apply accepts_parses in Ha|apply dek_accepts_parses in Ha]; congruence.
       - exists (Prefix e). split; [done|]. unfold open, open_reason. by rewrite Hp, reject_ret. }
  destruct (mode f) eqn:Hm.
  - destruct (Standard.open_cases s ks frame (zeros (saturating_sub (len frame) OVERHEAD)) w Hi Hu)
      as [(h' & f' & key & nonce & payload & Ha & Ho)|(Hnot & o & _ & Ho)].
    { unfold saturating_sub. rewrite len_zeros; lia. }
    + left. assert (delivers (local_id ks) (view s ks) frame h' f' payload) as Hd by (left; eauto).
      exists h', f', payload. split; [done|]. by apply open_delivers.
    + right. split.
      * intros h' f' payload [(key & nonce & Ha)|(key & en & dek & bn & Ha)]; [by eapply Hnot|].
        eapply not_dek_accepts; eauto. right. left. congruence.
      * exists StandardRejected. split; [done|]. unfold open. rewrite Hp, bool_decide_true by done.
        unfold bind. rewrite Ho, (drop_reason_standard _ _ _ _ _ Hp Hm). done.
  - unfold open. rewrite Hp, bool_decide_false by congruence.
    destruct (open_dek_cases s ks frame h f w Hi Hu Hp Hm)
      as [(key & en & dek & bn & payload & Ha & Ho)|(Hnot & Ho)].
    + left. exists h, f, payload. split; [right; by exists key, en, dek, bn|done].
    + right. split; [|done].
      intros h' f' payload [(key & nonce & Ha)|(key & en & dek & bn & Ha)]; [|by eapply Hnot].
      eapply not_accepts; eauto. right. left. congruence.
Qed.

(** ** Fanout *)

(** The key a recipient is served with: its newest epoch. *)
Definition served (ks : KeyStore) (r : Z) (sel : Z * Epoch * StoredKey) : Prop :=
  sel.1.1 = r /\ key_for_send_current ks r = Some (sel.1.2, sel.2).

Definition known_peer (ks : KeyStore) (r : Z) : Prop := is_Some (key_for_send_current ks r).

(** The loop, from any point: it stops at the first recipient that was seen
    before or has no key, and otherwise selects every one, in order. *)
Lemma select_loop_spec ks rs seen sel :
  match select_loop ks rs seen sel with
  | Ok sel' => NoDup rs /\ Forall (fun r => r ∉ seen) rs /\
      exists picks, sel' = sel ++ picks /\ Forall2 (served ks) rs picks
  | Err (DuplicateRecipient p) => exists a b, rs = a ++ p :: b /\ (p ∈ a \/ p ∈ seen) /\
      NoDup a /\ Forall (fun r => r ∉ seen) a /\ Forall (known_peer ks) a
  | Err SealNoKey => exists a p b, rs = a ++ p :: b /\ NoDup (a ++ [p]) /\
      Forall (fun r => r ∉ seen) (a ++ [p]) /\ Forall (known_peer ks) a /\ key_for_send_current ks p = None
  | Err _ => False
  end.
Proof.
  clear dependent H.
  revert seen sel. induction rs as [|r rs IH]; intros seen sel; simpl.
  { split; [constructor|]. split; [constructor|]. exists []. by rewrite app_nil_r. }
  assert (Hstep : forall l, NoDup l -> Forall (fun x => x ∉ ({[r]} ∪ seen : gset Z)) l ->
    r ∉ seen -> NoDup (r :: l) /\ Forall (fun x => x ∉ seen) (r :: l)).
  { intros l Hnd Hout Hr. rewrite Forall_forall in Hout. split.
    - constructor; [|done]. intros Hx. specialize (Hout _ Hx). set_solver.
    - constructor; [done|]. apply Forall_forall. intros x Hx. specialize (Hout _ Hx). set_solver. }
  case_bool_decide as Hin.
  { exists [], rs. split_and!; [done|by right|constructor..]. }
  destruct (key_for_send_current ks r) as [[e k]|] eqn:Hk.
  2: { exists [], r, rs. split_and!; [done|apply NoDup_singleton|by repeat constructor|constructor|done]. }
  assert (known_peer ks r) as Hknown by (unfold known_peer; rewrite Hk; eauto).
  specialize (IH ({[r]} ∪ seen) (sel ++ [(r, e, k)])).
  destruct (select_loop ks rs _ _) as [sel'|[| | |p|]]; try done.
  - destruct IH as (Hnd & Hout & picks & -> & Hp). destruct (Hstep rs Hnd Hout Hin).
    split_and!; try done. exists ((r, e, k) :: picks). rewrite <- app_assoc. split; [done|].
    by constructor.
  - destruct IH as (a & p & b & -> & Hnd & Hout & Ha & Hp). destruct (Hstep _ Hnd Hout Hin).
    exists (r :: a), p, b. split_and!; try done. by constructor.
  - destruct IH as (a & b & -> & Hp & Hnd & Hout & Ha). destruct (Hstep _ Hnd Hout Hin).
    exists (r :: a), b. split_and!; try done; [|by constructor]. set_solver.
Qed.

(** The three random draws of a fanout, by their position in the stream. *)
Definition nonce_at (i : nat) : bytes := write_front (zeros NPUBBYTES) (randombytes_buf i NPUBBYTES).
Definition key_at (i : nat) : bytes := write_front (zeros KEYBYTES) (randombytes_buf i KEYBYTES).

Lemma nonce_at_len i : len (nonce_at i) = NPUBBYTES.
Proof. unfold nonce_at. by rewrite len_write_front. Qed.

Lemma key_at_len i : len (key_at i) = KEYBYTES.
Proof. unfold key_at. by rewrite len_write_front. Qed.

Lemma random_nonces_run {A} (rs : list A) s :
  random_nonces rs s = (nonce_at <$> seq (draws s) (length rs), set_draws (draws s + length rs) s).
Proof.
  clear AS.
  revert s. induction rs as [|r rs IH]; intros s; simpl.
  { unfold ret. rewrite Nat.add_0_r. by destruct s. }
  unfold bind, random_nonce, randombytes_fill. cbn [Z.eqb NPUBBYTES]. rewrite IH. simpl.
  unfold ret. by rewrite Nat.add_succ_r.
Qed.

(** One frame of the loop is the specified frame. *)
Lemma fanout_one_ok s lid ch dek bn payload to_id epoch stored en :
  len dek = KEYBYTES -> len bn = NPUBBYTES -> len en = NPUBBYTES -> len (expose s stored) = KEYBYTES ->
  fanout_one s lid ch dek (bn ++ sealed_body lid ch dek bn payload) (to_id, epoch, stored) en =
    Ok (MkFanout to_id epoch
          (fanout_frame (expose s stored) (MkHeader lid to_id ch) (MkFlags Dek epoch) en dek bn payload)).
Proof.
  intros Hd Hb He Hk. unfold fanout_one. set (body := sealed_body _ _ _ _ _).
  assert (len body = len payload + ABYTES) as Hbl by (by apply sealed_body_len).
  pose proof (len_nonneg payload).
  rewrite take_app_le, take_ge by (unfold len, NPUBBYTES in *; lia).
  replace (drop (length (bn ++ body) - Z.to_nat ABYTES) (bn ++ body)) with (tag_of body).
  2: { unfold tag_of. rewrite length_app, drop_app_ge by (unfold len, ABYTES in *; lia).
       f_equal. unfold len, ABYTES in *. lia. }
  rewrite (try_into_array_id NPUBBYTES bn) by done. cbn [ok_or rbind].
  rewrite (try_into_array_id ABYTES); [|unfold tag_of; rewrite len_drop; unfold len, ABYTES in *; lia].
  cbn [ok_or rbind]. unfold psk. rewrite (try_into_array_id KEYBYTES) by done.
  cbn [ok_or map_err rbind].
  rewrite aead_encrypt_fits; [|done|done|by rewrite Hd|by rewrite Hd].
  rewrite write_front_exact; [done|]. rewrite encrypt_len, Hd by done. done.
Qed.

Definition fanout_entry (s : SodiumState) (lid ch : Z) (dek bn payload : bytes)
    (sel : Z * Epoch * StoredKey) (en : bytes) : FanoutFrame :=
  MkFanout sel.1.1 sel.1.2
    (fanout_frame (expose s sel.2) (MkHeader lid sel.1.1 ch) (MkFlags Dek sel.1.2) en dek bn payload).

Lemma fanout_loop_ok s lid ch dek bn payload zipped frames :
  len dek = KEYBYTES -> len bn = NPUBBYTES ->
  Forall (fun x => len (expose s x.1.2) = KEYBYTES /\ len x.2 = NPUBBYTES) zipped ->
  fanout_loop s lid ch dek (bn ++ sealed_body lid ch dek bn payload) zipped frames =
    Ok (frames ++ ((fun x => fanout_entry s lid ch dek bn payload x.1 x.2) <$> zipped)).
Proof.
  intros Hd Hb. revert frames. induction zipped as [|[[[to_id e] k] en] rest IH]; intros frames Hall.
  { simpl. by rewrite app_nil_r. }
  apply Forall_cons in Hall as [[Hk He] Hall]. simpl in Hk, He.
  cbn [fanout_loop]. rewrite fanout_one_ok by done. cbn [rbind]. rewrite IH by done.
  by rewrite <- app_assoc.
Qed.

Lemma select_fanout_ok ks rs payload sel :
  select_fanout ks rs payload = Ok sel ->
  rs <> [] /\ len payload <= DEK_MAX_PAYLOAD /\ NoDup rs /\ Forall2 (served ks) rs sel.
Proof.
  clear dependent H.
  unfold select_fanout. destruct rs as [|r rs]; [done|].
  destruct (Z.ltb_spec DEK_MAX_PAYLOAD (len payload)); [done|]. intros Hs.
  pose proof (select_loop_spec ks (r :: rs) ∅ []) as Hspec. rewrite Hs in Hspec.
  destruct Hspec as (Hnd & _ & picks & -> & Hp). by split_and!.
Qed.

Lemma served_key s ks r sel :
  ks_inv s ks -> served ks r sel ->
  view s ks !! (r, sel.1.2) = Some (expose s sel.2) /\ len (expose s sel.2) = KEYBYTES /\
  wf_epoch sel.1.2 /\ forall e, is_Some (view s ks !! (r, e)) -> bits e <= bits sel.1.2.
Proof.
  intros Hi [_ Hc]. pose proof (send_current_spec s ks r Hi) as Hs. rewrite Hc in Hs.
  destruct Hs as (Hv & Hw & Hmax). split; [done|]. split; [|done].
  by destruct (view_key _ _ _ _ Hi Hv) as (_ & _ & _ & ?).
Qed.

(** A successful selection always seals: one draw per recipient for the
    envelope nonces, then the DEK, then the body nonce. *)
Lemma seal_fanout_run s ks rs ch payload sel :
  ks_inv s ks -> select_fanout ks rs payload = Ok sel ->
  seal_fanout ks rs ch payload s =
    (Ok ((fun x => fanout_entry s (local_id ks) ch (key_at (draws s + length rs))
                     (nonce_at (S (draws s + length rs))) payload x.1 x.2)
           <$> zip sel (nonce_at <$> seq (draws s) (length rs))),
     set_draws (S (S (draws s + length rs))) s).
Proof.
  intros Hi Hs. destruct (select_fanout_ok _ _ _ _ Hs) as (_ & Hmax & _ & Hserved).
  unfold seal_fanout. rewrite Hs. unfold bind at 1. rewrite random_nonces_run.
  unfold bind, random_key, random_nonce, randombytes_fill. cbn [Z.eqb KEYBYTES NPUBBYTES].
  unfold gets. cbn [draws set_draws]. set (s' := set_draws _ _).
  fold (key_at (draws s + length rs)) (nonce_at (S (draws s + length rs))).
  f_equal. unfold seal_fanout_core.
  rewrite aead_encrypt_fits; [|apply key_at_len|apply nonce_at_len|..].
  2: { rewrite len_zeros; [done|]. pose proof (len_nonneg payload). geometry. lia. }
  2: { geometry. width. }
  rewrite write_front_exact.
  2: { rewrite encrypt_len by (apply key_at_len || apply nonce_at_len).
       rewrite len_zeros; [done|]. pose proof (len_nonneg payload). geometry. lia. }
  fold (sealed_body (local_id ks) ch (key_at (draws s + length rs))
    (nonce_at (S (draws s + length rs))) payload).
  rewrite (fanout_loop_ok s'); [done|apply key_at_len|apply nonce_at_len|].
  apply Forall_forall. intros [x en] Hin. pose proof Hin as Hin2.
  apply elem_of_zip_l in Hin. apply elem_of_zip_r in Hin2.
  apply list_elem_of_fmap in Hin2 as (i & -> & _). split; [|apply nonce_at_len].
  apply list_elem_of_lookup in Hin as [j Hj].
  destruct (Forall2_lookup_r _ _ _ _ _ Hserved Hj) as (r & _ & Hr).
  by apply (served_key s ks r x Hi Hr).
Qed.

(** The i-th frame of a fanout. *)
Lemma fanout_lookup s ks rs ch payload sel frames s' i r :
  ks_inv s ks -> select_fanout ks rs payload = Ok sel ->
  seal_fanout ks rs ch payload s = (Ok frames, s') -> rs !! i = Some r ->
  exists e key, view s ks !! (r, e) = Some key /\ wf_epoch e /\
    (forall e', is_Some (view s ks !! (r, e')) -> bits e' <= bits e) /\
    frames !! i = Some (MkFanout r e
      (fanout_frame key (MkHeader (local_id ks) r ch) (MkFlags Dek e) (nonce_at (draws s + i))
         (key_at (draws s + length rs)) (nonce_at (S (draws s + length rs))) payload)).
Proof.
  intros Hi Hs Hrun Hr. rewrite (seal_fanout_run s ks rs ch payload sel) in Hrun by done.
  injection Hrun as <- _. destruct (select_fanout_ok _ _ _ _ Hs) as (_ & _ & _ & Hserved).
  destruct (Forall2_lookup_l _ _ _ _ _ Hserved Hr) as ([[r' e] k] & Hk & Hsv).
  destruct (served_key s ks r _ Hi Hsv) as (Hv & _ & Hw & Hmax). destruct Hsv as [Heq _].
  simpl in Heq, Hv, Hw, Hmax. subst r'.
  exists e, (expose s k). split_and!; try done.
  rewrite list_lookup_fmap. assert ((zip sel (nonce_at <$> seq (draws s) (length rs))) !! i =
    Some ((r, e, k), nonce_at (draws s + i))) as ->; [|done].
  apply lookup_zip_Some. split; [done|]. rewrite list_lookup_fmap, lookup_seq_lt; [done|].
  by eapply lookup_lt_Some.
Qed.

(** One-recipient sealing under an installed key. *)
Lemma dek_seal_run s ks to_id ch e payload key :
  ks_inv s ks -> len payload <= MAX_PAYLOAD -> view s ks !! (to_id, e) = Some key ->
  exists nonce s', random_nonce s = (nonce, s') /\ len nonce = NPUBBYTES /\ heap s' = heap s /\
    seal ks to_id ch e payload s =
      (Ok (standard_frame key (MkHeader (local_id ks) to_id ch) (MkFlags Standard e) nonce payload), s').
Proof.
  intros Hi Hl Hk. destruct (Standard.seal_run s ks to_id ch e payload
    (zeros (len payload + OVERHEAD)) Hi) as (nonce & s' & Hr & Hn & Hh & Hd & Hv & Hi' & Hrun).
  exists nonce, s'. split_and!; try done. pose proof (len_nonneg payload).
  unfold seal, bind, ret. rewrite (proj2 (Z.ltb_ge _ _)), Hrun, seal_core_spec, Hv by done.
  rewrite !decide_False by (rewrite ?len_zeros; geometry; lia). rewrite Hk, drop_ge, app_nil_r; [done|].
  unfold zeros. rewrite length_replicate. lia.
Qed.

(** The outermost authenticated region of a frame, cut out of its bytes: nonce,
    associated data and ciphertext. *)
Definition protected (m : Mode) (frame : bytes) : bytes * bytes * bytes :=
  match m with
  | Standard => (take 12 (drop 9 frame), take 9 frame, drop 21 frame)
  | Dek => (take 12 (drop 9 frame),
            envelope_aad (take 9 frame) (take 12 (drop 69 frame)) (tag_of frame),
            take 48 (drop 21 frame))
  end.

(** The library verifies such a region under a key. *)
Definition verifies (key : bytes) (region : bytes * bytes * bytes) : Prop :=
  let '(nonce, ad, ct) := region in
  exists m, crypto_aead_aes256gcm_decrypt ct ad nonce key = (0, len m, m).

Lemma tag_of_app l body : ABYTES <= len body -> tag_of (l ++ body) = tag_of body.
Proof.
  intros Hb. assert (16 <= length body)%nat by (unfold len, ABYTES in Hb; lia).
  unfold tag_of. change (Z.to_nat ABYTES) with 16%nat.
  rewrite length_app, (drop_app_ge l) by lia. f_equal. lia.
Qed.

(** A delivered frame is one whose region verifies under the installed key. *)
Lemma delivers_verifies me m frame h f payload :
  (forall slot key, m !! slot = Some key -> len key = KEYBYTES) ->
  delivers me m frame h f payload ->
  exists key, m !! (from_id h, epoch f) = Some key /\ verifies key (protected (mode f) frame).
Proof.
  intros Hkl Hd.
  assert (length (serialize_prefix h f) = 9%nat) as Hp.
  { pose proof (serialize_prefix_len h f) as Hp. unfold len, PREFIX_LEN in Hp. lia. }
  pose proof (fun k => take_app_length' (serialize_prefix h f) k 9 (eq_sym Hp)) as Tp.
  pose proof (fun k => drop_app_length' (serialize_prefix h f) k 9 (eq_sym Hp)) as Dp.
  destruct Hd as [(key & nonce & A)|(key & en & dek & bn & A)].
  - destruct A as [-> Hh Hf _ Hm Hk Hn Hu]. exists key. split; [done|]. rewrite Hm.
    assert (length nonce = 12%nat) as Hn' by (unfold len, NPUBBYTES in Hn; lia).
    unfold standard_frame. cbn [protected verifies]. exists payload.
    rewrite Tp, Dp, take_app_length' by done.
    rewrite app_assoc, drop_app_length' by (rewrite length_app; lia).
    apply decrypt_encrypt; eauto.
  - destruct A as [-> Hh Hf _ Hm Hk Hen [Hdl Hdu] Hbn Hu]. exists key. split; [done|]. rewrite Hm.
    unfold fanout_frame. set (body := sealed_body _ _ _ _ _). set (env := aes_encrypt dek _ _ _).
    assert (length env = 48%nat) as He.
    { assert (len env = 48) as He by (unfold env; rewrite encrypt_len, Hdl by eauto; done). unfold len in He. lia. }
    assert (length en = 12%nat /\ length bn = 12%nat) as [Hen' Hbn'] by (unfold len, NPUBBYTES in *; lia).
    assert (ABYTES <= len body) as Hb.
    { unfold body, sealed_body. rewrite encrypt_len by done. pose proof (len_nonneg payload). lia. }
    cbn [protected verifies]. exists dek.
    replace (tag_of (serialize_prefix h f ++ en ++ env ++ bn ++ body)) with (tag_of body)
      by (by rewrite !app_assoc, tag_of_app).
    rewrite Tp, Dp, (take_app_length' en) by done.
    rewrite (app_assoc (serialize_prefix h f)).
    pose proof (fun k => drop_app_length' (serialize_prefix h f ++ en) k 21) as D21.
    rewrite D21, (take_app_length' env) by (rewrite ?length_app; lia).
    rewrite (app_assoc _ env). pose proof (fun k => drop_app_length' ((serialize_prefix h f ++ en) ++ env) k 69) as D69.
    rewrite D69, (take_app_length' bn) by (rewrite ?length_app; lia).
    apply decrypt_encrypt; eauto.
Qed.

Lemma open_verifies s ks frame w h f payload w' :
  ks_inv s ks -> Forall is_u8 frame -> open s ks frame w = (Ok (h, f, payload), w') ->
  exists key, view s ks !! (from_id h, epoch f) = Some key /\ verifies key (protected (mode f) frame).
Proof.
  intros Hi Hu Ho. destruct (dispatch_cases s ks frame w Hi Hu)
    as [(h' & f' & p' & Hd & He)|(_ & e & _ & He)]; rewrite He in Ho; [|done].
  injection Ho as -> -> -> _. eapply delivers_verifies; [|exact Hd].
  intros slot key Hk. by destruct (view_key _ _ _ _ Hi Hk) as (_ & _ & _ & ?).
Qed.

(** An opened frame starts with the prefix it is reported under. *)
Lemma open_prefix s ks frame w h f payload w' :
  ks_inv s ks -> Forall is_u8 frame -> open s ks frame w = (Ok (h, f, payload), w') ->
  wf_header h /\ wf_flags f /\ take 9 frame = serialize_prefix h f.
Proof.
  intros Hi Hu Ho. destruct (dispatch_cases s ks frame w Hi Hu)
    as [(h' & f' & p' & Hd & He)|(_ & e & _ & He)]; rewrite He in Ho; [|done].
  injection Ho as -> -> -> _. pose proof (serialize_prefix_len h f) as Hl.
  destruct Hd as [(key & nonce & [-> ? ? _ _ _ _ _])|(key & en & dek & bn & [-> ? ? _ _ _ _ _ _ _])];
    (split_and!; [done..|]); unfold standard_frame, fanout_frame; apply take_app_length';
    unfold len, PREFIX_LEN in Hl; lia.
Qed.

Lemma fanout_frame_body key h f en dek bn payload :
  len key = KEYBYTES -> len en = NPUBBYTES -> len dek = KEYBYTES ->
  drop 69 (fanout_frame key h f en dek bn payload) =
    bn ++ sealed_body (from_id h) (channel h) dek bn payload.
Proof.
  intros Hk He Hd. unfold fanout_frame. set (body := sealed_body _ _ _ _ _).
  set (env := aes_encrypt _ _ _ _).
  assert (len env = ENVELOPE_LEN) as Henv by (unfold env; rewrite encrypt_len, Hd by done; done).
  replace (serialize_prefix h f ++ en ++ env ++ bn ++ body)
    with ((serialize_prefix h f ++ en ++ env) ++ bn ++ body) by (by rewrite <- !app_assoc).
  apply drop_app_length'. rewrite !length_app. pose proof (serialize_prefix_len h f).
  geometry. unfold len in *. lia.
Qed.

(** ** Claims *)

(** C1: receiving, both modes: given a byte string, [dek::open] delivers
    [(header, flags, payload)] if and only if the string is exactly the
    standard frame or the reusable-DEK frame of that payload, addressed to this
    node and sealed (for DEK: its envelope sealed) under the key installed for
    the claimed source and the wire epoch; the counters do not move. *)
Theorem dispatch_open_exact s ks frame w h f payload w' :
  ks_inv s ks -> Forall is_u8 frame ->
  open s ks frame w = (Ok (h, f, payload), w') <->
  delivers (local_id ks) (view s ks) frame h f payload /\ w' = w.
Proof.
  intros Hi Hu. split.
  - intros Ho. destruct (dispatch_cases s ks frame w Hi Hu)
      as [(h' & f' & p' & Hd & Ho')|(_ & e & _ & Ho')]; rewrite Ho in Ho'; [|done].
    by injection Ho' as -> -> -> ->.
  - intros [Hd ->]. by apply open_delivers.
Qed.

(** C25: rejecting, both modes: a byte string [dek::open] does not deliver moves
    exactly one reason counter, the one [open_reason] names (too short, bad
    flags, wrong length, wrong destination, unknown peer, unknown epoch or
    failed authentication); the impossible libsodium verdict never occurs, so
    no rejection goes uncounted.  A frame for another node is counted as
    [Plaintext] here too, although the comment on that reason in [stats.rs]
    reserves it for the addressing gate. *)
Theorem dispatch_open_rejects s ks frame w e w' :
  ks_inv s ks -> Forall is_u8 frame ->
  open s ks frame w = (Err e, w') ->
  w' = (record_reject (open_reason (local_id ks) (view s ks) frame) w).2 /\
  (forall x, e <> OpenSodium x) /\
  (forall h f payload, ~ delivers (local_id ks) (view s ks) frame h f payload).
Proof.
  intros Hi Hu Ho. destruct (dispatch_cases s ks frame w Hi Hu)
    as [(h' & f' & p' & _ & Ho')|(Hnot & e' & He & Ho')]; rewrite Ho in Ho'; [done|].
  by injection Ho' as -> ->.
Qed.

(** one-recipient sealing is always standard mode: [dek::seal] reports an
    oversized payload before drawing a nonce, reports a missing key, and
    otherwise returns exactly the [N + 37]-byte standard frame; the buffer and
    library error arms are unreachable. *)
Theorem dek_seal_exact s ks to_id channel epoch payload :
  ks_inv s ks ->
  let '(r, s') := seal ks to_id channel epoch payload s in
  heap s' = heap s /\
  if decide (MAX_PAYLOAD < len payload) then r = Err (Oversize (len payload)) /\ s' = s
  else match view s ks !! (to_id, epoch) with
       | None => r = Err SealNoKey
       | Some key => exists frame, r = Ok frame /\ len frame = len payload + 37 /\
           frame = standard_frame key (MkHeader (local_id ks) to_id channel)
                     (MkFlags Standard epoch) (random_nonce s).1 payload
       end.
Proof.
  intros Hi. destruct (view s ks !! (to_id, epoch)) as [key|] eqn:Hk.
  - destruct (Z.lt_ge_cases MAX_PAYLOAD (len payload)) as [Hl|Hl].
    { unfold seal, ret. by rewrite (proj2 (Z.ltb_lt _ _)), decide_True. }
    destruct (dek_seal_run s ks to_id channel epoch payload key Hi Hl Hk)
      as (nonce & s' & Hr & Hn & Hh & ->).
    destruct (view_key _ _ _ _ Hi Hk) as (_ & _ & _ & Hlen).
    rewrite decide_False, Hr by lia. split; [done|]. eexists. split; [done|].
    by rewrite standard_frame_len.
  - unfold seal. destruct (Z.ltb_spec MAX_PAYLOAD (len payload)) as [Hl|Hl].
    { unfold ret. by rewrite decide_True. }
    unfold bind, ret. destruct (Standard.seal_run s ks to_id channel epoch payload
      (zeros (len payload + OVERHEAD)) Hi) as (nonce & s' & Hr & Hn & Hh & Hd & Hv & Hi' & ->).
    rewrite seal_core_spec, Hv, Hk by done. pose proof (len_nonneg payload).
    by rewrite !decide_False by (rewrite ?len_zeros; geometry; lia).
Qed.

(** fanout selection is all or nothing, and the first fault decides: a
    recipient list is selected exactly when it is non-empty, fits a datagram,
    has no duplicate and every recipient has a key, and then each is served
    with its newest epoch in the order given; otherwise the error names the
    first recipient that repeats, or a first one without a key. *)
Theorem select_fanout_exact ks rs payload :
  match select_fanout ks rs payload with
  | Ok sel => rs <> [] /\ len payload <= DEK_MAX_PAYLOAD /\ NoDup rs /\ Forall2 (served ks) rs sel
  | Err EmptyRecipients => rs = []
  | Err (Oversize n) => rs <> [] /\ n = len payload /\ DEK_MAX_PAYLOAD < n
  | Err (DuplicateRecipient p) => exists a b, rs = a ++ p :: b /\ p ∈ a /\
      NoDup a /\ Forall (known_peer ks) a
  | Err SealNoKey => exists a p b, rs = a ++ p :: b /\ NoDup (a ++ [p]) /\
      Forall (known_peer ks) a /\ key_for_send_current ks p = None
  | Err (SealSodium _) => False
  end.
Proof.
  clear dependent H.
  destruct (select_fanout ks rs payload) as [sel|err] eqn:Hs; [by apply select_fanout_ok|].
  revert Hs. unfold select_fanout. destruct rs as [|r rs]; [by intros [= <-]|].
  destruct (Z.ltb_spec DEK_MAX_PAYLOAD (len payload)); [intros [= <-]; by split_and!|].
  intros Hs. pose proof (select_loop_spec ks (r :: rs) ∅ []) as Hspec. rewrite Hs in Hspec.
  destruct err as [n| | |p|]; try done.
  - destruct Hspec as (a & p & b & ? & ? & _ & ? & ?). exists a, p, b. by split_and!.
  - destruct Hspec as (a & b & ? & Hp & ? & _ & ?). exists a, b. split_and!; try done. set_solver.
Qed.

(** C27: fanout encrypts once: a sealed fanout has one frame per recipient, in
    order; the i-th is the [N + 97]-byte reusable-DEK frame addressed to the
    i-th recipient under its newest epoch and key; every frame ends in the same
    body, and each envelope nonce, the DEK and the body nonce come from
    distinct CSPRNG draws.  A fanout that fails draws nothing. *)
Theorem fanout_exact s ks rs channel payload r s' :
  ks_inv s ks -> seal_fanout ks rs channel payload s = (r, s') ->
  match r with
  | Err e => s' = s /\ select_fanout ks rs payload = Err e
  | Ok frames =>
      length frames = length rs /\ draws s' = (draws s + length rs + 2)%nat /\ heap s' = heap s /\
      exists dek body_nonce body,
        dek = key_at (draws s + length rs) /\ body_nonce = nonce_at (S (draws s + length rs)) /\
        body = sealed_body (local_id ks) channel dek body_nonce payload /\
        forall i to_id, rs !! i = Some to_id ->
          exists e key frame, frames !! i = Some (MkFanout to_id e frame) /\
            view s ks !! (to_id, e) = Some key /\
            (forall e', is_Some (view s ks !! (to_id, e')) -> bits e' <= bits e) /\
            frame = fanout_frame key (MkHeader (local_id ks) to_id channel) (MkFlags Dek e)
                      (nonce_at (draws s + i)) dek body_nonce payload /\
            len frame = len payload + 97 /\ drop 69 frame = body_nonce ++ body
  end.
Proof.
  intros Hi Hrun. destruct (select_fanout ks rs payload) as [sel|err] eqn:Hs.
  2: { unfold seal_fanout in Hrun. rewrite Hs in Hrun. by injection Hrun as <- <-. }
  pose proof Hrun as Hrun2. rewrite (seal_fanout_run s ks rs channel payload sel) in Hrun2 by done.
  destruct (select_fanout_ok _ _ _ _ Hs) as (_ & _ & _ & Hserved).
  apply Forall2_length in Hserved. injection Hrun2 as <- <-.
  split; [rewrite length_fmap, length_zip, length_fmap, length_seq; lia|].
  split; [simpl; lia|]. split; [done|]. eexists _, _, _. split; [done|]. split; [done|].
  split; [done|]. intros i to_id Hr.
  destruct (fanout_lookup _ _ _ _ _ _ _ _ _ _ Hi Hs Hrun Hr) as (e & key & Hv & Hw & Hmax & Hf).
  destruct (view_key _ _ _ _ Hi Hv) as (_ & _ & _ & Hk).
  exists e, key. eexists. split_and!; [exact Hf|done|done|done| |].
  - by rewrite fanout_frame_len by (done || apply nonce_at_len || apply key_at_len).
  - by apply fanout_frame_body; (apply nonce_at_len || apply key_at_len || done).
Qed.

(** C28: a frame cannot be re-addressed without a second verification.  If two
    frames that differ in their nine prefix bytes (source, destination, channel,
    flags) and agree on everything after them are both opened, at the same or at
    different nodes, then the library has verified, under the key each node holds
    for the claimed source and epoch, two different associated data; when the
    modes agree it has done so for the very same nonce and ciphertext.  So where
    the library refuses the one region, [open] refuses the frame. *)
Theorem readdress_verifies_twice s1 ks1 s2 ks2 pre1 pre2 rest w1 w1' w2 w2' h1 f1 p1 h2 f2 p2 :
  ks_inv s1 ks1 -> ks_inv s2 ks2 -> Forall is_u8 (pre1 ++ rest) -> Forall is_u8 (pre2 ++ rest) ->
  len pre1 = PREFIX_LEN -> len pre2 = PREFIX_LEN -> pre1 <> pre2 ->
  open s1 ks1 (pre1 ++ rest) w1 = (Ok (h1, f1, p1), w1') ->
  open s2 ks2 (pre2 ++ rest) w2 = (Ok (h2, f2, p2), w2') ->
  let '(nonce1, ad1, ct1) := protected (mode f1) (pre1 ++ rest) in
  let '(nonce2, ad2, ct2) := protected (mode f2) (pre2 ++ rest) in
  ad1 <> ad2 /\ (mode f1 = mode f2 -> nonce1 = nonce2 /\ ct1 = ct2) /\
  (exists key, view s1 ks1 !! (from_id h1, epoch f1) = Some key /\ verifies key (nonce1, ad1, ct1)) /\
  (exists key, view s2 ks2 !! (from_id h2, epoch f2) = Some key /\ verifies key (nonce2, ad2, ct2)).
Proof.
  intros Hi1 Hi2 Hu1 Hu2 Hl1 Hl2 Hne Ho1 Ho2.
  pose proof (open_verifies _ _ _ _ _ _ _ _ Hi1 Hu1 Ho1) as V1.
  pose proof (open_verifies _ _ _ _ _ _ _ _ Hi2 Hu2 Ho2) as V2.
  destruct (protected (mode f1) _) as [[n1 a1] c1] eqn:P1, (protected (mode f2) _) as [[n2 a2] c2] eqn:P2.
  assert (Htk : forall pre : bytes, len pre = PREFIX_LEN -> take 9 (pre ++ rest) = pre).
  { intros pre Hl. apply take_app_length'. unfold len, PREFIX_LEN in Hl. lia. }
  assert (Hdr : forall (pre : bytes) k, len pre = PREFIX_LEN -> drop (9 + k) (pre ++ rest) = drop k rest).
  { intros pre k Hl. rewrite <- drop_drop, drop_app_length'; [done|]. unfold len, PREFIX_LEN in Hl. lia. }
  assert (Hp : forall m pre nonce ad ct, len pre = PREFIX_LEN -> protected m (pre ++ rest) = (nonce, ad, ct) ->
    take 9 ad = pre /\ nonce = take 12 rest /\
    ct = match m with Standard => drop 12 rest | Dek => take 48 (drop 12 rest) end).
  { intros m pre nonce ad ct Hl. unfold protected.
    pose proof (Hdr pre 0%nat Hl) as D0. pose proof (Hdr pre 12%nat Hl) as D12. simpl in D0, D12.
    rewrite (Htk _ Hl), D0, D12, drop_0. destruct m; intros [= <- <- <-].
    - split; [|done]. apply firstn_all2. unfold len, PREFIX_LEN in Hl. lia.
    - split; [|done]. unfold envelope_aad. apply take_app_length'. unfold len, PREFIX_LEN in Hl. lia. }
  destruct (Hp _ _ _ _ _ Hl1 P1) as (E1 & -> & ->), (Hp _ _ _ _ _ Hl2 P2) as (E2 & -> & ->).
  split_and!; [congruence| |done|done]. by intros ->.
Qed.

(** C29: an envelope cannot be moved to another body without a second
    verification.  If two reusable-DEK frames that share their first 69 bytes
    (prefix and envelope) and differ in the body nonce or in the body tag are
    both opened at a node, then they are reported under one prefix, and the
    library has verified the one envelope, with one nonce and under the one key
    the node holds for its source and epoch, for two different associated data. *)
Theorem splice_verifies_twice s ks head tail1 tail2 w1 w1' w2 w2' h1 f1 p1 h2 f2 p2 :
  ks_inv s ks -> Forall is_u8 (head ++ tail1) -> Forall is_u8 (head ++ tail2) ->
  len head = BODY_START -> NPUBBYTES + ABYTES <= len tail1 -> NPUBBYTES + ABYTES <= len tail2 ->
  take 12 tail1 <> take 12 tail2 \/ tag_of tail1 <> tag_of tail2 ->
  open s ks (head ++ tail1) w1 = (Ok (h1, f1, p1), w1') -> mode f1 = Dek ->
  open s ks (head ++ tail2) w2 = (Ok (h2, f2, p2), w2') -> mode f2 = Dek ->
  let nonce := take 12 (drop 9 head) in
  let envelope := drop 21 head in
  let ad tail := take 9 head ++ take 12 tail ++ tag_of tail in
  ad tail1 <> ad tail2 /\ h1 = h2 /\ f1 = f2 /\
  exists key, view s ks !! (from_id h1, epoch f1) = Some key /\
    verifies key (nonce, ad tail1, envelope) /\ verifies key (nonce, ad tail2, envelope).
Proof.
  intros Hi Hu1 Hu2 Hl Ht1 Ht2 Hne Ho1 Hm1 Ho2 Hm2 nonce envelope ad.
  destruct (open_verifies _ _ _ _ _ _ _ _ Hi Hu1 Ho1) as (k1 & K1 & V1).
  destruct (open_verifies _ _ _ _ _ _ _ _ Hi Hu2 Ho2) as (k2 & K2 & V2).
  assert (Hp : forall tail, NPUBBYTES + ABYTES <= len tail ->
    protected Dek (head ++ tail) = (nonce, ad tail, envelope)).
  { intros tail Ht. unfold protected, nonce, ad, envelope, envelope_aad.
    assert (length head = 69%nat) as Hh by (unfold len, BODY_START in Hl; geometry; lia).
    rewrite tag_of_app by (unfold NPUBBYTES in *; lia).
    rewrite !(drop_app_le head), (drop_ge head 69) by lia. cbn [app].
    rewrite (take_app_le (drop 9 head)), (take_app_le head), (take_app_le (drop 21 head))
      by (rewrite ?length_drop; lia).
    rewrite (take_ge (drop 21 head)) by (rewrite length_drop; lia). done. }
  rewrite Hm1, Hp in V1 by done. rewrite Hm2, Hp in V2 by done.
  assert ((h1, f1) = (h2, f2)) as [= <- <-].
  { destruct (open_prefix _ _ _ _ _ _ _ _ Hi Hu1 Ho1) as (W1 & X1 & E1).
    destruct (open_prefix _ _ _ _ _ _ _ _ Hi Hu2 Ho2) as (W2 & X2 & E2).
    rewrite take_app_le in E1, E2 by (unfold len, BODY_START in Hl; geometry; lia).
    pose proof (parse_serialize_prefix h1 f1 [] W1 X1) as P1. pose proof (parse_serialize_prefix h2 f2 [] W2 X2) as P2.
    congruence. }
  rewrite K1 in K2. injection K2 as <-.
  split_and!; [|done|done|by exists k1]. intros Heq. apply app_inv_head in Heq.
  apply app_inj_1 in Heq; [naive_solver|]. unfold len, NPUBBYTES, ABYTES in *.
  rewrite !length_take. lia.
Qed.

End Facts.

Section FanoutDelivery.
Context `{AS : AeadSpec, RS : !RandomSpec}.

(** C9: fanout delivery: every recipient of a sealed fanout that holds the
    sender's key for the sender's current epoch opens its own frame to the
    payload, with the authenticated source, its own id and the channel. *)
Theorem fanout_delivers sA A rs channel payload frames sA' i ff sB B w :
  ks_inv sA A -> ks_inv sB B -> is_u32 channel -> Forall is_u8 payload ->
  seal_fanout A rs channel payload sA = (Ok frames, sA') ->
  frames !! i = Some ff -> ff_to_id ff = local_id B ->
  view sB B !! (local_id A, ff_epoch ff) = view sA A !! (local_id B, ff_epoch ff) ->
  open sB B (ff_frame ff) w =
    (Ok (MkHeader (local_id A) (local_id B) channel, MkFlags Dek (ff_epoch ff), payload), w).
Proof.
  intros HA HB Hc Hu Hrun Hi Hto Hshare.
  destruct (select_fanout A rs payload) as [sel|err] eqn:Hs.
  2: { unfold seal_fanout in Hrun. by rewrite Hs in Hrun. }
  assert (is_Some (rs !! i)) as [r Hr].
  { apply lookup_lt_is_Some. apply lookup_lt_Some in Hi.
    rewrite (seal_fanout_run sA A rs channel payload sel) in Hrun by done. injection Hrun as <- _.
    rewrite length_fmap, length_zip, length_fmap, length_seq in Hi. lia. }
  destruct (fanout_lookup _ _ _ _ _ _ _ _ _ _ HA Hs Hrun Hr) as (e & key & Hv & Hw & _ & Hf).
  rewrite Hi in Hf. injection Hf as ->. simpl in Hto, Hshare |- *. subst r.
  apply open_delivers; [done|]. right. eexists key, _, _, _.
  split; [done| | |done|done| |apply nonce_at_len| |apply nonce_at_len|done].
  - split_and!; [apply HA|apply HB|done].
  - done.
  - simpl. by rewrite Hshare.
  - split; [apply key_at_len|]. unfold key_at. rewrite write_front_exact; [by apply randombytes_u8|].
    by rewrite randombytes_len.
Qed.

End FanoutDelivery.

(** Sealing reads its keys from the guarded heap only. *)
Lemma seal_core_heap `{Libsodium} s s' ks to_id ch e payload nonce out :
  heap s' = heap s ->
  seal_core s' ks to_id ch e payload nonce out = seal_core s ks to_id ch e payload nonce out.
Proof.
  intros Hh. unfold seal_core, expose, as_slice. destruct (_ <? _); [done|]. destruct (_ <? _); [done|].
  destruct (key_for_send ks to_id e); [|done]. by rewrite Hh.
Qed.

(** How the one-recipient dispatch reports the errors of standard mode. *)
Definition lift_seal_error (e : Standard.SealError) : SealError :=
  match e with
  | PayloadTooLarge n => Oversize n
  | NoKey => SealNoKey
  | Sodium e => SealSodium e
  | OutputTooSmall _ _ => SealSodium Internal
  end.

(** the known-answer seams are the production paths: on every input,
    [dek::seal] gives what [seal_standard_deterministic] gives with the nonce
    it drew, and [seal_fanout] what [seal_fanout_deterministic] gives with the
    envelope nonces, DEK and body nonce it drew, in that order of draws; the
    seam's assertion never fires on them.  So what the known-answer vectors pin
    of the seams holds of production. *)
Theorem seams_are_production `{Libsodium} s ks to_id rs channel epoch payload :
  (let '(nonce, s') := random_nonce s in
   (seal ks to_id channel epoch payload s).1 =
     match seal_standard_deterministic s ks to_id channel epoch payload nonce with
     | Ok frame => Ok frame
     | Err e => Err (lift_seal_error e)
     end) /\
  (let '(nonces, s1) := random_nonces rs s in
   let '(dek, s2) := random_key s1 in
   let '(body_nonce, s3) := random_nonce s2 in
   Some (seal_fanout ks rs channel payload s).1 =
     seal_fanout_deterministic s3 ks rs channel payload dek body_nonce nonces).
Proof.
  split.
  - destruct (random_nonce s) as [nonce s'] eqn:Hr.
    assert (heap s' = heap s) as Hh.
    { revert Hr. unfold random_nonce, randombytes_fill. by intros [= _ <-]. }
    unfold seal, seal_standard_deterministic. destruct (MAX_PAYLOAD <? len payload); [done|].
    unfold Standard.seal, gets, bind. rewrite Hr, (seal_core_heap s s') by done.
    destruct (seal_core _ _ _ _ _ _ _ _) as [[n|e] frame]; [done|by destruct e].
  - destruct (random_nonces rs s) as [nonces s1] eqn:Hn. destruct (random_key s1) as [dek s2] eqn:Hk.
    destruct (random_nonce s2) as [bn s3] eqn:Hb. unfold seal_fanout, seal_fanout_deterministic.
    destruct (select_fanout ks rs payload) as [sel|e] eqn:Hs; [|done].
    unfold bind, gets. rewrite Hn, Hk, Hb, decide_True; [done|].
    rewrite random_nonces_run in Hn. injection Hn as <- _. rewrite length_fmap, length_seq.
    destruct (select_fanout_ok _ _ _ _ Hs) as (_ & _ & _ & Hf). by apply Forall2_length in Hf.
Qed.

(** ** Witnesses, on the concrete libsodium *)

Definition demo_fanout := seal_fanout node_a.2 [200] 1000 demo_payload node_a.1.
Definition demo_dek_flags := MkFlags Dek (MkEpoch 5).
Definition demo_dek_frame : bytes :=
  fanout_frame demo_key demo_header demo_dek_flags (nonce_at 0) (key_at 1) (nonce_at 2) demo_payload.

Lemma demo_fanout_run :
  demo_fanout = (Ok [MkFanout 200 (MkEpoch 5) demo_dek_frame], demo_fanout.2).
Proof. vm_compute. reflexivity. Qed.

Lemma node_a_view :
  local_id node_a.2 = 100 /\ view node_a.1 node_a.2 = {[(200, MkEpoch 5) := demo_key]}.
Proof. by apply demo_node_inv. Qed.

Lemma node_b_view :
  local_id node_b.2 = 200 /\ view node_b.1 node_b.2 = {[(100, MkEpoch 5) := demo_key]}.
Proof. by apply demo_node_inv. Qed.

Lemma demo_delivers :
  delivers (local_id node_b.2) (view node_b.1 node_b.2) demo_dek_frame demo_header demo_dek_flags
    demo_payload.
Proof.
  destruct node_b_view as [-> ->]. right. exists demo_key, (nonce_at 0), (key_at 1), (nonce_at 2).
  split; try done; try (by repeat constructor).
Qed.

Lemma dispatch_open_exact_witness :
  open node_b.1 node_b.2 demo_dek_frame stats_init =
    (Ok (demo_header, demo_dek_flags, demo_payload), stats_init).
Proof.
  apply (dispatch_open_exact node_b.1 node_b.2 demo_dek_frame stats_init).
  - exact node_b_inv.
  - apply (bool_decide_unpack (Forall is_u8 _)). vm_compute. exact I.
  - split; [exact demo_delivers|done].
Defined.

Lemma dispatch_open_rejects_witness :
  (open node_b.1 node_b.2 tampered_frame stats_init).2 = (record_reject RAuthFailed stats_init).2 /\
  (forall h f payload,
     ~ delivers (local_id node_b.2) (view node_b.1 node_b.2) tampered_frame h f payload).
Proof.
  destruct (open node_b.1 node_b.2 tampered_frame stats_init) as [r w] eqn:Ho.
  assert ((open node_b.1 node_b.2 tampered_frame stats_init).1 = Err StandardRejected) as Hr
    by (vm_compute; reflexivity).
  rewrite Ho in Hr. simpl in Hr. subst r.
  destruct (dispatch_open_rejects node_b.1 node_b.2 tampered_frame stats_init StandardRejected w)
    as (Hw & _ & Hnot).
  - exact node_b_inv.
  - apply (bool_decide_unpack (Forall is_u8 _)). vm_compute. exact I.
  - exact Ho.
  - split; [|exact Hnot]. simpl. rewrite Hw.
    assert (open_reason (local_id node_b.2) (view node_b.1 node_b.2) tampered_frame = RAuthFailed)
      as -> by (vm_compute; reflexivity). done.
Defined.

Lemma dek_seal_exact_witness :
  heap (seal node_a.2 200 1000 (MkEpoch 5) demo_payload node_a.1).2 = heap node_a.1 /\
  (seal node_a.2 200 1000 (MkEpoch 5) demo_payload node_a.1).1 = Ok demo_frame.
Proof.
  pose proof (dek_seal_exact node_a.1 node_a.2 200 1000 (MkEpoch 5) demo_payload node_a_inv) as Hx.
  split; [|vm_compute; reflexivity].
  destruct (seal _ _ _ _ _ _) as [r s']. apply Hx.
Defined.

Lemma fanout_exact_witness :
  length [MkFanout 200 (MkEpoch 5) demo_dek_frame] = 1%nat /\ draws demo_fanout.2 = 3%nat.
Proof.
  destruct (fanout_exact node_a.1 node_a.2 [200] 1000 demo_payload
    (Ok [MkFanout 200 (MkEpoch 5) demo_dek_frame]) demo_fanout.2) as (H1 & H2 & _).
  - exact node_a_inv.
  - exact demo_fanout_run.
  - split; [exact H1|]. rewrite H2. vm_compute. reflexivity.
Defined.

Lemma fanout_delivers_witness :
  open node_b.1 node_b.2 demo_dek_frame stats_init =
    (Ok (MkHeader (local_id node_a.2) (local_id node_b.2) 1000, MkFlags Dek (MkEpoch 5),
         demo_payload), stats_init).
Proof.
  apply (fanout_delivers node_a.1 node_a.2 [200] 1000 demo_payload
    [MkFanout 200 (MkEpoch 5) demo_dek_frame] demo_fanout.2 0
    (MkFanout 200 (MkEpoch 5) demo_dek_frame) node_b.1 node_b.2 stats_init).
  - exact node_a_inv.
  - exact node_b_inv.
  - done.
  - by repeat constructor.
  - exact demo_fanout_run.
  - done.
  - symmetry. apply node_b_view.
  - destruct node_a_view as [-> ->], node_b_view as [-> ->]. reflexivity.
Defined.

(** Under a library without a binding tag the second verification is there to
    exhibit: one frame re-addressed from node 200 to node 201, and one envelope on
    two bodies. *)
Definition node_c := demo_node 201 100.
Definition loose_rest : bytes := demo_nonce ++ demo_payload ++ zeros 16.
Definition loose_head : bytes := serialize_prefix demo_header demo_dek_flags ++ zeros 12 ++ zeros 32 ++ zeros 16.

Lemma node_c_inv : ks_inv node_c.1 node_c.2.
Proof. by apply demo_node_inv. Qed.

Lemma readdress_verifies_twice_witness :
  (exists key, view node_b.1 node_b.2 !! (100, MkEpoch 5) = Some key /\
    @verifies weak_sodium key (demo_nonce, serialize_prefix (MkHeader 100 200 1000) demo_flags, demo_payload ++ zeros 16)) /\
  (exists key, view node_c.1 node_c.2 !! (100, MkEpoch 5) = Some key /\
    @verifies weak_sodium key (demo_nonce, serialize_prefix (MkHeader 100 201 1000) demo_flags, demo_payload ++ zeros 16)).
Proof.
  pose proof (@readdress_verifies_twice weak_sodium weak_aead node_b.1 node_b.2 node_c.1 node_c.2
    (serialize_prefix (MkHeader 100 200 1000) demo_flags)
    (serialize_prefix (MkHeader 100 201 1000) demo_flags) loose_rest stats_init stats_init stats_init stats_init
    (MkHeader 100 200 1000) demo_flags demo_payload (MkHeader 100 201 1000) demo_flags demo_payload
    node_b_inv node_c_inv) as Hx.
  refine (proj2 (proj2 (Hx _ _ _ _ _ _ _))).
  - apply (bool_decide_unpack (Forall is_u8 _)). vm_compute. exact I.
  - apply (bool_decide_unpack (Forall is_u8 _)). vm_compute. exact I.
  - reflexivity.
  - reflexivity.
  - vm_compute. discriminate.
  - vm_compute. reflexivity.
  - vm_compute. reflexivity.
Defined.

Lemma splice_verifies_twice_witness :
  exists key, view node_b.1 node_b.2 !! (100, MkEpoch 5) = Some key /\
    @verifies weak_sodium key (zeros 12,
      serialize_prefix demo_header demo_dek_flags ++ zeros 12 ++ zeros 16, zeros 48) /\
    @verifies weak_sodium key (zeros 12,
      serialize_prefix demo_header demo_dek_flags ++ replicate 12 1 ++ zeros 16, zeros 48).
Proof.
  pose proof (@splice_verifies_twice weak_sodium weak_aead node_b.1 node_b.2 loose_head
    (zeros 12 ++ demo_payload ++ zeros 16) (replicate 12 1 ++ demo_payload ++ zeros 16)
    stats_init stats_init stats_init stats_init
    demo_header demo_dek_flags demo_payload demo_header demo_dek_flags demo_payload node_b_inv) as Hx.
  refine (proj2 (proj2 (proj2 (Hx _ _ _ _ _ _ _ _ _ _)))).
  - apply (bool_decide_unpack (Forall is_u8 _)). vm_compute. exact I.
  - apply (bool_decide_unpack (Forall is_u8 _)). vm_compute. exact I.
  - reflexivity.
  - vm_compute. discriminate.
  - vm_compute. discriminate.
  - left. vm_compute. discriminate.
  - vm_compute. reflexivity.
  - reflexivity.
  - vm_compute. reflexivity.
  - reflexivity.
Defined.
