(* ===== verification/KeyGuard.v ===== *)
(** * The data key on the stack: [KeyGuard] in [src/dek.rs]

    [Dek] treats the data key as a value.  The code keeps it in memory: in the
    local of [sodium::random_key], which nothing erases, and in a [KeyGuard]
    whose destructor does.  Here the two functions that hold a data key run over
    that memory: a cell per place the source puts the key in, which stays after
    its owner is gone so that what is left in it can be looked at.  The language
    supplies two rules: a move copies the bytes to the new place and leaves the
    old one as it is, without running its destructor ([moved]); a value that was
    not moved away is dropped when its scope ends, on every exit ([scoped]). *)

From S2P Require Export Dek.

(** The cells used so far, the oldest first. *)
Abbreviation Stack := (list bytes).







Section Guarded.
Context `{Libsodium}.

(** ** Sealing *)







(** ** Opening *)




(** ** What is left behind *)


















End Guarded.
