(* ===== verification/Text.v ===== *)
(** * Text: the parts of Rust's [str], [char] and integer parsing the sources use

    A [&str] or [String] is its list of Unicode scalar values; [as_bytes] and
    [from_utf8] are UTF-8 encoding and validation.  Whitespace is Unicode
    White_Space, as [char::is_whitespace] has it. *)

From S2P Require Export Prelude.

Abbreviation text := (list Z).

(** An ASCII literal of the source. *)
Fixpoint str (s : string) : text :=
  match s with
  | EmptyString => []
  | String a rest => Z.of_N (Ascii.N_of_ascii a) :: str rest
  end.

(** The Rocq string with the given bytes. *)
Fixpoint string_of_bytes (bs : bytes) : string :=
  match bs with
  | [] => EmptyString
  | b :: rest => String (Ascii.ascii_of_N (Z.to_N b)) (string_of_bytes rest)
  end.

(** ** UTF-8 *)

Definition is_char (c : Z) : Prop := 0 <= c <= 0x10FFFF /\ ~ (0xD800 <= c <= 0xDFFF).

Global Instance is_char_dec c : Decision (is_char c).
Proof. unfold is_char. apply _. Defined.

Definition utf8_char (c : Z) : bytes :=
  if c <? 0x80 then [c]
  else if c <? 0x800 then [0xC0 + c `div` 0x40; 0x80 + c `mod` 0x40]
  else if c <? 0x10000 then
    [0xE0 + c `div` 0x1000; 0x80 + (c `div` 0x40) `mod` 0x40; 0x80 + c `mod` 0x40]
  else
    [0xF0 + c `div` 0x40000; 0x80 + (c `div` 0x1000) `mod` 0x40;
     0x80 + (c `div` 0x40) `mod` 0x40; 0x80 + c `mod` 0x40].

Definition as_bytes (s : text) : bytes := s ≫= utf8_char.

(** [str::len]: the length in bytes. *)
Definition str_len (s : text) : Z := len (as_bytes s).

Definition within (lo hi b : Z) : bool := (lo <=? b) && (b <=? hi).
Definition cont (b : Z) : bool := within 0x80 0xBF b.

(** [from_utf8]: the well-formed byte sequences of the Unicode standard. *)
Fixpoint from_utf8 (bs : bytes) : option text :=
  match bs with
  | [] => Some []
  | b0 :: r0 =>
      if within 0 0x7F b0 then cons b0 <$> from_utf8 r0 else
      match r0 with
      | [] => None
      | b1 :: r1 =>
          if within 0xC2 0xDF b0 then
            if cont b1 then cons ((b0 - 0xC0) * 0x40 + (b1 - 0x80)) <$> from_utf8 r1 else None
          else
          match r1 with
          | [] => None
          | b2 :: r2 =>
              if within 0xE0 0xEF b0 then
                let lo := if b0 =? 0xE0 then 0xA0 else 0x80 in
                let hi := if b0 =? 0xED then 0x9F else 0xBF in
                if within lo hi b1 && cont b2
                then cons ((b0 - 0xE0) * 0x1000 + (b1 - 0x80) * 0x40 + (b2 - 0x80)) <$> from_utf8 r2
                else None
              else
              match r2 with
              | [] => None
              | b3 :: r3 =>
                  if within 0xF0 0xF4 b0 then
                    let lo := if b0 =? 0xF0 then 0x90 else 0x80 in
                    let hi := if b0 =? 0xF4 then 0x8F else 0xBF in
                    if within lo hi b1 && cont b2 && cont b3
                    then cons ((b0 - 0xF0) * 0x40000 + (b1 - 0x80) * 0x1000 + (b2 - 0x80) * 0x40 +
                               (b3 - 0x80)) <$> from_utf8 r3
                    else None
                  else None
              end
          end
      end
  end.

(** ** Characters and slices of text *)

Definition is_whitespace (c : Z) : bool :=
  within 9 13 c || (c =? 32) || (c =? 0x85) || (c =? 0xA0) || (c =? 0x1680) ||
  within 0x2000 0x200A c || (c =? 0x2028) || (c =? 0x2029) || (c =? 0x202F) ||
  (c =? 0x205F) || (c =? 0x3000).

(** [trim_start_matches], [trim_end_matches] and the whitespace trims. *)
Fixpoint trim_start_matches (p : Z -> bool) (s : text) : text :=
  match s with
  | [] => []
  | c :: rest => if p c then trim_start_matches p rest else s
  end.
Definition trim_end_matches (p : Z -> bool) (s : text) : text :=
  reverse (trim_start_matches p (reverse s)).
Definition trim_start : text -> text := trim_start_matches is_whitespace.
Definition trim_end : text -> text := trim_end_matches is_whitespace.
Definition trim (s : text) : text := trim_end (trim_start s).

(** [split_once] at the first character that satisfies [p]. *)
Fixpoint split_once (p : Z -> bool) (s : text) : option (text * text) :=
  match s with
  | [] => None
  | c :: rest =>
      if p c then Some ([], rest)
      else match split_once p rest with
           | Some (a, b) => Some (c :: a, b)
           | None => None
           end
  end.

(** [split]: every piece between separators. *)
Fixpoint split (p : Z -> bool) (s : text) : list text :=
  match s with
  | [] => [[]]
  | c :: rest =>
      if p c then [] :: split p rest
      else match split p rest with
           | piece :: pieces => (c :: piece) :: pieces
           | [] => [[c]]
           end
  end.

Definition eq_char (c : Z) : Z -> bool := fun x => x =? c.

Definition to_ascii_uppercase (s : text) : text :=
  (fun c => if within 97 122 c then c - 32 else c) <$> s.

Definition eq_ignore_ascii_case (a b : text) : bool :=
  bool_decide (to_ascii_uppercase a = to_ascii_uppercase b).

(** ** Numbers *)

(** The decimal digits of a machine integer, as [{n}] prints it: twenty digits
    are enough for a [u64]. *)
Fixpoint dec_digits (fuel : nat) (n : Z) (acc : text) : text :=
  match fuel with
  | O => acc
  | S fuel =>
      let acc := (48 + n `mod` 10) :: acc in
      if n <? 10 then acc else dec_digits fuel (n `div` 10) acc
  end.
Definition dec (n : Z) : text := dec_digits 20 n [].

Definition digit (radix c : Z) : option Z :=
  let d := if within 48 57 c then Some (c - 48)
           else if within 97 122 c then Some (c - 87)
           else if within 65 90 c then Some (c - 55)
           else None in
  match d with
  | Some d => if d <? radix then Some d else None
  | None => None
  end.

Fixpoint parse_digits (radix max : Z) (s : text) (acc : Z) : option Z :=
  match s with
  | [] => Some acc
  | c :: rest =>
      match digit radix c with
      | Some d =>
          let acc := acc * radix + d in
          if acc <=? max then parse_digits radix max rest acc else None
      | None => None
      end
  end.

(** [from_str_radix] of an unsigned type: an optional [+], then at least one
    digit, no overflow. *)
Definition from_str_radix (radix max : Z) (s : text) : option Z :=
  match s with
  | [] => None
  | [c] => if (c =? 43) || (c =? 45) then None else parse_digits radix max s 0
  | c :: rest => if c =? 43 then parse_digits radix max rest 0 else parse_digits radix max s 0
  end.

Definition parse_u64 : text -> option Z := from_str_radix 10 U64_MAX.
Definition parse_u16 : text -> option Z := from_str_radix 10 U16_MAX.

(** ** Lemmas *)

Lemma as_bytes_app a b : as_bytes (a ++ b) = as_bytes a ++ as_bytes b.
Proof. apply bind_app. Qed.

Lemma within_true lo hi b : lo <= b <= hi -> within lo hi b = true.
Proof. unfold within. lia. Qed.
Lemma within_false lo hi b : ~ (lo <= b <= hi) -> within lo hi b = false.
Proof. unfold within. lia. Qed.

Lemma mod_range a n : 0 < n -> 0 <= a `mod` n < n.
Proof. intros. apply Z.mod_pos_bound. lia. Qed.

(** Decoding one encoded character. *)
Lemma from_utf8_char c rest :
  is_char c -> from_utf8 (utf8_char c ++ rest) = cons c <$> from_utf8 rest.
Proof.
  intros [Hc Hs]. unfold utf8_char.
  destruct (Z.ltb_spec c 0x80); [simpl; by rewrite within_true by lia|].
  pose proof (Z.div_mod c 0x40 ltac:(lia)). pose proof (mod_range c 0x40 ltac:(lia)).
  destruct (Z.ltb_spec c 0x800).
  { assert (2 <= c `div` 0x40 <= 31) by lia.
    cbn [app from_utf8]. rewrite within_false, within_true by lia.
    unfold cont. rewrite within_true by lia. f_equal. f_equal. lia. }
  pose proof (Z.div_mod (c `div` 0x40) 0x40 ltac:(lia)).
  pose proof (mod_range (c `div` 0x40) 0x40 ltac:(lia)).
  rewrite Z.div_div in * by lia. change (0x40 * 0x40) with 0x1000 in *.
  destruct (Z.ltb_spec c 0x10000).
  { assert (0 <= c `div` 0x1000 <= 15) by lia.
    cbn [app from_utf8]. rewrite !within_false, within_true by lia. unfold cont.
    rewrite within_true by (repeat case_match; zbool; lia).
    rewrite within_true by lia. cbn [andb]. f_equal. f_equal. lia. }
  pose proof (Z.div_mod (c `div` 0x1000) 0x40 ltac:(lia)).
  pose proof (mod_range (c `div` 0x1000) 0x40 ltac:(lia)).
  rewrite Z.div_div in * by lia. change (0x1000 * 0x40) with 0x40000 in *.
  assert (0 <= c `div` 0x40000 <= 4) by lia.
  cbn [app from_utf8]. rewrite !within_false, within_true by lia. unfold cont.
  rewrite within_true by (repeat case_match; zbool; lia).
  rewrite !within_true by lia. cbn [andb]. f_equal. f_equal. lia.
Qed.

Lemma from_utf8_as_bytes s : Forall is_char s -> from_utf8 (as_bytes s) = Some s.
Proof.
  induction s as [|c s IH]; intros Hs; [done|]. apply Forall_cons in Hs as [Hc Hs].
  change (as_bytes (c :: s)) with (utf8_char c ++ as_bytes s).
  by rewrite from_utf8_char, IH.
Qed.

Lemma utf8_char_u8 c : is_char c -> Forall is_u8 (utf8_char c).
Proof.
  intros [Hc _]. unfold utf8_char.
  pose proof (mod_range c 0x40 ltac:(lia)). pose proof (mod_range (c `div` 0x40) 0x40 ltac:(lia)).
  pose proof (mod_range (c `div` 0x1000) 0x40 ltac:(lia)).
  pose proof (Z.div_mod c 0x40 ltac:(lia)). pose proof (Z.div_mod c 0x1000 ltac:(lia)).
  pose proof (Z.div_mod c 0x40000 ltac:(lia)).
  pose proof (mod_range c 0x1000 ltac:(lia)). pose proof (mod_range c 0x40000 ltac:(lia)).
  destruct (Z.ltb_spec c 0x80), (Z.ltb_spec c 0x800), (Z.ltb_spec c 0x10000); try lia;
    repeat (apply Forall_cons; split); try constructor; width.
Qed.

Lemma as_bytes_u8 s : Forall is_char s -> Forall is_u8 (as_bytes s).
Proof.
  induction 1; [constructor|]. apply Forall_app. split; [by apply utf8_char_u8|done].
Qed.

Lemma within_spec lo hi b : within lo hi b = true <-> lo <= b <= hi.
Proof. unfold within. lia. Qed.

(** The digits of a number written in base 64. *)
Lemma div_mod_digit q r n : 0 <= r < n -> (q * n + r) `div` n = q /\ (q * n + r) `mod` n = r.
Proof.
  intros. split; [rewrite Z.div_add_l, Z.div_small by lia; lia|].
  rewrite Z.add_comm, Z.mod_add, Z.mod_small by lia. done.
Qed.

Lemma utf8_char_2 b0 b1 :
  0xC2 <= b0 <= 0xDF -> 0x80 <= b1 <= 0xBF ->
  utf8_char ((b0 - 0xC0) * 0x40 + (b1 - 0x80)) = [b0; b1].
Proof.
  intros. destruct (div_mod_digit (b0 - 0xC0) (b1 - 0x80) 0x40) as [Hd Hm]; [lia|].
  unfold utf8_char. rewrite (proj2 (Z.ltb_ge _ _)), (proj2 (Z.ltb_lt _ _)), Hd, Hm by lia.
  f_equal; [lia|]. f_equal. lia.
Qed.

Lemma utf8_char_3 b0 b1 b2 :
  0xE0 <= b0 <= 0xEF -> (b0 = 0xE0 -> 0xA0 <= b1) -> 0x80 <= b1 <= 0xBF -> 0x80 <= b2 <= 0xBF ->
  utf8_char ((b0 - 0xE0) * 0x1000 + (b1 - 0x80) * 0x40 + (b2 - 0x80)) = [b0; b1; b2].
Proof.
  intros. set (c := _ + (b2 - 0x80)).
  destruct (div_mod_digit ((b0 - 0xE0) * 0x40 + (b1 - 0x80)) (b2 - 0x80) 0x40) as [Hd Hm]; [lia|].
  destruct (div_mod_digit (b0 - 0xE0) (b1 - 0x80) 0x40) as [Hd2 Hm2]; [lia|].
  replace (_ * 0x40 + _) with c in Hd, Hm by (unfold c; lia).
  assert (c `div` 0x1000 = b0 - 0xE0) as Hd3.
  { change 0x1000 with (0x40 * 0x40). rewrite <- Z.div_div by lia. by rewrite Hd. }
  unfold utf8_char. rewrite Hd3, Hd, Hm, Hm2. assert (0x800 <= c < 0x10000) by (unfold c; lia).
  rewrite (proj2 (Z.ltb_ge c 0x80)), (proj2 (Z.ltb_ge c 0x800)), (proj2 (Z.ltb_lt _ _)) by lia.
  repeat (f_equal; [lia|]). f_equal. lia.
Qed.

Lemma utf8_char_4 b0 b1 b2 b3 :
  0xF0 <= b0 <= 0xF4 -> (b0 = 0xF0 -> 0x90 <= b1) -> 0x80 <= b1 <= 0xBF -> 0x80 <= b2 <= 0xBF ->
  0x80 <= b3 <= 0xBF ->
  utf8_char ((b0 - 0xF0) * 0x40000 + (b1 - 0x80) * 0x1000 + (b2 - 0x80) * 0x40 + (b3 - 0x80)) =
    [b0; b1; b2; b3].
Proof.
  intros. set (c := _ + (b3 - 0x80)).
  destruct (div_mod_digit ((b0 - 0xF0) * 0x1000 + (b1 - 0x80) * 0x40 + (b2 - 0x80)) (b3 - 0x80) 0x40)
    as [Hd Hm]; [lia|].
  destruct (div_mod_digit ((b0 - 0xF0) * 0x40 + (b1 - 0x80)) (b2 - 0x80) 0x40) as [Hd2 Hm2]; [lia|].
  destruct (div_mod_digit (b0 - 0xF0) (b1 - 0x80) 0x40) as [Hd3 Hm3]; [lia|].
  replace (_ * 0x40 + (b3 - 0x80)) with c in Hd, Hm by (unfold c; lia).
  replace (((b0 - 0xF0) * 0x40 + (b1 - 0x80)) * 0x40 + (b2 - 0x80))
    with ((b0 - 0xF0) * 0x1000 + (b1 - 0x80) * 0x40 + (b2 - 0x80)) in Hd2, Hm2 by lia.
  assert (c `div` 0x1000 = (b0 - 0xF0) * 0x40 + (b1 - 0x80)) as E2.
  { change 0x1000 with (0x40 * 0x40) at 1. rewrite <- Z.div_div by lia. by rewrite Hd. }
  assert (c `div` 0x40000 = b0 - 0xF0) as E3.
  { change 0x40000 with (0x1000 * 0x40). rewrite <- Z.div_div by lia. by rewrite E2. }
  unfold utf8_char. rewrite E3, E2, Hd, Hm, Hm2, Hm3. assert (0x10000 <= c) by (unfold c; lia).
  rewrite (proj2 (Z.ltb_ge c 0x80)), (proj2 (Z.ltb_ge c 0x800)), (proj2 (Z.ltb_ge c 0x10000)) by lia.
  repeat (f_equal; [lia|]). f_equal. lia.
Qed.

(** The characters a valid byte string decodes to encode back to it. *)
Lemma from_utf8_inv bs s : from_utf8 bs = Some s -> Forall is_char s /\ as_bytes s = bs.
Proof.
  remember (length bs) as n eqn:Hn. revert bs s Hn.
  induction (lt_wf n) as [n _ IH]. intros bs s Hn.
  assert (Hstep : forall c r t, (length r < n)%nat -> is_char c -> cons c <$> from_utf8 r = Some t ->
    Forall is_char t /\ as_bytes t = utf8_char c ++ r).
  { intros c r t Hlt Hc Ht. destruct (from_utf8 r) as [t'|] eqn:E; [|done]. injection Ht as <-.
    destruct (IH _ Hlt r t' eq_refl E) as [? <-]. split; [by constructor|done]. }
  destruct bs as [|b0 r0]; [by intros [= <-]|]. simpl in Hn. cbn [from_utf8].
  destruct (within 0 0x7F b0) eqn:W0.
  { apply within_spec in W0. intros Ht. apply Hstep in Ht; [|lia|unfold is_char; lia].
    unfold utf8_char in Ht. by rewrite (proj2 (Z.ltb_lt b0 0x80)) in Ht by lia. }
  destruct r0 as [|b1 r1]; [done|]. simpl in Hn. destruct (within 0xC2 0xDF b0) eqn:W1.
  { unfold cont. destruct (within 0x80 0xBF b1) eqn:C1; [|done]. apply within_spec in W1, C1.
    intros Ht. apply Hstep in Ht; [|lia|unfold is_char; lia]. by rewrite utf8_char_2 in Ht by lia. }
  destruct r1 as [|b2 r2]; [done|]. simpl in Hn. destruct (within 0xE0 0xEF b0) eqn:W2.
  { destruct (_ && _) eqn:C; [|done]. apply andb_true_iff in C as [C1 C2]. unfold cont in C2.
    rewrite within_spec in W2, C1, C2. intros Ht.
    apply Hstep in Ht; [|lia|unfold is_char; repeat case_match; zbool; lia].
    by rewrite utf8_char_3 in Ht by (repeat case_match; zbool; lia). }
  destruct r2 as [|b3 r3]; [done|]. simpl in Hn. destruct (within 0xF0 0xF4 b0) eqn:W3; [|done].
  destruct (_ && _) eqn:C; [|done]. apply andb_true_iff in C as [C C3]. apply andb_true_iff in C as [C1 C2].
  unfold cont in C2, C3. rewrite within_spec in W3, C1, C2, C3. intros Ht.
  apply Hstep in Ht; [|lia|unfold is_char; repeat case_match; zbool; lia].
  by rewrite utf8_char_4 in Ht by (repeat case_match; zbool; lia).
Qed.

Lemma trim_start_matches_suffix p s : exists pre, s = pre ++ trim_start_matches p s.
Proof.
  induction s as [|c s [pre IH]]; simpl; [by exists []|]. destruct (p c); [|by exists []].
  exists (c :: pre). simpl. by rewrite <- IH.
Qed.

(** Decimal text: the digits, and the value they denote. *)
Definition is_digit (c : Z) : Prop := 48 <= c <= 57.

Definition value (ds : text) (acc : Z) : Z := fold_left (fun a c => a * 10 + (c - 48)) ds acc.

Lemma value_ge ds acc : 0 <= acc -> Forall is_digit ds -> acc <= value ds acc.
Proof.
  intros Ha Hd. revert acc Ha. induction Hd as [|c ds Hc _ IH]; intros acc Ha; simpl; [lia|].
  unfold is_digit in Hc. specialize (IH (acc * 10 + (c - 48)) ltac:(lia)). unfold value in *. simpl. lia.
Qed.

Lemma parse_digits_value ds max acc :
  0 <= acc -> Forall is_digit ds -> value ds acc <= max ->
  parse_digits 10 max ds acc = Some (value ds acc).
Proof.
  intros Ha Hd. revert acc Ha. induction Hd as [|c ds Hc Hds IH]; intros acc Ha Hm; [done|].
  unfold is_digit in Hc. cbn [parse_digits]. unfold digit. rewrite within_true by lia.
  rewrite (proj2 (Z.ltb_lt _ _)) by lia.
  assert (value (c :: ds) acc = value ds (acc * 10 + (c - 48))) as Hv by done. rewrite Hv in *.
  pose proof (value_ge ds (acc * 10 + (c - 48)) ltac:(lia) Hds).
  rewrite (proj2 (Z.leb_le _ _)) by lia. apply IH; lia.
Qed.

Lemma dec_digits_spec fuel n acc :
  (0 < fuel)%nat -> 0 <= n < 10 ^ Z.of_nat fuel ->
  exists ds, dec_digits fuel n acc = ds ++ acc /\ ds <> [] /\ Forall is_digit ds /\ value ds 0 = n.
Proof.
  revert n acc. induction fuel as [|fuel IH]; intros n acc Hf Hn; [lia|].
  cbn [dec_digits]. pose proof (mod_range n 10 ltac:(lia)).
  pose proof (Z.div_mod n 10 ltac:(lia)).
  destruct (Z.ltb_spec n 10) as [Hl|Hl].
  { exists [48 + n `mod` 10]. split_and!; [done|done| |].
    - repeat constructor; unfold is_digit; lia.
    - unfold value. simpl. rewrite Z.mod_small by lia. lia. }
  destruct fuel as [|fuel]; [change (10 ^ Z.of_nat 1) with 10 in Hn; lia|].
  destruct (IH (n `div` 10) ((48 + n `mod` 10) :: acc)) as (ds & Heq & Hne & Hd & Hv); [lia| |].
  { rewrite Nat2Z.inj_succ, Z.pow_succ_r in Hn by lia. lia. }
  exists (ds ++ [48 + n `mod` 10]). rewrite Heq, <- app_assoc. split_and!; [done| | |].
  - by destruct ds.
  - apply Forall_app. split; [done|]. repeat constructor; unfold is_digit; lia.
  - unfold value in *. rewrite fold_left_app, Hv. simpl. lia.
Qed.

Lemma dec_spec n :
  is_u64 n -> exists ds, dec n = ds /\ ds <> [] /\ Forall is_digit ds /\ value ds 0 = n.
Proof.
  intros Hn. destruct (dec_digits_spec 20 n []) as (ds & Heq & H'); [lia| |].
  { change (10 ^ Z.of_nat 20) with 100000000000000000000. width. }
  exists ds. split; [unfold dec; by rewrite Heq, app_nil_r|done].
Qed.

(** Printing a number and parsing it back. *)
Lemma from_str_radix_dec n max :
  is_u64 n -> n <= max -> from_str_radix 10 max (dec n) = Some n.
Proof.
  intros Hn Hmax. destruct (dec_spec n Hn) as (ds & -> & Hne & Hd & Hv).
  assert (parse_digits 10 max ds 0 = Some n) as Hp.
  { rewrite <- Hv. apply parse_digits_value; [lia|done|]. by rewrite Hv. }
  unfold from_str_radix. destruct ds as [|c ds]; [done|].
  pose proof (Forall_inv Hd) as Hc. unfold is_digit in Hc.
  rewrite (proj2 (Z.eqb_neq c 43)), (proj2 (Z.eqb_neq c 45)) by lia. by destruct ds.
Qed.

Lemma parse_u64_dec n : is_u64 n -> parse_u64 (dec n) = Some n.
Proof. intros Hn. apply from_str_radix_dec; [done|apply Hn]. Qed.

Lemma parse_u16_dec n : is_u16 n -> parse_u16 (dec n) = Some n.
Proof. intros Hn. apply from_str_radix_dec; width. Qed.

Lemma dec_digit_chars n : is_u64 n -> Forall is_digit (dec n).
Proof. intros Hn. by destruct (dec_spec n Hn) as (ds & -> & _ & ? & _). Qed.

Lemma digit_char c : is_digit c -> is_char c /\ is_whitespace c = false /\ c <> 32.
Proof.
  unfold is_digit, is_char. intros. split_and!; try lia.
  unfold is_whitespace, within. lia.
Qed.

(** Nothing to trim around text without whitespace. *)
Lemma trim_start_matches_none p s : Forall (fun c => p c = false) s -> trim_start_matches p s = s.
Proof. destruct 1 as [|c s Hc]; [done|]. simpl. by rewrite Hc. Qed.

Lemma trim_none s : Forall (fun c => is_whitespace c = false) s -> trim s = s.
Proof.
  intros Hs. unfold trim, trim_end, trim_end_matches, trim_start.
  rewrite (trim_start_matches_none _ s) by done.
  rewrite trim_start_matches_none by (by apply Forall_reverse). apply reverse_involutive.
Qed.

Lemma split_once_app p a c b :
  Forall (fun x => p x = false) a -> p c = true -> split_once p (a ++ c :: b) = Some (a, b).
Proof. induction 1 as [|x a Hx _ IH]; intros Hc; simpl; [by rewrite Hc|]. by rewrite Hx, IH. Qed.

Lemma split_once_none p a : Forall (fun x => p x = false) a -> split_once p a = None.
Proof. induction 1 as [|x a Hx _ IH]; simpl; [done|]. by rewrite Hx, IH. Qed.

Lemma split_once_spec p s a b :
  split_once p s = Some (a, b) ->
  exists c, s = a ++ c :: b /\ p c = true /\ Forall (fun x => p x = false) a.
Proof.
  revert a b. induction s as [|x s IH]; intros a b; simpl; [done|].
  destruct (p x) eqn:Hx; [intros [= <- <-]; by exists x|].
  destruct (split_once p s) as [[a' b']|]; [|done]. intros [= <- <-].
  destruct (IH a' b' eq_refl) as (c & -> & Hc & Ha). exists c. split_and!; [done|done|by constructor].
Qed.

Lemma str_chars s : Forall is_char (str s) .
Proof.
  induction s as [|a s IH]; simpl; constructor; [|done].
  pose proof (Ascii.N_ascii_bounded a). unfold is_char. lia.
Qed.

(** ** Encoded lengths *)

Lemma str_len_app a b : str_len (a ++ b) = str_len a + str_len b.
Proof. unfold str_len. by rewrite as_bytes_app, len_app. Qed.

Lemma ascii_bytes s : Forall (fun c => 0 <= c < 128) s -> as_bytes s = s.
Proof.
  induction 1 as [|c s Hc Hs IH]; [done|].
  change (as_bytes (c :: s)) with (utf8_char c ++ as_bytes s). rewrite IH.
  unfold utf8_char. by rewrite (proj2 (Z.ltb_lt _ _)) by lia.
Qed.

Lemma ascii_len s : Forall (fun c => 0 <= c < 128) s -> str_len s = len s.
Proof. intros Hs. unfold str_len. by rewrite ascii_bytes. Qed.

Lemma dec_digits_length fuel n acc : (length (dec_digits fuel n acc) <= fuel + length acc)%nat.
Proof.
  revert n acc. induction fuel as [|fuel IH]; intros n acc; [done|]. cbn [dec_digits].
  destruct (n <? 10); simpl; [lia|]. etransitivity; [apply IH|]. simpl. lia.
Qed.

(** A [u64] prints in at most twenty bytes. *)
Lemma dec_len n : is_u64 n -> str_len (dec n) <= 20.
Proof.
  intros Hn. rewrite ascii_len.
  - unfold len. pose proof (dec_digits_length 20 n []) as Hl. unfold dec. simpl in Hl |- *. lia.
  - eapply Forall_impl; [by apply dec_digit_chars|]. unfold is_digit. lia.
Qed.
