(* ===== verification/Vectors.v ===== *)
(** * The known-answer vectors: [src/vectors.rs]

    The vectors the crate pins, evaluated on the executable AES-256-GCM of
    [AesGcm]: the frames the model builds are the committed bytes, and the
    committed bytes open at their recipients.  The expected bytes come from an
    independent implementation, so they check prefix, flags, nonce position,
    associated data and tag position of both modes at once. *)

From S2P Require Export AesGcm Text Dek.

(** Lowercase or uppercase hexadecimal digit: [to_digit(16)]. *)
Definition to_digit16 (c : Z) : option Z := digit 16 c.

(** [chunks_exact(2)] drops an odd last byte; [None] is the panic of
    [expect]. *)
Fixpoint unhex_bytes (bs : bytes) : option bytes :=
  match bs with
  | a :: b :: rest =>
      match to_digit16 a, to_digit16 b, unhex_bytes rest with
      | Some high, Some low, Some tail => Some (Z.lor (Z.shiftl high 4) low :: tail)
      | _, _, _ => None
      end
  | _ => Some []
  end.

Definition unhex (input : text) : option bytes := unhex_bytes (as_bytes input).

Definition PSK : bytes := [
  0xA1; 0xB2; 0xC3; 0xD4; 0xE5; 0xF6; 0x07; 0x18; 0x29; 0x3A; 0x4B; 0x5C; 0x6D; 0x7E; 0x8F; 0x90;
  0x13; 0x24; 0x35; 0x46; 0x57; 0x68; 0x79; 0x8A; 0x9B; 0xAC; 0xBD; 0xCE; 0xDF; 0xE0; 0xF1; 0x02].
Definition FROM : Z := 0x0A0B.
Definition TO : Z := 0x0C0D.
Definition CHANNEL : Z := 0x0E0F.
Definition EPOCH : Z := 9.
Definition NONCE : bytes :=
  [0xC0; 0xC1; 0xC2; 0xC3; 0xC4; 0xC5; 0xC6; 0xC7; 0xC8; 0xC9; 0xCA; 0xCB].
Definition V2 : bytes := as_bytes (str "paxe vector v2: standard short payload").
Definition V2_FRAME_HEX : text := str (
  "0a0b0c0d00000e0f4cc0c1c2c3c4c5c6" +:+
  "c7c8c9cacb11e08e8e015385ddbc7e77" +:+
  "1d411ecffe2a26717d89c5bc800ee4e3" +:+
  "3262fe2f6d78a58b8a02e23c46700ed4" +:+
  "190d85d57aa0d74052b6ea").
Definition FANOUT_PAYLOAD : bytes := as_bytes (str "fixed reusable-DEK vector").
Definition FANOUT_DEK : bytes := replicate 32 0xE0.
Definition FANOUT_BODY_NONCE : bytes := replicate 12 0xD0.
Definition FANOUT_ENVELOPE_NONCES : list bytes := [replicate 12 0xB0; replicate 12 0xB1].
Definition FANOUT_FIRST_FRAME_HEX : text := str (
  "0a0b0c0d00000e0f4db0b0b0b0b0b0b0b0b0b0b0b0" +:+
  "c665b11725373b2d9daf03c359fb50ae3cc278c30626f74b0f7b18a58e3adf15" +:+
  "d75fb9dfb2a29beb0d08bea78e4c207b" +:+
  "d0d0d0d0d0d0d0d0d0d0d0d0" +:+
  "5187e7d3f6791322348227884ecce454c12d780f76a3e7020e" +:+
  "4410681f921c4c96cfbd93f92384fdbd").
Definition FANOUT_SECOND_FRAME_HEX : text := str (
  "0a0b0c0e00000e0f45b1b1b1b1b1b1b1b1b1b1b1b1" +:+
  "73e405815863bcfc7997415ba535082c35316fd14fa1a3011d2102dc8589fa80" +:+
  "852e550a6cc330ee9418d9165e7ae43e" +:+
  "d0d0d0d0d0d0d0d0d0d0d0d0" +:+
  "5187e7d3f6791322348227884ecce454c12d780f76a3e7020e" +:+
  "4410681f921c4c96cfbd93f92384fdbd").

Section Suite.
Context `{Libsodium}.

(** [ep(value)]; [None] is a panic of [expect], here and below. *)
Definition ep (value : Z) : option Epoch :=
  match epoch_new value with Ok e => Some e | Err _ => None end.

(** A test's keystore: created for [id], with the keys installed in order. *)
Fixpoint install_keys (ks : KeyStore) (keys : list (Z * Epoch * bytes))
    : St SodiumState (option KeyStore) :=
  match keys with
  | [] => ret (Some ks)
  | (peer, e, k) :: rest =>
      let* (r, ks) := install ks peer e k in
      match r with Ok _ => install_keys ks rest | Err _ => ret None end
  end.

Definition store_with (id : Z) (keys : list (Z * Epoch * bytes))
    : St SodiumState (option KeyStore) :=
  let* r := keystore_new id in
  match r with Ok ks => install_keys ks keys | Err _ => ret None end.

(** Whether the bytes open at a fresh node [id] with one key for [FROM], to
    this payload. *)
Definition opens_to (id : Z) (e : Epoch) (k frame payload : bytes) (s : SodiumState)
    : option (Header * bool) :=
  match store_with id [(FROM, e, k)] s with
  | (Some receiver, s) =>
      match (Dek.open s receiver frame stats_init).1 with
      | Ok (h, _, plain) => Some (h, bool_decide (plain = payload))
      | Err _ => None
      end
  | (None, _) => None
  end.

(** The first test: every assertion, as one boolean; [None] is a panic of
    [expect].  The skip on hosts without the hardware path is not part of it. *)
Definition standard_known_answer_vector_is_exact (s : SodiumState) : option bool :=
  match ep EPOCH, unhex V2_FRAME_HEX with
  | Some e, Some expected =>
      match store_with FROM [(TO, e, PSK)] s with
      | (Some store, s) =>
          match seal_standard_deterministic s store TO CHANNEL e V2 NONCE with
          | Ok frame =>
              match opens_to TO e PSK frame V2 s with
              | Some (h, same) =>
                  Some (bool_decide (frame = expected) && (h.(from_id) =? FROM) &&
                        (h.(to_id) =? TO) && same)
              | None => None
              end
          | Err _ => None
          end
      | (None, _) => None
      end
  | _, _ => None
  end.

Definition reusable_dek_two_recipient_known_answer_vector_is_exact (s : SodiumState) : option bool :=
  match ep EPOCH, ep 8, unhex FANOUT_FIRST_FRAME_HEX, unhex FANOUT_SECOND_FRAME_HEX with
  | Some e, Some e8, Some first, Some second =>
      match store_with FROM [(TO, e, PSK); (0x0C0E, e8, replicate 32 0x55)] s with
      | (Some sender, s) =>
          match seal_fanout_deterministic s sender [TO; 0x0C0E] CHANNEL FANOUT_PAYLOAD FANOUT_DEK
                  FANOUT_BODY_NONCE FANOUT_ENVELOPE_NONCES with
          | Some (Ok [f0; f1]) =>
              match opens_to TO e PSK f0.(ff_frame) FANOUT_PAYLOAD s,
                    opens_to 0x0C0E e8 (replicate 32 0x55) f1.(ff_frame) FANOUT_PAYLOAD s with
              | Some (_, same0), Some (_, same1) =>
                  Some (bool_decide (f0.(ff_frame) = first) && bool_decide (f1.(ff_frame) = second) &&
                        bool_decide (drop 69 f0.(ff_frame) = drop 69 f1.(ff_frame)) &&
                        negb (bool_decide (take 69 f0.(ff_frame) = take 69 f1.(ff_frame))) &&
                        (len f0.(ff_frame) =? len FANOUT_PAYLOAD + DEK_OVERHEAD) && same0 && same1)
              | _, _ => None
              end
          | _ => None
          end
      | (None, _) => None
      end
  | _, _, _, _ => None
  end.

End Suite.

(** ** The algorithm itself *)

(** The vector the provenance note names: zero key, zero nonce, one zero
    block. *)
Example sp800_38d_zero_vector :
  Some (gcm_encrypt (zeros 16) [] (zeros 12) (zeros 32)).2 =
  unhex (str "cea7403d4d606b6e074ec5d3baf39d18d0d1c8a799996bf0265b98b5d48ab919").
Proof. vm_compute. reflexivity. Qed.

(** ** Claims *)

(** both committed vectors hold of the model on real AES-256-GCM: the
    standard frame and the two reusable-DEK frames are, byte for byte, the ones
    an independent implementation produced; each opens at its recipient to the
    payload, from the right source; and the two fanout frames share their body
    and differ before it. *)
Theorem known_answers_hold :
  @standard_known_answer_vector_is_exact gcm_sodium toy_state = Some true /\
  @reusable_dek_two_recipient_known_answer_vector_is_exact gcm_sodium toy_state = Some true.
Proof. split; vm_compute; reflexivity. Qed.
