(* ===== verification/Testing.v ===== *)
(** * A test runner: the crate's unit tests over the model

    The repository's [#[test]] functions, as programs over the definitions of
    this development.  A test threads the state of the code it drives; [None]
    is a panic, so a failed [assert!], [assert_eq!], [expect] or an index out of
    range ends it.  [passes t s] says that the test runs to its end from [s].
    Where a test skips itself on a host without the AES-GCM hardware path, so
    does its translation. *)

From S2P Require Export Vectors.

Definition Test (S A : Type) : Type := S -> option (A * S).

Global Instance test_ret {S} : MRet (Test S) := fun A a s => Some (a, s).
Global Instance test_bind {S} : MBind (Test S) := fun A B k m s =>
  match m s with Some (a, s) => k a s | None => None end.

Definition passes {S A} (t : Test S A) (s : S) : bool := bool_decide (is_Some (t s)).

(** One operation of the model as a step of a test. *)
Definition run {S A} (m : St S A) : Test S A := fun s => Some (m s).

(** [assert!], [assert_eq!], [assert_ne!]. *)
Definition check {S} (b : bool) : Test S unit := fun s => if b then Some (tt, s) else None.
Definition assert_eq {S A} `{EqDecision A} (x y : A) : Test S unit := check (bool_decide (x = y)).
Definition assert_ne {S A} `{EqDecision A} (x y : A) : Test S unit := check (negb (bool_decide (x = y))).

(** [Result::expect], [Option::expect], [is_none] and [is_err] in an
    assertion. *)
Definition expect {S A E} (r : result A E) : Test S A := fun s =>
  match r with Ok a => Some (a, s) | Err _ => None end.
Definition some {S A} (o : option A) : Test S A := fun s =>
  match o with Some a => Some (a, s) | None => None end.
Definition is_none {A} (o : option A) : bool := match o with Some _ => false | None => true end.
Definition is_err {A E} (r : result A E) : bool := negb (is_ok r).

(** [for x in xs { body }]. *)
Fixpoint for_each {S A} (xs : list A) (body : A -> Test S unit) : Test S unit :=
  match xs with
  | [] => mret tt
  | x :: rest => body x ;; for_each rest body
  end.

(** [0..n]. *)
Definition range (n : Z) : list Z := seqZ 0 n.

(** [v[i] ^= x] and [v[i] = x] on a vector: out of range panics. *)
Definition xor_at {S} (v : bytes) (i x : Z) : Test S bytes :=
  b ← some (v !! Z.to_nat i); mret (<[Z.to_nat i := Z.lxor b x]> v).
Definition set_at {S} (v : bytes) (i x : Z) : Test S bytes :=
  _ ← some (v !! Z.to_nat i); mret (<[Z.to_nat i := x]> v).
Definition at_index {S A} (v : list A) (i : Z) : Test S A := some (v !! Z.to_nat i).

(** [v[lo..hi]] and [v[lo..]]. *)
Definition slice_of {S} (v : bytes) (lo hi : Z) : Test S bytes := some (get_range v lo hi).
Definition slice_from {S} (v : bytes) (lo : Z) : Test S bytes := some (get_from v lo).

(** [v[lo..lo + src.len()].copy_from_slice(src)]. *)
Definition copy_at {S} (v : bytes) (lo : Z) (src : bytes) : Test S bytes :=
  _ ← some (get_range v lo (lo + len src));
  mret (take (Z.to_nat lo) v ++ src ++ drop (Z.to_nat lo + length src) v).

(** [vec![b; n]]. *)
Definition filled (b n : Z) : bytes := replicate (Z.to_nat n) b.

(** The state of the crate's Rust API: libsodium and the thread's statistics.
    Test runs start after the first draw, whose bytes are all zero on the
    executable hosts. *)
Definition World : Type := SodiumState * StatsState.
Definition world : World := (set_draws 1 toy_state, stats_init).
Definition on_sodium {A} (m : St SodiumState A) : Test World A := fun '(s, w) =>
  let '(a, s) := m s in Some (a, (s, w)).
Definition on_stats {A} (m : St StatsState A) : Test World A := fun '(s, w) =>
  let '(a, w) := m w in Some (a, (s, w)).
Definition sodium : Test World SodiumState := fun '(s, w) => Some (s, (s, w)).

Section Stores.
Context `{Libsodium}.

(** [Epoch::new(bits).expect("test epochs are in range")]. *)
Definition epoch_of {S} (b : Z) : Test S Epoch := expect (epoch_new b).

(** [KeyStore::new(id).expect(..)] and [ks.install(..).expect(..)]. *)
Definition new_store (id : Z) : Test World KeyStore :=
  r ← on_sodium (keystore_new id); expect r.
Definition install_ok (ks : KeyStore) (peer epoch : Z) (key : bytes) : Test World KeyStore :=
  e ← epoch_of epoch;
  '(r, ks) ← on_sodium (install ks peer e key);
  _ ← expect r; mret ks.

(** [gcm_or_skip]: [false] skips the test. *)
Definition gcm_or_skip : Test World bool :=
  r ← on_sodium init; _ ← expect r; mret aes_gcm_available.

(** Run [body] unless the host lacks the hardware path. *)
Definition unless_skipped (body : Test World unit) : Test World unit :=
  ok ← gcm_or_skip; if ok : bool then body else mret tt.

End Stores.
