(* ===== verification/TestsCore.v ===== *)
(** * Unit tests of the lower layers

    The [tests] modules of [src/sodium.rs], [src/codec.rs], [src/stats.rs] and
    [src/keystore.rs] (see [Testing]).  Each definition has the name of the
    test function it translates. *)

From S2P Require Export Testing.

Section Tests.
Context `{Libsodium}.

(** ** [src/sodium.rs] *)

Definition key_zero : bytes := zeros KEYBYTES.
Definition nonce_zero : bytes := zeros NPUBBYTES.

Definition init_distinguishes_three_outcomes_and_never_fails_twice : Test World unit :=
  r ← on_sodium init; first ← expect r;
  check (bool_decide (first = Fresh) || bool_decide (first = AlreadyInitialised)) ;;
  r ← on_sodium init; second ← expect r;
  check (bool_decide (second = Fresh) || bool_decide (second = AlreadyInitialised)).

Definition startup_check_runs_the_full_contract_and_is_idempotent : Test World unit :=
  r ← on_sodium startup_check; first ← expect r;
  check (String.prefix "1" first) ;;
  r ← on_sodium startup_check; second ← expect r;
  assert_eq first second.

Definition compile_time_sizes_match_linked_library : Test World unit :=
  r ← on_sodium init; _ ← expect r;
  _ ← expect check_sizes;
  assert_eq KEYBYTES 32 ;; assert_eq NPUBBYTES 12 ;; assert_eq ABYTES 16.

Definition aes_gcm_availability_is_reportable_never_panics : Test World unit :=
  r ← on_sodium init; _ ← expect r;
  match require_aes_gcm with
  | Ok _ => check aes_gcm_available
  | Err AesGcmUnavailable => check (negb aes_gcm_available)
  | Err _ => some None
  end.

Definition aes_gcm_known_answer_zero_key : Test World unit :=
  unless_skipped (
    let key := key_zero in
    let nonce := nonce_zero in
    let expected_tag :=
      [0x53; 0x0f; 0x8a; 0xfb; 0xc7; 0x45; 0x36; 0xb9; 0xa9; 0x63; 0xb4; 0xf1; 0xc4; 0xcb; 0x73; 0x8b] in
    let '(r, out) := aead_encrypt key nonce [] [] (zeros ABYTES) in
    n ← expect r;
    assert_eq n ABYTES ;;
    check (ct_eq out expected_tag) ;;
    let expected_ct :=
      [0xce; 0xa7; 0x40; 0x3d; 0x4d; 0x60; 0x6b; 0x6e; 0x07; 0x4e; 0xc5; 0xd3; 0xba; 0xf3; 0x9d; 0x18] in
    let expected_tag2 :=
      [0xd0; 0xd1; 0xc8; 0xa7; 0x99; 0x99; 0x6b; 0xf0; 0x26; 0x5b; 0x98; 0xb5; 0xd4; 0x8a; 0xb9; 0x19] in
    let pt := zeros 16 in
    let '(r, out2) := aead_encrypt key nonce [] pt (zeros 32) in
    n2 ← expect r;
    assert_eq n2 32 ;;
    check (ct_eq (take 16 out2) expected_ct) ;;
    check (ct_eq (drop 16 out2) expected_tag2) ;;
    let '(r, back) := aead_decrypt key nonce [] out2 (zeros 16) in
    m ← expect r;
    assert_eq m 16 ;;
    check (ct_eq back pt) ;;
    let '(r, _) := aead_decrypt key nonce [] out [] in
    m1 ← expect r;
    assert_eq m1 0).

Definition aead_roundtrip_with_aad_and_tamper_detection : Test World unit :=
  unless_skipped (
    key ← on_sodium random_key;
    nonce ← on_sodium random_nonce;
    let aad := as_bytes (str "paxe header+flags") in
    let pt := as_bytes (str "datagram payload, longer than a tag") in
    let '(r, ct) := aead_encrypt key nonce aad pt (zeros 64) in
    clen ← expect r;
    assert_eq clen (len pt + ABYTES) ;;
    sealed ← slice_of ct 0 clen;
    let '(r, back) := aead_decrypt key nonce aad sealed (zeros 64) in
    plen ← expect r;
    assert_eq plen (len pt) ;;
    check (ct_eq (take (Z.to_nat plen) back) pt) ;;
    forged ← xor_at ct 0 0x01;
    forged ← slice_of forged 0 clen;
    let '(rc, scratch) := aead_decrypt key nonce aad forged (filled 0xAA 64) in
    assert_eq rc (Err AuthFailed) ;;
    check (forallb (Z.eqb 0) (take (length pt) scratch)) ;;
    let '(rc2, _) := aead_decrypt key nonce (as_bytes (str "wrong")) sealed back in
    assert_eq rc2 (Err AuthFailed)).

Definition aead_length_violations_are_rejected_before_ffi : Test World unit :=
  unless_skipped (
    let key := key_zero in
    let nonce := nonce_zero in
    assert_eq (aead_encrypt key nonce [] [1] (zeros ABYTES)).1 (Err InvalidLength) ;;
    assert_eq (aead_decrypt key nonce [] (zeros (ABYTES - 1)) (zeros 16)).1 (Err InvalidLength) ;;
    assert_eq (aead_decrypt key nonce [] (zeros (ABYTES + 8)) (zeros 4)).1 (Err InvalidLength)).

Definition randomness_comes_from_the_csprng : Test World unit :=
  r ← on_sodium init; _ ← expect r;
  n1 ← on_sodium random_nonce;
  n2 ← on_sodium random_nonce;
  check (negb (ct_eq n1 n2)) ;;
  k ← on_sodium random_key;
  check (negb (ct_eq k (zeros KEYBYTES))) ;;
  buf ← on_sodium (randombytes_fill 64);
  check (negb (ct_eq buf (zeros 64))) ;;
  _ ← on_sodium (randombytes_fill 0); mret tt.

Definition guarded_allocation_roundtrip_and_drop : Test World unit :=
  r ← on_sodium init; _ ← expect r;
  r ← on_sodium (guarded_new 64); g ← expect r;
  assert_eq (guarded_len g) 64 ;;
  check (negb (guarded_is_empty g)) ;;
  _ ← on_sodium (write_slice g (range 64));
  s ← sodium;
  b17 ← at_index (as_slice s g) 17;
  assert_eq b17 17 ;;
  assert_eq (len (as_slice s g)) 64 ;;
  _ ← on_sodium (guarded_drop g);
  r ← on_sodium (guarded_new 0); z ← expect r;
  check (guarded_is_empty z) ;;
  on_sodium (guarded_drop z).

Definition mlock_then_munlock_zeroes_the_region : Test World unit :=
  r ← on_sodium init; _ ← expect r;
  r ← on_sodium (guarded_new 32); g ← expect r;
  _ ← on_sodium (write_slice g (filled 0x5A 32));
  r ← on_sodium (mlock g); _ ← expect r;
  r ← on_sodium (munlock g); _ ← expect r;
  s ← sodium;
  check (forallb (Z.eqb 0) (as_slice s g)) ;;
  r ← on_sodium (mlock (MkGuarded 0 0)); _ ← expect r;
  r ← on_sodium (munlock (MkGuarded 0 0)); _ ← expect r;
  on_sodium (guarded_drop g).

Definition memzero_erases : Test World unit :=
  r ← on_sodium init; _ ← expect r;
  check (forallb (Z.eqb 0) (memzero (filled 0xA5 48))) ;;
  assert_eq (memzero []) [].

Definition ct_eq_semantics : Test World unit :=
  r ← on_sodium init; _ ← expect r;
  let b x := as_bytes (str x) in
  check (ct_eq (b "same") (b "same")) ;;
  check (negb (ct_eq (b "same") (b "diff"))) ;;
  check (negb (ct_eq (b "short") (b "longer"))) ;;
  check (ct_eq [] []).

Definition disable_core_dumps_zeroes_soft_limit_and_preserves_hard : Test World unit :=
  check (getrlimit_rc =? 0) ;;
  s ← sodium;
  let before := rlimit_core s in
  r ← on_sodium disable_core_dumps; _ ← expect r;
  check (getrlimit_rc =? 0) ;;
  s ← sodium;
  let after := rlimit_core s in
  assert_eq after.1 0 ;;
  assert_eq after.2 before.2 ;;
  r ← on_sodium disable_core_dumps; _ ← expect r; mret tt.

Definition sodium_tests : list (Test World unit) :=
  [init_distinguishes_three_outcomes_and_never_fails_twice;
   startup_check_runs_the_full_contract_and_is_idempotent;
   compile_time_sizes_match_linked_library;
   aes_gcm_availability_is_reportable_never_panics;
   aes_gcm_known_answer_zero_key;
   aead_roundtrip_with_aad_and_tamper_detection;
   aead_length_violations_are_rejected_before_ffi;
   randomness_comes_from_the_csprng;
   guarded_allocation_roundtrip_and_drop;
   mlock_then_munlock_zeroes_the_region;
   memzero_erases;
   ct_eq_semantics;
   disable_core_dumps_zeroes_soft_limit_and_preserves_hard].

(** The Windows regression pin, run on a host whose locks hit the quota. *)
Definition many_locked_keys_outlast_the_default_windows_quota : Test World unit :=
  r ← on_sodium init; _ ← expect r;
  let fix hold (n : nat) (held : list GuardedAllocation) : Test World (list GuardedAllocation) :=
    match n with
    | O => mret held
    | S n =>
        r ← on_sodium (guarded_new KEYBYTES); g ← expect r;
        r ← on_sodium (mlock g); _ ← expect r;
        hold n (held ++ [g])
    end in
  held ← hold 128%nat [];
  for_each held (fun g => r ← on_sodium (munlock g); _ ← expect r; mret tt).

(** ** [src/keystore.rs] *)

Definition LOCAL : Z := 100.
Definition PEER : Z := 200.
Definition material (fill : Z) : bytes := filled fill KEYBYTES.

(** [assert!(ct_eq(k.expose(), &bytes))] for a looked-up key. *)
Definition exposes (k : option StoredKey) (bs : bytes) : Test World unit :=
  k ← some k; s ← sodium; check (ct_eq (expose s k) bs).

Definition retire_slot (ks : KeyStore) (peer epoch : Z) : Test World (bool * KeyStore) :=
  e ← epoch_of epoch; on_sodium (retire ks peer e).

Definition install_and_lookup_on_both_directions : Test World unit :=
  ks ← new_store LOCAL;
  ks ← install_ok ks PEER 3 (material 0x11);
  assert_eq (keystore_len ks) 1 ;;
  e3 ← epoch_of 3; e4 ← epoch_of 4;
  exposes (key_for_send ks PEER e3) (material 0x11) ;;
  exposes (key_for_receive ks PEER e3) (material 0x11) ;;
  check (is_none (key_for_send ks PEER e4)) ;;
  check (is_none (key_for_receive ks PEER e4)) ;;
  check (is_none (key_for_send ks (PEER + 1) e3)) ;;
  assert_eq (local_id ks) LOCAL.

Definition overwrite_same_slot_replaces_material : Test World unit :=
  ks ← new_store LOCAL;
  ks ← install_ok ks PEER 1 (material 0xAA);
  ks ← install_ok ks PEER 1 (material 0xBB);
  e1 ← epoch_of 1;
  exposes (key_for_send ks PEER e1) (material 0xBB) ;;
  assert_eq (keystore_len ks) 1.

Definition two_epochs_for_one_peer_coexist_without_shadowing : Test World unit :=
  ks ← new_store LOCAL;
  ks ← install_ok ks PEER 1 (material 0x01);
  ks ← install_ok ks PEER 2 (material 0x02);
  e1 ← epoch_of 1; e2 ← epoch_of 2;
  exposes (key_for_receive ks PEER e1) (material 0x01) ;;
  exposes (key_for_receive ks PEER e2) (material 0x02) ;;
  assert_eq (keystore_len ks) 2.

Definition retirement_erases_only_that_epoch : Test World unit :=
  ks ← new_store LOCAL;
  ks ← install_ok ks PEER 1 (material 0x01);
  ks ← install_ok ks PEER 2 (material 0x02);
  '(removed, ks) ← retire_slot ks PEER 1;
  check removed ;;
  e1 ← epoch_of 1; e2 ← epoch_of 2;
  check (is_none (key_for_receive ks PEER e1)) ;;
  exposes (key_for_receive ks PEER e2) (material 0x02) ;;
  assert_eq (keystore_len ks) 1 ;;
  '(removed, ks) ← retire_slot ks PEER 1;
  check (negb removed) ;;
  assert_eq (keystore_len ks) 1.

(** The loop that fills the store; [None] for the [return] of a host that
    refuses more locked memory. *)
Fixpoint fill_store (slots : list Z) (ks : KeyStore) (installed : Z)
    : Test World (option (KeyStore * Z)) :=
  match slots with
  | [] => mret (Some (ks, installed))
  | i :: rest =>
      e0 ← epoch_of 0;
      '(r, ks) ← on_sodium (install ks (i `mod` 65536) e0 (material 0x5A));
      match r with
      | Ok _ => fill_store rest ks (installed + 1)
      | Err (KSodium _) => mret None
      | Err _ => some None
      end
  end.

Definition capacity_bound_is_explicit_and_overwrite_at_capacity_works : Test World unit :=
  ks ← new_store LOCAL;
  filled ← fill_store (range MAX_ENTRIES) ks 0;
  match filled with
  | None => mret tt
  | Some (ks, installed) =>
      assert_eq installed MAX_ENTRIES ;;
      assert_eq (keystore_len ks) MAX_ENTRIES ;;
      e0 ← epoch_of 0; e1 ← epoch_of 1;
      '(rc, ks) ← on_sodium (install ks PEER e1 (material 0x99));
      assert_eq rc (Err Full) ;;
      assert_eq (keystore_len ks) MAX_ENTRIES ;;
      ks ← install_ok ks 0 0 (material 0x77);
      exposes (key_for_send ks 0 e0) (material 0x77) ;;
      assert_eq (keystore_len ks) MAX_ENTRIES
  end.

Definition send_uses_toid_receive_uses_fromid_with_two_distinct_nodes : Test World unit :=
  ks ← new_store LOCAL;
  let peer_key := material 0x0A in
  let loopback_key := material 0x0B in
  ks ← install_ok ks PEER 7 peer_key;
  ks ← install_ok ks LOCAL 7 loopback_key;
  e7 ← epoch_of 7;
  exposes (key_for_send ks PEER e7) peer_key ;;
  exposes (key_for_receive ks PEER e7) peer_key ;;
  send ← some (key_for_send ks PEER e7);
  recv ← some (key_for_receive ks PEER e7);
  s ← sodium;
  check (ct_eq (expose s send) (expose s recv)) ;;
  check (negb (ct_eq (expose s send) loopback_key)) ;;
  exposes (key_for_send ks LOCAL e7) loopback_key ;;
  exposes (key_for_receive ks LOCAL e7) loopback_key.

Definition send_current_is_the_highest_installed_epoch_and_follows_retirement : Test World unit :=
  ks ← new_store LOCAL;
  check (is_none (key_for_send_current ks PEER)) ;;
  ks ← install_ok ks PEER 1 (material 0x01);
  ks ← install_ok ks PEER 5 (material 0x05);
  ks ← install_ok ks PEER 3 (material 0x03);
  e5 ← epoch_of 5; e6 ← epoch_of 6;
  '(epoch, key) ← some (key_for_send_current ks PEER);
  assert_eq epoch e5 ;;
  exposes (Some key) (material 0x05) ;;
  ks ← install_ok ks PEER 6 (material 0x06);
  '(epoch, _) ← some (key_for_send_current ks PEER);
  assert_eq epoch e6 ;;
  '(removed, ks) ← retire_slot ks PEER 6;
  check removed ;;
  '(epoch, key) ← some (key_for_send_current ks PEER);
  assert_eq epoch e5 ;;
  exposes (Some key) (material 0x05) ;;
  check (is_none (key_for_send_current ks (PEER + 1))) ;;
  '(_, ks) ← retire_slot ks PEER 1;
  '(_, ks) ← retire_slot ks PEER 3;
  '(_, ks) ← retire_slot ks PEER 5;
  check (is_none (key_for_send_current ks PEER)).

Definition peer_known_distinguishes_topology_from_rotation : Test World unit :=
  ks ← new_store LOCAL;
  check (negb (peer_known ks PEER)) ;;
  ks ← install_ok ks PEER 3 (material 0x01);
  check (peer_known ks PEER) ;;
  check (negb (peer_known ks (PEER + 1))) ;;
  '(removed, ks) ← retire_slot ks PEER 3;
  check removed ;;
  check (negb (peer_known ks PEER)).

Definition epoch_above_31_is_rejected : Test World unit :=
  check (is_ok (epoch_new 0)) ;;
  top ← expect (epoch_new MAX_EPOCH);
  assert_eq (bits top) 31 ;;
  assert_eq (epoch_new 32) (Err (InvalidEpoch 32)) ;;
  assert_eq (epoch_new 255) (Err (InvalidEpoch 255)).

Definition debug_never_contains_material : Test World unit :=
  ks ← new_store LOCAL;
  ks ← install_ok ks PEER 0 (material 0xAB);
  e0 ← epoch_of 0;
  k ← some (key_for_send ks PEER e0);
  assert_eq (debug_StoredKey k) "StoredKey([..; 32])".

Definition clear_erases_everything : Test World unit :=
  ks ← new_store LOCAL;
  ks ← install_ok ks PEER 1 (material 0x01);
  ks ← install_ok ks PEER 2 (material 0x02);
  ks ← install_ok ks (PEER + 1) 1 (material 0x03);
  assert_eq (keystore_len ks) 3 ;;
  ks ← on_sodium (clear ks);
  check (is_empty ks) ;;
  assert_eq (keystore_len ks) 0 ;;
  e1 ← epoch_of 1;
  check (is_none (key_for_send ks PEER e1)) ;;
  check (is_none (key_for_receive ks (PEER + 1) e1)).

Definition expose_yields_a_borrowed_exact_size_slice : Test World unit :=
  ks ← new_store LOCAL;
  let m := material 0x42 in
  ks ← install_ok ks PEER 0 m;
  e0 ← epoch_of 0;
  k ← some (key_for_send ks PEER e0);
  s ← sodium;
  assert_eq (len (expose s k)) KEYBYTES ;;
  check (ct_eq (expose s k) m).

Definition keystore_tests : list (Test World unit) :=
  [install_and_lookup_on_both_directions;
   overwrite_same_slot_replaces_material;
   two_epochs_for_one_peer_coexist_without_shadowing;
   retirement_erases_only_that_epoch;
   capacity_bound_is_explicit_and_overwrite_at_capacity_works;
   send_uses_toid_receive_uses_fromid_with_two_distinct_nodes;
   send_current_is_the_highest_installed_epoch_and_follows_retirement;
   peer_known_distinguishes_topology_from_rotation;
   epoch_above_31_is_rejected;
   debug_never_contains_material;
   clear_erases_everything;
   expose_yields_a_borrowed_exact_size_slice].

End Tests.

(** ** [src/codec.rs] *)

Definition flags_of (m : Mode) (epoch : Z) : Test unit Flags := e ← epoch_of epoch; mret (MkFlags m e).

(** The body of the exhaustive loop: what it adds to [accepted]. *)
Definition flags_byte_case (byte : Z) : Test unit Z :=
  let boundary := Z.land byte FIXED_MASK =? FIXED_PATTERN in
  match from_byte byte with
  | Ok flags =>
      check boundary ;;
      let want_mode := if Z.land byte 0x01 =? 0 then Standard else Dek in
      assert_eq (mode flags) want_mode ;;
      assert_eq (bits (epoch flags)) (Z.shiftr byte 3) ;;
      assert_eq (to_byte flags) byte ;;
      mret 1
  | Err (InvalidFlags offending) =>
      assert_eq offending byte ;;
      check (negb boundary) ;;
      check (negb (Z.land byte 0x02 =? 0) || (Z.land byte 0x04 =? 0)) ;;
      mret 0
  | Err _ => some None
  end.

Fixpoint count_accepted (bytes : list Z) (accepted : Z) : Test unit Z :=
  match bytes with
  | [] => mret accepted
  | byte :: rest => n ← flags_byte_case byte; count_accepted rest (accepted + n)
  end.

Definition flags_byte_exhaustive_all_256_accept_reject_boundary : Test unit unit :=
  accepted ← count_accepted (range 256) 0;
  assert_eq accepted 64.

Definition known_wire_vector_is_big_endian_and_field_ordered : Test unit unit :=
  let prefix := [0x00; 0x01; 0x00; 0x02; 0x00; 0x00; 0x00; 0x64; 0x2C] in
  '(header, flags) ← expect (parse_prefix prefix);
  assert_eq (from_id header) 1 ;;
  assert_eq (to_id header) 2 ;;
  assert_eq (channel header) 100 ;;
  assert_eq (mode flags) Standard ;;
  assert_eq (bits (epoch flags)) 5 ;;
  assert_eq (serialize_prefix header flags) prefix.

(** Value to bytes to value, and bytes to value to bytes. *)
Definition header_round_trips (h : Header) : Test unit unit :=
  let bytes := to_bytes h in
  assert_eq (from_bytes bytes) h ;;
  assert_eq (to_bytes (from_bytes bytes)) bytes.

Definition header_field_boundaries_round_trip_both_directions : Test unit unit :=
  for_each [0; 1; U16_MAX] (fun v =>
    header_round_trips (MkHeader v 0x2222 0x33334444) ;;
    header_round_trips (MkHeader 0x1111 v 0x33334444)) ;;
  for_each [0; 1; U32_MAX] (fun v => header_round_trips (MkHeader 0x1111 0x2222 v)) ;;
  for_each [MkHeader 0 0 0; MkHeader U16_MAX U16_MAX U32_MAX] (fun h =>
    flags ← flags_of Dek 31;
    '(h2, f2) ← expect (parse_prefix (serialize_prefix h flags));
    assert_eq h2 h ;;
    assert_eq f2 flags).

Definition mode_epoch_round_trip_is_exact_for_all_combinations : Test unit unit :=
  for_each [Standard; Dek] (fun m =>
    for_each (range 32) (fun b =>
      flags ← flags_of m b;
      back ← expect (from_byte (to_byte flags));
      assert_eq back flags ;;
      assert_eq (mode back) m ;;
      assert_eq (bits (epoch back)) b)).

Definition epoch_boundaries_and_out_of_range_unrepresentable : Test unit unit :=
  for_each [(Standard, 0, 0x04); (Dek, 0, 0x05); (Standard, 31, 0xFC); (Dek, 31, 0xFD)]
    (fun '(m, e, byte) => flags ← flags_of m e; assert_eq (to_byte flags) byte) ;;
  for_each [(0x04, 0); (0x05, 0); (0xFC, 31); (0xFD, 31)] (fun '(byte, b) =>
    f ← expect (from_byte byte);
    assert_eq (bits (epoch f)) b ;;
    assert_eq (to_byte f) byte) ;;
  check (is_err (epoch_new 32)) ;;
  check (is_err (epoch_new U8_MAX)).

Definition all_zero_and_all_ones_prefixes_are_rejected_by_flags_gate : Test unit unit :=
  assert_eq (parse_prefix (filled 0x00 PREFIX_LEN)) (Err (InvalidFlags 0x00)) ;;
  assert_eq (parse_prefix (filled 0xFF PREFIX_LEN)) (Err (InvalidFlags 0xFF)).

Definition short_inputs_report_too_short_and_extras_are_ignored : Test unit unit :=
  for_each (range PREFIX_LEN) (fun n =>
    cut ← slice_of (filled 0x2C PREFIX_LEN) 0 n;
    assert_eq (parse_prefix cut) (Err (TooShort n))) ;;
  flags ← flags_of Dek 9;
  frame ← copy_at (filled 0xAA 64) 0 (serialize_prefix (MkHeader 7 8 100) flags);
  '(h, f) ← expect (parse_prefix frame);
  assert_eq (channel h) 100 ;;
  assert_eq f flags.

(** One iteration of the seeded property test, for the prefix and the cut the
    generator drew. *)
Definition prefix_property (prefix : bytes) (cut : Z) : Test unit unit :=
  let result := parse_prefix prefix in
  flags_byte ← at_index prefix FLAGS_OFFSET;
  assert_eq (is_ok result) (Z.land flags_byte FIXED_MASK =? FIXED_PATTERN) ;;
  match result with
  | Ok (header, flags) =>
      assert_eq (serialize_prefix header flags) prefix ;;
      b0 ← at_index prefix 0; b1 ← at_index prefix 1;
      assert_eq (from_id header) (from_be_bytes [b0; b1]) ;;
      assert_eq (bits (epoch flags)) (Z.shiftr flags_byte 3)
  | Err e => assert_eq e (InvalidFlags flags_byte)
  end ;;
  short ← slice_of prefix 0 cut;
  assert_eq (parse_prefix short) (Err (TooShort cut)).

(** The generator: xorshift64 on a nonzero state. *)
Definition xorshift64_new (seed : Z) : Z := Z.lor seed 1.
Definition next_u64 (state : Z) : Z :=
  let x := Z.lxor state (Z.land (Z.shiftl state 13) U64_MAX) in
  let x := Z.lxor x (Z.shiftr x 7) in
  Z.lxor x (Z.land (Z.shiftl x 17) U64_MAX).

Definition next_prefix (state : Z) : bytes * Z :=
  let x := next_u64 state in
  let y := next_u64 x in
  (reverse (to_be_bytes 8 x) ++ [Z.land y 0xFF], y).

(** The random stream of the property test: [n] iterations from a generator
    state; the number accepted. *)
Fixpoint property_stream (n : nat) (state accepted : Z) : Test unit Z :=
  match n with
  | O => mret accepted
  | S n =>
      let '(prefix, state) := next_prefix state in
      let state := next_u64 state in
      prefix_property prefix (state `mod` PREFIX_LEN) ;;
      property_stream n state (if is_ok (parse_prefix prefix) then accepted + 1 else accepted)
  end.

(** The degenerate shapes, the stream, and the two closing assertions on the
    number accepted.  The source has [iterations] one million. *)
Definition seeded_property_no_panic_and_total_mapping (iterations : nat) (seed : Z) : Test unit unit :=
  for_each [filled 0x00 PREFIX_LEN; filled 0xFF PREFIX_LEN] (fun prefix =>
    b ← at_index prefix FLAGS_OFFSET;
    assert_eq (parse_prefix prefix) (Err (InvalidFlags b))) ;;
  accepted ← property_stream iterations (xorshift64_new seed) 0;
  check (100000 <? accepted) ;;
  check (accepted <? Z.of_nat iterations - 100000).

Definition DEFAULT_SEED : Z := 0x9E3779B97F4A7C15.

Definition codec_tests : list (Test unit unit) :=
  [flags_byte_exhaustive_all_256_accept_reject_boundary;
   known_wire_vector_is_big_endian_and_field_ordered;
   header_field_boundaries_round_trip_both_directions;
   mode_epoch_round_trip_is_exact_for_all_combinations;
   epoch_boundaries_and_out_of_range_unrepresentable;
   all_zero_and_all_ones_prefixes_are_rejected_by_flags_gate;
   short_inputs_report_too_short_and_extras_are_ignored].

(** ** The property test, for every seed *)

Definition flags_byte_agrees (b : Z) : Prop :=
  is_ok (from_byte b) = (Z.land b FIXED_MASK =? FIXED_PATTERN) /\
  match from_byte b with
  | Ok f => bits (epoch f) = Z.shiftr b 3
  | Err e => e = InvalidFlags b
  end.

Global Instance flags_byte_agrees_dec b : Decision (flags_byte_agrees b).
Proof. unfold flags_byte_agrees. destruct (from_byte b); apply _. Defined.

Lemma flags_byte_agrees_all b : is_u8 b -> flags_byte_agrees b.
Proof. intros Hb. refine (below_forall 256 flags_byte_agrees _ b _); [by vm_compute|width]. Qed.

Lemma assert_eq_true {S A} `{EqDecision A} (x y : A) (s : S) : x = y -> assert_eq x y s = Some (tt, s).
Proof. intros ->. unfold assert_eq, check. by rewrite bool_decide_eq_true_2. Qed.

(** Run the assertions of a test in order, each from its equation. *)
Ltac asserting := unfold mbind at 1, test_bind at 1; rewrite assert_eq_true; [|try done].

Lemma prefix_property_holds prefix cut s :
  Forall is_u8 prefix -> len prefix = PREFIX_LEN -> 0 <= cut < PREFIX_LEN ->
  prefix_property prefix cut s = Some (tt, s).
Proof.
  intros Hu Hl Hc.
  destruct (parse_prefix_split prefix) as (f0&f1&t0&t1&c0&c1&c2&c3&b&rest&Ep&E); [lia|].
  assert (rest = []) as ->.
  { apply len_0_inv. rewrite Ep, len_app in Hl. change (len [f0; f1; t0; t1; c0; c1; c2; c3; b]) with 9 in Hl.
    unfold PREFIX_LEN in Hl. lia. }
  assert (is_u8 b) as Hb by (rewrite Ep in Hu; rewrite ?Forall_app, !Forall_cons in Hu; naive_solver).
  destruct (flags_byte_agrees_all b Hb) as [Hok Hcase].
  assert (Hbyte : prefix !! Z.to_nat FLAGS_OFFSET = Some b) by (by rewrite Ep).
  assert (Hshort : get_range prefix 0 cut = Some (take (Z.to_nat cut) prefix)).
  { unfold get_range. rewrite (proj2 (Z.leb_le 0 cut)), (proj2 (Z.leb_le cut (len prefix))) by lia.
    simpl. by rewrite Z.sub_0_r. }
  assert (Hcut : parse_prefix (take (Z.to_nat cut) prefix) = Err (TooShort cut)).
  { assert (len (take (Z.to_nat cut) prefix) = cut) as Hlc by (unfold len in *; rewrite length_take; lia).
    rewrite parse_prefix_short; rewrite Hlc; [done|lia]. }
  unfold prefix_property, at_index, slice_of.
  unfold mbind at 1, test_bind at 1. unfold some at 1. rewrite Hbyte. asserting.
  2: { rewrite E. by destruct (from_byte b). }
  unfold mbind at 1, test_bind at 1.
  assert (Hbody : (match parse_prefix prefix with
    | Ok (header, flags) =>
        assert_eq (serialize_prefix header flags) prefix ;;
        b0 ← some (prefix !! Z.to_nat 0); b1 ← some (prefix !! Z.to_nat 1);
        assert_eq (from_id header) (from_be_bytes [b0; b1]) ;;
        assert_eq (bits (epoch flags)) (Z.shiftr b 3)
    | Err e => assert_eq e (InvalidFlags b)
    end) s = Some (tt, s)).
  { destruct (parse_prefix prefix) as [[h f]|e] eqn:Hp.
    - destruct (serialize_parse_prefix _ _ _ Hu Hp) as [_ Hs].
      destruct (from_byte b) as [f'|]; [|done]. simpl in E. simplify_eq. asserting. unfold mbind, test_bind, some. simpl. by rewrite !assert_eq_true.
    - destruct (from_byte b) as [f'|]; [done|]. simpl in E. simplify_eq.
      by apply assert_eq_true. }
  rewrite Hbody. unfold mbind at 1, test_bind at 1. unfold some at 1. rewrite Hshort.
  by apply assert_eq_true.
Qed.

Lemma next_prefix_bytes state :
  Forall is_u8 (next_prefix state).1 /\ len (next_prefix state).1 = PREFIX_LEN.
Proof.
  unfold next_prefix. cbn [fst]. rewrite len_app, Forall_app. split; [split|].
  - apply Forall_reverse. by apply to_be_bytes_u8.
  - constructor; [|constructor]. change 0xFF with (Z.ones 8). rewrite Z.land_ones by lia.
    pose proof (Z.mod_pos_bound (next_u64 (next_u64 state)) (2 ^ 8)). unfold is_u8, U8_MAX. lia.
  - unfold len at 1. rewrite length_reverse. change (Z.of_nat (length ?l)) with (len l).
    by rewrite len_to_be_bytes by lia.
Qed.

(** How many of the first [n] prefixes the generator draws have the constant
    bits of a flags byte (bit 2 set, bit 1 clear) in their last byte. *)
Fixpoint well_formed_draws (n : nat) (state : Z) : Z :=
  match n with
  | O => 0
  | S n =>
      let y := next_u64 (next_u64 state) in
      (if Z.testbit y 2 && negb (Z.testbit y 1) then 1 else 0) + well_formed_draws n (next_u64 y)
  end.

Lemma constant_bits b : is_u8 b -> (Z.land b FIXED_MASK =? FIXED_PATTERN) = Z.testbit b 2 && negb (Z.testbit b 1).
Proof.
  intros Hb. refine (below_forall 256 (fun b => (Z.land b FIXED_MASK =? FIXED_PATTERN) =
    Z.testbit b 2 && negb (Z.testbit b 1)) _ b _); [by vm_compute|width].
Qed.

(** The codec accepts a drawn prefix exactly when those bits are right. *)
Lemma drawn_accepted state :
  let y := next_u64 (next_u64 state) in
  is_ok (parse_prefix (next_prefix state).1) = Z.testbit y 2 && negb (Z.testbit y 1).
Proof.
  intros y. pose proof (next_prefix_bytes state) as [Hu Hl].
  destruct (parse_prefix_split (next_prefix state).1) as (f0&f1&t0&t1&c0&c1&c2&c3&b&rest&Ep&E);
    [unfold PREFIX_LEN in *; lia|].
  assert (b = Z.land y 0xFF) as Hb.
  { assert ((next_prefix state).1 !! 8%nat = Some b) as H1 by (by rewrite Ep).
    assert ((next_prefix state).1 !! 8%nat = Some (Z.land y 0xFF)) as H2; [|congruence].
    unfold next_prefix. cbn [fst]. by rewrite lookup_app_r. }
  assert (is_u8 b) as Hb8 by (rewrite Ep in Hu; rewrite ?Forall_app, !Forall_cons in Hu; naive_solver).
  rewrite E. transitivity (is_ok (from_byte b)); [by destruct (from_byte b)|].
  rewrite (proj1 (flags_byte_agrees_all b Hb8)), constant_bits, Hb by done.
  by rewrite !Z.land_spec, !andb_true_r.
Qed.

Lemma property_stream_passes n state accepted s :
  property_stream n state accepted s = Some (accepted + well_formed_draws n state, s).
Proof.
  revert state accepted. induction n as [|n IH]; intros state accepted.
  { simpl. by rewrite Z.add_0_r. }
  cbn [property_stream well_formed_draws]. pose proof (next_prefix_bytes state) as [Hu Hl].
  pose proof (drawn_accepted state) as Ha. cbv zeta in Ha.
  assert ((next_prefix state).2 = next_u64 (next_u64 state)) as Hst by done.
  destruct (next_prefix state) as [prefix state']. cbn [fst snd] in *. rewrite Hst in *.
  unfold mbind at 1, test_bind at 1. rewrite prefix_property_holds; cycle 1.
  { done. } { done. } { unfold PREFIX_LEN. apply Z.mod_pos_bound. lia. }
  rewrite IH, Ha. do 2 f_equal. destruct (_ && _); lia.
Qed.

(** C24: the randomised property test of the codec, for every seed and any
    number of iterations: no assertion inside it can fail (parsing never panics
    on nine bytes, accepts exactly the prefixes whose constant bits are right,
    serialises back what it accepted, agrees with a direct big-endian read, and
    reports every truncation with its length), so that it passes exactly when
    its two closing assertions hold of the number of prefixes the generator
    drew with the right constant bits. *)
Theorem codec_property_every_seed iterations seed :
  let drawn := well_formed_draws iterations (xorshift64_new seed) in
  passes (seeded_property_no_panic_and_total_mapping iterations seed) tt =
    (100000 <? drawn) && (drawn <? Z.of_nat iterations - 100000).
Proof.
  intros drawn. pose proof (property_stream_passes iterations (xorshift64_new seed) 0 tt) as Ha. fold drawn in Ha.
  rewrite Z.add_0_l in Ha.
  assert (Ht : seeded_property_no_panic_and_total_mapping iterations seed tt =
    (check (100000 <? drawn) ;; check (drawn <? Z.of_nat iterations - 100000)) tt).
  { unfold seeded_property_no_panic_and_total_mapping. unfold mbind at 1, test_bind at 1.
    change (for_each _ _ _) with (Some (tt, tt)). unfold mbind at 1, test_bind at 1. by rewrite Ha. }
  unfold passes. rewrite Ht. unfold mbind, test_bind, check.
  by destruct (100000 <? drawn), (drawn <? Z.of_nat iterations - 100000).
Qed.

(** ** [src/stats.rs] *)

Definition delta (before after : Stats) (r : RejectReason) : Z := reject after r - reject before r.

Definition every_reason_has_a_counter_an_all_entry_and_a_line : Test StatsState unit :=
  (fix loop (reasons : list RejectReason) (seen : list bool) : Test StatsState unit :=
     match reasons with
     | [] => check (forallb id seen)
     | reason :: rest =>
         check (Z.of_nat (index reason) <? COUNT) ;;
         dup ← some (seen !! index reason);
         check (negb dup) ;;
         check (String.prefix "[PAXE] drop: " (line reason)) ;;
         loop rest (<[index reason := true]> seen)
     end) ALL (replicate (Z.to_nat COUNT) false) ;;
  assert_eq COUNT 7 ;;
  assert_eq (line Plaintext) "[PAXE] drop: plaintext on a protected socket" ;;
  assert_eq (line RTooShort) "[PAXE] drop: frame too short" ;;
  assert_eq (line BadFlags) "[PAXE] drop: flags constant-bit violation" ;;
  assert_eq (line LenMismatch) "[PAXE] drop: declared length inconsistent with frame size" ;;
  assert_eq (line NoPeer) "[PAXE] drop: unknown peer" ;;
  assert_eq (line NoEpoch) "[PAXE] drop: unknown epoch for known peer" ;;
  assert_eq (line RAuthFailed) "[PAXE] drop: authentication failure".

Definition codec_errors_map_to_the_first_two_reasons : Test StatsState unit :=
  assert_eq (from_codec (TooShort 3)) RTooShort ;;
  assert_eq (from_codec (InvalidFlags 0x00)) BadFlags.

Definition snapshot_fields_follow_the_pinned_ffi_order : Test StatsState unit :=
  _ ← run record_rx_ok;
  for_each ALL (fun reason => _ ← run record_rx_drop; run (record_reject reason)) ;;
  _ ← run (record_tx_sealed Standard);
  _ ← run (record_tx_sealed Dek);
  _ ← run (record_tx_sealed Dek);
  _ ← run record_tx_oversize;
  s ← run snapshot;
  let f := fields s in
  assert_eq (len f) SNAPSHOT_FIELD_COUNT ;;
  let before := ZERO in
  let position i v := x ← at_index f i; assert_eq x v in
  position 0 (rx_total before + 8) ;;
  position 1 (rx_ok before + 1) ;;
  for_each (range 7) (fun i => position (2 + i) 1) ;;
  position 9 (tx_total before + 3) ;;
  position 10 (tx_standard before + 1) ;;
  position 11 (tx_dek before + 2) ;;
  position 12 (tx_oversize before + 1) ;;
  f1 ← at_index f 1;
  position 0 (f1 + reject_sum s).

Definition recording_is_delta_friendly_and_never_reset_by_policy_ops : Test StatsState unit :=
  before ← run snapshot;
  _ ← run (record_reject NoPeer);
  _ ← run (record_reject NoPeer);
  after ← run snapshot;
  assert_eq (delta before after NoPeer) 2 ;;
  assert_eq (delta before after NoEpoch) 0 ;;
  _ ← run (set_policy Verbose);
  _ ← run (set_policy LogOnce);
  _ ← run reset_log_once_memo;
  _ ← run (set_policy Silent);
  end_ ← run snapshot;
  assert_eq (delta before end_ NoPeer) 2 ;;
  assert_eq (rx_total end_ - rx_total before) 0.

Definition policy_set_get_and_spellings : Test StatsState unit :=
  assert_eq (from_name "silent") (Some Silent) ;;
  assert_eq (from_name "log_once") (Some LogOnce) ;;
  assert_eq (from_name "verbose") (Some Verbose) ;;
  assert_eq (from_name "drop") None ;;
  assert_eq (from_name "LOG_ONCE") None ;;
  assert_eq (from_name "") None ;;
  assert_eq (policy_name Silent) "silent" ;;
  assert_eq (policy_name LogOnce) "log_once" ;;
  assert_eq (policy_name Verbose) "verbose" ;;
  _ ← run (set_policy Verbose);
  p ← run policy; assert_eq p Verbose ;;
  _ ← run (set_policy Silent);
  p ← run policy; assert_eq p Silent.

(** [assert!(should_log(r))] or its negation. *)
Definition logs (r : RejectReason) (expected : bool) : Test StatsState unit :=
  b ← run (should_log r); assert_eq b expected.
Definition memo_bits (expected : Z) : Test StatsState unit :=
  b ← run (gets LOGGED); assert_eq b expected.

Definition log_once_memoises_per_reason_against_the_enum_bitmask : Test StatsState unit :=
  _ ← run (set_policy LogOnce);
  logs NoEpoch true ;;
  logs NoEpoch false ;;
  logs NoEpoch false ;;
  logs NoPeer true ;;
  logs NoPeer false ;;
  let bit r := Z.shiftl 1 (Z.of_nat (index r)) in
  memo_bits (Z.lor (bit NoEpoch) (bit NoPeer)) ;;
  for_each ALL (fun reason =>
    if bool_decide (reason <> NoEpoch) && bool_decide (reason <> NoPeer) then logs reason true
    else mret tt) ;;
  memo_bits (Z.shiftl 1 COUNT - 1) ;;
  _ ← run (set_policy LogOnce);
  memo_bits 0 ;;
  logs NoEpoch true ;;
  _ ← run reset_log_once_memo;
  logs NoEpoch true ;;
  _ ← run (set_policy Silent);
  logs NoPeer false ;;
  _ ← run (set_policy Verbose);
  logs NoPeer true ;;
  logs NoPeer true ;;
  run (set_policy Silent).

Definition reject_recording_respects_the_active_policy_without_panicking : Test StatsState unit :=
  before ← run snapshot;
  _ ← run (set_policy Verbose);
  _ ← run (record_reject RAuthFailed);
  _ ← run (set_policy Silent);
  _ ← run (record_reject RAuthFailed);
  after ← run snapshot;
  assert_eq (delta before after RAuthFailed) 2 ;;
  memo_bits 0.

Definition stats_tests : list (Test StatsState unit) :=
  [every_reason_has_a_counter_an_all_entry_and_a_line;
   codec_errors_map_to_the_first_two_reasons;
   snapshot_fields_follow_the_pinned_ffi_order;
   recording_is_delta_friendly_and_never_reset_by_policy_ops;
   policy_set_get_and_spellings;
   log_once_memoises_per_reason_against_the_enum_bitmask;
   reject_recording_respects_the_active_policy_without_panicking].

(** A Windows host whose 48th lock is refused for quota until the working set
    has grown. *)
Definition windows_host : Libsodium :=
  let base := toy_sodium in {|
  sodium_init := @sodium_init base;
  sodium_version_string := @sodium_version_string base;
  crypto_aead_aes256gcm_is_available := 1;
  crypto_aead_aes256gcm_keybytes := 32;
  crypto_aead_aes256gcm_npubbytes := 12;
  crypto_aead_aes256gcm_abytes := 16;
  crypto_aead_aes256gcm_encrypt := @crypto_aead_aes256gcm_encrypt base;
  crypto_aead_aes256gcm_decrypt := @crypto_aead_aes256gcm_decrypt base;
  randombytes_buf := @randombytes_buf base;
  sodium_malloc := @sodium_malloc base;
  sodium_mlock i _ := if (i =? 48)%nat then -1 else 0;
  sodium_munlock := @sodium_munlock base;
  sodium_memcmp := @sodium_memcmp base;
  getrlimit_rc := 0;
  setrlimit_rc := 0;
  cfg_windows := true;
  last_os_error i := if (i =? 49)%nat then Some ERROR_WORKING_SET_QUOTA else None;
  GetProcessWorkingSetSize_rc _ := 1;
  SetProcessWorkingSetSize_rc _ := 1;
|}.

(** ** The suite *)

(** The lower layers pass the crate's own unit tests: every test of the
    libsodium boundary (on an executable AES-256-GCM, so its known answers are
    the real ones), the keystore, the codec and the statistics runs to its end
    with every assertion true, and the Windows locking test passes on a host
    that refuses a lock until the working set has grown. *)
Lemma core_tests_pass :
  forallb (fun t => passes t world) (@sodium_tests gcm_sodium) = true /\
  forallb (fun t => passes t world) (@keystore_tests gcm_sodium) = true /\
  forallb (fun t => passes t tt) codec_tests = true /\
  forallb (fun t => passes t stats_init) stats_tests = true /\
  passes (@many_locked_keys_outlast_the_default_windows_quota windows_host) world = true.
Proof. split_and!; vm_compute; reflexivity. Qed.
