(* ===== verification/TestsFrames.v ===== *)
(** * Unit tests of the two frame modes

    The [tests] modules of [src/standard.rs] and [src/dek.rs] (see [Testing]).
    Each definition has the name of the test function it translates. *)

From S2P Require Export TestsCore.

Section Tests.
Context `{Libsodium}.

(** ** [src/standard.rs] *)

Definition PEER_A : Z := 200.
Definition PEER_B : Z := 201.

Definition loopback_store (fill : Z) : Test World KeyStore :=
  ks ← new_store LOCAL; install_ok ks LOCAL 3 (material fill).

Definition ascending_payload (n : Z) : bytes := (fun i => i `mod` 256) <$> range n.

Definition prand_payload (n : Z) : bytes :=
  (fix gen (n : nat) (x : Z) : bytes :=
     match n with
     | O => []
     | S n => let x := next_u64 x in Z.land x 0xFF :: gen n x
     end) (Z.to_nat n) 0x9E3779B97F4A7C15.

(** [standard::seal] into [out] and [standard::open] into [out]. *)
Definition std_seal (ks : KeyStore) (to_id channel epoch : Z) (payload out : bytes)
    : Test World (result Z Standard.SealError * bytes) :=
  e ← epoch_of epoch; on_sodium (Standard.seal ks to_id channel e payload out).
Definition std_open (ks : KeyStore) (frame out : bytes)
    : Test World (result (Header * Flags * Z) Standard.OpenError * bytes) :=
  s ← sodium; on_stats (Standard.open s ks frame out).

(** The two with [expect]. *)
Definition sealed_std (ks : KeyStore) (to_id channel epoch : Z) (payload : bytes) : Test World bytes :=
  '(r, frame) ← std_seal ks to_id channel epoch payload (zeros (len payload + OVERHEAD));
  written ← expect r;
  assert_eq written (len payload + OVERHEAD) ;;
  mret frame.
Definition opened_std (ks : KeyStore) (frame : bytes) (n : Z) : Test World (Header * Flags * Z * bytes) :=
  '(r, out) ← std_open ks frame (zeros n); hfn ← expect r; mret (hfn, out).

(** [assert_eq!(open(..), Err(OpenError::Rejected))]. *)
Definition rejected_std (ks : KeyStore) (frame : bytes) (n : Z) : Test World unit :=
  '(r, _) ← std_open ks frame (zeros n); check (is_err r).

Definition overhead_and_limits_are_the_documented_numbers : Test World unit :=
  assert_eq OVERHEAD 37 ;;
  assert_eq MAX_UDP_DATAGRAM 65507 ;;
  assert_eq MAX_PAYLOAD 65470 ;;
  assert_eq OVERHEAD (PREFIX_LEN + NPUBBYTES + ABYTES).

Definition round_trip_byte_exact_across_lengths_and_byte_patterns : Test World unit :=
  unless_skipped (
    ks ← loopback_store 0x11;
    for_each [0; 1; 35; 36; 37; 38; 1400] (fun n =>
      for_each [ascending_payload n; filled 0x00 n; filled 0xFF n; filled 0xDE n; prand_payload n]
        (fun payload =>
           frame ← sealed_std ks LOCAL 100 3 payload;
           '(header, flags, plen, out) ← opened_std ks frame n;
           assert_eq plen n ;;
           assert_eq out payload ;;
           assert_eq (from_id header) LOCAL ;;
           assert_eq (to_id header) LOCAL ;;
           assert_eq (channel header) 100 ;;
           e3 ← epoch_of 3;
           assert_eq flags (MkFlags Standard e3) ;;
           assert_eq (mode flags) Standard ;;
           assert_eq (bits (epoch flags)) 3))).

Definition frame_layout_matches_the_spec_byte_for_byte : Test World unit :=
  unless_skipped (
    ks ← new_store LOCAL;
    ks ← install_ok ks LOCAL 5 (material 0x22);
    let payload := ascending_payload 37 in
    frame ← sealed_std ks LOCAL 100 5 payload;
    header ← slice_of frame 0 8;
    assert_eq header [0; 100; 0; 100; 0; 0; 0; 100] ;;
    flags_byte ← at_index frame 8;
    assert_eq flags_byte 0x2C ;;
    assert_eq (Z.land flags_byte 0x01) 0 ;;
    nonce ← slice_of frame 9 21;
    check (existsb (fun b => negb (b =? 0)) nonce) ;;
    assert_eq (len frame - 21 - len payload) ABYTES ;;
    '(h, f) ← expect (parse_prefix frame);
    assert_eq h (MkHeader 100 100 100) ;;
    e5 ← epoch_of 5;
    assert_eq f (MkFlags Standard e5) ;;
    prefix ← slice_of frame 0 PREFIX_LEN;
    assert_eq (frame_aad frame) (Some prefix)).

Definition aad_covers_from_id_same_key_material_under_two_ids : Test World unit :=
  unless_skipped (
    let key := material 0x5A in
    ks ← new_store LOCAL;
    ks ← install_ok ks LOCAL 5 key;
    ks ← install_ok ks (LOCAL + 1) 5 key;
    let payload := ascending_payload 64 in
    frame ← sealed_std ks LOCAL 100 5 payload;
    '(_, _, plen, out) ← opened_std ks frame (len payload);
    opened ← slice_of out 0 plen;
    assert_eq opened payload ;;
    relabelled ← xor_at frame 1 0x01;
    rejected_std ks relabelled (len payload)).

Definition aad_covers_all_nine_prefix_bytes : Test World unit :=
  unless_skipped (
    let key := material 0xC3 in
    ks ← new_store LOCAL;
    ks ← install_ok ks LOCAL 5 key;
    ks ← install_ok ks (LOCAL + 1) 5 key;
    ks ← install_ok ks 356 5 key;
    ks ← install_ok ks LOCAL 1 key;
    let payload := ascending_payload 64 in
    frame ← sealed_std ks LOCAL 100 5 payload;
    _ ← opened_std ks frame (len payload);
    let assert_rejected tampered := rejected_std ks tampered (len payload + 64) in
    for_each [0; 1; 2; 3; 4; 5; 6; 7] (fun i => t ← xor_at frame i 0x01; assert_rejected t) ;;
    e1 ← epoch_of 1; e5 ← epoch_of 5;
    t ← set_at frame 8 (to_byte (MkFlags Standard e1)); assert_rejected t ;;
    t ← set_at frame 8 (to_byte (MkFlags Dek e5)); assert_rejected t ;;
    t ← xor_at frame 9 0x01; assert_rejected t ;;
    t ← xor_at frame 21 0x01; assert_rejected t ;;
    t ← xor_at frame (len frame - 1) 0x01; assert_rejected t ;;
    '(_, _, plen, out) ← opened_std ks frame (len payload);
    opened ← slice_of out 0 plen;
    assert_eq opened payload).

Definition seal_rejects_oversized_payload_with_an_error_never_truncation : Test World unit :=
  unless_skipped (
    ks ← loopback_store 0x33;
    frame ← sealed_std ks LOCAL 100 3 (filled 0xAB MAX_PAYLOAD);
    assert_eq (len frame) MAX_UDP_DATAGRAM ;;
    '(_, _, plen, out) ← opened_std ks frame MAX_PAYLOAD;
    assert_eq plen MAX_PAYLOAD ;;
    check (forallb (Z.eqb 0xAB) out) ;;
    let scratch := filled 0xAA 64 in
    '(r, scratch) ← std_seal ks LOCAL 100 3 (zeros (MAX_PAYLOAD + 1)) scratch;
    assert_eq r (Err (PayloadTooLarge (MAX_PAYLOAD + 1))) ;;
    '(r, scratch) ← std_seal ks LOCAL 100 3 (zeros 70000) scratch;
    assert_eq r (Err (PayloadTooLarge 70000)) ;;
    check (forallb (Z.eqb 0xAA) scratch)).

Definition open_rejects_truncated_and_short_frames : Test World unit :=
  unless_skipped (
    ks ← loopback_store 0x44;
    let payload := ascending_payload 100 in
    frame ← sealed_std ks LOCAL 100 3 payload;
    for_each [len frame - 1; len frame - 16; PREFIX_LEN; 8; 0] (fun cut =>
      short ← slice_of frame 0 cut; rejected_std ks short (len payload)) ;;
    rejected_std ks (frame ++ [0x00]) (len payload + 1) ;;
    for_each [filled 0x00 OVERHEAD; filled 0xFF OVERHEAD] (fun garbage => rejected_std ks garbage 64)).

Definition open_rejects_dek_mode_frames_for_dispatch_layer : Test World unit :=
  unless_skipped (
    ks ← loopback_store 0x55;
    e3 ← epoch_of 3;
    let prefix := serialize_prefix (MkHeader LOCAL LOCAL 100) (MkFlags Dek e3) in
    p8 ← at_index prefix 8;
    assert_eq (Z.land p8 0x01) 1 ;;
    frame ← copy_at (zeros (10 + OVERHEAD)) 0 prefix;
    rejected_std ks frame 16).

Definition send_uses_toid_and_receive_uses_fromid_two_distinct_nodes : Test World unit :=
  unless_skipped (
    let link := material 0x42 in
    a ← new_store PEER_A;
    a ← install_ok a PEER_B 7 link;
    a ← install_ok a PEER_A 7 (material 0x99);
    b ← new_store PEER_B;
    b ← install_ok b PEER_A 7 link;
    b ← install_ok b PEER_B 7 (material 0x98);
    let payload := ascending_payload 80 in
    frame ← sealed_std a PEER_B 100 7 payload;
    '(header, _, plen, out) ← opened_std b frame (len payload);
    assert_eq (from_id header) PEER_A ;;
    assert_eq (to_id header) PEER_B ;;
    opened ← slice_of out 0 plen;
    assert_eq opened payload ;;
    c ← new_store 300;
    c ← install_ok c PEER_A 7 (material 0x77);
    rejected_std c frame (len payload) ;;
    b2 ← new_store PEER_B;
    rejected_std b2 frame (len payload) ;;
    empty ← new_store LOCAL;
    '(r, _) ← std_seal empty PEER_B 100 7 (as_bytes (str "x")) (zeros 128);
    assert_eq r (Err NoKey)).

Definition nonces_are_distinct_across_many_seals_gross_error_check : Test World unit :=
  unless_skipped (
    ks ← loopback_store 0x66;
    let payload := as_bytes (str "same payload every time") in
    (fix loop (n : nat) (seen : list bytes) : Test World unit :=
       match n with
       | O => assert_eq (len seen) 256
       | S n =>
           frame ← sealed_std ks LOCAL 100 3 payload;
           nonce ← slice_of frame PREFIX_LEN (PREFIX_LEN + NPUBBYTES);
           check (negb (bool_decide (nonce ∈ seen))) ;;
           loop n (nonce :: seen)
       end) 256%nat []).

Definition failed_open_leaves_the_frame_intact_and_the_output_wiped : Test World unit :=
  unless_skipped (
    ks ← loopback_store 0x77;
    let payload := ascending_payload 64 in
    frame ← sealed_std ks LOCAL 100 3 payload;
    forged ← xor_at frame 30 0x01;
    '(r, out) ← std_open ks forged (filled 0xAA (len payload));
    check (is_err r) ;;
    check (forallb (Z.eqb 0) out)).

Definition seal_reports_a_too_small_output_buffer_and_writes_nothing : Test World unit :=
  unless_skipped (
    ks ← loopback_store 0x88;
    let payload := filled 0x42 50 in
    '(r, out) ← std_seal ks LOCAL 100 3 payload (filled 0xAA (50 + OVERHEAD - 1));
    assert_eq r (Err (OutputTooSmall (50 + OVERHEAD) (50 + OVERHEAD - 1))) ;;
    check (forallb (Z.eqb 0xAA) out) ;;
    '(r, _) ← std_seal ks LOCAL 100 3 payload (zeros (50 + OVERHEAD));
    assert_eq r (Ok (50 + OVERHEAD))).

Definition open_with_a_short_output_buffer_is_the_same_opaque_rejection : Test World unit :=
  unless_skipped (
    ks ← loopback_store 0x99;
    let payload := ascending_payload 40 in
    frame ← sealed_std ks LOCAL 100 3 payload;
    rejected_std ks frame (len payload - 1) ;;
    frame0 ← sealed_std ks LOCAL 100 3 [];
    '(_, _, plen0, _) ← opened_std ks frame0 0;
    assert_eq plen0 0).

(** The tests with small frames, and the rest. *)
Definition standard_tests : list (Test World unit) :=
  [overhead_and_limits_are_the_documented_numbers;
   frame_layout_matches_the_spec_byte_for_byte;
   aad_covers_from_id_same_key_material_under_two_ids;
   aad_covers_all_nine_prefix_bytes;
   open_rejects_truncated_and_short_frames;
   open_rejects_dek_mode_frames_for_dispatch_layer;
   send_uses_toid_and_receive_uses_fromid_two_distinct_nodes;
   failed_open_leaves_the_frame_intact_and_the_output_wiped;
   seal_reports_a_too_small_output_buffer_and_writes_nothing;
   open_with_a_short_output_buffer_is_the_same_opaque_rejection].

Definition standard_long_tests : list (Test World unit) :=
  [round_trip_byte_exact_across_lengths_and_byte_patterns;
   seal_rejects_oversized_payload_with_an_error_never_truncation;
   nonces_are_distinct_across_many_seals_gross_error_check].

(** ** [src/dek.rs] *)

Definition NODE_A : Z := 100.
Definition NODE_B : Z := 200.
Definition NODE_C : Z := 201.
Definition NODE_D : Z := 202.

(** [gcm()]: skip instead of panicking when [init] fails. *)
Definition if_gcm (body : Test World unit) : Test World unit :=
  r ← on_sodium init; if is_ok r && aes_gcm_available then body else mret tt.

Definition sender : Test World KeyStore :=
  store ← new_store NODE_A;
  store ← install_ok store NODE_B 1 (material 0x11);
  store ← install_ok store NODE_C 2 (material 0x22);
  install_ok store NODE_D 3 (material 0x33).

Definition receiver (id epoch : Z) (key : bytes) : Test World KeyStore :=
  store ← new_store id; install_ok store NODE_A epoch key.

Definition dek_open (store : KeyStore) (frame : bytes)
    : Test World (result (Header * Flags * bytes) Dek.OpenError) :=
  s ← sodium; on_stats (Dek.open s store frame).

Definition dek_fanout (store : KeyStore) (recipients : list Z) (channel : Z) (payload : bytes)
    : Test World (result (list FanoutFrame) Dek.SealError) :=
  on_sodium (seal_fanout store recipients channel payload).

(** [seal_fanout(..).expect(..)]. *)
Definition fanned (store : KeyStore) (recipients : list Z) (channel : Z) (payload : bytes)
    : Test World (list FanoutFrame) := r ← dek_fanout store recipients channel payload; expect r.

Definition one_recipient_seal_is_always_standard : Test World unit :=
  if_gcm (
    store ← sender;
    for_each [0; 63; 64; 65; 1400; MAX_PAYLOAD] (fun n =>
      e1 ← epoch_of 1;
      r ← on_sodium (Dek.seal store NODE_B 100 e1 (filled 0xA5 n));
      frame ← expect r;
      assert_eq (len frame) (n + OVERHEAD) ;;
      '(_, flags) ← expect (parse_prefix frame);
      assert_eq (mode flags) Standard)).

(** [frames.windows(2).all(..)]: neighbours share their body. *)
Fixpoint bodies_shared (frames : list FanoutFrame) : bool :=
  match frames with
  | a :: ((b :: _) as rest) =>
      bool_decide (get_from (ff_frame a) layout.BODY_NONCE = get_from (ff_frame b) layout.BODY_NONCE)
      && bodies_shared rest
  | _ => true
  end.

Definition fanout_reuses_body_and_opens_for_each_recipient : Test World unit :=
  if_gcm (
    store ← sender;
    let payload := as_bytes (str "fanout payload") in
    frames ← fanned store [NODE_C; NODE_B; NODE_D] 137 payload;
    assert_eq (ff_to_id <$> frames) [NODE_C; NODE_B; NODE_D] ;;
    check (bodies_shared frames) ;;
    f0 ← at_index frames 0; f1 ← at_index frames 1;
    env0 ← slice_of (ff_frame f0) layout.ENVELOPE_NONCE layout.BODY_NONCE;
    env1 ← slice_of (ff_frame f1) layout.ENVELOPE_NONCE layout.BODY_NONCE;
    assert_ne env0 env1 ;;
    for_each frames (fun frame =>
      let key := if ff_to_id frame =? NODE_B then material 0x11
                 else if ff_to_id frame =? NODE_C then material 0x22 else material 0x33 in
      rx ← receiver (ff_to_id frame) (bits (ff_epoch frame)) key;
      r ← dek_open rx (ff_frame frame);
      '(_, flags, plaintext) ← expect r;
      assert_eq (mode flags) Dek ;;
      assert_eq plaintext payload)).

Definition fanout_preflight_and_geometry_reject_invalid_requests : Test World unit :=
  store ← sender;
  let x := as_bytes (str "x") in
  let refused recipients payload e :=
    r ← dek_fanout store recipients 1 payload;
    check (match r with Ok _ => false | Err e' => bool_decide (e' = e) end) in
  refused [] x EmptyRecipients ;;
  refused [NODE_B; NODE_B] x (DuplicateRecipient NODE_B) ;;
  refused [NODE_B; 999] x SealNoKey ;;
  refused [NODE_B] (zeros (DEK_MAX_PAYLOAD + 1)) (Oversize (DEK_MAX_PAYLOAD + 1)).

Definition dek_geometry_covers_boundaries_and_rejects_invalid_lengths : Test World unit :=
  if_gcm (
    store ← sender;
    for_each [0; 1; 63; 64; 65; 1400; DEK_MAX_PAYLOAD] (fun n =>
      let payload := filled 0xA5 n in
      frames ← fanned store [NODE_B] 1 payload;
      f0 ← at_index frames 0;
      assert_eq (len (ff_frame f0)) (n + DEK_OVERHEAD) ;;
      rx ← receiver NODE_B 1 (material 0x11);
      r ← dek_open rx (ff_frame f0);
      '(_, _, opened) ← expect r;
      assert_eq opened payload) ;;
    e1 ← epoch_of 1;
    let prefix := serialize_prefix (MkHeader NODE_A NODE_B 1) (MkFlags Dek e1) in
    for_each (seqZ PREFIX_LEN (DEK_OVERHEAD - PREFIX_LEN)) (fun n =>
      truncated ← copy_at (zeros n) 0 prefix;
      rx ← receiver NODE_B 1 (material 0x11);
      r ← dek_open rx truncated;
      assert_eq r (Err (FrameTooShort n))) ;;
    min_frame ← copy_at (zeros DEK_OVERHEAD) 0 prefix;
    rx ← receiver NODE_B 1 (material 0x11);
    r ← dek_open rx min_frame;
    check (is_err r)).

Definition shared_psk_does_not_override_destination_addressing : Test World unit :=
  if_gcm (
    let shared := material 0x42 in
    source ← new_store NODE_A;
    source ← install_ok source NODE_B 1 shared;
    source ← install_ok source NODE_C 1 shared;
    receiver_b ← receiver NODE_B 1 shared;
    e1 ← epoch_of 1;
    r ← on_sodium (Dek.seal source NODE_C 1 e1 (as_bytes (str "standard")));
    standard ← expect r;
    rejected_std receiver_b standard 8 ;;
    dek ← fanned source [NODE_C] 1 (as_bytes (str "fanout"));
    d0 ← at_index dek 0;
    r ← dek_open receiver_b (ff_frame d0);
    assert_eq r (Err WrongDestination)).

Definition fanout_tampering_and_splicing_are_rejected : Test World unit :=
  if_gcm (
    store ← sender;
    first ← fanned store [NODE_B; NODE_C] 7 (as_bytes (str "first"));
    second ← fanned store [NODE_B; NODE_C] 7 (as_bytes (str "other"));
    f ← at_index first 0; g ← at_index second 0;
    let refused frame :=
      rx ← receiver NODE_B 1 (material 0x11);
      r ← dek_open rx frame;
      check (is_err r) in
    for_each [0; 8; layout.ENVELOPE_NONCE; layout.ENCRYPTED_DEK; layout.ENVELOPE_TAG;
              layout.BODY_NONCE; layout.BODY; len (ff_frame f) - 1]
      (fun offset => forged ← xor_at (ff_frame f) offset 1; refused forged) ;;
    tail ← slice_from (ff_frame g) layout.BODY_NONCE;
    spliced ← copy_at (ff_frame f) layout.BODY_NONCE tail;
    refused spliced).

Definition dek_tests : list (Test World unit) :=
  [fanout_reuses_body_and_opens_for_each_recipient;
   fanout_preflight_and_geometry_reject_invalid_requests;
   shared_psk_does_not_override_destination_addressing;
   fanout_tampering_and_splicing_are_rejected].

Definition dek_long_tests : list (Test World unit) :=
  [one_recipient_seal_is_always_standard;
   dek_geometry_covers_boundaries_and_rejects_invalid_lengths].

End Tests.

(** ** The suite *)

(** Both frame modes pass the crate's own unit tests: layout, associated
    data over every prefix byte, truncation, relabelling, splicing, addressing
    and buffer errors on an executable AES-256-GCM; and the tests that run over
    the whole range of sizes, up to the largest datagram of each mode, on the
    checksum library. *)
Lemma frame_tests_pass :
  forallb (fun t => passes t world) (@standard_tests gcm_sodium) = true /\
  forallb (fun t => passes t world) (@dek_tests gcm_sodium) = true /\
  forallb (fun t => passes t world) (@standard_long_tests toy_sodium) = true /\
  forallb (fun t => passes t world) (@dek_long_tests toy_sodium) = true.
Proof. split_and!; vm_compute; reflexivity. Qed.
