(* ===== verification/Net.v ===== *)
(** * Socket addresses

    [std::net::SocketAddr] as the server uses it: [from_str] and [Display].
    The parser follows the standard library's: every alternative is tried
    atomically and the whole input must be consumed. *)

From S2P Require Export Text.

Inductive SocketAddr :=
| V4 (octets : Z * Z * Z * Z) (port : Z)
| V6 (segments : list Z) (scope_id port : Z).

Global Instance SocketAddr_eq_dec : EqDecision SocketAddr.
Proof. solve_decision. Defined.

(** ** Parsing *)

Definition Parser (A : Type) : Type := text -> option (A * text).

Definition pbind {A B} (p : Parser A) (k : A -> Parser B) : Parser B := fun s =>
  match p s with
  | Some (a, rest) => k a rest
  | None => None
  end.

Definition pret {A} (a : A) : Parser A := fun s => Some (a, s).

Notation "'let&' x ':=' p 'in' k" := (pbind p (fun x => k))
  (at level 10, x pattern, p at level 200, k at level 200,
   format "'let&'  x  ':='  p  'in' '//' k") : paxe_scope.

Definition read_given_char (c : Z) : Parser unit := fun s =>
  match s with
  | x :: rest => if x =? c then Some (tt, rest) else None
  | [] => None
  end.

(** The digits at the front: their value, how many there are, and the rest. *)
Fixpoint read_digits (radix : Z) (s : text) (acc count : Z) : Z * Z * text :=
  match s with
  | c :: rest =>
      match digit radix c with
      | Some d => read_digits radix rest (acc * radix + d) (count + 1)
      | None => (acc, count, s)
      end
  | [] => (acc, count, [])
  end.

(** A number of at most [max_digits] digits that fits the type.  The source
    checks for overflow after each digit; the value only grows, so checking the
    whole is the same. *)
Definition read_number (radix : Z) (max_digits : option Z) (allow_zero_prefix : bool) (max : Z)
    : Parser Z := fun s =>
  let has_leading_zero := match s with c :: _ => c =? 48 | [] => false end in
  let '(value, count, rest) := read_digits radix s 0 0 in
  if match max_digits with Some m => m <? count | None => false end then None
  else if max <? value then None
  else if count =? 0 then None
  else if negb allow_zero_prefix && has_leading_zero && (1 <? count) then None
  else Some (value, rest).

Definition read_separator {A} (sep : Z) (i : nat) (p : Parser A) : Parser A :=
  match i with
  | O => p
  | S _ => let& _ := read_given_char sep in p
  end.

Definition read_ipv4_addr : Parser (Z * Z * Z * Z) :=
  let octet i := read_separator 46 i (read_number 10 (Some 3) false U8_MAX) in
  let& a := octet 0%nat in
  let& b := octet 1%nat in
  let& c := octet 2%nat in
  let& d := octet 3%nat in
  pret (a, b, c, d).

(** [read_groups] on [left] free slots, the [i]-th read next: the groups and
    whether they end in an embedded IPv4 address. *)
Fixpoint read_groups (left : nat) (i : nat) (s : text) : list Z * bool * text :=
  match left with
  | O => ([], false, s)
  | S left' =>
      match (match left' with
             | O => None
             | S _ => read_separator 58 i read_ipv4_addr s
             end) with
      | Some ((a, b, c, d), rest) => ([a * 256 + b; c * 256 + d], true, rest)
      | None =>
          match read_separator 58 i (read_number 16 (Some 4) true U16_MAX) s with
          | Some (g, rest) =>
              let '(gs, v4, rest) := read_groups left' (S i) rest in (g :: gs, v4, rest)
          | None => ([], false, s)
          end
      end
  end.

Definition read_ipv6_addr : Parser (list Z) := fun s =>
  let '(head, head_ipv4, s) := read_groups 8 0 s in
  if (length head =? 8)%nat then Some (head, s)
  else if head_ipv4 then None
  else
    (let& _ := read_given_char 58 in
     let& _ := read_given_char 58 in
     fun s =>
       let limit := (8 - (length head + 1))%nat in
       let '(tail, _, s) := read_groups limit 0 s in
       Some (head ++ replicate (8 - length head - length tail) 0 ++ tail, s)) s.

Definition read_port : Parser Z :=
  let& _ := read_given_char 58 in read_number 10 None true U16_MAX.

Definition read_socket_addr_v4 : Parser SocketAddr :=
  let& ip := read_ipv4_addr in
  let& port := read_port in
  pret (V4 ip port).

Definition read_scope_id : Parser Z :=
  let& _ := read_given_char 37 in read_number 10 None true U32_MAX.

Definition read_socket_addr_v6 : Parser SocketAddr :=
  let& _ := read_given_char 91 in
  let& ip := read_ipv6_addr in
  fun s =>
    let '(scope, s) := default (0, s) (read_scope_id s) in
    (let& _ := read_given_char 93 in
     let& port := read_port in
     pret (V6 ip scope port)) s.

Definition addr_from_str (s : text) : option SocketAddr :=
  match (match read_socket_addr_v4 s with
         | Some r => Some r
         | None => read_socket_addr_v6 s
         end) with
  | Some (a, []) => Some a
  | _ => None
  end.

(** ** Printing *)

Definition show_ipv4 (ip : Z * Z * Z * Z) : text :=
  let '(a, b, c, d) := ip in
  dec a ++ [46] ++ dec b ++ [46] ++ dec c ++ [46] ++ dec d.

(** A segment in lowercase hexadecimal without leading zeros. *)
Fixpoint hex_segment_digits (fuel : nat) (n : Z) (acc : text) : text :=
  match fuel with
  | O => acc
  | S fuel =>
      let d := n `mod` 16 in
      let acc := (if d <? 10 then 48 + d else 87 + d) :: acc in
      if n <? 16 then acc else hex_segment_digits fuel (n `div` 16) acc
  end.

Definition show_segment (n : Z) : text := hex_segment_digits 4 n [].

Fixpoint join_colon (gs : list Z) : text :=
  match gs with
  | [] => []
  | [g] => show_segment g
  | g :: gs => show_segment g ++ [58] ++ join_colon gs
  end.

(** The first longest run of zero segments: start and length.  [cur] is the run
    that ends before [i]. *)
Fixpoint longest_zeros (gs : list Z) (i : nat) (best cur : nat * nat) : nat * nat :=
  match gs with
  | [] => best
  | g :: gs =>
      if g =? 0 then
        let cur := ((if (cur.2 =? 0)%nat then i else cur.1), S cur.2) in
        longest_zeros gs (S i) (if (best.2 <? cur.2)%nat then cur else best) cur
      else longest_zeros gs (S i) best (O, O)
  end.

Definition compressed (gs : list Z) : text :=
  let '(start, n) := longest_zeros gs 0 (O, O) (O, O) in
  if (1 <? n)%nat then
    join_colon (take start gs) ++ str "::" ++ join_colon (drop (start + n) gs)
  else join_colon gs.

Definition show_ipv6 (gs : list Z) : text :=
  match gs with
  | [0; 0; 0; 0; 0; 0xFFFF; g; h] =>
      str "::ffff:" ++ show_ipv4 (g `div` 256, g `mod` 256, h `div` 256, h `mod` 256)
  | _ => compressed gs
  end.

Definition show_addr (a : SocketAddr) : text :=
  match a with
  | V4 ip port => show_ipv4 ip ++ [58] ++ dec port
  | V6 gs scope port =>
      [91] ++ show_ipv6 gs ++ (if scope =? 0 then [] else [37] ++ dec scope) ++ [93; 58] ++ dec port
  end.

(** ** Facts *)

(** An address as the type has it. *)
Definition wf_addr (a : SocketAddr) : Prop :=
  match a with
  | V4 (a, b, c, d) port => is_u8 a /\ is_u8 b /\ is_u8 c /\ is_u8 d /\ is_u16 port
  | V6 gs scope port => length gs = 8%nat /\ Forall is_u16 gs /\ is_u32 scope /\ is_u16 port
  end.

Example addr_examples :
  addr_from_str (str "127.0.0.1:6100") = Some (V4 (127, 0, 0, 1) 6100) /\
  addr_from_str (str "[::1]:80") = Some (V6 [0; 0; 0; 0; 0; 0; 0; 1] 0 80) /\
  addr_from_str (str "[fe80::1%7]:80") = Some (V6 [0xfe80; 0; 0; 0; 0; 0; 0; 1] 7 80) /\
  addr_from_str (str "[::ffff:10.0.0.1]:1") = Some (V6 [0; 0; 0; 0; 0; 0xffff; 2560; 1] 0 1) /\
  addr_from_str (str "[1:2:3:4:5:6:7:8]:9") = Some (V6 [1; 2; 3; 4; 5; 6; 7; 8] 0 9) /\
  addr_from_str (str "127.0.0.01:1") = None /\ addr_from_str (str "1.2.3.4:65536") = None /\
  addr_from_str (str "localhost:1") = None /\ addr_from_str (str "1.2.3.4") = None /\
  addr_from_str (str "[1::2::3]:1") = None /\
  show_addr (V6 [0xfe80; 0; 0; 1; 0; 0; 0; 0xab] 7 80) = str "[fe80:0:0:1::ab%7]:80" /\
  show_addr (V6 [0; 0; 0; 0; 0; 0; 0; 0] 0 1) = str "[::]:1".
Proof. vm_compute. tauto. Qed.

(** Text that does not go on with a digit. *)
Definition no_digit (rest : text) : Prop :=
  match rest with c :: _ => digit 10 c = None | [] => True end.

Lemma read_digits_value ds rest acc count :
  Forall is_digit ds -> no_digit rest ->
  read_digits 10 (ds ++ rest) acc count = (value ds acc, count + len ds, rest).
Proof.
  intros Hd Hr. revert acc count. induction Hd as [|c ds Hc Hds IH]; intros acc count.
  - cbn [app]. rewrite len_nil, Z.add_0_r. unfold value. simpl.
    destruct rest as [|c rest]; [done|]. simpl in Hr |- *. by rewrite Hr.
  - unfold is_digit in Hc. cbn [app read_digits]. unfold digit at 1.
    rewrite within_true, (proj2 (Z.ltb_lt _ _)) by lia. rewrite IH, len_cons.
    f_equal. f_equal. lia.
Qed.

Lemma read_number_dec n max_digits zero_prefix max rest :
  is_u64 n -> n <= max -> no_digit rest ->
  match max_digits with Some m => len (dec n) <= m | None => True end ->
  zero_prefix = true \/ len (dec n) = 1 \/ hd_error (dec n) <> Some 48 ->
  read_number 10 max_digits zero_prefix max (dec n ++ rest) = Some (n, rest).
Proof.
  intros Hn Hmax Hrest Hm Hz. destruct (dec_spec n Hn) as (ds & Heq & Hne & Hd & Hv).
  unfold read_number. rewrite Heq in *. rewrite read_digits_value, Hv by done.
  assert (0 < len ds) as Hpos by (destruct ds; [done|rewrite len_cons; pose proof (len_nonneg ds); lia]).
  assert ((match max_digits with Some m => m <? 0 + len ds | None => false end) = false) as ->.
  { destruct max_digits; [|done]. apply Z.ltb_ge. lia. }
  rewrite (proj2 (Z.ltb_ge _ _)) by done. rewrite (proj2 (Z.eqb_neq _ _)) by lia.
  destruct ds as [|c ds]; [done|]. cbn [app hd_error] in *.
  destruct Hz as [->|[Hz|Hz]]; [done| |].
  - rewrite (proj2 (Z.ltb_ge 1 (0 + len (c :: ds)))) by lia. by rewrite andb_false_r.
  - rewrite (proj2 (Z.eqb_neq c 48)) by congruence. by rewrite andb_false_r.
Qed.

(** An octet prints in at most three digits, without a leading zero. *)
Lemma dec_octet n :
  is_u8 n -> len (dec n) <= 3 /\ (len (dec n) = 1 \/ hd_error (dec n) <> Some 48).
Proof.
  intros Hn.
  refine (below_forall 256 (fun n => len (dec n) <= 3 /\ (len (dec n) = 1 \/ hd_error (dec n) <> Some 48)) _ n _).
  - vm_compute. done.
  - width.
Qed.

Lemma read_octet n rest :
  is_u8 n -> no_digit rest -> read_number 10 (Some 3) false U8_MAX (dec n ++ rest) = Some (n, rest).
Proof.
  intros Hn Hr. destruct (dec_octet n Hn) as [Hl Hz].
  apply read_number_dec; [width|width|done|done|by right].
Qed.

(** ** Round trip *)

(** What may follow a group of an address, and what ends a sequence of them:
    the end of the address or a double colon. *)
Definition ends_group (rest : text) : Prop :=
  match rest with [] => False | c :: _ => c = 93 \/ c = 37 \/ c = 58 end.

Definition halts (rest : text) : Prop :=
  match rest with
  | [] => False
  | c :: rest => c = 93 \/ c = 37 \/ (c = 58 /\ hd_error rest = Some 58)
  end.

Lemma halts_ends rest : halts rest -> ends_group rest.
Proof. destruct rest; simpl; tauto. Qed.

Lemma hex_digit d : 0 <= d < 16 ->
  let c := if d <? 10 then 48 + d else 87 + d in digit 16 c = Some d /\ c <> 46.
Proof.
  intros Hd. refine (below_forall 16 (fun d => let c := if d <? 10 then 48 + d else 87 + d in
    digit 16 c = Some d /\ c <> 46) _ d Hd). vm_compute. done.
Qed.

(** The digits of a segment and what reading them gives. *)
Lemma segment_digits fuel n acc :
  (fuel <> 0)%nat -> 0 <= n < 16 ^ Z.of_nat fuel ->
  exists ds, hex_segment_digits fuel n acc = ds ++ acc /\ Forall (fun c => c <> 46) ds /\
    1 <= len ds <= Z.of_nat fuel /\
    (forall rest w k,
       read_digits 16 (ds ++ rest) w k = read_digits 16 rest (w * 16 ^ len ds + n) (k + len ds)).
Proof.
  revert n acc. induction fuel as [|fuel IH]; intros n acc Hf Hn; [done|]. cbn [hex_segment_digits].
  set (c := if n `mod` 16 <? 10 then 48 + n `mod` 16 else 87 + n `mod` 16).
  destruct (hex_digit (n `mod` 16) ltac:(apply Z.mod_pos_bound; lia)) as [Hc Hdot]. fold c in Hc, Hdot.
  rewrite Nat2Z.inj_succ, Z.pow_succ_r in Hn by lia.
  destruct (Z.ltb_spec n 16) as [Hs|Hs].
  - exists [c]. split; [done|]. split; [by repeat constructor|]. split; [rewrite len_cons, len_nil; lia|].
    intros rest w k. cbn [app read_digits]. rewrite Hc, len_cons, len_nil. simpl.
    rewrite Z.mod_small by lia. f_equal; lia.
  - assert (fuel <> 0)%nat as Hf' by (intros ->; simpl in Hn; lia).
    destruct (IH (n `div` 16) (c :: acc) Hf') as (ds & -> & Hd & Hl & Hr).
    { split; [apply Z.div_pos; lia|apply Z.div_lt_upper_bound; lia]. }
    exists (ds ++ [c]). rewrite <- app_assoc. split; [done|]. split; [apply Forall_app; by repeat constructor|].
    rewrite len_app, len_cons, len_nil. split; [lia|]. intros rest w k. rewrite <- app_assoc, Hr.
    cbn [app read_digits]. rewrite Hc. rewrite Z.add_0_r, Z.pow_add_r by lia.
    pose proof (Z.div_mod n 16). f_equal; lia.
Qed.

Lemma segment_spec n : is_u16 n ->
  exists ds, show_segment n = ds /\ Forall (fun c => c <> 46) ds /\ 1 <= len ds <= 4 /\
    (forall rest w k,
       read_digits 16 (ds ++ rest) w k = read_digits 16 rest (w * 16 ^ len ds + n) (k + len ds)).
Proof.
  intros Hn. destruct (segment_digits 4 n []) as (ds & Hs & Hd & Hl & Hr); [done|simpl; width|].
  exists ds. unfold show_segment. by rewrite Hs, app_nil_r.
Qed.

(** A segment is read back as a group. *)
Lemma read_segment n rest :
  is_u16 n -> ends_group rest ->
  read_number 16 (Some 4) true U16_MAX (show_segment n ++ rest) = Some (n, rest).
Proof.
  intros Hn Hr. destruct (segment_spec n Hn) as (ds & -> & _ & Hl & Hd). unfold read_number. rewrite Hd.
  assert (forall v k, read_digits 16 rest v k = (v, k, rest)) as ->.
  { intros v k. destruct rest as [|c rest]; [done|]. by destruct Hr as [->|[->| ->]]. }
  rewrite Z.mul_0_l, !Z.add_0_l. rewrite (proj2 (Z.ltb_ge _ _)) by lia.
  rewrite (proj2 (Z.ltb_ge _ _)) by width. by rewrite (proj2 (Z.eqb_neq _ _)) by lia.
Qed.

(** Decimal digits at the front of a segment are not followed by a dot. *)
Lemma no_dot_after ds rest acc k :
  Forall (fun c => c <> 46) ds -> ends_group rest -> hd_error (read_digits 10 (ds ++ rest) acc k).2 <> Some 46.
Proof.
  intros Hd Hr. revert acc k. induction Hd as [|c ds Hc Hd IH]; intros acc k.
  - destruct rest as [|c rest]; [done|]. by destruct Hr as [->|[->| ->]].
  - cbn [app read_digits]. destruct (digit 10 c); [apply IH|]. simpl. congruence.
Qed.

Lemma read_number_rest radix m z max s a rest :
  read_number radix m z max s = Some (a, rest) -> rest = (read_digits radix s 0 0).2.
Proof.
  unfold read_number. destruct (read_digits radix s 0 0) as [[v k] r]. cbn [snd].
  destruct (match m with Some m => m <? k | None => false end); [done|].
  destruct (max <? v); [done|]. destruct (k =? 0); [done|]. destruct (_ && (1 <? k)); [done|]. by intros [= _ <-].
Qed.

Lemma read_ipv4_no_dot s :
  hd_error (read_digits 10 s 0 0).2 <> Some 46 -> read_ipv4_addr s = None.
Proof.
  intros Hd. unfold read_ipv4_addr, read_separator. unfold pbind at 1.
  destruct (read_number 10 (Some 3) false U8_MAX s) as [[a rest]|] eqn:E; [|done].
  apply read_number_rest in E as ->. unfold pbind at 1 2. destruct ((read_digits 10 s 0 0).2) as [|c r]; [done|].
  cbn [read_given_char]. destruct (Z.eqb_spec c 46); [|done]. simpl in Hd. congruence.
Qed.

Lemma read_ipv4_segment n rest :
  is_u16 n -> ends_group rest -> read_ipv4_addr (show_segment n ++ rest) = None.
Proof.
  intros Hn Hr. destruct (segment_spec n Hn) as (ds & -> & Hd & _). by apply read_ipv4_no_dot, no_dot_after.
Qed.

(** Groups after the first, each with its separator. *)
Definition sep_groups (gs : list Z) : text := gs ≫= fun g => 58 :: show_segment g.

Lemma join_colon_cons g gs : join_colon (g :: gs) = show_segment g ++ sep_groups gs.
Proof.
  revert g. induction gs as [|h gs IH]; intros g; [by rewrite app_nil_r|].
  change (join_colon (g :: h :: gs)) with (show_segment g ++ [58] ++ join_colon (h :: gs)).
  by rewrite IH.
Qed.

Lemma sep_groups_ends gs rest : ends_group rest -> ends_group (sep_groups gs ++ rest).
Proof. destruct gs as [|g gs]; [done|]. simpl. tauto. Qed.

(** Nothing more is read where the groups halt. *)
Lemma read_groups_halt left i rest : halts rest -> read_groups left i rest = ([], false, rest).
Proof.
  intros Hr. destruct left as [|left]; [done|]. cbn [read_groups].
  assert (read_separator 58 i read_ipv4_addr rest = None /\
    read_separator 58 i (read_number 16 (Some 4) true U16_MAX) rest = None) as [H1 H2].
  { destruct rest as [|c rest]; [done|]. destruct Hr as [->|[->|[-> Hr]]]; [by destruct i..|].
    destruct rest as [|c rest]; [done|]. injection Hr as ->. by destruct i. }
  rewrite H1, H2. by destruct left.
Qed.

Lemma read_groups_sep gs left i rest :
  (length gs <= left)%nat -> Forall is_u16 gs -> halts rest ->
  read_groups left (S i) (sep_groups gs ++ rest) = (gs, false, rest).
Proof.
  intros Hl Hg Hr. revert left i Hl. induction Hg as [|g gs Hg _ IH]; intros left i Hl.
  { by apply read_groups_halt. }
  destruct left as [|left]; [simpl in Hl; lia|]. pose proof (sep_groups_ends gs rest (halts_ends rest Hr)) as He.
  assert (Ht : sep_groups (g :: gs) ++ rest = 58 :: show_segment g ++ sep_groups gs ++ rest).
  { unfold sep_groups. cbn. by rewrite <- app_assoc. }
  rewrite Ht. cbn [read_groups]. unfold read_separator, pbind. cbn [read_given_char Z.eqb Pos.eqb].
  rewrite read_ipv4_segment, read_segment by done. rewrite IH by (simpl in Hl; lia). by destruct left.
Qed.

(** The printed groups are read back, with what follows left. *)
Lemma read_groups_join gs left rest :
  (length gs <= left)%nat -> Forall is_u16 gs -> halts rest ->
  read_groups left 0 (join_colon gs ++ rest) = (gs, false, rest).
Proof.
  intros Hl Hg Hr. destruct gs as [|g gs]; [by apply read_groups_halt|].
  inversion Hg as [|? ? H1 H2]; subst. destruct left as [|left]; [simpl in Hl; lia|].
  pose proof (sep_groups_ends gs rest (halts_ends rest Hr)) as He.
  rewrite join_colon_cons, <- app_assoc. cbn [read_groups read_separator].
  rewrite read_ipv4_segment, read_segment, read_groups_sep by (done || simpl in Hl; lia).
  by destruct left.
Qed.

(** [longest_zeros] finds a run of zeros. *)
Definition zero_run (gs : list Z) (r : nat * nat) : Prop :=
  (r.1 + r.2 <= length gs)%nat /\ forall k, (k < r.2)%nat -> gs !! (r.1 + k)%nat = Some 0.

Lemma longest_zeros_run pre gs best cur :
  zero_run (pre ++ gs) best -> zero_run (pre ++ gs) cur -> (cur.2 = 0 \/ cur.1 + cur.2 = length pre)%nat ->
  zero_run (pre ++ gs) (longest_zeros gs (length pre) best cur).
Proof.
  revert pre best cur. induction gs as [|g gs IH]; intros pre best cur Hb Hc Hend; [done|].
  assert (Hs : S (length pre) = length (pre ++ [g])) by (rewrite length_app; simpl; lia).
  assert (Hl : pre ++ g :: gs = (pre ++ [g]) ++ gs) by (by rewrite <- app_assoc).
  cbn [longest_zeros]. rewrite Hs. destruct (Z.eqb_spec g 0) as [->|Hg].
  - set (cur' := (_, S cur.2)).
    assert (Hrun : zero_run (pre ++ 0 :: gs) cur' /\ (cur'.1 + cur'.2 = length (pre ++ [0%Z]))%nat).
    { destruct cur as [c n]. cbn [fst snd] in *. subst cur'. cbn [fst snd]. rewrite <- Hs.
      destruct (Nat.eqb_spec n 0) as [->|Hn].
      - split; [split; cbn [fst snd]|lia]; [rewrite length_app; simpl; lia|]. intros k Hk.
        assert (k = 0%nat) as -> by lia. by rewrite Nat.add_0_r, lookup_app_r, Nat.sub_diag by lia.
      - destruct Hend as [?|Hend]; [lia|]. split; [split; cbn [fst snd]|lia]; [rewrite length_app; simpl; lia|].
        intros k Hk. destruct (decide (k < n)%nat) as [?|?]; [by apply Hc|].
        assert (c + k = length pre)%nat as -> by lia. by rewrite lookup_app_r, Nat.sub_diag by lia. }
    destruct Hrun as [Hrun He]. clearbody cur'. rewrite Hl in *. apply IH; [by case_match|done|by right].
  - rewrite Hl in *. apply IH; [done| |by left]. split; simpl; [lia|]. intros; lia.
Qed.

(** The run, cut out. *)
Lemma zero_run_split gs r :
  zero_run gs r -> take r.1 gs ++ replicate r.2 0 ++ drop (r.1 + r.2) gs = gs.
Proof.
  destruct r as [s n]. intros [Hl Hz]. cbn [fst snd] in *.
  assert (replicate n 0 = take n (drop s gs)) as ->.
  { apply list_eq. intros k. destruct (decide (k < n)%nat) as [Hk|Hk].
    - rewrite lookup_replicate_2, lookup_take_lt, lookup_drop, Hz by done. done.
    - rewrite !lookup_ge_None_2; [done|rewrite length_take; lia|rewrite length_replicate; lia]. }
  rewrite <- drop_drop, take_drop. apply take_drop.
Qed.

Lemma read_ipv4_show a b c d rest :
  is_u8 a -> is_u8 b -> is_u8 c -> is_u8 d -> no_digit rest ->
  read_ipv4_addr (show_ipv4 (a, b, c, d) ++ rest) = Some ((a, b, c, d), rest).
Proof.
  intros Ha Hb Hc Hd Hr. unfold show_ipv4, read_ipv4_addr, read_separator, pbind. rewrite <- !app_assoc.
  rewrite (read_octet a) by (done || by vm_compute). cbn [app read_given_char Z.eqb Pos.eqb].
  rewrite (read_octet b) by (done || by vm_compute). cbn [app read_given_char Z.eqb Pos.eqb].
  rewrite (read_octet c) by (done || by vm_compute). cbn [app read_given_char Z.eqb Pos.eqb].
  by rewrite (read_octet d).
Qed.

(** An address is printed in one of two ways. *)
Lemma show_ipv6_cases gs :
  (exists g h, gs = [0; 0; 0; 0; 0; 0xFFFF; g; h] /\
     show_ipv6 gs = str "::ffff:" ++ show_ipv4 (g `div` 256, g `mod` 256, h `div` 256, h `mod` 256)) \/
  show_ipv6 gs = compressed gs.
Proof.
  unfold show_ipv6. repeat case_match; try (by right). left. by eexists _, _.
Qed.

Lemma u16_bytes g : is_u16 g -> is_u8 (g `div` 256) /\ is_u8 (g `mod` 256).
Proof.
  unfold is_u16, is_u8, U16_MAX, U8_MAX. intros Hg. pose proof (Z.mod_pos_bound g 256 ltac:(lia)).
  split; [|lia]. split; [apply Z.div_pos; lia|]. apply Z.lt_succ_r, Z.div_lt_upper_bound; lia.
Qed.

(** An address is read back, whatever closes it. *)
Lemma read_ipv6_show gs rest :
  length gs = 8%nat -> Forall is_u16 gs -> hd_error rest = Some 93 \/ hd_error rest = Some 37 ->
  read_ipv6_addr (show_ipv6 gs ++ rest) = Some (gs, rest).
Proof.
  intros Hl Hg Hc.
  assert (Hr : halts rest /\ no_digit rest).
  { destruct rest as [|c rest]; [by destruct Hc|]. by destruct Hc as [[= ->]|[= ->]]; split; simpl; auto. }
  destruct Hr as [Hr Hnd]. unfold read_ipv6_addr.
  destruct (show_ipv6_cases gs) as [(g & h & -> & ->)| ->].
  - rewrite <- app_assoc. set (v4 := show_ipv4 _ ++ rest).
    change (str "::ffff:" ++ v4) with ([58; 58] ++ show_segment 0xFFFF ++ [58] ++ v4).
    rewrite read_groups_halt by (simpl; auto). unfold pbind. cbn [length Nat.eqb app read_given_char Z.eqb Pos.eqb].
    cbn [Nat.sub Nat.add]. cbn [read_groups read_separator].
    rewrite read_ipv4_segment, read_segment by (done || (simpl; auto)).
    unfold pbind at 1. cbn [read_given_char Z.eqb Pos.eqb]. subst v4.
    rewrite !Forall_cons in Hg. destruct Hg as (_ & _ & _ & _ & _ & _ & Hg & Hh & _).
    destruct (u16_bytes g Hg) as [H1 H2], (u16_bytes h Hh) as [H3 H4].
    rewrite read_ipv4_show by done. cbn. rewrite !(Z.mul_comm _ 256), <- !Z.div_mod by done. done.
  - unfold compressed. pose proof (longest_zeros_run [] gs (O, O) (O, O)) as Hz. cbn [app length] in Hz.
    assert (zero_run gs (O, O)) as H0 by (split; simpl; [lia|intros; lia]).
    specialize (Hz H0 H0 (or_introl eq_refl)).
    destruct (longest_zeros gs 0 (O, O) (O, O)) as [start n] eqn:E. pose proof Hz as [Hlen _]. cbn [fst snd] in Hlen.
    destruct (Nat.ltb_spec 1 n) as [Hn|Hn]; cycle 1.
    { rewrite read_groups_join by (done || lia). by rewrite Hl. }
    rewrite <- !app_assoc. rewrite read_groups_join; [|rewrite length_take; lia|by apply Forall_take|simpl; auto].
    rewrite length_take, Nat.min_l by lia. rewrite (proj2 (Nat.eqb_neq start 8)) by lia.
    unfold pbind. change (str "::") with [58; 58]. cbn [app read_given_char Z.eqb Pos.eqb].
    rewrite read_groups_join; [|rewrite length_drop; lia|by apply Forall_drop|done].
    rewrite length_drop. replace (8 - start - (length gs - (start + n)))%nat with n by lia.
    pose proof (zero_run_split gs (start, n) Hz) as Hsplit. cbn [fst snd] in Hsplit. by rewrite Hsplit.
Qed.

(** Printing a socket address and parsing it back. *)
Lemma addr_roundtrip a : wf_addr a -> addr_from_str (show_addr a) = Some a.
Proof.
  destruct a as [[[[a b] c] d] port|gs scope port].
  - intros (Ha & Hb & Hc & Hd & Hp). unfold addr_from_str, show_addr, read_socket_addr_v4. unfold pbind at 1.
    rewrite read_ipv4_show by done. unfold pbind, pret, read_port, pbind. cbn [app read_given_char Z.eqb Pos.eqb].
    rewrite <- (app_nil_r (dec port)), (read_number_dec port None true); [done|width|width|done|done|by left].
  - intros (Hl & Hg & Hs & Hp). unfold addr_from_str, show_addr.
    set (rest := (if scope =? 0 then [] else [37] ++ dec scope) ++ [93; 58] ++ dec port).
    change (read_socket_addr_v4 ([91] ++ show_ipv6 gs ++ rest)) with (@None (SocketAddr * text)).
    assert (Hport : read_number 10 None true U16_MAX (dec port) = Some (port, [])).
    { rewrite <- (app_nil_r (dec port)) at 1. apply read_number_dec; [width|width|done|done|by left]. }
    unfold read_socket_addr_v6, pbind at 1. cbn [app read_given_char Z.eqb Pos.eqb].
    unfold pbind at 1. rewrite read_ipv6_show; [|done|done|subst rest; destruct (scope =? 0); simpl; auto].
    subst rest. unfold read_scope_id, read_port, pbind, pret. destruct (Z.eqb_spec scope 0) as [->|Hne].
    + cbn [app read_given_char Z.eqb Pos.eqb from_option id]. by rewrite Hport.
    + cbn [app read_given_char Z.eqb Pos.eqb].
      rewrite (read_number_dec scope None true); [|width|width|done|done|by left].
      cbn [app read_given_char Z.eqb Pos.eqb from_option id]. by rewrite Hport.
Qed.
