(* ===== verification/Ffi.v ===== *)
(** * The C ABI: [src/ffi.rs]

    The process-global session: keystore, last-error buffer, one-time guards,
    statistics and the libsodium state, as one record every export threads.
    A C pointer is [None] for null and otherwise the memory it points at; an
    export returns its code and the memory behind its out-pointers.  The
    [RefCell] borrow conflicts are unreachable on the single VM thread and have
    no counterpart. *)

From S2P Require Export Text Dek.

Record FfiState := MkFfi {
  STORE : option KeyStore;
  LAST_ERROR : string;
  EXIT_HOOK_REGISTERED : bool;
  CORE_WARN_EMITTED : bool;
  sys : SodiumState;
  tele : StatsState;
}.

Definition set_STORE o st := MkFfi o st.(LAST_ERROR) st.(EXIT_HOOK_REGISTERED) st.(CORE_WARN_EMITTED) st.(sys) st.(tele).
Definition set_LAST_ERROR m st := MkFfi st.(STORE) m st.(EXIT_HOOK_REGISTERED) st.(CORE_WARN_EMITTED) st.(sys) st.(tele).
Definition set_hook b st := MkFfi st.(STORE) st.(LAST_ERROR) b st.(CORE_WARN_EMITTED) st.(sys) st.(tele).
Definition set_warned b st := MkFfi st.(STORE) st.(LAST_ERROR) st.(EXIT_HOOK_REGISTERED) b st.(sys) st.(tele).
Definition set_sys s st := MkFfi st.(STORE) st.(LAST_ERROR) st.(EXIT_HOOK_REGISTERED) st.(CORE_WARN_EMITTED) s st.(tele).
Definition set_tele w st := MkFfi st.(STORE) st.(LAST_ERROR) st.(EXIT_HOOK_REGISTERED) st.(CORE_WARN_EMITTED) st.(sys) w.

Abbreviation F := (St FfiState).

Definition on_sys {A} : St SodiumState A -> F A := zoom sys set_sys.
Definition on_tele {A} : St StatsState A -> F A := zoom tele set_tele.

Definition RC_OK : Z := 0.
Definition RC_OK_ABSENT : Z := 1.
Definition RC_ERR : Z := -1.
Definition RC_INVAL : Z := -2.
Definition RC_DROP : Z := -3.

Definition set_last_error (msg : string) : F unit := modify (set_LAST_ERROR msg).

Definition fail (msg : string) : F Z := let* _ := set_last_error msg in ret RC_ERR.
Definition invalid (msg : string) : F Z := let* _ := set_last_error msg in ret RC_INVAL.

(** ** Argument validation *)

Definition check_u16 (v : Z) (what : string) : result Z string :=
  ok_or (u16_try_from v) (what +:+ " " +:+ show v +:+ " out of range: must be 0-65535").

Definition epoch_message (v : Z) : string :=
  "epoch " +:+ show v +:+ " out of range: must be 0-" +:+ show MAX_EPOCH.

Definition check_epoch (v : Z) : result Epoch string :=
  let! b := ok_or (u8_try_from v) (epoch_message v) in
  map_err (fun _ => epoch_message v) (epoch_new b).

Definition check_channel (v : Z) : result Z string :=
  if (1 <=? v) && (v <=? 99)
  then Err ("channel " +:+ show v +:+
            " is reserved: 1-99 are system channels, application channels start at 100")
  else Ok v.

Definition buf_in (ptr : option bytes) (n : Z) (what : string) : result bytes string :=
  if n =? 0 then Ok [] else
  match ptr with
  | None => Err (what +:+ ": null pointer with non-zero length " +:+ show n)
  | Some mem => Ok (take (Z.to_nat n) mem)
  end.

Definition buf_out (ptr : option bytes) (cap : Z) (what : string) : result bytes string :=
  if cap =? 0 then Ok [] else
  match ptr with
  | None => Err (what +:+ ": null output pointer with capacity " +:+ show cap)
  | Some mem => Ok (take (Z.to_nat cap) mem)
  end.

(** [out[..src.len()].copy_from_slice(src)], seen at the caller's pointer. *)
Definition copy_out (ptr : option bytes) (src : bytes) : option bytes :=
  (fun mem => write_front mem src) <$> ptr.

Definition dquote : string := String (Ascii.ascii_of_N 34) EmptyString.

(** ** Constants *)

Definition lunet_paxe_overhead_standard : Z := OVERHEAD.
Definition lunet_paxe_overhead_dek : Z := DEK_OVERHEAD.
Definition lunet_paxe_max_payload_standard : Z := MAX_PAYLOAD.
Definition lunet_paxe_max_payload_dek : Z := DEK_MAX_PAYLOAD.

(** [env!("CARGO_PKG_VERSION")]: the version of [Cargo.toml]. *)
Definition CARGO_PKG_VERSION : string := "0.3.2".

(** The static string and its address, seen as the memory it points at. *)
Definition VERSION : bytes := as_bytes (str CARGO_PKG_VERSION) ++ [0].
Definition lunet_paxe_version : option bytes := Some VERSION.

Section Exports.
Context `{Libsodium}.

(** ** Lifecycle *)

(** [LUNET_PAXE_ALLOW_CORE_DUMPS] is exactly ["1"]. *)
Definition core_dumps_allowed_by_env (env : option string) : bool :=
  bool_decide (env = Some "1").

Definition warn_core_disable_failed (err : string) : F unit :=
  let* warned := gets CORE_WARN_EMITTED in
  let* _ := modify (set_warned true) in
  if warned then ret tt else
  on_tele (modify (fun w => MkStatsState w.(STATS) w.(POLICY) w.(LOGGED) (w.(stderr) ++
    ["[PAXE] WARNING: setrlimit(RLIMIT_CORE, 0) failed (" +:+ err +:+
     "); core dumps are NOT disabled and on macOS a crash can write key material into a core file (see PAXE.md " +:+
     dquote +:+ "Security Considerations" +:+ dquote +:+ ")"]))).

(** The first act of [init]. *)
Definition suppress_core_dumps (env : option string) (os_error : string) : F unit :=
  if core_dumps_allowed_by_env env then ret tt else
  let* r := on_sys disable_core_dumps in
  match r with
  | Err _ => warn_core_disable_failed os_error
  | Ok _ => ret tt
  end.

Definition lunet_paxe_init (env : option string) (os_error : string) : F Z :=
  let* _ := suppress_core_dumps env os_error in
  let* r := on_sys init in
  match r with
  | Err e => fail ("libsodium initialisation failed: " +:+ show_SodiumError e)
  | Ok _ =>
      match check_sizes with
      | Err e => fail ("libsodium ABI check failed: " +:+ show_SodiumError e)
      | Ok _ =>
          match require_aes_gcm with
          | Err e =>
              fail ("AES-256-GCM hardware path unavailable (libsodium " +:+ version_string +:+
                    "); PAXE cannot operate on this host: " +:+ show_SodiumError e)
          | Ok _ => let* _ := modify (set_hook true) in ret RC_OK
          end
      end
  end.

Definition lunet_paxe_set_local_id (node_id : Z) : F Z :=
  match check_u16 node_id "node id" with
  | Err m => invalid m
  | Ok id =>
      let* s := gets STORE in
      match s with
      | Some _ => invalid "local node id already configured; call shutdown() before reconfiguring"
      | None =>
          let* r := on_sys (keystore_new id) in
          match r with
          | Ok store => let* _ := modify (set_STORE (Some store)) in ret RC_OK
          | Err e => fail ("could not create keystore: " +:+ show_KeystoreError e)
          end
      end
  end.

(** The drop of the [KeyStore] is the zeroisation. *)
Definition shutdown_state : F unit :=
  let* s := gets STORE in
  let* _ := match s with Some store => on_sys (keystore_drop store) | None => ret tt end in
  let* _ := modify (set_STORE None) in
  let* _ := set_last_error "" in
  on_tele reset_log_once_memo.

Definition lunet_paxe_shutdown : F unit := shutdown_state.

(** Normal process exit: the hook runs when [init] has registered it. *)
Definition process_exit : F unit :=
  let* registered := gets EXIT_HOOK_REGISTERED in
  if registered then shutdown_state else ret tt.

(** ** Keystore operations *)

Definition not_configured : string := "local node id not configured: call set_local_id() first".

Definition lunet_paxe_keystore_set (peer epoch : Z) (key : option bytes) (key_len : Z) : F Z :=
  match check_u16 peer "peer node id" with
  | Err m => invalid m
  | Ok peer =>
  match check_epoch epoch with
  | Err m => invalid m
  | Ok epoch =>
  match buf_in key key_len "key" with
  | Err m => invalid m
  | Ok key =>
  if negb (len key =? KEYBYTES)
  then invalid ("key must be exactly " +:+ show KEYBYTES +:+ " bytes, got " +:+ show (len key))
  else
  let* s := gets STORE in
  match s with
  | None => fail not_configured
  | Some store =>
      let* (r, store) := on_sys (install store peer epoch key) in
      let* _ := modify (set_STORE (Some store)) in
      match r with
      | Ok _ => ret RC_OK
      | Err e => fail ("could not install key: " +:+ show_KeystoreError e)
      end
  end end end end.

Definition lunet_paxe_keystore_retire (peer epoch : Z) : F Z :=
  match check_u16 peer "peer node id" with
  | Err m => invalid m
  | Ok peer =>
  match check_epoch epoch with
  | Err m => invalid m
  | Ok epoch =>
  let* s := gets STORE in
  match s with
  | None => fail not_configured
  | Some store =>
      let* (removed, store) := on_sys (retire store peer epoch) in
      let* _ := modify (set_STORE (Some store)) in
      ret (if removed then RC_OK else RC_OK_ABSENT)
  end end end.

Definition lunet_paxe_keystore_clear : F Z :=
  let* s := gets STORE in
  match s with
  | None => ret RC_OK
  | Some store =>
      let* store := on_sys (clear store) in
      let* _ := modify (set_STORE (Some store)) in
      ret RC_OK
  end.

(** ** Seal and open *)

(** Result: the code, the memory at [out], the value at [out_len]. *)
Definition lunet_paxe_seal (payload : option bytes) (payload_len to_id channel : Z)
    (out : option bytes) (out_cap : Z) (out_len : option Z) : F (Z * option bytes * option Z) :=
  let done (m : F Z) : F (Z * option bytes * option Z) := let* rc := m in ret (rc, out, out_len) in
  match check_u16 to_id "destination node id" with
  | Err m => done (invalid m)
  | Ok to_id =>
  match check_channel channel with
  | Err m => done (invalid m)
  | Ok channel =>
  match buf_in payload payload_len "payload" with
  | Err m => done (invalid m)
  | Ok payload =>
  match out_len with
  | None => done (invalid "frame length output pointer must not be null")
  | Some _ =>
  match buf_out out out_cap "frame output" with
  | Err m => done (invalid m)
  | Ok out_slice =>
  if MAX_PAYLOAD <? len payload then
    let* _ := on_tele record_tx_oversize in
    done (fail ("payload too large: " +:+ show (len payload) +:+
                " bytes exceeds the standard-mode maximum of " +:+ show MAX_PAYLOAD))
  else
  let* s := gets STORE in
  match s with
  | None => done (fail not_configured)
  | Some store =>
  match key_for_send_current store to_id with
  | None => done (fail ("no key installed for peer " +:+ show to_id +:+ " under any epoch"))
  | Some (epoch, _) =>
      let* r := on_sys (Dek.seal store to_id channel epoch payload) in
      match r with
      | Err e => done (fail ("seal failed: " +:+ Dek.show_SealError e))
      | Ok frame =>
          if len out_slice <? len frame then
            done (invalid ("frame output buffer too small: need " +:+ show (len frame) +:+
                           ", have " +:+ show (len out_slice)))
          else
            let* _ := on_tele (record_tx_sealed Standard) in
            ret (RC_OK, copy_out out frame, Some (len frame))
      end
  end end end end end end end.

(** The out-pointers of [open]. *)
Record OpenPtrs := MkPtrs {
  p_out : option bytes;
  p_out_len : option Z;
  p_from_id : option Z;
  p_channel : option Z;
  p_mode : option Z;
}.

Definition lunet_paxe_open (frame : option bytes) (frame_len : Z) (ptrs : OpenPtrs) (out_cap : Z)
    : F (Z * OpenPtrs) :=
  let done (m : F Z) : F (Z * OpenPtrs) := let* rc := m in ret (rc, ptrs) in
  match buf_in frame frame_len "frame" with
  | Err m => done (invalid m)
  | Ok frame =>
  match ptrs.(p_out_len), ptrs.(p_from_id), ptrs.(p_channel), ptrs.(p_mode) with
  | Some _, Some _, Some _, Some _ =>
      match buf_out ptrs.(p_out) out_cap "payload output" with
      | Err m => done (invalid m)
      | Ok out_slice =>
      let* s := gets STORE in
      match s with
      | None => ret (RC_DROP, ptrs)
      | Some store =>
          let* sodium := gets sys in
          let* r := on_tele (Dek.open sodium store frame) in
          match r with
          | Ok (h, f, plain) =>
              if len out_slice <? len plain then
                done (invalid ("payload output buffer too small: need " +:+ show (len plain) +:+
                               ", have " +:+ show (len out_slice)))
              else
                let* _ := on_tele record_rx_ok in
                ret (RC_OK, MkPtrs (copy_out ptrs.(p_out) plain) (Some (len plain))
                              (Some h.(from_id)) (Some h.(Codec.channel))
                              (Some (match f.(mode) with Standard => 0 | Dek => 1 end)))
          | Err (OpenSodium _) => ret (RC_DROP, ptrs)
          | Err _ => let* _ := on_tele record_rx_drop in ret (RC_DROP, ptrs)
          end
      end end
  | _, _, _, _ => done (invalid "open: output pointers must not be null")
  end end.

(** ** The plaintext gate *)

Definition lunet_paxe_frame_for_us (frame : option bytes) (frame_len : Z) : F Z :=
  match buf_in frame frame_len "frame" with
  | Err m => invalid m
  | Ok frame =>
  let* s := gets STORE in
  match s with
  | None => ret 0
  | Some store =>
      let to_id := match get_range frame 2 4 with
                   | Some t => match try_into_array 2 t with
                               | Some t => from_be_bytes t
                               | None => 0
                               end
                   | None => 0
                   end in
      if (PREFIX_LEN <=? len frame) && (to_id =? local_id store) then ret 1 else
      let* _ := on_tele record_rx_drop in
      let* _ := on_tele (record_reject Plaintext) in
      ret 0
  end end.

(** ** Statistics, policy, diagnostics *)

(** Result: the field count and the memory at [out] (as [u64]s). *)
Definition lunet_paxe_stats (out : option (list Z)) (out_cap : Z) : F (Z * option (list Z)) :=
  let* snap := on_tele snapshot in
  let fs := fields snap in
  let out := if out_cap =? 0 then out
             else (fun mem => write_front mem (take (Z.to_nat (Z.min (len fs) out_cap)) fs)) <$> out in
  ret (len fs, out).

Definition lunet_paxe_fail_policy_set (name : option bytes) (name_len : Z) : F Z :=
  match buf_in name name_len "policy name" with
  | Err m => invalid m
  | Ok name =>
  match from_utf8 name with
  | None => invalid "policy name must be UTF-8"
  | Some _ =>
      let name := string_of_bytes name in
      match from_name name with
      | Some p => let* _ := on_tele (set_policy p) in ret RC_OK
      | None => invalid ("unknown failure policy '" +:+ name +:+
                         "': must be silent, log_once or verbose")
      end
  end end.

(** Result: what the returned pointer points at, and the memory behind [len].
    The pointer is the [Vec]'s own, which is never null: with no message it is a
    dangling address with length 0.  (The null of a failed borrow cannot occur,
    no export holds the borrow.) *)
Definition lunet_paxe_last_error (len : option Z) : F (option string * option Z) :=
  let* e := gets LAST_ERROR in
  ret (Some e, (fun _ => Z.of_nat (String.length e)) <$> len).

(** ** Sessions: any sequence of calls, in any order *)

Inductive Call :=
| CInit (env : option string) (os_error : string)
| CSetLocalId (node_id : Z)
| CShutdown
| CKeystoreSet (peer epoch : Z) (key : option bytes) (key_len : Z)
| CKeystoreRetire (peer epoch : Z)
| CKeystoreClear
| CSeal (payload : option bytes) (payload_len to_id channel : Z) (out : option bytes)
    (out_cap : Z) (out_len : option Z)
| COpen (frame : option bytes) (frame_len : Z) (ptrs : OpenPtrs) (out_cap : Z)
| CFrameForUs (frame : option bytes) (frame_len : Z)
| CStats (out : option (list Z)) (out_cap : Z)
| CFailPolicySet (name : option bytes) (name_len : Z)
| CLastError (len : option Z).

(** One call: the code it returns (0 for an export without one). *)
Definition exec (c : Call) : F Z :=
  match c with
  | CInit env os_error => lunet_paxe_init env os_error
  | CSetLocalId node_id => lunet_paxe_set_local_id node_id
  | CShutdown => let* _ := lunet_paxe_shutdown in ret RC_OK
  | CKeystoreSet peer epoch key key_len => lunet_paxe_keystore_set peer epoch key key_len
  | CKeystoreRetire peer epoch => lunet_paxe_keystore_retire peer epoch
  | CKeystoreClear => lunet_paxe_keystore_clear
  | CSeal payload n to_id channel out cap out_len =>
      let* (r, _, _) := lunet_paxe_seal payload n to_id channel out cap out_len in ret r
  | COpen frame n ptrs cap => let* (r, _) := lunet_paxe_open frame n ptrs cap in ret r
  | CFrameForUs frame n => lunet_paxe_frame_for_us frame n
  | CStats out cap => let* (n, _) := lunet_paxe_stats out cap in ret RC_OK
  | CFailPolicySet name n => lunet_paxe_fail_policy_set name n
  | CLastError l => let* _ := lunet_paxe_last_error l in ret RC_OK
  end.

Fixpoint exec_all (calls : list Call) : F (list Z) :=
  match calls with
  | [] => ret []
  | c :: rest =>
      let* rc := exec c in
      let* rcs := exec_all rest in
      ret (rc :: rcs)
  end.

End Exports.

(** The state of a freshly loaded module over a libsodium state. *)
Definition fresh_module (s : SodiumState) : FfiState := MkFfi None "" false false s stats_init.

(** ** The session invariant

    [base] is the guarded memory the module does not own: with a keystore
    configured, everything but the keys; without one, the whole guarded heap. *)

Record ffi_inv (base : gmap Z Block) (st : FfiState) : Prop := {
  fi_store : match STORE st with
             | Some ks => ks_inv (sys st) ks /\ outside (sys st) ks = base
             | None => heap (sys st) = base
             end;
  fi_wf : wf_stats (STATS (tele st));
  fi_balanced : rx_balanced (STATS (tele st));
}.

(** The caller's side of the ABI: integers are unsigned, memory is bytes. *)
Definition wf_call (c : Call) : Prop :=
  match c with
  | CSetLocalId node_id => 0 <= node_id
  | CKeystoreSet peer epoch _ _ | CKeystoreRetire peer epoch => 0 <= peer /\ 0 <= epoch
  | COpen (Some mem) _ _ _ => Forall is_u8 mem
  | _ => True
  end.

(** *** Statistics steps *)

Lemma record_reject_stats r w : STATS (record_reject r w).2 = count_reject r (STATS w).
Proof.
  unfold record_reject, should_log, bump, gets, modify, bind, ret, set_logged, emit, modify. simpl.
  destruct (POLICY w); simpl; try done. by destruct (negb _).
Qed.

Lemma drop_wf s : wf_stats s -> wf_stats (drop_stats s).
Proof. intros (? & ? & ? & ?). split_and!; try done; [by apply sat_u64|naive_solver..]. Qed.

(** One more dropped frame with its reason. *)
Lemma drop_step r s :
  wf_stats s -> rx_balanced s ->
  wf_stats (drop_stats (count_reject r s)) /\ rx_balanced (drop_stats (count_reject r s)).
Proof. intros. split; [by apply drop_wf, count_reject_wf|by apply drop_balanced]. Qed.

Lemma ok_step w :
  wf_stats (STATS w) -> rx_balanced (STATS w) ->
  wf_stats (STATS (record_rx_ok w).2) /\ rx_balanced (STATS (record_rx_ok w).2).
Proof.
  intros Hw Hb. split; [|exact (ok_balanced (STATS w) Hw Hb)].
  destruct Hw as (? & ? & ? & ? & ?). split_and!; simpl; try done; try (by apply sat_u64); naive_solver.
Qed.

Lemma tx_sealed_step m w :
  wf_stats (STATS w) -> rx_balanced (STATS w) ->
  wf_stats (STATS (record_tx_sealed m w).2) /\ rx_balanced (STATS (record_tx_sealed m w).2).
Proof.
  intros (? & ? & ? & ? & ? & ? & ? & ?) Hb.
  destruct m; (split; [split_and!; simpl; try done; by apply sat_u64|exact Hb]).
Qed.

Lemma tx_oversize_step w :
  wf_stats (STATS w) -> rx_balanced (STATS w) ->
  wf_stats (STATS (record_tx_oversize w).2) /\ rx_balanced (STATS (record_tx_oversize w).2).
Proof.
  intros (? & ? & ? & ? & ? & ? & ? & ?) Hb.
  split; [split_and!; simpl; try done; by apply sat_u64|exact Hb].
Qed.

(** *** Frame rules: what the pieces of the state depend on *)

Lemma ffi_inv_tele base st w :
  ffi_inv base st -> wf_stats (STATS w) /\ rx_balanced (STATS w) -> ffi_inv base (set_tele w st).
Proof. intros [? ? ?] [? ?]. by split. Qed.

Lemma ffi_inv_same_stats base st w :
  ffi_inv base st -> STATS w = STATS (tele st) -> ffi_inv base (set_tele w st).
Proof. intros Hi Hs. apply ffi_inv_tele; [done|]. rewrite Hs. split; apply Hi. Qed.

Lemma ffi_inv_error base st m : ffi_inv base st -> ffi_inv base (set_LAST_ERROR m st).
Proof. intros [? ? ?]. by split. Qed.

Lemma ffi_inv_sys base st s :
  ffi_inv base st -> heap s = heap (sys st) -> ffi_inv base (set_sys s st).
Proof.
  intros [Hs ? ?] Hh. split; try done. simpl. destruct (STORE st) as [ks|].
  - destruct Hs as [Hi Ho]. split; [eapply ks_inv_heap; [done|by rewrite Hh]|].
    unfold outside in *. by rewrite Hh.
  - by rewrite Hh.
Qed.

Lemma ffi_inv_flags base st a b : ffi_inv base st -> ffi_inv base (set_hook a (set_warned b st)).
Proof. intros [? ? ?]. by split. Qed.

#[export] Hint Resolve ffi_inv_tele ffi_inv_error ffi_inv_sys : paxe.

(** *** Argument checks *)

Lemma check_u16_ok v what p : check_u16 v what = Ok p <-> p = v /\ v <= U16_MAX.
Proof.
  unfold check_u16, u16_try_from. destruct (Z.leb_spec v U16_MAX); simpl; split;
    [by intros [= <-]|by intros [-> _]|done|lia].
Qed.

Lemma check_epoch_ok v e : 0 <= v -> check_epoch v = Ok e <-> e = MkEpoch v /\ v <= MAX_EPOCH.
Proof.
  intros Hv. unfold check_epoch, u8_try_from, epoch_new.
  destruct (Z.leb_spec v U8_MAX) as [H1|H1]; simpl.
  - destruct (Z.ltb_spec MAX_EPOCH v); simpl; split; naive_solver lia.
  - unfold U8_MAX, MAX_EPOCH in *. split; [done|lia].
Qed.

Lemma check_channel_ok v c : check_channel v = Ok c <-> c = v /\ ~ (1 <= v <= 99).
Proof.
  unfold check_channel. destruct (Z.leb_spec 1 v), (Z.leb_spec v 99); simpl; split; naive_solver lia.
Qed.

Lemma buf_in_u8 ptr n what bs :
  match ptr with Some mem => Forall is_u8 mem | None => True end ->
  buf_in ptr n what = Ok bs -> Forall is_u8 bs.
Proof.
  unfold buf_in. intros Hm. destruct (n =? 0); [intros [= <-]; constructor|].
  destruct ptr; [|done]. intros [= <-]. by apply Forall_take.
Qed.

Section Sessions.
Context `{AS : AeadSpec, GH : !GuardedHeapSpec}.

(** Expose the steps of an export. *)
Ltac run := unfold fail, invalid, set_last_error, on_sys, on_tele, zoom, gets, modify, bind, ret in *.

(** The warning about core dumps touches only its guard and [stderr]. *)
Lemma warn_inv base err st : ffi_inv base st -> ffi_inv base (warn_core_disable_failed err st).2.
Proof.
  intros Hi. unfold warn_core_disable_failed. run.
  by destruct (CORE_WARN_EMITTED st); destruct Hi; split.
Qed.

Lemma disable_core_dumps_heap s : heap (disable_core_dumps s).2 = heap s.
Proof. unfold disable_core_dumps. by repeat case_match. Qed.

Lemma init_inv base env err st : ffi_inv base st -> ffi_inv base (lunet_paxe_init env err st).2.
Proof.
  intros Hi. unfold lunet_paxe_init. unfold bind at 1.
  destruct (suppress_core_dumps env err st) as [[] st'] eqn:Hpre.
  assert (ffi_inv base st') as Hi'.
  { revert Hpre. unfold suppress_core_dumps.
    destruct (core_dumps_allowed_by_env env); [by intros [= <-]|]. unfold bind, on_sys, zoom.
    pose proof (disable_core_dumps_heap (sys st)) as Hh.
    destruct (disable_core_dumps (sys st)) as [[] s]; [by intros [= <-]; apply ffi_inv_sys|].
    intros Hw. pose proof (warn_inv base err (set_sys s st)) as Hx. rewrite Hw in Hx.
    by apply Hx, ffi_inv_sys. }
  unfold bind at 1, on_sys, zoom. pose proof (init_heap (sys st')) as Hh.
  destruct (init (sys st')) as [r s]. simpl in Hh. pose proof (ffi_inv_sys _ _ s Hi' Hh) as Hi2.
  repeat case_match; run; simpl; try (by apply ffi_inv_error). by destruct Hi2; split.
Qed.

Lemma set_local_id_inv base id st :
  0 <= id -> ffi_inv base st -> ffi_inv base (lunet_paxe_set_local_id id st).2.
Proof.
  intros Hid Hi. unfold lunet_paxe_set_local_id.
  destruct (check_u16 id "node id") as [v|m] eqn:Hc; [|by apply ffi_inv_error].
  apply check_u16_ok in Hc as [-> Hmax]. run.
  destruct (STORE st) as [ks|] eqn:Hs; [by apply ffi_inv_error|].
  destruct (keystore_new id (sys st)) as [r s] eqn:Hk.
  assert (heap s = heap (sys st) /\ (r = Ok (MkKeyStore id bt_empty) \/ exists e, r = Err e)) as [Hh Hr].
  { revert Hk. unfold keystore_new, bind, ret. pose proof (init_heap (sys st)) as Hh.
    destruct (init (sys st)) as [[|] s0]; intros [= <- <-]; eauto. }
  destruct Hr as [->|[e ->]]; simpl; [|by apply ffi_inv_error, ffi_inv_sys].
  destruct Hi as [Hst ? ?]. rewrite Hs in Hst. split; try done. simpl. split.
  - apply empty_store_inv. unfold is_u16. lia.
  - unfold outside. rewrite Hh, <- Hst. apply map_filter_id. intros p b _. by apply not_elem_of_nil.
Qed.

Lemma shutdown_inv base st : ffi_inv base st -> ffi_inv base (shutdown_state st).2.
Proof.
  intros [Hst ? ?]. unfold shutdown_state, reset_log_once_memo, set_logged. run.
  destruct (STORE st) as [ks|] eqn:Hs; simpl; [|by split].
  destruct Hst as [Hi Ho]. destruct (keystore_drop_spec (sys st) ks Hi) as [Hh _].
  destruct (keystore_drop ks (sys st)) as [[] s]. simpl in *. split; try done. simpl. by rewrite Hh.
Qed.

Lemma keystore_set_inv base peer epoch key n st :
  0 <= peer -> 0 <= epoch -> ffi_inv base st ->
  ffi_inv base (lunet_paxe_keystore_set peer epoch key n st).2.
Proof.
  intros Hp He Hi. unfold lunet_paxe_keystore_set.
  destruct (check_u16 peer _) as [p|m] eqn:Hc; [|by apply ffi_inv_error].
  apply check_u16_ok in Hc as [-> Hmax].
  destruct (check_epoch epoch) as [e|m] eqn:Hce; [|by apply ffi_inv_error].
  apply check_epoch_ok in Hce as [-> Hme]; [|done].
  destruct (buf_in key n "key") as [k|m]; [|by apply ffi_inv_error].
  destruct (Z.eqb_spec (len k) KEYBYTES) as [Hk|Hk]; cbn [negb]; [|by apply ffi_inv_error].
  run. destruct (STORE st) as [ks|] eqn:Hs; [|by apply ffi_inv_error].
  destruct (install ks peer (MkEpoch epoch) k (sys st)) as [[r ks'] s] eqn:Hx.
  destruct Hi as [Hst ? ?]. rewrite Hs in Hst. destruct Hst as [Hki Ho].
  assert (is_u16 peer) as Hu by (unfold is_u16; lia).
  assert (wf_epoch (MkEpoch epoch)) as Hwe by (unfold wf_epoch; simpl; lia).
  destruct (install_spec _ _ _ _ _ _ _ _ Hki Hu Hwe Hk Hx) as (Hki' & Ho' & _).
  assert (ffi_inv base (set_STORE (Some ks') (set_sys s st))) as Hi'.
  { split; try done. simpl. split; [done|]. by rewrite Ho'. }
  destruct r; [done|by apply ffi_inv_error].
Qed.

Lemma keystore_retire_inv base peer epoch st :
  0 <= peer -> 0 <= epoch -> ffi_inv base st ->
  ffi_inv base (lunet_paxe_keystore_retire peer epoch st).2.
Proof.
  intros Hp He Hi. unfold lunet_paxe_keystore_retire.
  destruct (check_u16 peer _) as [p|m]; [|by apply ffi_inv_error].
  destruct (check_epoch epoch) as [e|m]; [|by apply ffi_inv_error].
  run. destruct (STORE st) as [ks|] eqn:Hs; [|by apply ffi_inv_error].
  destruct (retire ks p e (sys st)) as [[r ks'] s] eqn:Hx.
  destruct Hi as [Hst ? ?]. rewrite Hs in Hst. destruct Hst as [Hki Ho].
  destruct (retire_spec _ _ _ _ _ _ _ Hki Hx) as (Hki' & Ho' & _).
  split; try done. simpl. split; [done|]. by rewrite Ho'.
Qed.

Lemma keystore_clear_inv base st :
  ffi_inv base st -> ffi_inv base (lunet_paxe_keystore_clear st).2.
Proof.
  intros Hi. unfold lunet_paxe_keystore_clear. run.
  destruct (STORE st) as [ks|] eqn:Hs; [|done].
  destruct (clear ks (sys st)) as [ks' s] eqn:Hx.
  destruct Hi as [Hst ? ?]. rewrite Hs in Hst. destruct Hst as [Hki Ho].
  destruct (clear_spec _ _ _ _ Hki Hx) as (Hki' & Hv & _ & Hh & _).
  split; try done. simpl. split; [done|]. rewrite <- Ho, <- Hh.
  unfold outside. apply map_filter_id. intros p b _.
  assert (ks'.(entries) = []) as Hnil.
  { revert Hx. unfold clear, bind, ret. destruct (drop_all _ _). by intros [= <- _]. }
  unfold ptrs. rewrite Hnil. apply not_elem_of_nil.
Qed.

Lemma seal_inv base payload n to_id ch out cap out_len st :
  ffi_inv base st -> ffi_inv base (lunet_paxe_seal payload n to_id ch out cap out_len st).2.
Proof.
  intros Hi. unfold lunet_paxe_seal.
  destruct (check_u16 to_id _) as [t|m]; [|by apply ffi_inv_error].
  destruct (check_channel ch) as [c|m]; [|by apply ffi_inv_error].
  destruct (buf_in payload n _) as [p|m]; [|by apply ffi_inv_error].
  destruct out_len as [ol|]; [|by apply ffi_inv_error].
  destruct (buf_out out cap _) as [o|m]; [|by apply ffi_inv_error].
  destruct (MAX_PAYLOAD <? len p).
  { run. apply ffi_inv_error. apply ffi_inv_tele; [done|]. apply tx_oversize_step; apply Hi. }
  run. destruct (STORE st) as [ks|]; [|by apply ffi_inv_error].
  destruct (key_for_send_current ks t) as [[e k]|]; [|by apply ffi_inv_error].
  pose proof (dek_seal_heap ks t c e p (sys st)) as Hh.
  destruct (Dek.seal ks t c e p (sys st)) as [r s]. simpl in Hh.
  pose proof (ffi_inv_sys base st s Hi Hh) as Hi'.
  destruct r as [frame|err]; [|by apply ffi_inv_error].
  destruct (len o <? len frame); [by apply ffi_inv_error|].
  apply ffi_inv_tele; [done|]. apply (tx_sealed_step Standard (tele st)); apply Hi.
Qed.

Lemma open_inv base frame n ptrs cap st :
  match frame with Some mem => Forall is_u8 mem | None => True end ->
  ffi_inv base st -> ffi_inv base (lunet_paxe_open frame n ptrs cap st).2.
Proof.
  intros Hu Hi. unfold lunet_paxe_open.
  destruct (buf_in frame n "frame") as [fr|m] eqn:Hb; [|by apply ffi_inv_error].
  apply buf_in_u8 in Hb; [|done].
  destruct (p_out_len ptrs), (p_from_id ptrs), (p_channel ptrs), (p_mode ptrs);
    try (by apply ffi_inv_error).
  destruct (buf_out _ _ _) as [o|m]; [|by apply ffi_inv_error].
  run. destruct (STORE st) as [ks|] eqn:Hs; [|done]. simpl.
  pose proof Hi as [Hst Hwf Hbal]. rewrite Hs in Hst. destruct Hst as [Hki _].
  destruct (dispatch_cases (sys st) ks fr (tele st) Hki Hb)
    as [(h & f & plain & _ & ->)|(_ & e & He & ->)].
  - assert (ffi_inv base (set_tele (tele st) st)) as Hi' by (by apply ffi_inv_same_stats).
    destruct (len o <? len plain); [by apply ffi_inv_error|].
    apply (ffi_inv_tele base (set_tele (tele st) st)); [done|]. by apply ok_step.
  - set (r := open_reason _ _ _). destruct (record_reject r (tele st)) as [[] w] eqn:Hr.
    assert (STATS w = count_reject r (STATS (tele st))) as Hw
      by (pose proof (record_reject_stats r (tele st)) as Hx; by rewrite Hr in Hx).
    assert (wf_stats (drop_stats (STATS w)) /\ rx_balanced (drop_stats (STATS w))) as Hd
      by (rewrite Hw; by apply drop_step).
    destruct e; try (exfalso; by eapply He); destruct Hi; split; try done; apply Hd.
Qed.

Lemma frame_for_us_inv base frame n st :
  ffi_inv base st -> ffi_inv base (lunet_paxe_frame_for_us frame n st).2.
Proof.
  intros Hi. unfold lunet_paxe_frame_for_us.
  destruct (buf_in frame n "frame") as [fr|m]; [|by apply ffi_inv_error].
  run. destruct (STORE st) as [ks|] eqn:Hs; [|done].
  destruct (_ && _); [done|]. simpl.
  set (w1 := MkStatsState _ _ _ _). pose proof (record_reject_stats Plaintext w1) as Hw.
  destruct (record_reject Plaintext w1) as [[] w2]. simpl in Hw.
  apply (ffi_inv_tele base st w2); [done|]. rewrite Hw. apply (drop_step Plaintext); apply Hi.
Qed.

Lemma policy_inv base name n st :
  ffi_inv base st -> ffi_inv base (lunet_paxe_fail_policy_set name n st).2.
Proof.
  intros Hi. unfold lunet_paxe_fail_policy_set.
  destruct (buf_in name n _) as [nm|m]; [|by apply ffi_inv_error].
  destruct (from_utf8 nm); [|by apply ffi_inv_error].
  destruct (from_name _) as [p|]; [|by apply ffi_inv_error].
  run. unfold set_policy. run. unfold reset_log_once_memo, set_logged. run.
  destruct (decide (p = LogOnce)); by apply ffi_inv_same_stats.
Qed.

Lemma exec_inv base c st : wf_call c -> ffi_inv base st -> ffi_inv base (exec c st).2.
Proof.
  intros Hc Hi. destruct c; simpl in Hc; unfold exec.
  - by apply init_inv.
  - by apply set_local_id_inv.
  - pose proof (shutdown_inv base st Hi). unfold lunet_paxe_shutdown, bind, ret.
    by destruct (shutdown_state st).
  - destruct Hc. by apply keystore_set_inv.
  - destruct Hc. by apply keystore_retire_inv.
  - by apply keystore_clear_inv.
  - pose proof (seal_inv base payload payload_len to_id channel out out_cap out_len st Hi) as Hx.
    unfold bind. by destruct (lunet_paxe_seal _ _ _ _ _ _ _ _) as [[[? ?] ?] ?].
  - pose proof (open_inv base frame frame_len ptrs out_cap st Hc Hi) as Hx.
    unfold bind. by destruct (lunet_paxe_open _ _ _ _ _) as [[? ?] ?].
  - by apply frame_for_us_inv.
  - unfold lunet_paxe_stats, snapshot. run. by apply ffi_inv_same_stats.
  - by apply policy_inv.
  - done.
Qed.

Lemma exec_all_inv base calls st :
  Forall wf_call calls -> ffi_inv base st -> ffi_inv base (exec_all calls st).2.
Proof.
  intros Hc. revert st. induction Hc as [|c calls Hc _ IH]; intros st Hi; [done|].
  cbn [exec_all]. unfold bind, ret. pose proof (exec_inv base c st Hc Hi) as H1.
  destruct (exec c st) as [rc st1]. specialize (IH st1 H1).
  by destruct (exec_all calls st1).
Qed.

Lemma fresh_inv s : ffi_inv (heap s) (fresh_module s).
Proof. split; [done| |done]. by repeat constructor. Qed.

(** ** Erasure *)

(** Between two libsodium states only zeroed key regions were released. *)
Definition erases (s s' : SodiumState) : Prop :=
  exists released, freed s' = released ++ freed s /\
    Forall (fun pb => pb.2 = zeros KEYBYTES) released.

Lemma erases_same s s' : freed s' = freed s -> erases s s'.
Proof. intros Hf. by exists []. Qed.

Lemma erases_trans s1 s2 s3 : erases s1 s2 -> erases s2 s3 -> erases s1 s3.
Proof.
  intros (r1 & H1 & F1) (r2 & H2 & F2). exists (r2 ++ r1). rewrite H2, H1, <- app_assoc.
  split; [done|]. by apply Forall_app.
Qed.

Lemma mlock_ok (Hlock : forall i n, sodium_mlock i n = 0) ga s : (mlock ga s).1 = Ok tt.
Proof.
  unfold mlock. destruct (ga_len ga =? 0); [done|]. unfold bind, try_mlock. by rewrite Hlock.
Qed.

(** With page locking available a failed install releases nothing. *)
Lemma install_erases s ks peer e material r ks' s' :
  (forall i n, sodium_mlock i n = 0) ->
  ks_inv s ks -> is_u16 peer -> wf_epoch e -> len material = KEYBYTES ->
  install ks peer e material s = ((r, ks'), s') -> erases s s'.
Proof.
  intros Hlock Hi Hp He Hm Hx. pose proof (install_spec _ _ _ _ _ _ _ _ Hi Hp He Hm Hx) as (_ & _ & _ & Hr).
  destruct r as [[]|[b| |err]]; [|done| |].
  - destruct Hr as [_ Hf]. destruct (bt_get _ _); [|by apply erases_same].
    eexists [_]. split; [exact Hf|]. by repeat constructor.
  - destruct Hr as (_ & -> & _). by apply erases_same.
  - revert Hx. unfold install. destruct (_ && _); [done|]. unfold bind.
    destruct (stored_new material s) as [[k|e'] s1] eqn:Hn.
    { destruct (bt_get _ _); unfold ret; [|done]. by destruct (stored_drop _ _). }
    intros [= <- _ <-]. pose proof (stored_new_spec _ _ _ _ Hm Hn) as [_ [[_ Hf]|[-> _]]];
      [by apply erases_same|]. exfalso. revert Hn. unfold stored_new, bindr, bind.
    destruct (guarded_new KEYBYTES s) as [[ga|e2] s2] eqn:Hg; cycle 1.
    { revert Hg. unfold guarded_new. case_match; [by case_match|]. by intros [= <- _] [= ]. }
    destruct (write_slice ga material s2) as [[] s3]. pose proof (mlock_ok Hlock ga s3) as Ho.
    destruct (mlock ga s3) as [r4 s4]. simpl in Ho. by rewrite Ho.
Qed.

(** *** The exports that release nothing *)

Lemma init_freed s : freed (init s).2 = freed s.
Proof. unfold init. by destruct (sodium_init (inits s)) as [|[]|]. Qed.

Lemma dek_seal_freed ks to_id ch e payload s : freed (Dek.seal ks to_id ch e payload s).2 = freed s.
Proof.
  unfold Dek.seal. destruct (MAX_PAYLOAD <? len payload); [done|].
  unfold Standard.seal, gets. unfold bind at 1. unfold bind. unfold random_nonce, randombytes_fill.
  cbn [Z.eqb NPUBBYTES]. by destruct (seal_core _ _ _ _ _ _ _ _).
Qed.

Lemma suppress_freed env err st : freed (sys (suppress_core_dumps env err st).2) = freed (sys st).
Proof.
  unfold suppress_core_dumps. destruct (core_dumps_allowed_by_env env); [done|].
  unfold bind, on_sys, zoom.
  assert (freed (disable_core_dumps (sys st)).2 = freed (sys st)) as Hf
    by (unfold disable_core_dumps; by repeat case_match).
  destruct (disable_core_dumps (sys st)) as [[] s]; [done|].
  unfold warn_core_disable_failed. run. by destruct (CORE_WARN_EMITTED _).
Qed.

Lemma export_init_freed env err st : freed (sys (lunet_paxe_init env err st).2) = freed (sys st).
Proof.
  unfold lunet_paxe_init. unfold bind at 1. pose proof (suppress_freed env err st) as Hf.
  destruct (suppress_core_dumps env err st) as [[] st']. simpl in Hf. unfold bind at 1, on_sys, zoom.
  pose proof (init_freed (sys st')) as Hf2. destruct (init (sys st')) as [r s]. simpl in Hf2.
  rewrite <- Hf, <- Hf2. by repeat case_match.
Qed.

Lemma set_local_id_freed id st : freed (sys (lunet_paxe_set_local_id id st).2) = freed (sys st).
Proof.
  unfold lunet_paxe_set_local_id. destruct (check_u16 _ _); [|done]. run.
  destruct (STORE st); [done|]. unfold keystore_new. run.
  pose proof (init_freed (sys st)) as Hf. by destruct (init (sys st)) as [[|] s].
Qed.

Lemma export_seal_freed payload n to_id ch out cap ol st :
  freed (sys (lunet_paxe_seal payload n to_id ch out cap ol st).2) = freed (sys st).
Proof.
  unfold lunet_paxe_seal. destruct (check_u16 _ _) as [t|]; [|done].
  destruct (check_channel ch) as [c|]; [|done]. destruct (buf_in _ _ _) as [p|]; [|done].
  destruct ol; [|done]. destruct (buf_out _ _ _) as [o|]; [|done].
  destruct (MAX_PAYLOAD <? len p); [done|]. run. destruct (STORE st) as [ks|]; [|done].
  destruct (key_for_send_current ks t) as [[e k]|]; [|done].
  pose proof (dek_seal_freed ks t c e p (sys st)) as Hf.
  destruct (Dek.seal ks t c e p (sys st)) as [[frame|err] s]; [|done].
  by destruct (len o <? len frame).
Qed.

Lemma export_open_sys frame n ptrs cap st :
  sys (lunet_paxe_open frame n ptrs cap st).2 = sys st.
Proof.
  unfold lunet_paxe_open. destruct (buf_in _ _ _) as [fr|]; [|done].
  destruct (p_out_len ptrs), (p_from_id ptrs), (p_channel ptrs), (p_mode ptrs); try done.
  destruct (buf_out _ _ _) as [o|]; [|done]. run. destruct (STORE st) as [ks|]; [|done]. simpl.
  destruct (Dek.open _ _ _ _) as [[[[h f] plain]|e] w]; [by destruct (len o <? len plain)|].
  by destruct e.
Qed.

Lemma keystore_set_erases base peer epoch key key_len st :
  (forall i n, sodium_mlock i n = 0) -> 0 <= peer -> 0 <= epoch -> ffi_inv base st ->
  erases (sys st) (sys (lunet_paxe_keystore_set peer epoch key key_len st).2).
Proof.
  intros Hlock Hp He [Hst _ _]. unfold lunet_paxe_keystore_set.
  destruct (check_u16 peer _) as [p|m] eqn:Hcu; [|by apply erases_same].
  apply check_u16_ok in Hcu as [-> Hmax].
  destruct (check_epoch epoch) as [e|m] eqn:Hce; [|by apply erases_same].
  apply check_epoch_ok in Hce as [-> Hme]; [|done].
  destruct (buf_in key key_len "key") as [k|m]; [|by apply erases_same].
  destruct (Z.eqb_spec (len k) KEYBYTES) as [Hk|Hk]; cbn [negb]; [|by apply erases_same].
  run. destruct (STORE st) as [ks|]; [|by apply erases_same]. destruct Hst as [Hki _].
  destruct (install ks peer (MkEpoch epoch) k (sys st)) as [[r ks'] s] eqn:Hx.
  assert (erases (sys st) s).
  { eapply install_erases; [done|exact Hki| | |exact Hk|exact Hx];
      unfold is_u16, wf_epoch; simpl; lia. }
  by destruct r.
Qed.

(** One call of a session releases only zeroed memory. *)
Lemma exec_erases base c st :
  (forall i n, sodium_mlock i n = 0) -> wf_call c -> ffi_inv base st ->
  erases (sys st) (sys (exec c st).2).
Proof.
  intros Hlock Hc Hi. pose proof Hi as [Hst _ _]. destruct c; simpl in Hc; unfold exec.
  - apply erases_same, export_init_freed.
  - apply erases_same, set_local_id_freed.
  - unfold lunet_paxe_shutdown, shutdown_state, reset_log_once_memo, set_logged. run.
    destruct (STORE st) as [ks|]; [|by apply erases_same].
    destruct Hst as [Hki _]. destruct (keystore_drop_spec (sys st) ks Hki) as [_ Hf].
    destruct (keystore_drop ks (sys st)) as [[] s]. simpl in *. eexists. split; [exact Hf|].
    apply Forall_reverse, Forall_fmap. by apply Forall_true.
  - destruct Hc. by eapply keystore_set_erases.
  - unfold lunet_paxe_keystore_retire.
    destruct (check_u16 peer _) as [p|m]; [|by apply erases_same].
    destruct (check_epoch epoch) as [e|m]; [|by apply erases_same].
    run. destruct (STORE st) as [ks|]; [|by apply erases_same]. destruct Hst as [Hki _].
    destruct (retire ks p e (sys st)) as [[b ks'] s] eqn:Hx.
    destruct (retire_spec _ _ _ _ _ _ _ Hki Hx) as (_ & _ & _ & _ & _ & Hf).
    destruct (bt_get _ _); [|by apply erases_same].
    eexists [_]. split; [exact Hf|]. by repeat constructor.
  - unfold lunet_paxe_keystore_clear. run.
    destruct (STORE st) as [ks|]; [|by apply erases_same]. destruct Hst as [Hki _].
    destruct (clear ks (sys st)) as [ks' s] eqn:Hx.
    destruct (clear_spec _ _ _ _ Hki Hx) as (_ & _ & _ & _ & Hf).
    eexists. split; [exact Hf|]. apply Forall_reverse, Forall_fmap. by apply Forall_true.
  - pose proof (export_seal_freed payload payload_len to_id channel out out_cap out_len st) as Hf.
    unfold bind, ret. apply erases_same. by destruct (lunet_paxe_seal _ _ _ _ _ _ _ _) as [[[? ?] ?] ?].
  - pose proof (export_open_sys frame frame_len ptrs out_cap st) as Hf.
    unfold bind, ret. apply erases_same. destruct (lunet_paxe_open _ _ _ _ _) as [[? ?] ?].
    simpl in *. by rewrite Hf.
  - apply erases_same. unfold lunet_paxe_frame_for_us. destruct (buf_in _ _ _); [|done]. run.
    destruct (STORE st); [|done]. destruct (_ && _); [done|].
    simpl. by destruct (record_reject Plaintext _).
  - by apply erases_same.
  - apply erases_same. unfold lunet_paxe_fail_policy_set. destruct (buf_in _ _ _); [|done].
    destruct (from_utf8 _); [|done]. destruct (from_name _) as [p|]; [|done]. run.
    by destruct (set_policy p (tele st)).
  - by apply erases_same.
Qed.

Lemma exec_all_erases base calls st :
  (forall i n, sodium_mlock i n = 0) -> Forall wf_call calls -> ffi_inv base st ->
  erases (sys st) (sys (exec_all calls st).2).
Proof.
  intros Hlock Hc. revert st. induction Hc as [|c calls Hc _ IH]; intros st Hi; [by apply erases_same|].
  cbn [exec_all]. unfold bind, ret. pose proof (exec_erases base c st Hlock Hc Hi) as He.
  pose proof (exec_inv base c st Hc Hi) as H1.
  destruct (exec c st) as [rc st1]. specialize (IH st1 H1).
  destruct (exec_all calls st1). by eapply erases_trans.
Qed.

Lemma delivers_len s ks frame h f plain :
  ks_inv s ks -> delivers (local_id ks) (view s ks) frame h f plain ->
  len frame = len plain + match mode f with Standard => OVERHEAD | Dek => DEK_OVERHEAD end.
Proof.
  intros Hi [(key & nonce & Ha)|(key & en & dek & bn & Ha)].
  - rewrite (acc_mode _ _ _ _ _ _ _ _ Ha). by eapply accepts_payload_len.
  - rewrite (dacc_mode _ _ _ _ _ _ _ _ _ _ Ha).
    destruct (view_key _ _ _ _ Hi (dacc_key _ _ _ _ _ _ _ _ _ _ Ha)) as (_ & _ & _ & Hk).
    rewrite (dacc_frame _ _ _ _ _ _ _ _ _ _ Ha). apply fanout_frame_len; [done|apply Ha..].
Qed.

(** ** Claims *)

(** C14: receive accounting over any session: after any sequence of ABI calls on
    a freshly loaded module, in any order and with any bytes on the wire,
    [rx_total] is [rx_ok] plus the sum of the reject counters, cut off at
    [u64::MAX]; below that ceiling the equation the documentation states holds
    exactly. *)
Theorem rx_accounting calls s :
  Forall wf_call calls ->
  let st := (exec_all calls (fresh_module s)).2 in
  wf_stats (STATS (tele st)) /\ rx_balanced (STATS (tele st)) /\
  (rx_total (STATS (tele st)) < U64_MAX ->
   rx_total (STATS (tele st)) = rx_ok (STATS (tele st)) + reject_sum (STATS (tele st))).
Proof.
  intros Hc st. destruct (exec_all_inv (heap s) calls _ Hc (fresh_inv s)) as [_ Hw Hb].
  split; [done|]. split; [done|]. by apply rx_balanced_unsaturated.
Qed.

(** C10: key memory over any session: whatever calls a script makes, the guarded
    memory outside the keystore is never touched; after [shutdown] nothing the
    session allocated is left; and where page locking works, every region handed
    to [sodium_free] in the whole session had been zeroed before. *)
Theorem session_releases_and_erases calls s :
  Forall wf_call calls ->
  let st := (exec_all calls (fresh_module s)).2 in
  let st' := (lunet_paxe_shutdown st).2 in
  heap (sys st') = heap s /\ STORE st' = None /\
  match STORE st with
  | Some ks => ks_inv (sys st) ks /\ outside (sys st) ks = heap s
  | None => heap (sys st) = heap s
  end /\
  ((forall i n, sodium_mlock i n = 0) -> erases s (sys st')).
Proof.
  intros Hc st st'. pose proof (exec_all_inv (heap s) calls _ Hc (fresh_inv s)) as Hi. fold st in Hi.
  pose proof (shutdown_inv _ _ Hi) as Hi'. fold lunet_paxe_shutdown in Hi'. fold st' in Hi'.
  assert (STORE st' = None) as Hnone.
  { unfold st', lunet_paxe_shutdown, shutdown_state. run.
    destruct (STORE st) as [ks|]; [|done]. by destruct (keystore_drop ks (sys st)). }
  destruct Hi' as [Hs' _ _]. rewrite Hnone in Hs'. split; [done|]. split; [done|].
  split; [apply Hi|]. intros Hlock. eapply erases_trans.
  - exact (exec_all_erases (heap s) calls (fresh_module s) Hlock Hc (fresh_inv s)).
  - fold st. pose proof (exec_erases (heap s) CShutdown st Hlock I Hi) as He.
    unfold exec, bind, ret in He. unfold st'. by destruct (lunet_paxe_shutdown st).
Qed.

(** [open] at the ABI: on a configured module, with the out-pointers set and
    an output buffer as large as the frame, the call returns [RC_OK] exactly
    when the frame is deliverable, and then the payload, its length, the
    authenticated source, the channel and the mode are behind the pointers and
    only [rx_total] and [rx_ok] moved; otherwise it returns [RC_DROP], writes
    nothing behind any pointer, leaves the last-error buffer as it was, and
    moves [rx_total] and the one reason counter. *)
Theorem ffi_open_exact base st ks mem n out ol fi ch md cap :
  ffi_inv base st -> STORE st = Some ks -> Forall is_u8 mem ->
  0 < n -> n = len mem -> n <= cap -> len out = cap ->
  let ptrs := MkPtrs (Some out) (Some ol) (Some fi) (Some ch) (Some md) in
  let '((rc, ptrs'), st') := lunet_paxe_open (Some mem) n ptrs cap st in
  LAST_ERROR st' = LAST_ERROR st /\ STORE st' = STORE st /\ sys st' = sys st /\
  ((exists h f plain, delivers (local_id ks) (view (sys st) ks) mem h f plain /\ rc = RC_OK /\
      ptrs' = MkPtrs (Some (plain ++ drop (length plain) out)) (Some (len plain)) (Some (from_id h))
                (Some (channel h)) (Some (match mode f with Standard => 0 | Dek => 1 end)) /\
      tele st' = (record_rx_ok (tele st)).2) \/
   ((forall h f plain, ~ delivers (local_id ks) (view (sys st) ks) mem h f plain) /\
      rc = RC_DROP /\ ptrs' = ptrs /\
      STATS (tele st') =
        drop_stats (count_reject (open_reason (local_id ks) (view (sys st) ks) mem) (STATS (tele st))))).
Proof.
  intros Hi Hs Hu Hn Hlen Hcap Hout. pose proof Hi as [Hst _ _]. rewrite Hs in Hst.
  destruct Hst as [Hki _]. unfold lunet_paxe_open, buf_in, buf_out.
  rewrite (proj2 (Z.eqb_neq n 0)), (proj2 (Z.eqb_neq cap 0)) by lia. cbn [p_out p_out_len p_from_id p_channel p_mode].
  rewrite !take_ge by (unfold len in *; lia). run. rewrite Hs. simpl.
  destruct (dispatch_cases (sys st) ks mem (tele st) Hki Hu)
    as [(h & f & plain & Hd & ->)|(Hnot & e & He & ->)].
  - pose proof (delivers_len _ _ _ _ _ _ Hki Hd) as Hl.
    assert (len plain <= len out) as Hfit.
    { rewrite Hout. destruct (mode f); geometry; lia. }
    rewrite (proj2 (Z.ltb_ge _ _)) by done. split_and!; try done. left. exists h, f, plain.
    split_and!; try done. unfold copy_out. simpl. by rewrite write_front_fits.
  - set (r := open_reason _ _ _). pose proof (record_reject_stats r (tele st)) as Hw.
    destruct (record_reject r (tele st)) as [[] w]. simpl in Hw.
    destruct e; try (exfalso; by eapply He); (split_and!; try done; right; split_and!; try done);
      simpl; by rewrite Hw.
Qed.

Lemma newest_is_current s ks peer e :
  ks_inv s ks -> is_Some (view s ks !! (peer, e)) ->
  (forall e', is_Some (view s ks !! (peer, e')) -> bits e' <= bits e) ->
  exists k, key_for_send_current ks peer = Some (e, k).
Proof.
  intros Hi Hk Hmax. pose proof (send_current_spec s ks peer Hi) as Hx.
  destruct (key_for_send_current ks peer) as [[e1 k1]|].
  - destruct Hx as (H1 & _ & H2). exists k1. assert (bits e <= bits e1) by eauto.
    assert (bits e1 <= bits e) by eauto. destruct e, e1; do 3 f_equal; simpl in *; lia.
  - rewrite Hx in Hk. by destruct Hk.
Qed.

(** A buffer passed with its own length. *)
Lemma buf_in_all mem what : buf_in (Some mem) (len mem) what = Ok mem.
Proof.
  unfold buf_in. destruct (Z.eqb_spec (len mem) 0) as [H0|_]; [by apply len_0_inv in H0 as ->|].
  by rewrite to_nat_len, take_ge.
Qed.

(** C2: end to end across two processes: node A seals a payload for node B
    through its C ABI and node B opens those bytes through its own; if A's
    newest epoch for B is one B shares with A, B gets [RC_OK], the payload, its
    length, A's id as authenticated source, the channel and mode 0, whatever
    either process did before. *)
Theorem ffi_end_to_end baseA baseB stA A stB B e key payload ch outA capA ol outB capB l0 f0 c0 m0 :
  ffi_inv baseA stA -> STORE stA = Some A -> ffi_inv baseB stB -> STORE stB = Some B ->
  view (sys stA) A !! (local_id B, e) = Some key ->
  (forall e', is_Some (view (sys stA) A !! (local_id B, e')) -> bits e' <= bits e) ->
  view (sys stB) B !! (local_id A, e) = Some key ->
  Forall is_u8 payload -> len payload <= MAX_PAYLOAD -> is_u32 ch -> ~ (1 <= ch <= 99) ->
  len outA = capA -> len payload + 37 <= capA -> len outB = capB -> len payload + 37 <= capB ->
  exists memA stA' stB',
    lunet_paxe_seal (Some payload) (len payload) (local_id B) ch (Some outA) capA (Some ol) stA =
      ((RC_OK, Some memA, Some (len payload + 37)), stA') /\
    lunet_paxe_open (Some (take (Z.to_nat (len payload + 37)) memA)) (len payload + 37)
      (MkPtrs (Some outB) (Some l0) (Some f0) (Some c0) (Some m0)) capB stB =
      ((RC_OK, MkPtrs (Some (payload ++ drop (length payload) outB)) (Some (len payload))
                 (Some (local_id A)) (Some ch) (Some 0)), stB').
Proof.
  intros HA HsA HB HsB HkA Hmax HkB Hu Hl Hc32 Hc HoA HcA HoB HcB.
  destruct HA as [HstA _ _], HB as [HstB _ _]. rewrite HsA in HstA. rewrite HsB in HstB.
  destruct HstA as [HiA _], HstB as [HiB _]. pose proof (len_nonneg payload) as Hl0.
  pose proof (inv_local _ _ HiB) as [_ HidB].
  destruct (dek_seal_run (sys stA) A (local_id B) ch e payload key HiA Hl HkA)
    as (nonce & s' & _ & Hn & Hh & Hseal).
  destruct (view_key _ _ _ _ HiA HkA) as (stored & Hg & _ & Hlen).
  set (frame := standard_frame key (MkHeader (local_id A) (local_id B) ch) (MkFlags Standard e)
    nonce payload) in *.
  assert (len frame = len payload + 37) as Hfl by (by apply standard_frame_len).
  assert (exists k, key_for_send_current A (local_id B) = Some (e, k)) as [k Hcur]
    by (by eapply newest_is_current).
  eexists (frame ++ drop (length frame) outA), _, _. split.
  - unfold lunet_paxe_seal. rewrite (proj2 (check_u16_ok _ _ (local_id B))) by done.
    rewrite (proj2 (check_channel_ok _ ch)) by done. rewrite buf_in_all. unfold buf_out.
    rewrite (proj2 (Z.eqb_neq capA 0)), (proj2 (Z.ltb_ge _ _)), take_ge by (unfold len in *; lia).
    run. rewrite HsA, Hcur, Hseal, (proj2 (Z.ltb_ge _ _)) by lia.
    unfold copy_out. simpl. rewrite write_front_fits, Hfl by lia. done.
  - rewrite <- Hfl, to_nat_len, take_app_length. unfold lunet_paxe_open. rewrite buf_in_all.
    cbn [p_out p_out_len p_from_id p_channel p_mode]. unfold buf_out.
    rewrite (proj2 (Z.eqb_neq capB 0)), take_ge by (unfold len in *; lia).
    run. rewrite HsB. simpl.
    rewrite (open_delivers (sys stB) B frame (MkHeader (local_id A) (local_id B) ch)
      (MkFlags Standard e) payload); [|done|].
    + rewrite (proj2 (Z.ltb_ge _ _)) by lia. simpl. by rewrite write_front_fits by lia.
    + left. exists key, nonce. split; try done.
      * split_and!; simpl; [apply HiA|apply HiB|done].
      * by destruct (ks_inv_key _ _ _ _ HiA Hg) as (_ & _ & ?).
Qed.

(** ** The last-error buffer *)

Definition is_error (rc : Z) : bool := (rc =? RC_ERR) || (rc =? RC_INVAL).

(** What a call may do to the last-error buffer, by its return code. *)
Definition error_contract (st : FfiState) (r : Z * FfiState) : Prop :=
  if is_error r.1 then LAST_ERROR r.2 <> "" else LAST_ERROR r.2 = LAST_ERROR st.

Lemma fail_contract st st0 msg : msg <> "" -> error_contract st (fail msg st0).
Proof. done. Qed.

Lemma invalid_contract st st0 msg : msg <> "" -> error_contract st (invalid msg st0).
Proof. done. Qed.

Lemma check_u16_message v what m : what <> "" -> check_u16 v what = Err m -> m <> "".
Proof.
  unfold check_u16, u16_try_from. intros Hw. destruct (v <=? U16_MAX); simpl; [done|].
  intros [= <-]. by destruct what.
Qed.

Lemma check_epoch_message v m : check_epoch v = Err m -> m <> "".
Proof.
  unfold check_epoch, u8_try_from, epoch_new. destruct (v <=? U8_MAX); simpl; [|by intros [= <-]].
  destruct (MAX_EPOCH <? v); simpl; [by intros [= <-]|done].
Qed.

Lemma check_channel_message v m : check_channel v = Err m -> m <> "".
Proof. unfold check_channel. destruct (_ && _); [by intros [= <-]|done]. Qed.

Lemma buf_in_message ptr n what m : buf_in ptr n what = Err m -> m <> "".
Proof.
  unfold buf_in. destruct (n =? 0); [done|]. destruct ptr; [done|]. intros [= <-]. by destruct what.
Qed.

Lemma buf_out_message ptr n what m : buf_out ptr n what = Err m -> m <> "".
Proof.
  unfold buf_out. destruct (n =? 0); [done|]. destruct ptr; [done|]. intros [= <-]. by destruct what.
Qed.

(** A rejected argument has a message. *)
Ltac bad_arg :=
  apply invalid_contract;
  first [ eapply check_u16_message; [|eassumption]; done
        | eapply check_epoch_message; eassumption
        | eapply check_channel_message; eassumption
        | eapply buf_in_message; eassumption
        | eapply buf_out_message; eassumption ].

Lemma init_contract env err st : error_contract st (lunet_paxe_init env err st).
Proof.
  unfold lunet_paxe_init. unfold bind at 1.
  assert (LAST_ERROR (suppress_core_dumps env err st).2 = LAST_ERROR st) as He.
  { unfold suppress_core_dumps. destruct (core_dumps_allowed_by_env env); [done|].
    unfold bind, on_sys, zoom. destruct (disable_core_dumps (sys st)) as [[] s]; [done|].
    unfold warn_core_disable_failed. run. by destruct (CORE_WARN_EMITTED _). }
  destruct (suppress_core_dumps env err st) as [[] st']. simpl in He. unfold bind at 1, on_sys, zoom.
  destruct (init (sys st')) as [r s]. destruct r as [a|e]; [|done].
  destruct check_sizes; [|done]. destruct require_aes_gcm; [|done]. exact He.
Qed.

Lemma keys_contract peer epoch key n st :
  error_contract st (lunet_paxe_keystore_set peer epoch key n st) /\
  error_contract st (lunet_paxe_keystore_retire peer epoch st) /\
  error_contract st (lunet_paxe_keystore_clear st).
Proof.
  unfold lunet_paxe_keystore_set, lunet_paxe_keystore_retire, lunet_paxe_keystore_clear.
  destruct (check_u16 peer _) as [p|m] eqn:H1; cycle 1.
  { split_and!; [bad_arg..|]. run.
    destruct (STORE st) as [ks|]; [|done]. by destruct (clear ks (sys st)). }
  destruct (check_epoch epoch) as [e|m] eqn:H2; cycle 1.
  { split_and!; [bad_arg..|]. run.
    destruct (STORE st) as [ks|]; [|done]. by destruct (clear ks (sys st)). }
  split_and!.
  - destruct (buf_in key n _) as [k|m] eqn:H3; [|bad_arg].
    destruct (negb _); [done|]. run. destruct (STORE st) as [ks|]; [|done].
    by destruct (install ks p e k (sys st)) as [[[] ?] ?].
  - run. destruct (STORE st) as [ks|]; [|done]. by destruct (retire ks p e (sys st)) as [[[] ?] ?].
  - run. destruct (STORE st) as [ks|]; [|done]. by destruct (clear ks (sys st)).
Qed.

Lemma seal_contract payload n to_id ch out cap ol st :
  error_contract st (let '((rc, _, _), st') := lunet_paxe_seal payload n to_id ch out cap ol st in (rc, st')).
Proof.
  unfold lunet_paxe_seal.
  destruct (check_u16 to_id _) as [t|m] eqn:H1; [|bad_arg].
  destruct (check_channel ch) as [c|m] eqn:H2; [|bad_arg].
  destruct (buf_in payload n _) as [p|m] eqn:H3; [|bad_arg].
  destruct ol; [|done].
  destruct (buf_out out cap _) as [o|m] eqn:H4; [|bad_arg].
  destruct (MAX_PAYLOAD <? len p); [done|]. run. destruct (STORE st) as [ks|]; [|done].
  destruct (key_for_send_current ks t) as [[e k]|]; [|done].
  destruct (Dek.seal ks t c e p (sys st)) as [[frame|err] s]; [|done].
  by destruct (len o <? len frame).
Qed.

Lemma open_contract frame n ptrs cap st :
  error_contract st (let '((rc, _), st') := lunet_paxe_open frame n ptrs cap st in (rc, st')).
Proof.
  unfold lunet_paxe_open.
  destruct (buf_in frame n _) as [fr|m] eqn:H1; [|bad_arg].
  destruct (p_out_len ptrs), (p_from_id ptrs), (p_channel ptrs), (p_mode ptrs); try done.
  destruct (buf_out _ _ _) as [o|m] eqn:H2; [|bad_arg].
  run. destruct (STORE st) as [ks|]; [|done]. simpl.
  destruct (Dek.open _ _ _ _) as [[[[h f] plain]|e] w]; [by destruct (len o <? len plain)|].
  by destruct e.
Qed.

Lemma rest_contract frame n name k id st :
  error_contract st (lunet_paxe_frame_for_us frame n st) /\
  error_contract st (lunet_paxe_fail_policy_set name k st) /\
  error_contract st (lunet_paxe_set_local_id id st).
Proof.
  split_and!.
  - unfold lunet_paxe_frame_for_us.
    destruct (buf_in frame n _) as [fr|m] eqn:H1; [|bad_arg].
    run. destruct (STORE st) as [ks|]; [|done]. destruct (_ && _); [done|].
    simpl. by destruct (record_reject Plaintext _).
  - unfold lunet_paxe_fail_policy_set.
    destruct (buf_in name k _) as [nm|m] eqn:H1; [|bad_arg].
    destruct (from_utf8 _); [|done]. destruct (from_name _) as [p|]; [|done]. run.
    by destruct (set_policy p (tele st)).
  - unfold lunet_paxe_set_local_id.
    destruct (check_u16 id _) as [v|m] eqn:H1; [|bad_arg].
    run. destruct (STORE st) as [ks|]; [done|]. unfold keystore_new. run.
    by destruct (init (sys st)) as [[|] ?].
Qed.

(** the diagnostic contract of the whole ABI: every call that reports an
    operational failure or a malformed argument leaves a non-empty message;
    every other call, and in particular every dropped frame, leaves the
    last-error buffer exactly as it was, except [shutdown], which clears it. *)
Theorem last_error_contract c st :
  let '(rc, st') := exec c st in
  if is_error rc then LAST_ERROR st' <> ""
  else match c with CShutdown => LAST_ERROR st' = "" | _ => LAST_ERROR st' = LAST_ERROR st end.
Proof.
  assert (Hc : c <> CShutdown -> error_contract st (exec c st)).
  { intros Hne. destruct c; unfold exec.
    - apply init_contract.
    - apply (rest_contract None 0 None 0).
    - done.
    - apply keys_contract.
    - apply (keys_contract peer epoch None 0).
    - apply (keys_contract 0 0 None 0).
    - pose proof (seal_contract payload payload_len to_id channel out out_cap out_len st) as Hx.
      unfold bind, ret. by destruct (lunet_paxe_seal _ _ _ _ _ _ _ _) as [[[? ?] ?] ?].
    - pose proof (open_contract frame frame_len ptrs out_cap st) as Hx.
      unfold bind, ret. by destruct (lunet_paxe_open _ _ _ _ _) as [[? ?] ?].
    - apply (rest_contract frame frame_len None 0 0).
    - done.
    - apply (rest_contract None 0 name name_len 0).
    - done. }
  destruct (exec c st) as [rc st'] eqn:E. unfold error_contract in Hc. simpl in Hc.
  destruct c; try (specialize (Hc ltac:(done)); by destruct (is_error rc)).
  revert E. unfold exec, lunet_paxe_shutdown, shutdown_state, reset_log_once_memo, set_logged. run.
  destruct (STORE st) as [ks|]; [|by intros [= <- <-]].
  destruct (keystore_drop ks (sys st)) as [[] s]. by intros [= <- <-].
Qed.

(** ** Counter steps *)

(** The events a call can account for: at most one. *)
Inductive stats_step (s : Stats) : Stats -> Prop :=
| step_none : stats_step s s
| step_rx_ok w : STATS w = s -> stats_step s (STATS (record_rx_ok w).2)
| step_rx_drop r : stats_step s (drop_stats (count_reject r s))
| step_tx_sealed m w : STATS w = s -> stats_step s (STATS (record_tx_sealed m w).2)
| step_tx_oversize w : STATS w = s -> stats_step s (STATS (record_tx_oversize w).2).

Definition stats_le (a b : Stats) : Prop := Forall2 Z.le (fields a) (fields b).

Global Instance stats_le_preorder : PreOrder stats_le.
Proof.
  split; unfold stats_le.
  - intros a. induction (fields a); by constructor.
  - intros a b c. generalize (fields a), (fields b), (fields c). intros x y z Hxy.
    revert z. induction Hxy; intros z Hyz; inversion Hyz; subst; constructor; [lia|auto].
Qed.

Lemma sat_le c : is_u64 c -> c <= saturating_add c 1.
Proof. unfold saturating_add. width. Qed.

Lemma stats_step_le s s' : wf_stats s -> stats_step s s' -> stats_le s s'.
Proof.
  intros Hw Hs. destruct Hs as [|w <-|r|m w <-|w <-]; [reflexivity|..];
    destruct Hw as (Hl & Hr & ? & ? & ? & ? & ? & ?); unfold stats_le, fields.
  - repeat (apply Forall2_cons; split); try done; by apply sat_le.
  - assert (Hcnt : forall r', reject s r' <= reject (drop_stats (count_reject r s)) r').
    { intros r'. change (reject (drop_stats (count_reject r s)) r') with (reject (count_reject r s) r').
      rewrite count_reject_reject by (by split_and!). case_decide as Hd; [subst r'|done].
      apply sat_le. unfold reject. destruct (rx_rejects s !! index r) eqn:E; [|unfold default; width].
      rewrite Forall_forall in Hr. apply Hr. by eapply list_elem_of_lookup_2. }
    repeat (apply Forall2_cons; split); try done; try apply Hcnt; by apply sat_le.
  - destruct m; repeat (apply Forall2_cons; split); try done; by apply sat_le.
  - repeat (apply Forall2_cons; split); try done; by apply sat_le.
Qed.

Lemma init_stats env err st : STATS (tele (lunet_paxe_init env err st).2) = STATS (tele st).
Proof.
  unfold lunet_paxe_init. unfold bind at 1.
  assert (STATS (tele (suppress_core_dumps env err st).2) = STATS (tele st)) as He.
  { unfold suppress_core_dumps. destruct (core_dumps_allowed_by_env env); [done|].
    unfold bind, on_sys, zoom. destruct (disable_core_dumps (sys st)) as [[] s]; [done|].
    unfold warn_core_disable_failed. run. by destruct (CORE_WARN_EMITTED _). }
  destruct (suppress_core_dumps env err st) as [[] st']. simpl in He. unfold bind at 1, on_sys, zoom.
  destruct (init (sys st')) as [r s]. destruct r as [a|e]; [|done].
  destruct check_sizes; [|done]. by destruct require_aes_gcm.
Qed.

Lemma keys_tele peer epoch key n id st :
  tele (lunet_paxe_keystore_set peer epoch key n st).2 = tele st /\
  tele (lunet_paxe_keystore_retire peer epoch st).2 = tele st /\
  tele (lunet_paxe_keystore_clear st).2 = tele st /\
  tele (lunet_paxe_set_local_id id st).2 = tele st.
Proof.
  unfold lunet_paxe_keystore_set, lunet_paxe_keystore_retire, lunet_paxe_keystore_clear,
    lunet_paxe_set_local_id. run. split_and!.
  - destruct (check_u16 peer _); [|done]. destruct (check_epoch epoch); [|done].
    destruct (buf_in _ _ _); [|done]. destruct (negb _); [done|]. destruct (STORE st); [|done].
    by destruct (install _ _ _ _ _) as [[[] ?] ?].
  - destruct (check_u16 peer _); [|done]. destruct (check_epoch epoch); [|done].
    destruct (STORE st); [|done]. by destruct (retire _ _ _ _) as [[[] ?] ?].
  - destruct (STORE st); [|done]. by destruct (clear _ _).
  - destruct (check_u16 id _); [|done]. destruct (STORE st); [done|].
    by destruct (keystore_new _ _) as [[] ?].
Qed.

Lemma seal_step payload n to_id ch out cap ol st :
  stats_step (STATS (tele st)) (STATS (tele (lunet_paxe_seal payload n to_id ch out cap ol st).2)).
Proof.
  unfold lunet_paxe_seal. destruct (check_u16 to_id _) as [t|m]; [|constructor].
  destruct (check_channel ch) as [c|m]; [|constructor].
  destruct (buf_in payload n _) as [p|m]; [|constructor]. destruct ol; [|constructor].
  destruct (buf_out out cap _) as [o|m]; [|constructor].
  destruct (MAX_PAYLOAD <? len p); [by apply (step_tx_oversize _ (tele st))|]. run.
  destruct (STORE st) as [ks|]; [|constructor].
  destruct (key_for_send_current ks t) as [[e k]|]; [|constructor].
  destruct (Dek.seal ks t c e p (sys st)) as [[frame|err] s]; [|constructor].
  destruct (len o <? len frame); [constructor|]. by apply (step_tx_sealed _ Standard (tele st)).
Qed.

Lemma open_step base frame n ptrs cap st :
  match frame with Some mem => Forall is_u8 mem | None => True end -> ffi_inv base st ->
  stats_step (STATS (tele st)) (STATS (tele (lunet_paxe_open frame n ptrs cap st).2)).
Proof.
  intros Hu Hi. unfold lunet_paxe_open.
  destruct (buf_in frame n "frame") as [fr|m] eqn:Hb; [|constructor]. apply buf_in_u8 in Hb; [|done].
  destruct (p_out_len ptrs), (p_from_id ptrs), (p_channel ptrs), (p_mode ptrs); try constructor.
  destruct (buf_out _ _ _) as [o|m]; [|constructor].
  run. destruct (STORE st) as [ks|] eqn:Hs; [|constructor]. simpl.
  destruct Hi as [Hst _ _]. rewrite Hs in Hst. destruct Hst as [Hki _].
  destruct (dispatch_cases (sys st) ks fr (tele st) Hki Hb)
    as [(h & f & plain & _ & ->)|(_ & e & He & ->)].
  - destruct (len o <? len plain); [constructor|]. by apply (step_rx_ok _ (tele st)).
  - set (r := open_reason _ _ _). pose proof (record_reject_stats r (tele st)) as Hw.
    destruct (record_reject r (tele st)) as [[] w]. simpl in Hw.
    pose proof (step_rx_drop (STATS (tele st)) r) as Hx. rewrite <- Hw in Hx.
    destruct e; try (exfalso; by eapply He); exact Hx.
Qed.

Lemma exec_stats_step base c st :
  wf_call c -> ffi_inv base st -> stats_step (STATS (tele st)) (STATS (tele (exec c st).2)).
Proof.
  intros Hc Hi. destruct c; simpl in Hc; unfold exec.
  - rewrite init_stats. constructor.
  - destruct (keys_tele 0 0 None 0 node_id st) as (_ & _ & _ & ->). constructor.
  - unfold lunet_paxe_shutdown, shutdown_state, reset_log_once_memo, set_logged. run.
    destruct (STORE st) as [ks|]; [|constructor]. destruct (keystore_drop ks (sys st)). constructor.
  - destruct (keys_tele peer epoch key key_len 0 st) as (-> & _). constructor.
  - destruct (keys_tele peer epoch None 0 0 st) as (_ & -> & _). constructor.
  - destruct (keys_tele 0 0 None 0 0 st) as (_ & _ & -> & _). constructor.
  - pose proof (seal_step payload payload_len to_id channel out out_cap out_len st) as Hx.
    unfold bind, ret. by destruct (lunet_paxe_seal _ _ _ _ _ _ _ _) as [[[? ?] ?] ?].
  - pose proof (open_step base frame frame_len ptrs out_cap st Hc Hi) as Hx.
    unfold bind, ret. by destruct (lunet_paxe_open _ _ _ _ _) as [[? ?] ?].
  - unfold lunet_paxe_frame_for_us. destruct (buf_in _ _ _); [|constructor]. run.
    destruct (STORE st); [|constructor]. destruct (_ && _); [constructor|]. simpl.
    set (w1 := MkStatsState _ _ _ _). pose proof (record_reject_stats Plaintext w1) as Hw.
    destruct (record_reject Plaintext w1) as [[] w2]. simpl in Hw |- *. rewrite Hw.
    apply (step_rx_drop (STATS (tele st)) Plaintext).
  - constructor.
  - unfold lunet_paxe_fail_policy_set. destruct (buf_in _ _ _); [|constructor].
    destruct (from_utf8 _); [|constructor]. destruct (from_name _) as [p|]; [|constructor].
    unfold set_policy, reset_log_once_memo, set_logged. run.
    destruct (decide (p = LogOnce)); constructor.
  - constructor.
Qed.

(** C31: counters only grow: along any session no counter of the snapshot ever
    decreases, across rotation, reconfiguration and shutdown, so deltas
    between two snapshots are never negative. *)
Theorem counters_monotone before after s :
  Forall wf_call (before ++ after) ->
  let st1 := (exec_all before (fresh_module s)).2 in
  let st2 := (exec_all after st1).2 in
  stats_le (STATS (tele st1)) (STATS (tele st2)).
Proof.
  intros Hc st1 st2. apply Forall_app in Hc as [Hb Ha].
  pose proof (exec_all_inv (heap s) before _ Hb (fresh_inv s)) as Hi. fold st1 in Hi.
  unfold st2. clearbody st1. revert st1 st2 Hi.
  induction Ha as [|c calls Hc _ IH]; intros st1 st2 Hi; [reflexivity|].
  cbn [exec_all]. unfold bind, ret. pose proof (exec_inv _ c st1 Hc Hi) as Hi1.
  pose proof (exec_stats_step _ c st1 Hc Hi) as Hstep.
  destruct (exec c st1) as [rc st3]. specialize (IH st3 Hi1). simpl in Hstep, IH.
  destruct (exec_all calls st3) as [rcs st4]. etransitivity; [|exact IH].
  apply stats_step_le; [apply Hi|done].
Qed.

(** The destination field of a frame of this protocol. *)
Lemma prefix_to_id h f rest :
  get_range (serialize_prefix h f ++ rest) 2 4 = Some (to_be_bytes 2 (to_id h)).
Proof.
  unfold serialize_prefix, to_bytes. rewrite <- !app_assoc.
  by apply get_range_app; rewrite !len_to_be_bytes.
Qed.

Lemma delivers_prefix s ks frame h f plain :
  delivers (local_id ks) (view s ks) frame h f plain ->
  to_id h = local_id ks /\ wf_header h /\ exists rest, frame = serialize_prefix h f ++ rest.
Proof.
  intros [(key & nonce & A)|(key & en & dek & bn & A)]; destruct A; split_and!; try done; eexists; eassumption.
Qed.

(** The gate's test, read as a property of the datagram. *)
Lemma gate_test mem me :
  (PREFIX_LEN <=? len mem) &&
  (match get_range mem 2 4 with
   | Some t => match try_into_array 2 t with Some t => from_be_bytes t | None => 0 end
   | None => 0
   end =? me) = true <->
  PREFIX_LEN <= len mem /\ exists t, get_range mem 2 4 = Some t /\ from_be_bytes t = me.
Proof.
  rewrite andb_true_iff, Z.leb_le, Z.eqb_eq. split; intros [Hl Hx]; (split; [done|]).
  - destruct (get_range mem 2 4) as [t|] eqn:Ht.
    + exists t. rewrite try_into_array_id in Hx; [done|]. apply get_range_len in Ht; [done|lia].
    + exfalso. revert Ht. unfold get_range. unfold PREFIX_LEN in Hl.
      by rewrite (proj2 (Z.leb_le 4 (len mem))) by lia.
  - destruct Hx as (t & Ht & <-). rewrite Ht, try_into_array_id; [done|].
    apply get_range_len in Ht; [done|lia].
Qed.

(** C26: the plaintext gate agrees with the receiver: on a configured module
    [frame_for_us] answers 1 exactly when the datagram has the nine prefix bytes
    and its destination field is this node; it then counts nothing, and every
    frame [open] would deliver passes.  Otherwise it answers 0 and the datagram
    is counted once, as plaintext. *)
Theorem gate_agrees_with_open base st ks mem :
  ffi_inv base st -> STORE st = Some ks ->
  let '(v, st') := lunet_paxe_frame_for_us (Some mem) (len mem) st in
  (v = 1 <-> PREFIX_LEN <= len mem /\ exists t, get_range mem 2 4 = Some t /\ from_be_bytes t = local_id ks) /\
  (v = 1 -> st' = st) /\
  (v <> 1 -> v = 0 /\ STATS (tele st') = drop_stats (count_reject Plaintext (STATS (tele st)))) /\
  (forall h f plain, delivers (local_id ks) (view (sys st) ks) mem h f plain -> v = 1).
Proof.
  intros Hi Hs. unfold lunet_paxe_frame_for_us. rewrite buf_in_all. run. rewrite Hs.
  pose proof (gate_test mem (local_id ks)) as Hg. cbv zeta. destruct (_ && _).
  - apply proj1 in Hg. specialize (Hg eq_refl). split_and!; try done.
  - assert (Hno : ~ (PREFIX_LEN <= len mem /\ exists t, get_range mem 2 4 = Some t /\
      from_be_bytes t = local_id ks)) by (by intros ?%Hg).
    simpl. set (w1 := MkStatsState _ _ _ _). pose proof (record_reject_stats Plaintext w1) as Hw.
    destruct (record_reject Plaintext w1) as [[] w2]. simpl in Hw |- *.
    split_and!; [by split; [|intros ?%Hno]|done|intros _; split; [done|exact Hw]|].
    intros h f plain Hd. exfalso. apply Hno.
    destruct (delivers_prefix _ _ _ _ _ _ Hd) as (Ht & (_ & Hu & _) & rest & ->). split.
    + rewrite len_app, serialize_prefix_len. pose proof (len_nonneg rest). lia.
    + eexists. split; [apply prefix_to_id|]. rewrite from_to_be_bytes; [done|lia|width].
Qed.

(** identity is set once: on a configured module every further
    [set_local_id] is [RC_INVAL] and changes nothing but the message, so no
    installed key is lost; on an unconfigured one an id above 65535 is refused
    the same way, and otherwise the call creates an empty keystore for that id
    exactly when libsodium initialises. *)
Theorem set_local_id_once id st :
  0 <= id ->
  let '(rc, st') := lunet_paxe_set_local_id id st in
  if decide (id > U16_MAX \/ is_Some (STORE st)) then rc = RC_INVAL /\ exists m, st' = set_LAST_ERROR m st
  else if is_ok (init (sys st)).1
       then rc = RC_OK /\ STORE st' = Some (MkKeyStore id bt_empty) /\ LAST_ERROR st' = LAST_ERROR st
       else rc = RC_ERR /\ STORE st' = None.
Proof.
  intros Hid. unfold lunet_paxe_set_local_id.
  destruct (check_u16 id _) as [v|m] eqn:Hc; cycle 1.
  { run. rewrite decide_True; [split; [done|]; by eexists|]. left.
    destruct (Z.le_gt_cases id U16_MAX) as [Hle|]; [|lia].
    by rewrite (proj2 (check_u16_ok _ _ id)) in Hc. }
  apply check_u16_ok in Hc as [-> Hmax]. run. destruct (STORE st) as [ks|] eqn:Hs.
  { rewrite decide_True by eauto. split; [done|]. by eexists. }
  unfold keystore_new. run. destruct (init (sys st)) as [[|] s];
    by rewrite decide_False by (intros [?|[? ?]]; [lia|done]).
Qed.

(** system channels are out of reach of the application API: sealing on a
    channel from 1 to 99 is [RC_INVAL] before any key, counter or buffer is
    touched. *)
Theorem reserved_channel_refused payload n to_id ch out cap ol st :
  1 <= ch <= 99 ->
  exists m, lunet_paxe_seal payload n to_id ch out cap ol st =
    ((RC_INVAL, out, ol), set_LAST_ERROR m st).
Proof.
  intros Hc. unfold lunet_paxe_seal. destruct (check_u16 to_id _) as [t|m]; [|by eexists].
  destruct (check_channel ch) as [c|m] eqn:Hch; [|by eexists].
  apply check_channel_ok in Hch as [_ Hn]. lia.
Qed.

End Sessions.

(** ** Witnesses and concrete sessions *)

(** Node 200 comes up, installs the key it shares with node 100, receives the
    good frame, a tampered one and a stray datagram, rotates and shuts down. *)
Definition demo_ptrs (cap : Z) : OpenPtrs :=
  MkPtrs (Some (zeros cap)) (Some 0) (Some 0) (Some 0) (Some 0).

Definition demo_session : list Call :=
  [CInit None ""; CSetLocalId 200; CKeystoreSet 100 5 (Some demo_key) 32;
   COpen (Some demo_frame) 41 (demo_ptrs 41) 41; COpen (Some tampered_frame) 41 (demo_ptrs 41) 41;
   CFrameForUs (Some [1; 2; 3]) 3; CKeystoreSet 100 6 (Some demo_key) 32; CKeystoreRetire 100 5;
   CKeystoreRetire 100 5; CSetLocalId 7].

Lemma tampered_frame_u8 : Forall is_u8 tampered_frame.
Proof. apply (bool_decide_unpack (Forall is_u8 _)). vm_compute. exact I. Qed.

Lemma demo_session_wf : Forall wf_call demo_session.
Proof.
  unfold demo_session.
  repeat (apply Forall_cons_2; [cbn [wf_call];
    first [exact demo_frame_u8 | exact tampered_frame_u8 | exact I | lia]|]).
  apply Forall_nil_2.
Qed.

Definition demo_end : FfiState := (exec_all demo_session (fresh_module toy_state)).2.

Lemma rx_accounting_witness :
  rx_total (STATS (tele demo_end)) = 3 /\
  rx_total (STATS (tele demo_end)) = rx_ok (STATS (tele demo_end)) + reject_sum (STATS (tele demo_end)).
Proof.
  destruct (rx_accounting demo_session toy_state demo_session_wf) as (_ & _ & Hx).
  split; [vm_compute; reflexivity|]. apply Hx. vm_compute. reflexivity.
Defined.

Lemma session_releases_and_erases_witness :
  heap (sys (lunet_paxe_shutdown demo_end).2) = ∅ /\ erases toy_state (sys (lunet_paxe_shutdown demo_end).2) /\
  length (freed (sys (lunet_paxe_shutdown demo_end).2)) = 2%nat.
Proof.
  destruct (session_releases_and_erases demo_session toy_state demo_session_wf) as (H1 & _ & _ & H2).
  split; [exact H1|]. split; [apply H2; reflexivity|]. vm_compute. reflexivity.
Defined.

Lemma counters_monotone_witness :
  stats_le (STATS (tele (exec_all [CInit None ""] (fresh_module toy_state)).2))
    (STATS (tele (exec_all (drop 1 demo_session) (exec_all [CInit None ""] (fresh_module toy_state)).2).2)).
Proof. apply (counters_monotone [CInit None ""] (drop 1 demo_session) toy_state demo_session_wf). Defined.

(** The two demo nodes as configured modules. *)
Definition ffi_a : FfiState := MkFfi (Some node_a.2) "" true false node_a.1 stats_init.
Definition ffi_b : FfiState := MkFfi (Some node_b.2) "" true false node_b.1 stats_init.

Lemma ffi_a_inv : ffi_inv (outside node_a.1 node_a.2) ffi_a.
Proof. split; [split; [exact node_a_inv|done]| |done]. by repeat constructor. Qed.

Lemma ffi_b_inv : ffi_inv (outside node_b.1 node_b.2) ffi_b.
Proof. split; [split; [exact node_b_inv|done]| |done]. by repeat constructor. Qed.

Lemma ffi_open_exact_witness :
  (lunet_paxe_open (Some demo_frame) 41 (demo_ptrs 41) 41 ffi_b).1 =
    (RC_OK, MkPtrs (Some (demo_payload ++ zeros 37)) (Some 4) (Some 100) (Some 1000) (Some 0)) /\
  LAST_ERROR (lunet_paxe_open (Some demo_frame) 41 (demo_ptrs 41) 41 ffi_b).2 = "".
Proof.
  split; [vm_compute; reflexivity|].
  pose proof (ffi_open_exact (outside node_b.1 node_b.2) ffi_b node_b.2 demo_frame 41 (zeros 41)
    0 0 0 0 41 ffi_b_inv eq_refl demo_frame_u8 ltac:(lia) eq_refl ltac:(lia) eq_refl) as Hx.
  cbv zeta in Hx. fold (demo_ptrs 41) in Hx.
  destruct (lunet_paxe_open _ _ _ _ _) as [[rc p] st']. destruct Hx as (Hx & _). exact Hx.
Defined.

Lemma ffi_end_to_end_witness :
  exists memA stA' stB',
    lunet_paxe_seal (Some demo_payload) 4 200 1000 (Some (zeros 41)) 41 (Some 0) ffi_a =
      ((RC_OK, Some memA, Some 41), stA') /\
    lunet_paxe_open (Some (take 41 memA)) 41 (demo_ptrs 41) 41 ffi_b =
      ((RC_OK, MkPtrs (Some (demo_payload ++ zeros 37)) (Some 4) (Some 100) (Some 1000) (Some 0)), stB').
Proof.
  apply (ffi_end_to_end _ _ ffi_a node_a.2 ffi_b node_b.2 (MkEpoch 5) demo_key demo_payload 1000
    (zeros 41) 41 0 (zeros 41) 41 0 0 0 0 ffi_a_inv eq_refl ffi_b_inv eq_refl).
  - vm_compute. reflexivity.
  - intros e' He'. destruct node_a_view as [_ Hv], node_b_view as [Hid _].
    cbn [ffi_a sys] in He'. rewrite Hv, Hid in He'.
    destruct (decide (e' = MkEpoch 5)) as [->|Hne]; [done|].
    rewrite lookup_singleton_ne in He' by congruence. by destruct He'.
  - vm_compute. reflexivity.
  - by repeat constructor.
  - done.
  - done.
  - lia.
  - done.
  - done.
  - done.
  - done.
Defined.

Lemma gate_agrees_with_open_witness :
  (lunet_paxe_frame_for_us (Some demo_frame) (len demo_frame) ffi_b).1 = 1.
Proof.
  pose proof (gate_agrees_with_open _ ffi_b node_b.2 demo_frame ffi_b_inv eq_refl) as Hx.
  destruct (lunet_paxe_frame_for_us _ _ _) as [v st']. destruct Hx as (_ & _ & _ & Hd).
  apply (Hd demo_header demo_flags demo_payload). left. exists demo_key, demo_nonce.
  exact demo_frame_accepts.
Defined.

Lemma set_local_id_once_witness :
  lunet_paxe_set_local_id 9 ffi_a =
    (RC_INVAL, set_LAST_ERROR "local node id already configured; call shutdown() before reconfiguring" ffi_a) /\
  (exists m, (lunet_paxe_set_local_id 9 ffi_a).2 = set_LAST_ERROR m ffi_a).
Proof.
  split; [vm_compute; reflexivity|].
  pose proof (set_local_id_once 9 ffi_a ltac:(lia)) as Hx.
  destruct (lunet_paxe_set_local_id 9 ffi_a) as [rc st'].
  rewrite decide_True in Hx by (right; eexists; reflexivity). destruct Hx as [_ Hx]. exact Hx.
Defined.

Lemma reserved_channel_refused_witness :
  exists m, lunet_paxe_seal (Some demo_payload) 4 200 67 (Some (zeros 41)) 41 (Some 0) ffi_a =
    ((RC_INVAL, Some (zeros 41), Some 0), set_LAST_ERROR m ffi_a).
Proof. apply reserved_channel_refused. lia. Defined.

(** ** A library that breaks its contract *)

(** Decryption that reports success with the wrong length: the condition the
    wrapper maps to [Internal]. *)
Definition broken_sodium : Libsodium :=
  let base := toy_sodium in {|
  sodium_init := @sodium_init base;
  sodium_version_string := @sodium_version_string base;
  crypto_aead_aes256gcm_is_available := 1;
  crypto_aead_aes256gcm_keybytes := 32;
  crypto_aead_aes256gcm_npubbytes := 12;
  crypto_aead_aes256gcm_abytes := 16;
  crypto_aead_aes256gcm_encrypt := @crypto_aead_aes256gcm_encrypt base;
  crypto_aead_aes256gcm_decrypt c ad npub k := (0, len c, []);
  randombytes_buf := @randombytes_buf base;
  sodium_malloc := @sodium_malloc base;
  sodium_mlock := @sodium_mlock base;
  sodium_munlock := @sodium_munlock base;
  sodium_memcmp := @sodium_memcmp base;
  getrlimit_rc := 0;
  setrlimit_rc := 0;
  cfg_windows := false;
  last_os_error := @last_os_error base;
  GetProcessWorkingSetSize_rc := @GetProcessWorkingSetSize_rc base;
  SetProcessWorkingSetSize_rc := @SetProcessWorkingSetSize_rc base;
|}.

(** the accounting of an impossible libsodium result depends on the mode.
    The documentation says such a frame joins neither [rx_total] nor a reason;
    for a reusable-DEK frame that holds, but standard [open] collapses the
    result into the opaque rejection, so a standard frame moves [rx_total] with
    no reason counter and the documented equation fails. *)
Theorem internal_result_accounting :
  let session frame n := [CSetLocalId 200; CKeystoreSet 100 5 (Some demo_key) 32;
                          COpen (Some frame) n (demo_ptrs n) n] in
  let final frame n := STATS (tele (@exec_all broken_sodium (session frame n) (fresh_module toy_state)).2) in
  (rx_total (final demo_dek_frame 101) = 0 /\ reject_sum (final demo_dek_frame 101) = 0) /\
  (rx_total (final demo_frame 41) = 1 /\ rx_ok (final demo_frame 41) = 0 /\
   reject_sum (final demo_frame 41) = 0).
Proof. vm_compute. repeat split; reflexivity. Qed.
