(* ===== verification/Contract.v ===== *)
(** * The C header: [include/paxe.h] as a contract

    What the header promises a host, as a specification that mentions neither
    guarded memory nor allocation nor the tree of keys: a [Session] is the
    identity with its keys, the counters, the policy, the last message and the
    log-once memo, and [contract] relates a call, the session before it, the
    answer the host sees (code and memory behind the pointers) and the session
    after it, as the header words it.  The exports of [Ffi] do not keep it in
    six situations; [departure] lists them and [departs] says what the exports
    do there.  Every session of calls takes steps of the one or the other, and a
    step breaks the header exactly in those six situations.  What a host may
    conclude from an [open] is proved of the exports through both relations. *)

From S2P Require Export Ffi.

(** ** The header's constants *)

Definition PAXE_OK : Z := 0.
Definition PAXE_OK_ABSENT : Z := 1.
Definition PAXE_ERR : Z := -1.
Definition PAXE_INVAL : Z := -2.
Definition PAXE_DROP : Z := -3.
Definition PAXE_MODE_STANDARD : Z := 0.
Definition PAXE_MODE_DEK : Z := 1.
Definition PAXE_STATS_FIELDS : Z := 13.
Definition PAXE_FRAME_FOR_US : Z := 1.
Definition PAXE_FRAME_NOT_FOR_US : Z := 0.

Definition mode_code (m : Mode) : Z :=
  match m with Standard => PAXE_MODE_STANDARD | Dek => PAXE_MODE_DEK end.

(** ** Sessions and answers *)

Abbreviation Keys := (gmap (Z * Epoch) bytes).

Record Session := MkSession {
  identity : option (Z * Keys);
  counters : Stats;
  fail_policy : FailPolicy;
  message : string;
  memo : Z;
}.

Global Instance Stats_eq_dec : EqDecision Stats.
Proof. solve_decision. Defined.

Global Instance Session_eq_dec : EqDecision Session.
Proof. solve_decision. Defined.

Definition with_identity i (S : Session) : Session :=
  MkSession i S.(counters) S.(fail_policy) S.(message) S.(memo).
Definition with_counters c (S : Session) : Session :=
  MkSession S.(identity) c S.(fail_policy) S.(message) S.(memo).
Definition with_policy p (S : Session) : Session :=
  MkSession S.(identity) S.(counters) p S.(message) S.(memo).
Definition with_message m (S : Session) : Session :=
  MkSession S.(identity) S.(counters) S.(fail_policy) m S.(memo).
Definition with_memo l (S : Session) : Session :=
  MkSession S.(identity) S.(counters) S.(fail_policy) S.(message) l.

(** What the host gets back: the code and the memory it passed. *)
Inductive Answer :=
| Status (rc : Z)
| Sealed (rc : Z) (out : option bytes) (out_len : option Z)
| Opened (rc : Z) (ptrs : OpenPtrs)
| Counters (n : Z) (out : option (list Z))
| Text (ptr : option string) (len : option Z)
| Done.

(** The answer with code [rc] that leaves the caller's memory alone. *)
Definition untouched (c : Call) (rc : Z) : Answer :=
  match c with
  | CSeal _ _ _ _ out _ out_len => Sealed rc out out_len
  | COpen _ _ ptrs _ => Opened rc ptrs
  | _ => Status rc
  end.

(** ** Arguments *)

(** A [(ptr, len)] pair: null with a length is refused. *)
Definition null_slice {A} (ptr : option A) (n : Z) : Prop := ptr = None /\ n <> 0.

(** The bytes of an accepted pair. *)
Definition slice (ptr : option bytes) (n : Z) : bytes :=
  if n =? 0 then [] else take (Z.to_nat n) (default [] ptr).

(** A bad argument of [seal], the width of the channel apart. *)
Definition bad_seal (payload : option bytes) (n to_id ch : Z) (out : option bytes) (cap : Z)
    (out_len : option Z) : Prop :=
  to_id > U16_MAX \/ 1 <= ch <= 99 \/ null_slice payload n \/ out_len = None \/ null_slice out cap.

(** A bad argument, call by call: ids and channels fit u16, epochs are 0-31,
    keys have 32 bytes, channels 1-99 are reserved, pointers are not null,
    policies are spelled as documented. *)
Definition bad_argument (c : Call) : Prop :=
  match c with
  | CSetLocalId id => id > U16_MAX
  | CKeystoreSet peer epoch key n =>
      peer > U16_MAX \/ epoch > MAX_EPOCH \/ null_slice key n \/ len (slice key n) <> KEYBYTES
  | CKeystoreRetire peer epoch => peer > U16_MAX \/ epoch > MAX_EPOCH
  | CSeal payload n to_id ch out cap out_len => ch > U16_MAX \/ bad_seal payload n to_id ch out cap out_len
  | COpen frame n ptrs cap =>
      null_slice frame n \/ p_out_len ptrs = None \/ p_from_id ptrs = None \/ p_channel ptrs = None \/
      p_mode ptrs = None \/ null_slice (p_out ptrs) cap
  | CFrameForUs frame n => null_slice frame n
  | CFailPolicySet name n =>
      null_slice name n \/ from_utf8 (slice name n) = None \/
      from_name (string_of_bytes (slice name n)) = None
  | _ => False
  end.

(** [e] is the newest epoch with a key for [peer]. *)
Definition newest (m : Keys) (peer : Z) (e : Epoch) : Prop :=
  is_Some (m !! (peer, e)) /\ forall e', is_Some (m !! (peer, e')) -> bits e' <= bits e.

(** The destination field of a datagram of at least nine bytes is [me]. *)
Definition addressed_to (me : Z) (frame : bytes) : Prop :=
  PREFIX_LEN <= len frame /\ exists t, get_range frame 2 4 = Some t /\ from_be_bytes t = me.

Definition count_sealed (s : Stats) : Stats := (STATS (record_tx_sealed Standard (MkStatsState s Silent 0 [])).2).
Definition count_oversize (s : Stats) : Stats := (STATS (record_tx_oversize (MkStatsState s Silent 0 [])).2).
Definition count_opened (s : Stats) : Stats := (STATS (record_rx_ok (MkStatsState s Silent 0 [])).2).

(** A drop counted under reason [r]; the logging policy may note it in the memo. *)
Definition drop_counted (r : RejectReason) (l : Z) (S : Session) : Session :=
  with_memo l (with_counters (drop_stats (count_reject r S.(counters))) S).

(** There is a key to seal with, and no room for the frame. *)
Definition short_seal (payload : bytes) (to_id : Z) (out : option bytes) (cap : Z) (S : Session) : Prop :=
  len payload <= MAX_PAYLOAD /\ len (slice out cap) < len payload + 37 /\
  exists me m e, S.(identity) = Some (me, m) /\ newest m to_id e.

Section Contract.
Context `{Libsodium}.

(** ** The environment, as the header speaks of it *)

(** The AES-256-GCM hardware requirement, and the sizes the ABI was built for. *)
Definition hardware_ready : Prop :=
  crypto_aead_aes256gcm_is_available = 1 /\ crypto_aead_aes256gcm_keybytes = KEYBYTES /\
  crypto_aead_aes256gcm_npubbytes = NPUBBYTES /\ crypto_aead_aes256gcm_abytes = ABYTES.

(** libsodium refuses to initialise on some call. *)
Definition sodium_refuses : Prop := exists k, sodium_init k <> 0 /\ sodium_init k <> 1.

(** The platform refuses guarded memory on some call. *)
Definition memory_refused : Prop :=
  (exists h, sodium_malloc h KEYBYTES = None) \/ (exists k, sodium_mlock k KEYBYTES <> 0).

(** ** Sealing, once the arguments are accepted *)

Inductive sealing (payload : bytes) (to_id ch : Z) (out : option bytes) (cap : Z) (ol : option Z) :
    Session -> Answer -> Session -> Prop :=
| sl_oversize S msg :
    len payload > MAX_PAYLOAD -> msg <> "" ->
    sealing payload to_id ch out cap ol S (Sealed PAXE_ERR out ol)
      (with_message msg (with_counters (count_oversize S.(counters)) S))
| sl_no_key S msg :
    len payload <= MAX_PAYLOAD ->
    match S.(identity) with Some (_, m) => forall e, m !! (to_id, e) = None | None => True end ->
    msg <> "" ->
    sealing payload to_id ch out cap ol S (Sealed PAXE_ERR out ol) (with_message msg S)
| sl_short S msg :
    short_seal payload to_id out cap S -> msg <> "" ->
    sealing payload to_id ch out cap ol S (Sealed PAXE_INVAL out ol) (with_message msg S)
| sl_sealed S me m e key nonce mem :
    len payload <= MAX_PAYLOAD -> S.(identity) = Some (me, m) -> newest m to_id e ->
    m !! (to_id, e) = Some key -> len nonce = NPUBBYTES -> out = Some mem ->
    len payload + 37 <= len (slice out cap) ->
    sealing payload to_id ch out cap ol S
      (let frame := standard_frame key (MkHeader me to_id ch) (MkFlags Standard e) nonce payload in
       Sealed PAXE_OK (Some (frame ++ drop (length frame) mem)) (Some (len payload + 37)))
      (with_counters (count_sealed S.(counters)) S).

(** ** The contract, call by call *)

Inductive contract : Call -> Session -> Answer -> Session -> Prop :=
(* every call that checks arguments *)
| ct_bad_argument c S m :
    bad_argument c -> m <> "" ->
    contract c S (untouched c PAXE_INVAL) (with_message m S)
(* lifecycle *)
| ct_init env err S : hardware_ready -> contract (CInit env err) S (Status PAXE_OK) S
| ct_init_failed env err S m :
    ~ hardware_ready \/ sodium_refuses -> m <> "" ->
    contract (CInit env err) S (Status PAXE_ERR) (with_message m S)
| ct_set_local_id id S :
    ~ bad_argument (CSetLocalId id) -> S.(identity) = None ->
    contract (CSetLocalId id) S (Status PAXE_OK) (with_identity (Some (id, ∅)) S)
| ct_set_local_id_twice id S m :
    ~ bad_argument (CSetLocalId id) -> is_Some S.(identity) -> m <> "" ->
    contract (CSetLocalId id) S (Status PAXE_ERR) (with_message m S)
| ct_set_local_id_failed id S m :
    ~ bad_argument (CSetLocalId id) -> sodium_refuses -> m <> "" ->
    contract (CSetLocalId id) S (Status PAXE_ERR) (with_message m S)
| ct_shutdown S :
    contract CShutdown S Done (with_memo 0 (with_identity None S))
(* keys *)
| ct_keystore_set peer epoch key n S me m :
    ~ bad_argument (CKeystoreSet peer epoch key n) -> S.(identity) = Some (me, m) ->
    Z.of_nat (size (<[(peer, MkEpoch epoch) := slice key n]> m)) <= MAX_ENTRIES ->
    contract (CKeystoreSet peer epoch key n) S (Status PAXE_OK)
      (with_identity (Some (me, <[(peer, MkEpoch epoch) := slice key n]> m)) S)
| ct_keystore_set_failed peer epoch key n S msg :
    ~ bad_argument (CKeystoreSet peer epoch key n) -> msg <> "" ->
    match S.(identity) with
    | Some (_, m) =>
        m !! (peer, MkEpoch epoch) = None /\ Z.of_nat (size m) = MAX_ENTRIES \/ memory_refused
    | None => True
    end ->
    contract (CKeystoreSet peer epoch key n) S (Status PAXE_ERR) (with_message msg S)
| ct_retire peer epoch S me m :
    ~ bad_argument (CKeystoreRetire peer epoch) -> S.(identity) = Some (me, m) ->
    contract (CKeystoreRetire peer epoch) S
      (Status (if decide (is_Some (m !! (peer, MkEpoch epoch))) then PAXE_OK else PAXE_OK_ABSENT))
      (with_identity (Some (me, delete (peer, MkEpoch epoch) m)) S)
| ct_retire_unconfigured peer epoch S msg :
    ~ bad_argument (CKeystoreRetire peer epoch) -> S.(identity) = None -> msg <> "" ->
    contract (CKeystoreRetire peer epoch) S (Status PAXE_ERR) (with_message msg S)
| ct_clear S :
    contract CKeystoreClear S (Status PAXE_OK)
      (with_identity ((fun '(me, _) => (me, ∅)) <$> S.(identity)) S)
(* sealing *)
| ct_seal payload n to_id ch out cap ol S a S' :
    ~ bad_argument (CSeal payload n to_id ch out cap ol) ->
    sealing (slice payload n) to_id ch out cap ol S a S' ->
    contract (CSeal payload n to_id ch out cap ol) S a S'
(* opening *)
| ct_open_unconfigured frame n ptrs cap S :
    ~ bad_argument (COpen frame n ptrs cap) -> S.(identity) = None ->
    contract (COpen frame n ptrs cap) S (Opened PAXE_DROP ptrs) S
| ct_open_drop frame n ptrs cap S me m l :
    ~ bad_argument (COpen frame n ptrs cap) -> S.(identity) = Some (me, m) ->
    (forall h f plain, ~ delivers me m (slice frame n) h f plain) ->
    contract (COpen frame n ptrs cap) S (Opened PAXE_DROP ptrs)
      (drop_counted (open_reason me m (slice frame n)) l S)
| ct_open_short frame n ptrs cap S me m h f plain r l :
    ~ bad_argument (COpen frame n ptrs cap) -> S.(identity) = Some (me, m) ->
    delivers me m (slice frame n) h f plain -> len (slice (p_out ptrs) cap) < len plain ->
    contract (COpen frame n ptrs cap) S (Opened PAXE_DROP ptrs) (drop_counted r l S)
| ct_open frame n ptrs cap S me m h f plain :
    ~ bad_argument (COpen frame n ptrs cap) -> S.(identity) = Some (me, m) ->
    delivers me m (slice frame n) h f plain -> len plain <= len (slice (p_out ptrs) cap) ->
    contract (COpen frame n ptrs cap) S
      (Opened PAXE_OK (MkPtrs ((fun mem => plain ++ drop (length plain) mem) <$> p_out ptrs)
         (Some (len plain)) (Some (from_id h)) (Some (Codec.channel h)) (Some (mode_code (mode f)))))
      (with_counters (count_opened S.(counters)) S)
(* the pre-filter *)
| ct_gate_ours frame n S me m :
    ~ bad_argument (CFrameForUs frame n) -> S.(identity) = Some (me, m) ->
    addressed_to me (slice frame n) ->
    contract (CFrameForUs frame n) S (Status PAXE_FRAME_FOR_US) S
| ct_gate_not_ours frame n S l :
    ~ bad_argument (CFrameForUs frame n) ->
    match S.(identity) with Some (me, _) => ~ addressed_to me (slice frame n) | None => True end ->
    contract (CFrameForUs frame n) S (Status PAXE_FRAME_NOT_FOR_US) (drop_counted Plaintext l S)
(* diagnostics *)
| ct_stats out cap S :
    contract (CStats out cap) S
      (Counters PAXE_STATS_FIELDS
         ((fun mem => if cap =? 0 then mem else write_front mem (take (Z.to_nat cap) (fields S.(counters)))) <$> out)) S
| ct_policy name n S p l :
    ~ bad_argument (CFailPolicySet name n) ->
    from_name (string_of_bytes (slice name n)) = Some p ->
    contract (CFailPolicySet name n) S (Status PAXE_OK) (with_memo l (with_policy p S))
| ct_last_error l S :
    S.(message) <> "" ->
    contract (CLastError l) S
      (Text (Some S.(message)) ((fun _ => Z.of_nat (String.length S.(message))) <$> l)) S
| ct_no_error l l' S :
    S.(message) = "" -> contract (CLastError l) S (Text None l') S.

(** ** Where the exports and the header part *)

(** A session and a call for which the exports do not do what the header says. *)
Definition departure (c : Call) (S : Session) : Prop :=
  match c with
  (* a second identity *)
  | CSetLocalId id => id <= U16_MAX /\ is_Some S.(identity)
  (* a shutdown after a failure *)
  | CShutdown => S.(message) <> ""
  (* a channel wider than u16, everything else in order *)
  | CSeal payload n to_id ch out cap ol =>
      ch > U16_MAX /\ ~ bad_seal payload n to_id ch out cap ol /\ ~ short_seal (slice payload n) to_id out cap S
  (* an output buffer shorter than the payload of an authentic frame *)
  | COpen frame n ptrs cap =>
      ~ bad_argument c /\ exists me m h f plain,
        S.(identity) = Some (me, m) /\ delivers me m (slice frame n) h f plain /\
        len (slice (p_out ptrs) cap) < len plain
  (* the pre-filter without an identity, unless the counters are saturated *)
  | CFrameForUs frame n => ~ bad_argument c /\ S.(identity) = None /\ drop_counted Plaintext S.(memo) S <> S
  (* no message to report *)
  | CLastError _ => S.(message) = ""
  | _ => False
  end.

(** What the exports do there: the second identity is refused as a bad
    argument; the shutdown forgets the message; the channel is sealed as a
    [u32]; the short buffer is reported, with a message; the pre-filter answers
    0 without counting; the empty message has a pointer. *)
Inductive departs : Call -> Session -> Answer -> Session -> Prop :=
| dp_set_local_id id S m :
    m <> "" -> departs (CSetLocalId id) S (Status PAXE_INVAL) (with_message m S)
| dp_shutdown S :
    departs CShutdown S Done (with_message "" (with_memo 0 (with_identity None S)))
| dp_seal payload n to_id ch out cap ol S a S' :
    sealing (slice payload n) to_id ch out cap ol S a S' ->
    departs (CSeal payload n to_id ch out cap ol) S a S'
| dp_open frame n ptrs cap S m :
    m <> "" -> departs (COpen frame n ptrs cap) S (Opened PAXE_INVAL ptrs) (with_message m S)
| dp_gate frame n S :
    departs (CFrameForUs frame n) S (Status PAXE_FRAME_NOT_FOR_US) S
| dp_last_error l S :
    departs (CLastError l) S (Text (Some "") ((fun _ => 0) <$> l)) S.

(** One step of the exports: the header's, or a departure from it. *)
Definition allowed (c : Call) (S : Session) (a : Answer) (S' : Session) : Prop :=
  contract c S a S' /\ ~ departure c S \/ departs c S a S' /\ departure c S.

(** A conversation: calls with the answers they got. *)
Inductive converse : Session -> list (Call * Answer) -> Session -> Prop :=
| cv_nil S : converse S [] S
| cv_cons S S1 S2 c a rest :
    allowed c S a S1 -> converse S1 rest S2 -> converse S ((c, a) :: rest) S2.

End Contract.

(** ** The implementation's side *)

(** What the contract sees of the module. *)
Definition session (st : FfiState) : Session :=
  MkSession ((fun ks => (local_id ks, view (sys st) ks)) <$> STORE st)
    (STATS (tele st)) (POLICY (tele st)) (LAST_ERROR st) (LOGGED (tele st)).


Section Perform.
Context `{Libsodium}.

(** One call with everything the host sees of it. *)
Definition perform (c : Call) : F Answer :=
  match c with
  | CInit env os_error => let* rc := lunet_paxe_init env os_error in ret (Status rc)
  | CSetLocalId node_id => let* rc := lunet_paxe_set_local_id node_id in ret (Status rc)
  | CShutdown => let* _ := lunet_paxe_shutdown in ret Done
  | CKeystoreSet peer epoch key key_len =>
      let* rc := lunet_paxe_keystore_set peer epoch key key_len in ret (Status rc)
  | CKeystoreRetire peer epoch => let* rc := lunet_paxe_keystore_retire peer epoch in ret (Status rc)
  | CKeystoreClear => let* rc := lunet_paxe_keystore_clear in ret (Status rc)
  | CSeal payload n to_id ch out cap out_len =>
      let* (rc, out, out_len) := lunet_paxe_seal payload n to_id ch out cap out_len in
      ret (Sealed rc out out_len)
  | COpen frame n ptrs cap =>
      let* (rc, ptrs) := lunet_paxe_open frame n ptrs cap in ret (Opened rc ptrs)
  | CFrameForUs frame n => let* rc := lunet_paxe_frame_for_us frame n in ret (Status rc)
  | CStats out cap => let* (n, out) := lunet_paxe_stats out cap in ret (Counters n out)
  | CFailPolicySet name n => let* rc := lunet_paxe_fail_policy_set name n in ret (Status rc)
  | CLastError l => let* (ptr, l) := lunet_paxe_last_error l in ret (Text ptr l)
  end.

Fixpoint perform_all (calls : list Call) : F (list (Call * Answer)) :=
  match calls with
  | [] => ret []
  | c :: rest =>
      let* a := perform c in
      let* log := perform_all rest in
      ret ((c, a) :: log)
  end.

Lemma perform_exec c st : (perform c st).2 = (exec c st).2.
Proof.
  destruct c; unfold perform, exec, bind, ret.
  - by destruct (lunet_paxe_init _ _ _).
  - by destruct (lunet_paxe_set_local_id _ _).
  - by destruct (lunet_paxe_shutdown _).
  - by destruct (lunet_paxe_keystore_set _ _ _ _ _).
  - by destruct (lunet_paxe_keystore_retire _ _ _).
  - by destruct (lunet_paxe_keystore_clear _).
  - by destruct (lunet_paxe_seal _ _ _ _ _ _ _ _) as [[[? ?] ?] ?].
  - by destruct (lunet_paxe_open _ _ _ _ _) as [[? ?] ?].
  - by destruct (lunet_paxe_frame_for_us _ _ _).
  - by destruct (lunet_paxe_stats _ _ _) as [[? ?] ?].
  - by destruct (lunet_paxe_fail_policy_set _ _ _).
  - done.
Qed.

End Perform.

(** ** Argument checks against the contract *)

Lemma check_u16_cases v what :
  what <> "" ->
  (v > U16_MAX /\ exists m, check_u16 v what = Err m /\ m <> "") \/
  (v <= U16_MAX /\ check_u16 v what = Ok v).
Proof.
  intros Hw. destruct (check_u16 v what) as [p|m] eqn:Hc.
  - apply check_u16_ok in Hc as [-> ?]. by right.
  - left. split; [|by eauto using check_u16_message].
    destruct (Z.le_gt_cases v U16_MAX); [|lia]. by rewrite (proj2 (check_u16_ok v what v)) in Hc.
Qed.

Lemma check_epoch_cases v :
  0 <= v ->
  (v > MAX_EPOCH /\ exists m, check_epoch v = Err m /\ m <> "") \/
  (v <= MAX_EPOCH /\ check_epoch v = Ok (MkEpoch v)).
Proof.
  intros Hv. destruct (check_epoch v) as [p|m] eqn:Hc.
  - apply check_epoch_ok in Hc as [-> ?]; [|done]. by right.
  - left. split; [|by eauto using check_epoch_message].
    destruct (Z.le_gt_cases v MAX_EPOCH); [|lia].
    by rewrite (proj2 (check_epoch_ok v (MkEpoch v) Hv)) in Hc.
Qed.

Lemma check_channel_cases v :
  (1 <= v <= 99 /\ exists m, check_channel v = Err m /\ m <> "") \/
  (~ 1 <= v <= 99 /\ check_channel v = Ok v).
Proof.
  destruct (check_channel v) as [p|m] eqn:Hc.
  - apply check_channel_ok in Hc as [-> ?]. by right.
  - left. split; [|by eauto using check_channel_message].
    destruct (decide (1 <= v <= 99)); [done|]. by rewrite (proj2 (check_channel_ok v v)) in Hc.
Qed.

Lemma buf_in_cases ptr n what :
  (null_slice ptr n /\ exists m, buf_in ptr n what = Err m /\ m <> "") \/
  (~ null_slice ptr n /\ buf_in ptr n what = Ok (slice ptr n)).
Proof.
  destruct (buf_in ptr n what) as [b|m] eqn:Hb.
  - right. revert Hb. unfold buf_in, null_slice, slice.
    destruct (Z.eqb_spec n 0); [intros [= <-]; naive_solver|]. destruct ptr; naive_solver.
  - left. split; [|by eauto using buf_in_message]. revert Hb. unfold buf_in, null_slice.
    destruct (Z.eqb_spec n 0); [done|]. by destruct ptr.
Qed.

(** [buf_out] differs from [buf_in] only in its message. *)
Lemma buf_out_cases ptr n what :
  (null_slice ptr n /\ exists m, buf_out ptr n what = Err m /\ m <> "") \/
  (~ null_slice ptr n /\ buf_out ptr n what = Ok (slice ptr n)).
Proof.
  destruct (buf_out ptr n what) as [b|m] eqn:Hb.
  - right. revert Hb. unfold buf_out, null_slice, slice.
    destruct (Z.eqb_spec n 0); [intros [= <-]; naive_solver|]. destruct ptr; naive_solver.
  - left. split; [|by eauto using buf_out_message]. revert Hb. unfold buf_out, null_slice.
    destruct (Z.eqb_spec n 0); [done|]. by destruct ptr.
Qed.

Section Refinement.
Context `{AS : AeadSpec, GH : !GuardedHeapSpec}.

Ltac run := unfold fail, invalid, set_last_error, on_sys, on_tele, zoom, gets, modify, bind, ret.

(** One call of the module against the contract. *)
Definition conforms (c : Call) (st : FfiState) : Prop :=
  let '(a, st') := perform c st in allowed c (session st) a (session st').

(** The same for a call the header is kept for. *)
Definition keeps (c : Call) (st : FfiState) : Prop :=
  let '(a, st') := perform c st in contract c (session st) a (session st').

Lemma keeps_conforms c st : ~ departure c (session st) -> keeps c st -> conforms c st.
Proof. unfold keeps, conforms, allowed. destruct (perform c st). by left. Qed.

Lemma by_contract c S a S' : contract c S a S' -> ~ departure c S -> allowed c S a S'.
Proof. by left. Qed.

Lemma by_departure c S a S' : departs c S a S' -> departure c S -> allowed c S a S'.
Proof. by right. Qed.

(** A refused argument is the header's own refusal. *)
Lemma by_refusal c S m :
  bad_argument c -> ~ departure c S -> m <> "" -> allowed c S (untouched c PAXE_INVAL) (with_message m S).
Proof. intros. by apply by_contract; [apply ct_bad_argument|]. Qed.

(** Split on a check; on its failure the call is a bad argument. *)
Ltac reject_arg H :=
  let m := fresh "m" in let Hm := fresh "Hm" in let Hb := fresh "Hb" in
  let E := fresh "E" in
  destruct H as [(Hb & m & E & Hm)|(Hb & E)]; rewrite E;
  [by first [refine (by_refusal _ _ m _ _ Hm)|refine (ct_bad_argument _ _ m _ Hm)];
      simpl; unfold bad_seal; first [tauto|lia]|].

Lemma session_sys s st :
  heap s = heap (sys st) -> session (set_sys s st) = session st.
Proof.
  intros Hh. unfold session. simpl. f_equal. destruct (STORE st) as [ks|]; simpl; [|done].
  do 2 f_equal. unfold view, expose, as_slice. by rewrite Hh.
Qed.

Lemma warn_session err st : session (warn_core_disable_failed err st).2 = session st.
Proof. unfold warn_core_disable_failed. run. by destruct (CORE_WARN_EMITTED st). Qed.

Lemma suppress_session env err st : session (suppress_core_dumps env err st).2 = session st.
Proof.
  unfold suppress_core_dumps. destruct (core_dumps_allowed_by_env env); [done|].
  unfold bind, on_sys, zoom. pose proof (disable_core_dumps_heap (sys st)) as Hh.
  destruct (disable_core_dumps (sys st)) as [[] s]; [by apply session_sys|].
  rewrite warn_session. by apply session_sys.
Qed.

(** An [init] that fails was refused by the library. *)
Lemma init_refused s e s' :
  init s = (Err e, s') -> sodium_init (inits s) <> 0 /\ sodium_init (inits s) <> 1.
Proof.
  intros Hx. destruct (init_ok s) as [_ Hi]. rewrite Hx in Hi. simpl in Hi.
  by split; intros H1; discriminate Hi; auto.
Qed.

Lemma init_conforms env err st : conforms (CInit env err) st.
Proof.
  unfold conforms, perform, lunet_paxe_init. rewrite <- (suppress_session env err st).
  unfold bind at 1 2. destruct (suppress_core_dumps env err st) as [[] st'].
  unfold bind, on_sys, zoom. cbn [snd]. pose proof (init_heap (sys st')) as Hh.
  destruct (init (sys st')) as [r s] eqn:Hx. cbn [snd] in Hh. rewrite <- (session_sys s st' Hh).
  assert (Hfail : ~ hardware_ready \/ sodium_refuses -> forall m, m <> "" ->
    allowed (CInit env err) (session (set_sys s st')) (Status PAXE_ERR) (with_message m (session (set_sys s st')))).
  { intros Hr m Hm. apply by_contract; [by apply ct_init_failed|simpl; tauto]. }
  destruct r as [a|e]; [|apply Hfail; [right; by eexists; eapply init_refused|done]].
  pose proof check_sizes_ok as Hsz. destruct check_sizes as [[]|e]; cycle 1.
  { apply Hfail; [left|done]. intros (_ & Hw). by apply Hsz in Hw. }
  unfold require_aes_gcm, aes_gcm_available. destruct (Z.eqb_spec crypto_aead_aes256gcm_is_available 1); cycle 1.
  { apply Hfail; [left|done]. by intros []. }
  apply by_contract; [|simpl; tauto]. apply ct_init. split; [done|]. by apply Hsz.
Qed.

Lemma set_local_id_conforms id st : conforms (CSetLocalId id) st.
Proof.
  unfold conforms, perform, lunet_paxe_set_local_id, bind at 1.
  reject_arg (check_u16_cases id "node id" ltac:(done)). run.
  destruct (STORE st) as [ks|] eqn:Hs.
  { apply by_departure; [by constructor|]. simpl. rewrite Hs. by split; [lia|]. }
  assert (Hok : ~ bad_argument (CSetLocalId id)) by (simpl; lia).
  assert (Hno : ~ departure (CSetLocalId id) (session st)).
  { intros [_ Hx]. simpl in Hx. rewrite Hs in Hx. by destruct Hx. }
  unfold keystore_new, bind, ret. pose proof (init_heap (sys st)) as Hh.
  destruct (init (sys st)) as [[a|e] s] eqn:Hx; cbn [snd fst] in *.
  - apply (by_contract _ _ _ _ (ct_set_local_id id (session st) Hok ltac:(simpl; by rewrite Hs)) Hno).
  - apply by_contract; [|done]. rewrite <- (session_sys s st Hh) at 1.
    apply (ct_set_local_id_failed id (session (set_sys s st))); [done| |done].
    eexists. exact (init_refused _ _ _ Hx).
Qed.

(** Bring the keystore's invariant out of the session's. *)
Lemma store_inv base st ks : ffi_inv base st -> STORE st = Some ks -> ks_inv (sys st) ks.
Proof. intros [Hst _ _] Hs. rewrite Hs in Hst. apply Hst. Qed.

Lemma session_identity st ks :
  STORE st = Some ks -> identity (session st) = Some (local_id ks, view (sys st) ks).
Proof. intros Hs. simpl. by rewrite Hs. Qed.

Lemma shutdown_conforms st : conforms CShutdown st.
Proof.
  assert (forall a, a = with_message "" (with_memo 0 (with_identity None (session st))) ->
    allowed CShutdown (session st) Done a) as Hx.
  { intros a ->. destruct (decide (LAST_ERROR st = "")) as [He|He]; [|by apply by_departure; [constructor|]].
    apply by_contract; [|simpl; tauto].
    replace (with_message _ _) with (with_memo 0 (with_identity None (session st))); [constructor|].
    unfold session, with_memo, with_identity, with_message. simpl. by rewrite He. }
  unfold conforms, perform, lunet_paxe_shutdown, shutdown_state, reset_log_once_memo, set_logged. run.
  destruct (STORE st) as [ks|]; [destruct (keystore_drop ks (sys st)) as [[] s]|]; by apply Hx.
Qed.

(** An installation that fails in the library was refused its memory. *)
Lemma install_refused ks peer epoch material s e ks' s' :
  install ks peer epoch material s = ((Err (KSodium e), ks'), s') -> memory_refused.
Proof.
  unfold install. destruct (_ && _); [done|]. unfold bind at 1.
  destruct (stored_new material s) as [[k|e1] s1] eqn:Hn.
  { unfold bind, ret. destruct (bt_get _ _) as [old|]; [|done]. by destruct (stored_drop old s1). }
  intros _.
  revert Hn. unfold stored_new, bindr, bind, guarded_new.
  destruct (sodium_malloc (heap s) KEYBYTES) as [[p junk]|] eqn:Hm; [|intros _; left; by eexists].
  intros Hx. right. exists (locks s). intros Hl. revert Hx.
  unfold mlock, try_mlock, bind, write_slice. simpl. by rewrite Hl.
Qed.

Lemma keystore_set_conforms base peer epoch key n st :
  0 <= peer -> 0 <= epoch -> ffi_inv base st -> conforms (CKeystoreSet peer epoch key n) st.
Proof.
  intros Hp He Hi. apply keeps_conforms; [simpl; tauto|].
  unfold keeps, perform, lunet_paxe_keystore_set, bind at 1.
  reject_arg (check_u16_cases peer "peer node id" ltac:(done)).
  reject_arg (check_epoch_cases epoch He).
  reject_arg (buf_in_cases key n "key").
  destruct (Z.eqb_spec (len (slice key n)) KEYBYTES) as [Hk|Hk]; cbn [negb]; cycle 1.
  { apply (ct_bad_argument (CKeystoreSet peer epoch key n)); [simpl; tauto|done]. }
  assert (Hok : ~ bad_argument (CKeystoreSet peer epoch key n)).
  { intros [?|[?|[?|?]]]; [lia..| |]; done. }
  run.
  destruct (STORE st) as [ks|] eqn:Hs; [|apply ct_keystore_set_failed; [done..|simpl; by rewrite Hs]].
  pose proof (store_inv base st ks Hi Hs) as Hki.
  destruct (install ks peer (MkEpoch epoch) (slice key n) (sys st)) as [[r ks'] s] eqn:Hx.
  assert (is_u16 peer) as Hu by (unfold is_u16; lia).
  assert (wf_epoch (MkEpoch epoch)) as Hwe by (unfold wf_epoch; simpl; lia).
  destruct (install_spec _ _ _ _ _ _ _ _ Hki Hu Hwe Hk Hx) as (Hki' & _ & Hid & Hr). destruct r as [[]|e].
  - destruct Hr as [Hv _].
    pose proof (ct_keystore_set peer epoch key n (session st) _ _ Hok (session_identity st ks Hs)) as Hc.
    rewrite <- Hv, <- Hid, (view_size s ks' Hki') in Hc. exact (Hc (inv_capacity _ _ Hki')).
  - assert (session (set_STORE (Some ks') (set_sys s st)) = session st) as Hsame.
    { assert (ks' = ks /\ heap s = heap (sys st)) as [-> Hh] by (by destruct e; naive_solver).
      rewrite <- (session_sys s st Hh). unfold session. simpl. by rewrite Hs. }
    pose proof (ct_keystore_set_failed peer epoch key n (session st)
      ("could not install key: " +:+ show_KeystoreError e) Hok ltac:(done)) as Hc.
    rewrite <- Hsame in Hc at 3. apply Hc. rewrite (session_identity st ks Hs).
    destruct e; [done|by destruct Hr as (_ & _ & ? & ?); left|]. right. by eapply install_refused.
Qed.

Lemma retire_conforms base peer epoch st :
  0 <= peer -> 0 <= epoch -> ffi_inv base st -> conforms (CKeystoreRetire peer epoch) st.
Proof.
  intros Hp He Hi. apply keeps_conforms; [simpl; tauto|].
  unfold keeps, perform, lunet_paxe_keystore_retire, bind at 1.
  reject_arg (check_u16_cases peer "peer node id" ltac:(done)).
  reject_arg (check_epoch_cases epoch He).
  assert (Hok : ~ bad_argument (CKeystoreRetire peer epoch)) by (intros [?|?]; lia).
  run. destruct (STORE st) as [ks|] eqn:Hs.
  - pose proof (store_inv base st ks Hi Hs) as Hki.
    destruct (retire ks peer (MkEpoch epoch) (sys st)) as [[b ks'] s] eqn:Hx.
    destruct (retire_spec _ _ _ _ _ _ _ Hki Hx) as (_ & _ & Hid & Hv & -> & _).
    pose proof (ct_retire peer epoch (session st) _ _ Hok (session_identity st ks Hs)) as Hc.
    rewrite <- Hv, <- Hid in Hc. by case_bool_decide; [rewrite decide_True in Hc by done|
      rewrite decide_False in Hc by done].
  - apply ct_retire_unconfigured; [done| |done]. simpl. by rewrite Hs.
Qed.

Lemma clear_conforms base st : ffi_inv base st -> conforms CKeystoreClear st.
Proof.
  intros Hi. apply keeps_conforms; [simpl; tauto|]. unfold keeps, perform, lunet_paxe_keystore_clear. run.
  pose proof (ct_clear (session st)) as Hc. simpl in Hc.
  destruct (STORE st) as [ks|] eqn:Hs; simpl in Hc.
  - pose proof (store_inv base st ks Hi Hs) as Hki. destruct (clear ks (sys st)) as [ks' s] eqn:Hx.
    destruct (clear_spec _ _ _ _ Hki Hx) as (_ & Hv & Hid & _). rewrite <- Hv, <- Hid in Hc. exact Hc.
  - unfold session at 2. rewrite Hs. exact Hc.
Qed.

(** A key that can be sent with is the newest of the contract. *)
Lemma send_current_newest s ks peer e k :
  ks_inv s ks -> key_for_send_current ks peer = Some (e, k) ->
  newest (view s ks) peer e /\ view s ks !! (peer, e) = Some (expose s k).
Proof.
  intros Hi Hk. pose proof (send_current_spec s ks peer Hi) as Hx. rewrite Hk in Hx.
  destruct Hx as (Hl & _ & Hm). split; [split; [by eexists|done]|done].
Qed.

Lemma slice_None n : slice None n = [].
Proof. unfold slice. destruct (n =? 0); [done|]. by destruct (Z.to_nat n). Qed.

Lemma slice_le mem n : len (slice (Some mem) n) <= len mem.
Proof.
  unfold slice. destruct (n =? 0); [apply len_nonneg|]. unfold len, default, id. rewrite length_take. lia.
Qed.

(** Sealing with accepted arguments: the header's, or the wide channel. *)
Lemma by_sealing payload n to_id ch out cap ol S a S' :
  ~ bad_seal payload n to_id ch out cap ol -> sealing (slice payload n) to_id ch out cap ol S a S' ->
  allowed (CSeal payload n to_id ch out cap ol) S a S'.
Proof.
  intros Hok Hs. destruct (decide (ch <= U16_MAX)) as [Hch|Hch].
  { apply by_contract; [|intros [? _]; lia]. apply ct_seal; [|done]. intros [?|?]; [lia|done]. }
  assert (Hwide : ~ short_seal (slice payload n) to_id out cap S ->
    allowed (CSeal payload n to_id ch out cap ol) S a S').
  { intros Hns. apply by_departure; [by constructor|]. simpl. by split_and!; [lia|..]. }
  destruct Hs as [S msg Hbig|S msg _ Hnone|S msg Hsh|S me m e key nonce mem _ _ _ _ _ _ Hroom].
  - apply Hwide. intros (? & _). lia.
  - apply Hwide. intros (_ & _ & me & m & e & Hid & [k Hk] & _). rewrite Hid in Hnone. by rewrite Hnone in Hk.
  - apply by_contract; [|by intros (_ & _ & ?)].
    apply (ct_bad_argument (CSeal payload n to_id ch out cap ol)); [left; lia|done].
  - apply Hwide. intros (_ & ? & _). lia.
Qed.

Lemma seal_conforms base payload n to_id ch out cap ol st :
  ffi_inv base st -> conforms (CSeal payload n to_id ch out cap ol) st.
Proof.
  intros Hi. unfold conforms, perform, lunet_paxe_seal, bind at 1.
  reject_arg (check_u16_cases to_id "destination node id" ltac:(done)).
  reject_arg (check_channel_cases ch).
  reject_arg (buf_in_cases payload n "payload").
  destruct ol as [ol|]; cycle 1.
  { apply (by_refusal (CSeal payload n to_id ch out cap None)); [simpl; unfold bad_seal; tauto..|done]. }
  reject_arg (buf_out_cases out cap "frame output").
  assert (Hok : ~ bad_seal payload n to_id ch out cap (Some ol)).
  { intros [?|[?|[?|[?|?]]]]; [lia|..]; done. }
  destruct (Z.ltb_spec MAX_PAYLOAD (len (slice payload n))) as [Hbig|Hfit].
  { apply by_sealing; [done|]. apply (sl_oversize _ _ _ _ _ _ (session st)); [lia|done]. }
  run. destruct (STORE st) as [ks|] eqn:Hs; cycle 1.
  { apply by_sealing; [done|]. apply sl_no_key; try done. simpl. by rewrite Hs. }
  pose proof (store_inv base st ks Hi Hs) as Hki. pose proof (session_identity st ks Hs) as Hid.
  destruct (key_for_send_current ks to_id) as [[e k]|] eqn:Hcur; cycle 1.
  { apply by_sealing; [done|]. apply sl_no_key; try done. rewrite Hid.
    pose proof (send_current_spec (sys st) ks to_id Hki) as Hx. by rewrite Hcur in Hx. }
  destruct (send_current_newest _ _ _ _ _ Hki Hcur) as [Hnew Hkey].
  destruct (dek_seal_run (sys st) ks to_id ch e _ _ Hki Hfit Hkey) as (nonce & s' & _ & Hn & Hh & ->).
  destruct (view_key _ _ _ _ Hki Hkey) as (_ & _ & _ & Hlen).
  set (frame := standard_frame _ _ _ _ _).
  assert (len frame = len (slice payload n) + 37) as Hfl by (by apply standard_frame_len).
  rewrite <- (session_sys s' st Hh) in Hid |- *.
  destruct (Z.ltb_spec (len (slice out cap)) (len frame)) as [Hshort|Hroom].
  - apply by_sealing; [done|]. apply (sl_short _ _ _ _ _ _ (session (set_sys s' st))); [|done].
    split_and!; [done|lia|]. by exists (local_id ks), (view (sys st) ks), e.
  - destruct out as [mem|]; cycle 1.
    { exfalso. rewrite slice_None, Hfl in Hroom. change (len []) with 0 in Hroom.
      pose proof (len_nonneg (slice payload n)). lia. }
    pose proof (slice_le mem cap). rewrite Hfl in Hroom.
    pose proof (sl_sealed (slice payload n) to_id ch (Some mem) cap (Some ol) (session (set_sys s' st)) _ _ e
      _ nonce mem Hfit Hid Hnew Hkey Hn eq_refl Hroom) as Hc.
    cbv zeta in Hc. fold frame in Hc. simpl. rewrite write_front_fits, Hfl by lia. by apply by_sealing.
Qed.

(** A payload that fits the slice is copied to the front of the memory. *)
Lemma copy_out_slice ptr cap src :
  len src <= len (slice ptr cap) -> copy_out ptr src = (fun mem => src ++ drop (length src) mem) <$> ptr.
Proof.
  intros Hl. unfold copy_out. destruct ptr as [mem|]; simpl; [|done].
  pose proof (slice_le mem cap). by rewrite write_front_fits by lia.
Qed.

Lemma reject_policy r w : POLICY (record_reject r w).2 = POLICY w.
Proof.
  unfold record_reject, should_log, bump, gets, modify, bind, ret, set_logged, emit, modify. simpl.
  destruct (POLICY w) eqn:Hp; simpl; try done. by destruct (negb _).
Qed.

(** A recorded drop seen by the contract. *)
Lemma session_drop r w st :
  STATS w = drop_stats (count_reject r (STATS (tele st))) -> POLICY w = POLICY (tele st) ->
  session (set_tele w st) = drop_counted r (LOGGED w) (session st).
Proof. intros Hs Hp. unfold session, drop_counted, with_memo, with_counters. simpl. by rewrite Hs, Hp. Qed.

(** A frame delivers one payload. *)
Lemma delivers_unique s ks frame h f plain h' f' plain' :
  ks_inv s ks -> delivers (local_id ks) (view s ks) frame h f plain ->
  delivers (local_id ks) (view s ks) frame h' f' plain' -> plain = plain'.
Proof.
  intros Hi H1 H2. pose proof (open_delivers s ks frame _ _ _ stats_init Hi H1) as E1.
  pose proof (open_delivers s ks frame _ _ _ stats_init Hi H2) as E2. congruence.
Qed.

Lemma open_conforms base frame n ptrs cap st :
  match frame with Some mem => Forall is_u8 mem | None => True end ->
  ffi_inv base st -> conforms (COpen frame n ptrs cap) st.
Proof.
  intros Hu Hi. unfold conforms, perform, lunet_paxe_open, bind at 1.
  pose proof (buf_in_u8 frame n "frame" (slice frame n) Hu) as Hu8.
  reject_arg (buf_in_cases frame n "frame"). specialize (Hu8 E).
  destruct (p_out_len ptrs) as [l0|] eqn:H1, (p_from_id ptrs) as [f0|] eqn:H2,
    (p_channel ptrs) as [c0|] eqn:H3, (p_mode ptrs) as [m0|] eqn:H4;
    try (by apply (by_refusal (COpen frame n ptrs cap)); [simpl; tauto|simpl; tauto|]).
  reject_arg (buf_out_cases (p_out ptrs) cap "payload output").
  assert (Hok : ~ bad_argument (COpen frame n ptrs cap)).
  { simpl. rewrite H1, H2, H3, H4. intros [?|[?|[?|[?|[?|?]]]]]; done. }
  run. destruct (STORE st) as [ks|] eqn:Hs; cycle 1.
  { apply by_contract; [apply ct_open_unconfigured; [done|]; simpl; by rewrite Hs|].
    intros (_ & me & m & h & f & plain & Hx & _). simpl in Hx. by rewrite Hs in Hx. }
  pose proof (store_inv base st ks Hi Hs) as Hki. pose proof (session_identity st ks Hs) as Hid. simpl.
  destruct (dispatch_cases (sys st) ks (slice frame n) (tele st) Hki Hu8)
    as [(h & f & plain & Hd & ->)|(Hnot & e & He & ->)].
  - destruct (Z.ltb_spec (len (slice (p_out ptrs) cap)) (len plain)) as [Hshort|Hroom].
    + apply by_departure; [by apply (dp_open frame n ptrs cap (session st))|]. split; [done|].
      by eexists _, _, h, f, plain.
    + rewrite (copy_out_slice (p_out ptrs) cap plain Hroom).
      apply (by_contract _ _ _ _ (ct_open frame n ptrs cap (session st) _ _ h f plain Hok Hid Hd Hroom)).
      intros (_ & me' & m' & h' & f' & plain' & Hid' & Hd' & ?). rewrite Hid in Hid'. simplify_eq.
      rewrite (delivers_unique _ _ _ _ _ _ _ _ _ Hki Hd Hd') in *. lia.
  - assert (Hno : ~ departure (COpen frame n ptrs cap) (session st)).
    { intros (_ & me' & m' & h' & f' & plain' & Hid' & Hd' & _). rewrite Hid in Hid'. simplify_eq.
      by apply Hnot in Hd'. }
    pose proof (fun l => by_contract _ _ _ _ (ct_open_drop frame n ptrs cap (session st) _ _ l Hok Hid Hnot) Hno) as Hc.
    set (r := open_reason _ _ _) in *. pose proof (record_reject_stats r (tele st)) as Hw.
    pose proof (reject_policy r (tele st)) as Hp.
    destruct (record_reject r (tele st)) as [[] w]. cbn [snd] in *.
    specialize (Hc (LOGGED w)).
    rewrite <- (session_drop r (record_rx_drop w).2) in Hc; [|simpl; by rewrite Hw|done].
    destruct e; try (exfalso; by eapply He); exact Hc.
Qed.

Lemma gate_conforms frame n st : conforms (CFrameForUs frame n) st.
Proof.
  unfold conforms, perform, lunet_paxe_frame_for_us, bind at 1.
  reject_arg (buf_in_cases frame n "frame").
  assert (Hok : ~ bad_argument (CFrameForUs frame n)) by done.
  run. destruct (STORE st) as [ks|] eqn:Hs; cycle 1.
  { assert (Hid : identity (session st) = None) by (simpl; by rewrite Hs).
    destruct (decide (drop_counted Plaintext (memo (session st)) (session st) = session st)) as [Heq|Hne].
    - apply by_contract; [|by intros (_ & _ & ?)].
      pose proof (ct_gate_not_ours frame n (session st) (memo (session st)) Hok) as Hc.
      rewrite Hid, Heq in Hc. by apply Hc.
    - by apply by_departure; [constructor|]. }
  pose proof (session_identity st ks Hs) as Hid.
  assert (Hno : ~ departure (CFrameForUs frame n) (session st)) by (intros (_ & Hx & _); congruence).
  pose proof (gate_test (slice frame n) (local_id ks)) as Hg. cbv zeta. destruct (_ && _).
  - apply by_contract; [|done]. apply (ct_gate_ours frame n _ _ _ Hok Hid), Hg. done.
  - pose proof (fun l => ct_gate_not_ours frame n (session st) l Hok) as Hc. rewrite Hid in Hc.
    simpl. set (w1 := MkStatsState _ _ _ _).
    pose proof (record_reject_stats Plaintext w1) as Hw. pose proof (reject_policy Plaintext w1) as Hp.
    destruct (record_reject Plaintext w1) as [[] w2]. cbn [snd] in *.
    specialize (Hc (LOGGED w2) ltac:(by intros ?%Hg)).
    rewrite <- (session_drop Plaintext w2) in Hc; [by apply by_contract|by rewrite Hw|done].
Qed.

Lemma stats_conforms out cap st : conforms (CStats out cap) st.
Proof.
  apply keeps_conforms; [simpl; tauto|]. unfold keeps, perform, lunet_paxe_stats, snapshot. run.
  pose proof (ct_stats out cap (session st)) as Hc. unfold PAXE_STATS_FIELDS in Hc.
  change (len (fields (STATS (tele st)))) with 13.
  destruct (Z.eqb_spec cap 0) as [->|Hne]; [by destruct out|].
  assert (take (Z.to_nat (Z.min 13 cap)) (fields (STATS (tele st))) = take (Z.to_nat cap) (fields (STATS (tele st)))) as ->;
    [|exact Hc].
  destruct (Z.le_gt_cases cap 13); [by rewrite Z.min_r by lia|].
  rewrite Z.min_l by lia. rewrite (take_ge _ (Z.to_nat cap)); [done|]. simpl. lia.
Qed.

Lemma policy_conforms name n st : conforms (CFailPolicySet name n) st.
Proof.
  apply keeps_conforms; [simpl; tauto|]. unfold keeps, perform, lunet_paxe_fail_policy_set, bind at 1.
  reject_arg (buf_in_cases name n "policy name").
  destruct (from_utf8 (slice name n)) as [cs|] eqn:H1; cycle 1.
  { apply (ct_bad_argument (CFailPolicySet name n)); [|done]. simpl. tauto. }
  destruct (from_name (string_of_bytes (slice name n))) as [p|] eqn:H2; cycle 1.
  { apply (ct_bad_argument (CFailPolicySet name n)); [|done]. simpl. tauto. }
  run. unfold set_policy, reset_log_once_memo, set_logged. run.
  destruct (decide (p = LogOnce));
    (apply (ct_policy name n (session st) p); [|done]); intros [?|[?|?]]; congruence.
Qed.

Lemma last_error_conforms l st : conforms (CLastError l) st.
Proof.
  unfold conforms, perform, lunet_paxe_last_error. run.
  destruct (decide (LAST_ERROR st = "")) as [He|He].
  - apply by_departure; [|done]. rewrite He. apply dp_last_error.
  - by apply by_contract; [apply (ct_last_error l (session st))|].
Qed.

Lemma perform_conforms base c st : wf_call c -> ffi_inv base st -> conforms c st.
Proof.
  intros Hc Hi. destruct c; simpl in Hc.
  - apply init_conforms.
  - apply set_local_id_conforms.
  - apply shutdown_conforms.
  - destruct Hc. by apply (keystore_set_conforms base).
  - destruct Hc. by apply (retire_conforms base).
  - by apply (clear_conforms base).
  - by apply (seal_conforms base).
  - by apply (open_conforms base).
  - apply gate_conforms.
  - apply stats_conforms.
  - apply policy_conforms.
  - apply last_error_conforms.
Qed.

Lemma perform_all_converse base calls st :
  Forall wf_call calls -> ffi_inv base st ->
  let '(log, st') := perform_all calls st in
  log.*1 = calls /\ converse (session st) log (session st') /\ ffi_inv base st'.
Proof.
  intros Hc. revert st. induction Hc as [|c calls Hc _ IH]; intros st Hi.
  { split_and!; [done|constructor|done]. }
  cbn [perform_all]. unfold bind, ret. pose proof (perform_conforms base c st Hc Hi) as H1.
  pose proof (exec_inv base c st Hc Hi) as H2. rewrite <- perform_exec in H2. unfold conforms in H1.
  destruct (perform c st) as [a st1]. specialize (IH st1 H2).
  destruct (perform_all calls st1) as [log st2]. destruct IH as (Hl & Hcv & Hi2).
  split_and!; [by rewrite <- Hl|by econstructor|done].
Qed.




End Refinement.

(** ** What a host may conclude *)

(** The key table as the host can keep it: from its own calls and the codes it
    got back. *)
Definition event (i : option (Z * Keys)) (ca : Call * Answer) : option (Z * Keys) :=
  match ca with
  | (CSetLocalId id, Status 0) => Some (id, ∅)
  | (CShutdown, _) => None
  | (CKeystoreSet peer epoch key n, Status 0) =>
      (fun '(me, m) => (me, <[(peer, MkEpoch epoch) := slice key n]> m)) <$> i
  | (CKeystoreRetire peer epoch, Status 0) =>
      (fun '(me, m) => (me, delete (peer, MkEpoch epoch) m)) <$> i
  | (CKeystoreClear, _) => (fun '(me, _) => (me, ∅)) <$> i
  | _ => i
  end.

Definition host_keys (log : list (Call * Answer)) : option (Z * Keys) := foldl event None log.

(** A step that takes slot [(peer, e)] away or replaces its key. *)
Definition ends_slot (peer : Z) (e : Epoch) (ca : Call * Answer) : Prop :=
  match ca with
  | (CSetLocalId _, Status 0) | (CShutdown, _) | (CKeystoreClear, _) => True
  | (CKeystoreSet p b _ _, Status 0) | (CKeystoreRetire p b, Status 0) => p = peer /\ MkEpoch b = e
  | _ => False
  end.

Section Hosts.
Context `{Libsodium}.

Lemma contract_event c S a S' : contract c S a S' -> identity S' = event (identity S) (c, a).
Proof.
  intros Hc. destruct Hc; simpl; try done.
  - by destruct c.
  - by match goal with Hi : identity _ = _ |- _ => rewrite Hi end.
  - match goal with Hi : identity _ = _ |- _ => rewrite Hi end. simpl.
    case_decide as Hd; simpl; [done|]. rewrite delete_id; [done|]. by apply eq_None_not_Some.
  - by match goal with Hs : sealing _ _ _ _ _ _ _ _ _ |- _ => destruct Hs end.
Qed.

Lemma allowed_event c S a S' : allowed c S a S' -> identity S' = event (identity S) (c, a).
Proof.
  intros [[Hc _]|[Hd _]]; [by apply contract_event|]. destruct Hd; try done.
  by match goal with Hs : sealing _ _ _ _ _ _ _ _ _ |- _ => destruct Hs end.
Qed.

Lemma converse_app S log1 log2 S2 :
  converse S (log1 ++ log2) S2 <-> exists S1, converse S log1 S1 /\ converse S1 log2 S2.
Proof.
  revert S. induction log1 as [|[c a] log1 IH]; intros S; simpl.
  - split; [intros Hc; exists S; split; [constructor|done]|].
    intros (S1 & Hn & Hc). by inversion Hn; subst.
  - split.
    + intros Hx. inversion Hx as [|? S1 ? ? ? ? Hc Hr]; subst. apply IH in Hr as (S3 & Hr & Hr').
      exists S3. split; [by econstructor|done].
    + intros (S3 & Hx & Hr'). inversion Hx as [|? S1 ? ? ? ? Hc Hr]; subst. econstructor; [done|].
      apply IH. eauto.
Qed.

Lemma converse_keys S log S' : converse S log S' -> identity S' = foldl event (identity S) log.
Proof.
  induction 1 as [|S S1 S2 c a rest Hc _ IH]; [done|]. cbn [foldl]. by rewrite <- (allowed_event _ _ _ _ Hc).
Qed.

(** A key of the table was installed by a call that nothing has undone. *)
Lemma host_key_installed log me m peer e k :
  host_keys log = Some (me, m) -> m !! (peer, e) = Some k ->
  exists before key n after,
    log = before ++ (CKeystoreSet peer (bits e) key n, Status PAXE_OK) :: after /\
    slice key n = k /\ Forall (fun ca => ~ ends_slot peer e ca) after.
Proof.
  revert me m. induction log as [|[c a] log IH] using rev_ind; intros me m; [done|].
  unfold host_keys. rewrite foldl_snoc. fold (host_keys log). intros Hh Hk.
  assert (Hkeep : forall m0, host_keys log = Some (me, m0) -> m0 !! (peer, e) = Some k ->
    ~ ends_slot peer e (c, a) -> exists before key n after,
    log ++ [(c, a)] = before ++ (CKeystoreSet peer (bits e) key n, Status PAXE_OK) :: after /\
    slice key n = k /\ Forall (fun ca => ~ ends_slot peer e ca) after).
  { intros m0 Hm0 Hk0 Hne. destruct (IH me m0 Hm0 Hk0) as (b & key & n & af & -> & Hs & Hf).
    exists b, key, n, (af ++ [(c, a)]). split_and!; [by rewrite <- app_assoc|done|].
    apply Forall_app. split; [done|]. by repeat constructor. }
  destruct c, a as [[]| | | | |]; simpl in Hh;
    try (apply (Hkeep m Hh Hk); simpl; tauto); try done;
    try (destruct (host_keys log) as [[me0 m0]|] eqn:Hl; [|done]); simplify_eq/=.
  - destruct (decide ((peer0, MkEpoch epoch) = (peer, e))) as [Heq|Hne].
    + simplify_eq. rewrite lookup_insert_eq in Hk. simplify_eq.
      exists log, key, key_len, []. by split_and!.
    + rewrite lookup_insert_ne in Hk by done. apply (Hkeep m0); [done..|]. by intros [-> <-].
  - destruct (decide ((peer0, MkEpoch epoch) = (peer, e))) as [Heq|Hne].
    + simplify_eq. by rewrite lookup_delete_eq in Hk.
    + rewrite lookup_delete_ne in Hk by done. apply (Hkeep m0); [done..|]. by intros [-> <-].
Qed.


(** The answer to an [open], read off the session it was made in. *)
Lemma open_inv_allowed frame n ptrs cap S rc ptrs' S' :
  allowed (COpen frame n ptrs cap) S (Opened rc ptrs') S' ->
  (rc = PAXE_OK ->
   exists me m h f plain, identity S = Some (me, m) /\ delivers me m (slice frame n) h f plain /\
     ptrs' = MkPtrs ((fun mem => plain ++ drop (length plain) mem) <$> p_out ptrs)
       (Some (len plain)) (Some (from_id h)) (Some (Codec.channel h)) (Some (mode_code (mode f)))) /\
  (rc <> PAXE_OK -> ptrs' = ptrs).
Proof.
  intros [[Hc _]|[Hc _]]; inversion Hc; subst; try by split.
  split; [|done]. intros _. by eexists _, _, _, _, _.
Qed.

Lemma delivers_key me m frame h f plain :
  delivers me m frame h f plain -> exists key, m !! (from_id h, epoch f) = Some key.
Proof. intros [(key & nonce & A)|(key & en & dek & bn & A)]; destruct A; by eexists. Qed.

End Hosts.

Section Guarantee.
Context `{AS : AeadSpec, GH : !GuardedHeapSpec}.

(** C11: what a host may rely on: after any calls from a freshly loaded module,
    when [lunet_paxe_open] returns [PAXE_OK] the frame authenticated for this
    node under a key that one of the host's own [keystore_set] calls installed
    for the reported sender and that no later call retired, replaced, cleared or
    shut down, and the reported sender, channel, mode and payload are the
    authenticated ones; with any other code nothing behind any pointer was
    written. *)
Theorem opened_by_live_key calls s frame n ptrs cap :
  Forall wf_call (calls ++ [COpen frame n ptrs cap]) ->
  let '(before, st) := perform_all calls (fresh_module s) in
  let '(rc, ptrs') := (lunet_paxe_open frame n ptrs cap st).1 in
  (rc <> PAXE_OK -> ptrs' = ptrs) /\
  (rc = PAXE_OK ->
   exists me m h f plain old key k_len mid,
     host_keys before = Some (me, m) /\ delivers me m (slice frame n) h f plain /\
     ptrs' = MkPtrs ((fun mem => plain ++ drop (length plain) mem) <$> p_out ptrs)
       (Some (len plain)) (Some (from_id h)) (Some (Codec.channel h)) (Some (mode_code (mode f))) /\
     before = old ++ (CKeystoreSet (from_id h) (bits (epoch f)) key k_len, Status PAXE_OK) :: mid /\
     m !! (from_id h, epoch f) = Some (slice key k_len) /\
     Forall (fun ca => ~ ends_slot (from_id h) (epoch f) ca) mid).
Proof.
  intros [Hcs Hc%Forall_inv]%Forall_app.
  pose proof (perform_all_converse (heap s) calls (fresh_module s) Hcs (fresh_inv s)) as Hx.
  destruct (perform_all calls (fresh_module s)) as [before st]. destruct Hx as (_ & Hcv & Hi).
  apply converse_keys in Hcv. pose proof (perform_conforms _ _ st Hc Hi) as Hk.
  unfold conforms, perform, bind, ret in Hk.
  destruct (lunet_paxe_open frame n ptrs cap st) as [[rc ptrs'] st']. cbn [fst].
  destruct (open_inv_allowed _ _ _ _ _ _ _ _ Hk) as [Hok Hno]. split; [done|]. intros Hrc.
  destruct (Hok Hrc) as (me & m & h & f & plain & Hid & Hd & Hp). rewrite Hcv in Hid.
  destruct (delivers_key _ _ _ _ _ _ Hd) as [k Hlk].
  destruct (host_key_installed before me m _ _ k Hid Hlk) as (old & key & kn & mid & -> & <- & Hf).
  by exists me, m, h, f, plain, old, key, kn, mid.
Qed.

End Guarantee.

(** ** Witnesses *)




(** The calls of the demo session up to its first [open]. *)
Lemma opened_by_live_key_witness :
  let before := (perform_all (take 3 demo_session) (fresh_module toy_state)).1 in
  exists h f old key k_len mid,
    before = old ++ (CKeystoreSet (from_id h) (bits (epoch f)) key k_len, Status PAXE_OK) :: mid /\
    from_id h = 100 /\ Forall (fun ca => ~ ends_slot (from_id h) (epoch f) ca) mid.
Proof.
  pose proof (opened_by_live_key (take 3 demo_session) toy_state (Some demo_frame) 41 (demo_ptrs 41) 41
    (Forall_take _ 4 _ demo_session_wf)) as Hx.
  assert (Ho : (lunet_paxe_open (Some demo_frame) 41 (demo_ptrs 41) 41
      (perform_all (take 3 demo_session) (fresh_module toy_state)).2).1 =
    (PAXE_OK, MkPtrs (Some (demo_payload ++ zeros 37)) (Some 4) (Some 100) (Some 1000) (Some 0))).
  { vm_compute. reflexivity. }
  destruct (perform_all (take 3 demo_session) (fresh_module toy_state)) as [before st]. cbn [snd fst] in *.
  rewrite Ho in Hx. destruct Hx as [_ Hx].
  destruct (Hx eq_refl) as (me & m & h & f & plain & old & key & kn & mid & _ & _ & Hp & Hb & _ & Hf).
  exists h, f, old, key, kn, mid. split; [exact Hb|]. split; [|exact Hf].
  injection Hp as _ _ Hfrom _ _. symmetry. exact Hfrom.
Defined.
