(* ===== verification/TestsFfi.v ===== *)
(** * Unit tests of the C ABI

    The two test modules of [src/ffi.rs] (see [Testing]): they drive the
    exported functions the way a host does, with pointer and length pairs and
    out-pointers.  Each definition has the name of the test function it
    translates; the two node ids are those of [TestsFrames]. *)

From S2P Require Export TestsFrames Ffi.

(** [CStr::from_ptr]: the bytes before the first NUL. *)
Fixpoint c_str (mem : bytes) : bytes :=
  match mem with
  | [] => []
  | b :: rest => if b =? 0 then [] else b :: c_str rest
  end.

Definition version_is_nul_terminated_and_matches_manifest : Test FfiState unit :=
  ptr ← some lunet_paxe_version;
  check (existsb (Z.eqb 0) ptr) ;;
  assert_eq (c_str ptr) (as_bytes (str CARGO_PKG_VERSION)).

Definition CHAN : Z := 137.
Definition KEY : bytes := filled 0x42 32.

(** [s.contains(needle)]. *)
Definition contains (s needle : string) : bool := negb (is_none (String.index 0 needle s)).

Section Tests.
Context `{Libsodium}.

(** A freshly loaded module, after the first draw of the generator. *)
Definition loaded : FfiState := fresh_module (set_draws 1 toy_state).

Definition when_gcm (body : Test FfiState unit) : Test FfiState unit :=
  r ← run (on_sys init); if is_ok r && aes_gcm_available then body else mret tt.

Definition last_error_string : Test FfiState string :=
  '(ptr, len) ← run (lunet_paxe_last_error (Some 0));
  match ptr with
  | Some bytes => if default 0 len =? 0 then mret "" else mret bytes
  | None => mret ""
  end.
Definition last_error_contains (needle : string) : Test FfiState unit :=
  m ← last_error_string; check (contains m needle).

(** [assert_eq!(call, code)]. *)
Definition returns (call : F Z) (code : Z) : Test FfiState unit := rc ← run call; assert_eq rc code.

Definition abi_init_ok : Test FfiState unit := returns (lunet_paxe_init None "") RC_OK.
Definition set_key (peer epoch : Z) (key : bytes) : F Z :=
  lunet_paxe_keystore_set peer epoch (Some key) (len key).

Definition setup_node_a (epoch : Z) : Test FfiState unit :=
  abi_init_ok ;;
  returns (lunet_paxe_set_local_id NODE_A) RC_OK ;;
  returns (set_key NODE_B epoch KEY) RC_OK.

Definition become_node_b (epoch : Z) : Test FfiState unit :=
  _ ← run lunet_paxe_shutdown;
  returns (lunet_paxe_set_local_id NODE_B) RC_OK ;;
  returns (set_key NODE_A epoch KEY) RC_OK.

(** [seal(payload, to_id, channel)]: the code and the buffer cut to
    [out_len]. *)
Definition abi_seal (payload : bytes) (to_id channel : Z) : Test FfiState (Z * bytes) :=
  let out := zeros (len payload + OVERHEAD) in
  '(rc, out, out_len) ← run (lunet_paxe_seal (Some payload) (len payload) to_id channel
                               (Some out) (len out) (Some 0));
  out ← some out; out_len ← some out_len;
  mret (rc, take (Z.to_nat out_len) out).

Definition abi_open (frame : bytes) : Test FfiState (Z * bytes * Z * Z * Z) :=
  let out := zeros (Z.max (len frame) 1) in
  '(rc, p) ← run (lunet_paxe_open (Some frame) (len frame)
                    (MkPtrs (Some out) (Some 0) (Some 0) (Some 0) (Some U32_MAX)) (len out));
  out ← some (p_out p); out_len ← some (p_out_len p); from_id ← some (p_from_id p);
  channel ← some (p_channel p); mode ← some (p_mode p);
  mret (rc, take (Z.to_nat out_len) out, from_id, channel, mode).

Definition seal_code (payload : bytes) (to_id channel code : Z) : Test FfiState unit :=
  '(rc, _) ← abi_seal payload to_id channel; assert_eq rc code.
Definition open_code (frame : bytes) (code : Z) : Test FfiState unit :=
  '(rc, _, _, _, _) ← abi_open frame; assert_eq rc code.

Definition x_byte : bytes := as_bytes (str "x").

Definition constants_are_the_codec_side_values_not_literals : Test FfiState unit :=
  assert_eq lunet_paxe_overhead_standard OVERHEAD ;;
  assert_eq lunet_paxe_overhead_dek DEK_OVERHEAD ;;
  assert_eq lunet_paxe_max_payload_standard MAX_PAYLOAD ;;
  assert_eq lunet_paxe_max_payload_dek DEK_MAX_PAYLOAD ;;
  assert_eq lunet_paxe_overhead_standard 37 ;;
  assert_eq lunet_paxe_overhead_dek 97 ;;
  assert_eq lunet_paxe_max_payload_standard 65470 ;;
  assert_eq lunet_paxe_max_payload_dek 65410.

Definition malformed_arguments_are_rc_inval_with_named_constraints : Test FfiState unit :=
  returns (lunet_paxe_set_local_id 65536) RC_INVAL ;;
  last_error_contains "0-65535" ;;
  returns (lunet_paxe_set_local_id U32_MAX) RC_INVAL ;;
  abi_init_ok ;;
  returns (lunet_paxe_set_local_id NODE_A) RC_OK ;;
  returns (lunet_paxe_set_local_id NODE_A) RC_INVAL ;;
  returns (set_key NODE_B 32 KEY) RC_INVAL ;;
  last_error_contains "0-31" ;;
  returns (lunet_paxe_keystore_set NODE_B 3 (Some KEY) 31) RC_INVAL ;;
  last_error_contains "exactly 32 bytes" ;;
  returns (set_key 70000 3 KEY) RC_INVAL ;;
  seal_code x_byte NODE_B 99 RC_INVAL ;;
  last_error_contains "reserved" ;;
  '(rc, _, _) ← run (lunet_paxe_seal None 5 NODE_B CHAN (Some (zeros 128)) 128 (Some 0));
  assert_eq rc RC_INVAL ;;
  returns (lunet_paxe_keystore_retire NODE_B 200) RC_INVAL.

Definition ffi_seal_is_standard_at_every_payload_size : Test FfiState unit :=
  when_gcm (
    setup_node_a 3 ;;
    let payload63 := range 63 in
    '(rc, frame63) ← abi_seal payload63 NODE_B CHAN;
    assert_eq rc RC_OK ;;
    assert_eq (len frame63) (63 + 37) ;;
    flags63 ← at_index frame63 8;
    assert_eq (Z.land flags63 0x01) 0 ;;
    let payload64 := range 64 in
    '(rc, frame64) ← abi_seal payload64 NODE_B CHAN;
    assert_eq rc RC_OK ;;
    assert_eq (len frame64) (64 + 37) ;;
    flags64 ← at_index frame64 8;
    assert_eq (Z.land flags64 0x01) 0 ;;
    assert_eq (Z.shiftr flags64 3) 3 ;;
    become_node_b 3 ;;
    opened ← abi_open frame63;
    assert_eq opened (RC_OK, payload63, NODE_A, CHAN, 0) ;;
    '(rc, plain, from_id, _, mode) ← abi_open frame64;
    assert_eq (rc, plain, from_id, mode) (RC_OK, payload64, NODE_A, 0)).

Definition seal_uses_the_newest_installed_epoch : Test FfiState unit :=
  when_gcm (
    setup_node_a 1 ;;
    let payload := zeros 10 in
    let seals_under e :=
      '(rc, frame) ← abi_seal payload NODE_B CHAN;
      assert_eq rc RC_OK ;;
      b ← at_index frame 8; assert_eq (Z.shiftr b 3) e in
    seals_under 1 ;;
    returns (set_key NODE_B 6 (filled 0x77 32)) RC_OK ;;
    seals_under 6 ;;
    returns (lunet_paxe_keystore_retire NODE_B 6) RC_OK ;;
    seals_under 1 ;;
    returns (lunet_paxe_keystore_retire NODE_B 6) RC_OK_ABSENT ;;
    returns (lunet_paxe_keystore_retire NODE_B 1) RC_OK ;;
    seal_code payload NODE_B CHAN RC_ERR ;;
    last_error_contains "no key installed").

Definition every_open_failure_collapses_to_one_opaque_drop : Test FfiState unit :=
  when_gcm (
    open_code (as_bytes (str "whatever")) RC_DROP ;;
    setup_node_a 3 ;;
    let payload := filled 0x55 40 in
    '(rc, frame) ← abi_seal payload NODE_B CHAN;
    assert_eq rc RC_OK ;;
    become_node_b 3 ;;
    c1 ← xor_at frame 30 0x01;
    c2 ← xor_at frame 1 0x01;
    c3 ← set_at frame 8 0x00;
    c4 ← slice_of frame 0 (len frame - 1);
    for_each [c1; c2; c3; c4; zeros 4; []] (fun bad =>
      returns (lunet_paxe_set_local_id NODE_A) RC_INVAL ;;
      before ← last_error_string;
      open_code bad RC_DROP ;;
      after ← last_error_string;
      assert_eq after before) ;;
    '(rc, plain, _, _, _) ← abi_open frame;
    assert_eq rc RC_OK ;;
    assert_eq plain payload).

Definition seal_operational_failures_are_rc_err_and_oversize_is_named : Test FfiState unit :=
  when_gcm (
    abi_init_ok ;;
    seal_code x_byte NODE_B CHAN RC_ERR ;;
    last_error_contains "set_local_id" ;;
    returns (lunet_paxe_set_local_id NODE_A) RC_OK ;;
    seal_code x_byte NODE_B CHAN RC_ERR ;;
    last_error_contains "no key installed" ;;
    returns (set_key NODE_B 3 KEY) RC_OK ;;
    seal_code (zeros (MAX_PAYLOAD + 1)) NODE_B CHAN RC_ERR ;;
    last_error_contains "standard-mode maximum of 65470" ;;
    '(rc, frame) ← abi_seal (zeros MAX_PAYLOAD) NODE_B CHAN;
    assert_eq rc RC_OK ;;
    assert_eq (len frame) 65507).

Definition keystore_clear_and_shutdown_drop_all_state : Test FfiState unit :=
  when_gcm (
    setup_node_a 3 ;;
    returns lunet_paxe_keystore_clear RC_OK ;;
    seal_code x_byte NODE_B CHAN RC_ERR ;;
    returns (set_key NODE_B 3 KEY) RC_OK ;;
    _ ← run lunet_paxe_shutdown;
    seal_code x_byte NODE_B CHAN RC_ERR ;;
    open_code x_byte RC_DROP ;;
    returns (lunet_paxe_set_local_id NODE_B) RC_OK ;;
    seal_code x_byte NODE_A CHAN RC_ERR ;;
    last_error_contains "no key installed" ;;
    run lunet_paxe_shutdown).

(** *** Counters at the boundary *)

Definition stats_snapshot : Test FfiState Stats := run (on_tele snapshot).

Definition assert_invariant (s : Stats) : Test FfiState unit :=
  assert_eq (rx_total s) (rx_ok s + reject_sum s).

(** From [before] to [after]: one more received, none opened, and exactly this
    reason's counter moved. *)
Definition counted_once (before after : Stats) (reason : RejectReason) : Test FfiState unit :=
  assert_eq (rx_total after - rx_total before) 1 ;;
  assert_eq (rx_ok after - rx_ok before) 0 ;;
  for_each ALL (fun r =>
    let moved := reject after r - reject before r in
    if decide (r = reason) then assert_eq moved 1 else assert_eq moved 0) ;;
  assert_invariant after.

Definition assert_one_drop (frame : bytes) (reason : RejectReason) : Test FfiState unit :=
  before ← stats_snapshot;
  open_code frame RC_DROP ;;
  after ← stats_snapshot;
  counted_once before after reason.

Definition datagram_to (to_id n flags : Z) : Test FfiState bytes :=
  d ← copy_at (zeros n) 2 (to_be_bytes 2 to_id);
  if 8 <? n then set_at d 8 flags else mret d.

Definition gate (frame : bytes) : F Z := lunet_paxe_frame_for_us (Some frame) (len frame).

(** The arm of the exhaustive match for one reason. *)
Definition trigger (frame63 frame63_e4 : bytes) (reason : RejectReason) : Test FfiState unit :=
  match reason with
  | Plaintext =>
      become_node_b 3 ;;
      d ← datagram_to 0x270F 40 0x04;
      before ← stats_snapshot;
      returns (gate d) 0 ;;
      after ← stats_snapshot;
      counted_once before after reason
  | RTooShort =>
      become_node_b 3 ;;
      assert_one_drop (as_bytes (str "1234")) reason ;;
      short_dek ← set_at (zeros 37) 8 0x1D;
      assert_one_drop short_dek reason
  | BadFlags =>
      become_node_b 3 ;;
      bad_flags ← set_at (zeros 37) 8 0x00;
      assert_one_drop bad_flags reason
  | LenMismatch =>
      become_node_b 3 ;;
      d ← set_at (zeros 36) 2 (Z.shiftr NODE_B 8);
      d ← set_at d 3 (Z.land NODE_B 0xFF);
      short_std ← set_at d 8 0x1C;
      assert_one_drop short_std reason
  | NoPeer =>
      _ ← run lunet_paxe_shutdown;
      returns (lunet_paxe_set_local_id 300) RC_OK ;;
      no_peer ← copy_at frame63 2 (to_be_bytes 2 300);
      assert_one_drop no_peer reason
  | NoEpoch =>
      become_node_b 3 ;;
      assert_one_drop frame63_e4 reason
  | RAuthFailed =>
      become_node_b 3 ;;
      forged_ct ← xor_at frame63 30 0x01;
      assert_one_drop forged_ct reason
  end.

Definition every_reject_reason_counts_exactly_once_and_the_invariant_holds : Test FfiState unit :=
  when_gcm (
    before ← stats_snapshot;
    open_code (as_bytes (str "whatever")) RC_DROP ;;
    after ← stats_snapshot;
    assert_eq (rx_total after - rx_total before) 0 ;;
    assert_eq (reject_sum after - reject_sum before) 0 ;;
    setup_node_a 3 ;;
    let payload40 := filled 0x55 40 in
    '(rc, frame63) ← abi_seal payload40 NODE_B CHAN;
    assert_eq rc RC_OK ;;
    returns (set_key NODE_B 4 KEY) RC_OK ;;
    '(rc, frame63_e4) ← abi_seal payload40 NODE_B CHAN;
    assert_eq rc RC_OK ;;
    b ← at_index frame63_e4 8;
    assert_eq (Z.shiftr b 3) 4 ;;
    for_each ALL (trigger frame63 frame63_e4) ;;
    before ← stats_snapshot;
    '(rc, plain, _, _, _) ← abi_open frame63;
    assert_eq rc RC_OK ;;
    assert_eq plain payload40 ;;
    after ← stats_snapshot;
    assert_eq (rx_total after - rx_total before) 1 ;;
    assert_eq (rx_ok after - rx_ok before) 1 ;;
    assert_invariant after).

Definition tx_counters_split_by_mode_and_count_oversize : Test FfiState unit :=
  when_gcm (
    setup_node_a 3 ;;
    before ← stats_snapshot;
    seal_code (zeros 63) NODE_B CHAN RC_OK ;;
    seal_code (zeros 64) NODE_B CHAN RC_OK ;;
    seal_code (zeros (MAX_PAYLOAD + 1)) NODE_B CHAN RC_ERR ;;
    after ← stats_snapshot;
    assert_eq (tx_total after - tx_total before) 2 ;;
    assert_eq (tx_standard after - tx_standard before) 2 ;;
    assert_eq (tx_dek after - tx_dek before) 0 ;;
    assert_eq (tx_oversize after - tx_oversize before) 1 ;;
    assert_eq (rx_total after - rx_total before) 0 ;;
    before ← stats_snapshot;
    seal_code x_byte 300 CHAN RC_ERR ;;
    after ← stats_snapshot;
    assert_eq (tx_total after - tx_total before) 0 ;;
    assert_eq (tx_oversize after - tx_oversize before) 0).

Definition stats_ffi_probe_sizes_and_writes_the_pinned_order : Test FfiState unit :=
  '(n, _) ← run (lunet_paxe_stats None 0);
  assert_eq n SNAPSHOT_FIELD_COUNT ;;
  assert_eq n 13 ;;
  _ ← run (on_tele record_rx_ok);
  _ ← run (on_tele record_rx_drop);
  _ ← run (on_tele (record_reject NoPeer));
  _ ← run (on_tele (record_tx_sealed Dek));
  '(n2, buf) ← run (lunet_paxe_stats (Some (zeros 16)) 16);
  assert_eq n2 n ;;
  buf ← some buf;
  s ← stats_snapshot;
  written ← slice_of buf 0 (len (fields s));
  assert_eq written (fields s) ;;
  for_each [(0, rx_total s); (1, rx_ok s); (6, reject s NoPeer); (9, tx_total s); (11, tx_dek s)]
    (fun '(i, v) => x ← at_index buf i; assert_eq x v) ;;
  assert_invariant s.

Definition set_fail_policy (name : bytes) : F Z := lunet_paxe_fail_policy_set (Some name) (len name).

Definition fail_policy_set_validates_spellings_and_leaves_state_on_error : Test FfiState unit :=
  for_each ["silent"; "log_once"; "verbose"] (fun good =>
    returns (set_fail_policy (as_bytes (str good))) RC_OK ;;
    p ← run (on_tele policy);
    expected ← some (from_name good);
    assert_eq p expected) ;;
  returns (set_fail_policy (as_bytes (str "loud"))) RC_INVAL ;;
  last_error_contains "silent" ;;
  p ← run (on_tele policy);
  assert_eq p Verbose ;;
  returns (set_fail_policy [0xFF; 0xFE]) RC_INVAL ;;
  returns (set_fail_policy (as_bytes (str "silent"))) RC_OK.

Definition frame_for_us_is_an_explicit_addressing_check_with_its_own_counter : Test FfiState unit :=
  let moved before after r := reject after r - reject before r in
  before ← stats_snapshot;
  d ← datagram_to NODE_A 40 0x04;
  returns (gate d) 0 ;;
  after ← stats_snapshot;
  assert_eq (rx_total after - rx_total before) 0 ;;
  assert_eq (moved before after Plaintext) 0 ;;
  returns (lunet_paxe_set_local_id NODE_A) RC_OK ;;
  before ← stats_snapshot;
  returns (gate d) 1 ;;
  after ← stats_snapshot;
  assert_eq (rx_total after - rx_total before) 0 ;;
  crafted ← datagram_to 0x270F 40 0x04;
  before ← stats_snapshot;
  returns (gate crafted) 0 ;;
  after ← stats_snapshot;
  assert_eq (rx_total after - rx_total before) 1 ;;
  assert_eq (moved before after Plaintext) 1 ;;
  assert_eq (moved before after BadFlags) 0 ;;
  assert_invariant after ;;
  short ← datagram_to NODE_A 8 0x04;
  before ← stats_snapshot;
  returns (gate short) 0 ;;
  after ← stats_snapshot;
  assert_eq (moved before after Plaintext) 1 ;;
  assert_eq (moved before after RTooShort) 0 ;;
  before ← stats_snapshot;
  returns (lunet_paxe_frame_for_us None 9) RC_INVAL ;;
  after ← stats_snapshot;
  assert_eq (rx_total after - rx_total before) 0.

Definition ffi_tests : list (Test FfiState unit) :=
  [version_is_nul_terminated_and_matches_manifest;
   constants_are_the_codec_side_values_not_literals;
   malformed_arguments_are_rc_inval_with_named_constraints;
   ffi_seal_is_standard_at_every_payload_size;
   seal_uses_the_newest_installed_epoch;
   every_open_failure_collapses_to_one_opaque_drop;
   keystore_clear_and_shutdown_drop_all_state;
   every_reject_reason_counts_exactly_once_and_the_invariant_holds;
   tx_counters_split_by_mode_and_count_oversize;
   stats_ffi_probe_sizes_and_writes_the_pinned_order;
   fail_policy_set_validates_spellings_and_leaves_state_on_error;
   frame_for_us_is_an_explicit_addressing_check_with_its_own_counter].

(** The one test with a frame of the largest size. *)
Definition ffi_long_tests : list (Test FfiState unit) :=
  [seal_operational_failures_are_rc_err_and_oversize_is_named].

End Tests.

(** ** The suite *)

(** The C ABI passes the crate's own boundary tests, on an executable
    AES-256-GCM: codes and messages of malformed arguments, epoch selection and
    rotation, the opaque drop of every kind of bad frame, the one reason
    counter each of them moves, the transmit counters, the pinned snapshot
    order, policy spellings, the plaintext gate and shutdown. *)
Lemma ffi_tests_pass :
  forallb (fun t => passes t loaded) (@ffi_tests gcm_sodium) = true /\
  forallb (fun t => passes t loaded) (@ffi_long_tests toy_sodium) = true.
Proof. split; vm_compute; reflexivity. Qed.
