(* ===== verification/Kv.v ===== *)
(** * The six-seven store and its request language: [src/bin/six-seven-server/kv.rs]

    The placement rule ([owner]), the client request parser and the capped
    in-memory store.  [debug_str] is [{s:?}]; which characters outside ASCII it
    prints as they are is a table of the Unicode database, the parameter
    [printable]. *)

From S2P Require Export BTree Text.

Definition MAX_PUT_BYTES : Z := 1024.
Definition MAX_KEYS : Z := 1000000.

Definition owner (key a b : Z) : Z :=
  let '(lower, higher) := if a <=? b then (a, b) else (b, a) in
  if key `mod` 2 =? 1 then lower else higher.

Inductive Op :=
| Get (k : Z)
| Put (k : Z) (v : text)
| Rm (k : Z).

Global Instance Op_eq_dec : EqDecision Op.
Proof. solve_decision. Defined.

Inductive Reply :=
| Value (v : text)
| ROk
| Nil
| RErr (e : text).

Global Instance Reply_eq_dec : EqDecision Reply.
Proof. solve_decision. Defined.

Definition op_key (op : Op) : Z :=
  match op with
  | Get k | Rm k => k
  | Put k _ => k
  end.

(** Lower-case hexadecimal digits, as [\u{..}] prints them. *)
Fixpoint hex_digits (fuel : nat) (n : Z) (acc : text) : text :=
  match fuel with
  | O => acc
  | S fuel =>
      let d := n `mod` 16 in
      let acc := (if d <? 10 then 48 + d else 87 + d) :: acc in
      if n <? 16 then acc else hex_digits fuel (n `div` 16) acc
  end.

Section Parsing.
Context (printable : Z -> bool).

Definition debug_char (c : Z) : text :=
  if c =? 0 then str "\0"
  else if c =? 9 then str "\t"
  else if c =? 10 then str "\n"
  else if c =? 13 then str "\r"
  else if c =? 34 then [92; 34]
  else if c =? 92 then [92; 92]
  else if within 32 126 c || ((0x7F <? c) && printable c) then [c]
  else str "\u{" ++ hex_digits 6 c [] ++ str "}".

Definition debug_str (s : text) : text := [34] ++ (s ≫= debug_char) ++ [34].

Definition parse_key (s : text) : result Z text :=
  let s := trim s in
  match s with
  | [] => Err (str "missing key")
  | _ => ok_or (parse_u64 s) (str "key must be a u64, got " ++ debug_str s)
  end.

(** [Op::parse]. *)
Definition parse (body : text) : result Op text :=
  let body := trim_start body in
  let '(verb, rest) := match split_once is_whitespace body with
                       | Some (v, r) => (v, trim_start r)
                       | None => (body, [])
                       end in
  let verb := to_ascii_uppercase verb in
  if decide (verb = str "GET") then let! k := parse_key rest in Ok (Get k)
  else if decide (verb = str "RM" \/ verb = str "DEL") then let! k := parse_key rest in Ok (Rm k)
  else if decide (verb = str "PUT" \/ verb = str "SET") then
    if MAX_PUT_BYTES <? str_len body then
      Err (str "put of " ++ dec (str_len body) ++ str " bytes exceeds the " ++ dec MAX_PUT_BYTES ++
           str "-byte limit")
    else
      match split_once is_whitespace rest with
      | None => Err (str "PUT needs a key and a value")
      | Some (key, value) => let! k := parse_key key in Ok (Put k value)
      end
  else if decide (verb = []) then Err (str "empty request")
  else Err (str "unknown verb " ++ debug_str verb ++ str "; want GET, PUT or RM").

End Parsing.

(** ** The store *)

Record Store := MkStore { kv_entries : btree Z text }.

Definition store_default : Store := MkStore bt_empty.

Definition store_len (s : Store) : Z := len s.(kv_entries).

Definition execute (op : Op) : St Store Reply := fun s =>
  match op with
  | Get k =>
      match bt_get s.(kv_entries) k with
      | Some v => (Value v, s)
      | None => (Nil, s)
      end
  | Rm k =>
      let s' := MkStore (bt_remove s.(kv_entries) k) in
      match bt_get s.(kv_entries) k with
      | Some _ => (ROk, s')
      | None => (Nil, s')
      end
  | Put k v =>
      if negb (bt_contains s.(kv_entries) k) && (MAX_KEYS <=? len s.(kv_entries)) then
        (RErr (str "keyset estimate at the " ++ dec MAX_KEYS ++
               str "-key ceiling; refusing new keys"), s)
      else (ROk, MkStore (bt_insert s.(kv_entries) k v))
  end.

(** ** Invariant and abstraction *)

Record store_inv (s : Store) : Prop := {
  si_sorted : bt_sorted s.(kv_entries);
  si_capacity : len s.(kv_entries) <= MAX_KEYS;
}.

Definition contents (s : Store) : gmap Z text := to_map s.(kv_entries).

(** The reference semantics: a finite map with a cap on new keys. *)
Definition kv_spec (m : gmap Z text) (op : Op) : Reply * gmap Z text :=
  match op with
  | Get k => (match m !! k with Some v => Value v | None => Nil end, m)
  | Rm k => (match m !! k with Some _ => ROk | None => Nil end, delete k m)
  | Put k v =>
      if decide (m !! k = None /\ MAX_KEYS <= Z.of_nat (size m)) then
        (RErr (str "keyset estimate at the " ++ dec MAX_KEYS ++
               str "-key ceiling; refusing new keys"), m)
      else (ROk, <[k := v]> m)
  end.

Fixpoint kv_spec_run (m : gmap Z text) (ops : list Op) : list Reply * gmap Z text :=
  match ops with
  | [] => ([], m)
  | op :: rest =>
      let '(r, m1) := kv_spec m op in
      let '(rs, m2) := kv_spec_run m1 rest in (r :: rs, m2)
  end.

Fixpoint execute_all (ops : list Op) : St Store (list Reply) :=
  match ops with
  | [] => ret []
  | op :: rest => let* r := execute op in let* rs := execute_all rest in ret (r :: rs)
  end.

Lemma store_default_inv : store_inv store_default.
Proof. split; [constructor|done]. Qed.

Lemma execute_spec op s :
  store_inv s ->
  let '(r, s') := execute op s in store_inv s' /\ (r, contents s') = kv_spec (contents s) op.
Proof.
  intros [Hs Hc]. unfold contents. destruct op as [k|k v|k]; simpl.
  - rewrite to_map_lookup by done. by destruct (bt_get (kv_entries s) k).
  - rewrite to_map_size, to_map_lookup by done. unfold bt_contains.
    pose proof (len_bt_insert (kv_entries s) k v Hs) as Hlen. unfold bt_contains in Hlen.
    pose proof (bt_insert_sorted (kv_entries s) k v Hs).
    destruct (bt_get (kv_entries s) k) as [old|]; cbn [negb andb].
    + rewrite decide_False by naive_solver. cbn [kv_entries]. rewrite to_map_insert by done.
      split; [|done]. split; simpl; [done|lia].
    + destruct (Z.leb_spec MAX_KEYS (len (kv_entries s))).
      * by rewrite decide_True.
      * rewrite decide_False by naive_solver lia. cbn [kv_entries]. rewrite to_map_insert by done.
        split; [|done]. split; simpl; [done|lia].
  - rewrite to_map_lookup by done. pose proof (len_bt_remove (kv_entries s) k Hs).
    destruct (bt_get (kv_entries s) k) as [v|] eqn:Hg; simpl;
      (rewrite to_map_remove by done; split; [|done]; split; simpl; [by apply bt_remove_sorted|lia]).
Qed.

Lemma execute_inv op s : store_inv s -> store_inv (execute op s).2.
Proof. intros Hi. pose proof (execute_spec op s Hi) as Hx. destruct (execute op s). apply Hx. Qed.

Lemma execute_contents op s :
  store_inv s -> (execute op s).1 = (kv_spec (contents s) op).1 /\
  contents (execute op s).2 = (kv_spec (contents s) op).2.
Proof.
  intros Hi. pose proof (execute_spec op s Hi) as Hx. destruct (execute op s) as [r s'].
  destruct Hx as [_ Hx]. by rewrite <- Hx.
Qed.

(** ** Requests as text *)

(** How a client writes a request. *)
Definition render (op : Op) : text :=
  match op with
  | Get k => str "GET " ++ dec k
  | Rm k => str "RM " ++ dec k
  | Put k v => str "PUT " ++ dec k ++ [32] ++ v
  end.

Definition wf_request (op : Op) : Prop :=
  is_u64 (op_key op) /\ str_len (render op) <= MAX_PUT_BYTES.

Lemma dec_not_space k : is_u64 k -> Forall (fun c => is_whitespace c = false) (dec k).
Proof.
  intros Hk. eapply Forall_impl; [by apply dec_digit_chars|]. intros c Hc. by apply digit_char.
Qed.

Lemma dec_nonempty k : is_u64 k -> dec k <> [].
Proof. intros Hk. by destruct (dec_spec k Hk) as (ds & -> & ? & _). Qed.

(** Text that starts with the digits of a key has no leading whitespace. *)
Lemma trim_start_dec k rest : is_u64 k -> trim_start (dec k ++ rest) = dec k ++ rest.
Proof.
  intros Hk. pose proof (dec_not_space k Hk) as Hd. pose proof (dec_nonempty k Hk).
  destruct (dec k) as [|c ds]; [done|]. apply Forall_cons in Hd as [Hc _].
  unfold trim_start. simpl. by rewrite Hc.
Qed.

Lemma parse_key_dec printable k : is_u64 k -> parse_key printable (dec k) = Ok k.
Proof.
  intros Hk. unfold parse_key. rewrite trim_none by (by apply dec_not_space).
  rewrite parse_u64_dec by done. pose proof (dec_nonempty k Hk). by destruct (dec k).
Qed.

Lemma digit_nonneg radix c d : digit radix c = Some d -> 0 <= d.
Proof.
  unfold digit. destruct (within 48 57 c) eqn:E1; [|destruct (within 97 122 c) eqn:E2;
    [|destruct (within 65 90 c) eqn:E3; [|done]]]; rewrite within_spec in *;
    (destruct (_ <? radix); [|done]); intros [= <-]; lia.
Qed.

(** Only an optional sign and digits parse, and the value is in range. *)
Lemma parse_digits_range radix max s acc k :
  0 < radix -> 0 <= acc <= max -> parse_digits radix max s acc = Some k -> 0 <= k <= max.
Proof.
  intros Hr. revert acc. induction s as [|c s IH]; intros acc Ha; simpl; [by intros [= <-]|].
  destruct (digit radix c) as [d|] eqn:Hd; [|done].
  apply digit_nonneg in Hd.
  destruct (Z.leb_spec (acc * radix + d) max); [|done]. apply IH. nia.
Qed.

Lemma from_str_radix_range radix max s k :
  0 < radix -> 0 <= max -> from_str_radix radix max s = Some k -> 0 <= k <= max.
Proof.
  intros Hr Hm. unfold from_str_radix. destruct s as [|c [|c2 rest]]; [done|..].
  - case_match; [done|]. by apply parse_digits_range.
  - case_match; by apply parse_digits_range.
Qed.

Lemma parse_u64_range s k : parse_u64 s = Some k -> is_u64 k.
Proof. apply from_str_radix_range; [lia|width]. Qed.

Lemma parse_key_range printable s k : parse_key printable s = Ok k -> is_u64 k.
Proof.
  unfold parse_key. destruct (trim s); [done|]. unfold ok_or.
  destruct (parse_u64 _) eqn:E; [|done]. intros [= <-]. by apply parse_u64_range in E.
Qed.


(** What an accepted request guarantees. *)
Lemma parse_facts printable body op :
  parse printable body = Ok op ->
  is_u64 (op_key op) /\
  match op with
  | Put _ v => str_len (trim_start body) <= MAX_PUT_BYTES /\
      (exists head, trim_start body = head ++ v) /\ str_len v <= MAX_PUT_BYTES
  | _ => True
  end.
Proof.
  unfold parse. set (b := trim_start body).
  destruct (match split_once is_whitespace b with Some _ => _ | None => _ end) as [verb rest] eqn:Hs.
  repeat case_decide; try done; try (intros (k & Hk & [= <-])%rbind_ok; by apply parse_key_range in Hk).
  destruct (Z.ltb_spec MAX_PUT_BYTES (str_len b)); [done|].
  destruct (split_once is_whitespace rest) as [[key v]|] eqn:Hr; [|done].
  intros (k & Hk & [= <-])%rbind_ok. split; [by apply parse_key_range in Hk|]. split; [done|].
  assert (exists head, b = head ++ v) as [head Hh]; [|split; [by exists head|]].
  - destruct (split_once is_whitespace b) as [[v0 r]|] eqn:Hb; injection Hs as <- <-; [|done].
    apply split_once_spec in Hb as (c1 & -> & _), Hr as (c2 & Hr & _).
    destruct (trim_start_matches_suffix is_whitespace r) as [pre Hpre]. fold (trim_start r) in Hpre.
    exists (v0 ++ c1 :: pre ++ key ++ [c2]). rewrite Hpre, Hr, <- !app_assoc. simpl.
    by rewrite <- !app_assoc.
  - rewrite Hh in *. unfold str_len in *. rewrite as_bytes_app, len_app in *.
    pose proof (len_nonneg (as_bytes head)). lia.
Qed.

(** The value of an accepted PUT is part of the text it came in. *)
Lemma parse_chars printable body k v :
  parse printable body = Ok (Put k v) -> Forall is_char body -> Forall is_char v.
Proof.
  intros Hp Hb. apply parse_facts in Hp as (_ & _ & (head & Hh) & _).
  destruct (trim_start_matches_suffix is_whitespace body) as [pre Hpre]. fold (trim_start body) in Hpre.
  rewrite Hpre, Hh, !Forall_app in Hb. apply Hb.
Qed.

Lemma dec_chars n : is_u64 n -> Forall is_char (dec n).
Proof. intros Hn. eapply Forall_impl; [by apply dec_digit_chars|]. intros c Hc. by apply digit_char. Qed.

(** The one error the store reports. *)
Lemma ceiling_chars :
  Forall is_char (str "keyset estimate at the " ++ dec MAX_KEYS ++ str "-key ceiling; refusing new keys").
Proof. repeat (apply Forall_app; split); apply str_chars || (apply dec_chars; unfold MAX_KEYS; width). Qed.

Lemma owner_sym key a b : a <> b -> owner key a b = owner key b a.
Proof. intros Hab. unfold owner. destruct (Z.leb_spec a b), (Z.leb_spec b a); done || lia. Qed.

(** ** Claims *)

(** placement: for a pair of distinct nodes every key has exactly one home,
    one of the two; the rule does not depend on which node applies it; odd keys
    live on the lower id and even keys on the higher. *)
Theorem owner_partitions key a b :
  a <> b ->
  owner key a b = owner key b a /\
  (owner key a b = a \/ owner key a b = b) /\
  (owner key a b = a <-> owner key a b <> b) /\
  owner key a b = if Z.odd key then Z.min a b else Z.max a b.
Proof.
  intros Hab. split; [by apply owner_sym|]. unfold owner. rewrite Zmod_odd.
  destruct (Z.leb_spec a b), (Z.leb_spec b a), (Z.odd key); simpl; lia.
Qed.

Lemma owner_partitions_witness : owner 67 200 100 = 100 /\ owner 68 200 100 = 200 /\ owner 67 100 200 = owner 67 200 100.
Proof.
  split; [reflexivity|]. split; [reflexivity|].
  apply (owner_partitions 67 100 200). lia.
Defined.

(** C35: the store refines a capped finite map: for every sequence of operations
    from the empty store, the replies and the contents are those of the map;
    the tree stays ordered and never holds more than [MAX_KEYS] keys, and an
    overwrite is admitted even at the ceiling. *)
Theorem store_refines_map ops :
  let '(rs, s) := execute_all ops store_default in
  store_inv s /\ (rs, contents s) = kv_spec_run ∅ ops.
Proof.
  assert (Hgen : forall s, store_inv s -> let '(rs, s') := execute_all ops s in
    store_inv s' /\ (rs, contents s') = kv_spec_run (contents s) ops).
  { induction ops as [|op ops IH]; intros s Hi; [done|]. cbn [execute_all kv_spec_run].
    unfold bind, ret. pose proof (execute_spec op s Hi) as Hx.
    destruct (execute op s) as [r s1]. destruct Hx as [Hi1 Hx]. specialize (IH s1 Hi1).
    destruct (execute_all ops s1) as [rs s2]. destruct IH as [Hi2 IH].
    split; [done|]. by rewrite <- Hx, <- IH. }
  exact (Hgen store_default store_default_inv).
Qed.

(** requests round-trip: every operation on a [u64] key, written as a client
    writes it within the size limit, parses back to itself, whatever the value
    contains: spaces, newlines or nothing at all. *)
Theorem request_roundtrip printable op :
  wf_request op -> parse printable (render op) = Ok op.
Proof.
  intros [Hk Hlen]. unfold parse.
  assert (trim_start (render op) = render op) as -> by (by destruct op).
  destruct op as [k|k v|k]; simpl in Hk.
  - change (render (Get k)) with (str "GET" ++ 32 :: dec k).
    rewrite (split_once_app is_whitespace (str "GET") 32 (dec k)) by (by repeat constructor).
    rewrite <- (app_nil_r (dec k)), trim_start_dec, app_nil_r by done.
    rewrite decide_True by done. by rewrite parse_key_dec.
  - change (render (Put k v)) with (str "PUT" ++ 32 :: dec k ++ 32 :: v) in *.
    rewrite (split_once_app is_whitespace (str "PUT") 32 (dec k ++ 32 :: v)) by (by repeat constructor).
    rewrite trim_start_dec by done. rewrite !decide_False by (vm_compute; naive_solver).
    rewrite decide_True by (left; done). rewrite (proj2 (Z.ltb_ge _ _)) by done.
    rewrite (split_once_app is_whitespace (dec k) 32 v); [|by apply dec_not_space|done].
    by rewrite parse_key_dec.
  - change (render (Rm k)) with (str "RM" ++ 32 :: dec k).
    rewrite (split_once_app is_whitespace (str "RM") 32 (dec k)) by (by repeat constructor).
    rewrite <- (app_nil_r (dec k)), trim_start_dec, app_nil_r by done.
    rewrite decide_False by done. rewrite decide_True by (left; done). by rewrite parse_key_dec.
Qed.

Lemma request_roundtrip_witness :
  parse (fun _ => false) (str "PUT 67   padded  ") = Ok (Put 67 (str "  padded  ")).
Proof.
  apply (request_roundtrip (fun _ => false) (Put 67 (str "  padded  "))).
  split; [vm_compute; by split|]. vm_compute. discriminate.
Defined.

(** what the parser accepts: a parsed operation always has a [u64] key; an
    accepted PUT is at most [MAX_PUT_BYTES] long, and its value is a verbatim
    suffix of the request, so the value is bounded too. *)
Theorem parse_sound printable body op :
  parse printable body = Ok op ->
  is_u64 (op_key op) /\
  match op with
  | Put _ v => str_len (trim_start body) <= MAX_PUT_BYTES /\
      (exists head, trim_start body = head ++ v) /\ str_len v <= MAX_PUT_BYTES
  | _ => True
  end.
Proof. apply parse_facts. Qed.

Lemma parse_sound_witness : is_u64 (op_key (Put 75 [])) /\ str_len [] <= MAX_PUT_BYTES.
Proof.
  destruct (parse_sound (fun _ => false) (str "set 75 ") (Put 75 [])) as (H1 & _ & _ & H2).
  - vm_compute. reflexivity.
  - split; [exact H1|exact H2].
Defined.
