(* ===== verification/Peer.v ===== *)
(** * The node-to-node messages: [src/bin/six-seven-server/peer.rs] *)

From S2P Require Export Kv.

Inductive Peer :=
| Request (corr : Z) (op : Op)
| Response (corr : Z) (reply : Reply).

Global Instance Peer_eq_dec : EqDecision Peer.
Proof. solve_decision. Defined.

Definition encode (p : Peer) : text :=
  match p with
  | Request corr op =>
      let body := match op with
                  | Get k => str "GET " ++ dec k
                  | Rm k => str "RM " ++ dec k
                  | Put k v => str "PUT " ++ dec k ++ str " " ++ v
                  end in
      str "REQ " ++ dec corr ++ str " " ++ body
  | Response corr reply =>
      let body := match reply with
                  | Value v => str "VAL " ++ v
                  | ROk => str "OK"
                  | Nil => str "NIL"
                  | RErr e => str "ERR " ++ e
                  end in
      str "RSP " ++ dec corr ++ str " " ++ body
  end.

(** [splitn(n, sep)]: at most [n] pieces, the last one with what is left. *)
Fixpoint splitn (n : nat) (p : Z -> bool) (s : text) : list text :=
  match n with
  | O => []
  | S O => [s]
  | S n =>
      match split_once p s with
      | Some (a, b) => a :: splitn n p b
      | None => [s]
      end
  end.

Section Decoding.
Context (printable : Z -> bool).

Definition parse_key (s : text) : result Z text :=
  ok_or (parse_u64 (trim s)) (str "key must be a u64, got " ++ debug_str printable s).

(** [split_once(' ').unwrap_or((s, ""))]. *)
Definition cut (s : text) : text * text := default (s, []) (split_once (eq_char 32) s).

Definition decode_request (corr : Z) (rest : text) : result Peer text :=
  let '(verb, tail) := cut rest in
  let verb := to_ascii_uppercase verb in
  let! op :=
    (if decide (verb = str "GET") then let! k := parse_key tail in Ok (Get k)
     else if decide (verb = str "RM") then let! k := parse_key tail in Ok (Rm k)
     else if decide (verb = str "PUT") then
       let '(key, value) := cut tail in
       let! k := parse_key key in Ok (Put k value)
     else Err (str "unknown verb " ++ debug_str printable verb ++ str " in a peer request")) in
  Ok (Request corr op).

Definition decode_response (corr : Z) (rest : text) : result Peer text :=
  let '(tag, body) := cut rest in
  let! reply :=
    (if decide (tag = str "VAL") then Ok (Value body)
     else if decide (tag = str "OK") then Ok ROk
     else if decide (tag = str "NIL") then Ok Nil
     else if decide (tag = str "ERR") then Ok (RErr body)
     else Err (str "unknown response tag " ++ debug_str printable tag)) in
  Ok (Response corr reply).

Definition decode (t : text) : result Peer text :=
  let parts := splitn 3 (eq_char 32) t in
  let kind := default [] (parts !! 0%nat) in
  let! corr_text := ok_or (parts !! 1%nat) (str "missing correlation id") in
  let! corr := ok_or (parse_u64 corr_text) (str "correlation id must be a u64") in
  let rest := default [] (parts !! 2%nat) in
  if decide (kind = str "REQ") then decode_request corr rest
  else if decide (kind = str "RSP") then decode_response corr rest
  else Err (str "unknown peer message kind " ++ debug_str printable kind).

End Decoding.

(** ** Round trip *)

Definition wf_peer (p : Peer) : Prop :=
  match p with
  | Request corr op => is_u64 corr /\ is_u64 (op_key op)
  | Response corr _ => is_u64 corr
  end.

Lemma dec_no_space n : is_u64 n -> Forall (fun c => eq_char 32 c = false) (dec n).
Proof.
  intros Hn. eapply Forall_impl; [by apply dec_digit_chars|]. intros c Hc.
  unfold eq_char. apply Z.eqb_neq. by apply digit_char.
Qed.

Lemma cut_at a b : Forall (fun c => eq_char 32 c = false) a -> cut (a ++ 32 :: b) = (a, b).
Proof. intros Ha. unfold cut. by rewrite split_once_app. Qed.

Lemma cut_none a : Forall (fun c => eq_char 32 c = false) a -> cut a = (a, []).
Proof. intros Ha. unfold cut. by rewrite split_once_none. Qed.

Lemma peer_key_dec printable k : is_u64 k -> parse_key printable (dec k) = Ok k.
Proof.
  intros Hk. unfold parse_key. rewrite trim_none by (by apply dec_not_space).
  by rewrite parse_u64_dec.
Qed.

(** The three fields of an encoded message. *)
Lemma splitn_message kind corr body :
  Forall (fun c => eq_char 32 c = false) kind -> is_u64 corr ->
  splitn 3 (eq_char 32) (kind ++ 32 :: dec corr ++ 32 :: body) = [kind; dec corr; body].
Proof.
  intros Hk Hc. cbn [splitn]. rewrite split_once_app by done.
  by rewrite split_once_app by (done || by apply dec_no_space).
Qed.

Lemma decode_request_ok printable corr op :
  is_u64 (op_key op) -> decode_request printable corr (render op) = Ok (Request corr op).
Proof.
  intros Hk. unfold decode_request. destruct op as [k|k v|k]; simpl in Hk.
  - change (render (Get k)) with (str "GET" ++ 32 :: dec k).
    rewrite cut_at by (by repeat constructor). rewrite decide_True by done.
    by rewrite peer_key_dec.
  - change (render (Put k v)) with (str "PUT" ++ 32 :: dec k ++ 32 :: v).
    rewrite cut_at by (by repeat constructor). rewrite !decide_False by done.
    rewrite decide_True by done. rewrite cut_at by (by apply dec_no_space). by rewrite peer_key_dec.
  - change (render (Rm k)) with (str "RM" ++ 32 :: dec k).
    rewrite cut_at by (by repeat constructor). rewrite decide_False by done.
    rewrite decide_True by done. by rewrite peer_key_dec.
Qed.

(** The text a message carries besides its ids. *)
Definition payload_text (p : Peer) : text :=
  match p with
  | Request _ (Put _ v) | Response _ (Value v) | Response _ (RErr v) => v
  | _ => []
  end.

Lemma encode_chars p :
  wf_peer p ->
  Forall is_char (payload_text p) -> Forall is_char (encode p).
Proof.
  destruct p as [corr [k|k v|k]|corr [v| | |e]]; intros Hw Hv; simpl in Hw, Hv;
    try (destruct Hw as [Hw Hk]); unfold encode; cbv zeta; repeat (apply Forall_app; split);
    first [by apply dec_chars | apply str_chars | done].
Qed.

Lemma encode_len p : wf_peer p -> str_len (encode p) <= 50 + str_len (payload_text p).
Proof.
  assert (Hs : forall s, str_len s >= 0) by (intros; unfold str_len; pose proof (len_nonneg (as_bytes s)); lia).
  destruct p as [corr [k|k v|k]|corr [v| | |e]]; intros Hw; simpl in Hw;
    try (destruct Hw as [Hw Hk%dec_len]); apply dec_len in Hw; cbn [encode payload_text];
    rewrite !str_len_app; repeat match goal with |- context[str_len (str ?x)] =>
      let n := eval vm_compute in (str_len (str x)) in change (str_len (str x)) with n end;
    try change (str_len []) with 0; lia.
Qed.

(** The peer codec: any message survives the wire. *)
Lemma decode_encode printable p : wf_peer p -> decode printable (encode p) = Ok p.
Proof.
  intros Hw. unfold decode. destruct p as [corr op|corr reply]; simpl in Hw.
  - destruct Hw as [Hc Hk].
    replace (encode (Request corr op)) with (str "REQ" ++ 32 :: dec corr ++ 32 :: render op) by (by destruct op).
    rewrite splitn_message by (done || by repeat constructor). cbn [lookup list_lookup default from_option id ok_or rbind].
    rewrite parse_u64_dec by done. cbn [ok_or rbind]. rewrite decide_True by done.
    by apply decode_request_ok.
  - set (body := match reply with Value v => str "VAL" ++ 32 :: v | ROk => str "OK" | Nil => str "NIL"
                 | RErr e => str "ERR" ++ 32 :: e end).
    replace (encode (Response corr reply)) with (str "RSP" ++ 32 :: dec corr ++ 32 :: body) by (by destruct reply).
    rewrite splitn_message by (done || by repeat constructor). cbn [lookup list_lookup default from_option id ok_or rbind].
    rewrite parse_u64_dec by done. cbn [ok_or rbind]. rewrite decide_False, decide_True by done.
    unfold decode_response. destruct reply as [v| | |e].
    + assert (cut body = (str "VAL", v)) as -> by (apply (cut_at (str "VAL")); by repeat constructor). done.
    + assert (cut body = (str "OK", [])) as -> by (apply (cut_none (str "OK")); by repeat constructor). done.
    + assert (cut body = (str "NIL", [])) as -> by (apply (cut_none (str "NIL")); by repeat constructor). done.
    + assert (cut body = (str "ERR", e)) as -> by (apply (cut_at (str "ERR")); by repeat constructor). done.
Qed.

(** A decoded message has a [u64] correlation id. *)
Lemma decode_corr printable t m :
  decode printable t = Ok m -> is_u64 (match m with Request corr _ | Response corr _ => corr end).
Proof.
  unfold decode. intros (ct & _ & (corr & Hc & Hm)%rbind_ok)%rbind_ok.
  assert (is_u64 corr) as Hu.
  { unfold ok_or in Hc. destruct (parse_u64 ct) as [k|] eqn:Hp; [|done]. injection Hc as <-.
    by eapply parse_u64_range. }
  revert Hm. case_decide; [|case_decide; [|done]].
  - unfold decode_request. destruct (cut _). by intros (op & _ & [= <-])%rbind_ok.
  - unfold decode_response. destruct (cut _). by intros (r & _ & [= <-])%rbind_ok.
Qed.

(** ** Claims *)

(** C36: the peer protocol round-trips: every request and response with [u64]
    ids decodes to itself, byte for byte, whatever its value or error text
    contains, spaces, newlines and the empty string included; so distinct
    messages never share an encoding. *)
Theorem peer_roundtrip printable p q :
  wf_peer p -> wf_peer q ->
  decode printable (encode p) = Ok p /\ (encode p = encode q -> p = q).
Proof.
  intros Hp Hq. pose proof (decode_encode printable p Hp) as H1.
  pose proof (decode_encode printable q Hq) as H2. split; [done|].
  intros Heq. rewrite Heq, H2 in H1. by injection H1.
Qed.

Lemma peer_roundtrip_witness :
  decode (fun _ => false) (str "REQ 9 PUT 67 six seven ") = Ok (Request 9 (Put 67 (str "six seven "))).
Proof.
  apply (peer_roundtrip (fun _ => false) (Request 9 (Put 67 (str "six seven "))) (Response 1 ROk)).
  - split; vm_compute; by split.
  - vm_compute. by split.
Defined.
