(* ===== verification/Stomp.v ===== *)
(** * The client framing: [src/bin/six-seven-server/stomp.rs]

    A [BufRead] is the sequence of answers its [fill_buf] will give: data, an
    interrupted call, or a failure; the end of the list is the end of the
    stream.  [consume] drops what was used of the front chunk. *)

From S2P Require Export Text.

Definition MAX_FRAME_BYTES : Z := 8 * 1024.

Record Frame := MkFrame { command : text; headers : list (text * text); body : text }.

Definition header (f : Frame) (name : text) : option text :=
  snd <$> List.find (fun kv => bool_decide (kv.1 = name)) f.(headers).

(** ** Header escaping *)

Definition escape_char (c : Z) : text :=
  if c =? 92 then [92; 92]
  else if c =? 13 then [92; 114]
  else if c =? 10 then [92; 110]
  else if c =? 58 then [92; 99]
  else [c].

Definition escape (s : text) : text := s ≫= escape_char.

Fixpoint unescape (s : text) : text :=
  match s with
  | [] => []
  | c :: rest =>
      if negb (c =? 92) then c :: unescape rest else
      match rest with
      | [] => [92]
      | e :: rest =>
          (if e =? 114 then [13]
           else if e =? 110 then [10]
           else if e =? 99 then [58]
           else if e =? 92 then [92]
           else [92; e]) ++ unescape rest
      end
  end.

(** [Frame::encode]. *)
Definition encode_text (command : text) (headers : list (text * text)) (body : text) : text :=
  command ++ [10] ++ (headers ≫= fun kv => escape kv.1 ++ [58] ++ escape kv.2 ++ [10]) ++ [10] ++ body.

Definition encode (command : text) (headers : list (text * text)) (body : text) : bytes :=
  as_bytes (encode_text command headers body) ++ [0].

(** ** Reading *)

Inductive Fill :=
| Data (bs : bytes)
| Interrupted
| Failed (e : string).

Inductive ReadError :=
| MidFrame
| TooLong
| NotUtf8
| Io (e : string).

(** [available.iter().position(|&b| b == 0)], as the bytes before and after. *)
Fixpoint split_nul (bs : bytes) : option (bytes * bytes) :=
  match bs with
  | [] => None
  | b :: rest =>
      if b =? 0 then Some ([], rest)
      else match split_nul rest with
           | Some (a, r) => Some (b :: a, r)
           | None => None
           end
  end.

(** What [consume] leaves of a partly used chunk. *)
Definition put_back (bs : bytes) (r : list Fill) : list Fill :=
  match bs with [] => r | _ => Data bs :: r end.

(** The reading loop: the bytes up to the next NUL. *)
Fixpoint read_raw (r : list Fill) (raw : bytes) : result (option bytes) ReadError * list Fill :=
  match r with
  | [] => (match raw with [] => Ok None | _ => Err MidFrame end, [])
  | Interrupted :: r' => read_raw r' raw
  | Failed e :: r' => (Err (Io e), r')
  | Data [] :: _ => (match raw with [] => Ok None | _ => Err MidFrame end, r)
  | Data available :: r' =>
      match split_nul available with
      | Some (before, after) => (Ok (Some (raw ++ before)), put_back after r')
      | None =>
          let raw := raw ++ available in
          if MAX_FRAME_BYTES <? len raw then (Err TooLong, r') else read_raw r' raw
      end
  end.

(** The two-character pattern of [split_once], blank line included. *)
Fixpoint split_blank_line (s : text) : option (text * text) :=
  match s with
  | [] => None
  | c :: rest =>
      match rest with
      | d :: rest' =>
          if (c =? 10) && (d =? 10) then Some ([], rest')
          else match split_blank_line rest with
               | Some (a, b) => Some (c :: a, b)
               | None => None
               end
      | [] => None
      end
  end.

Definition parse_header (line : text) : list (text * text) :=
  let line := trim_end_matches (eq_char 13) line in
  match line with
  | [] => []
  | _ => match split_once (eq_char 58) line with
         | Some (k, v) => [(unescape k, unescape v)]
         | None => []
         end
  end.

(** A frame's text, heart-beat newlines already stripped. *)
Definition parse_frame (t : text) : Frame :=
  let '(head, body) := default (t, []) (split_blank_line t) in
  let lines := split (eq_char 10) head in
  let command := trim_end_matches (eq_char 13) (default [] (List.hd_error lines)) in
  MkFrame command (List.tl lines ≫= parse_header) body.

(** [read_frame]: fuel counts the frames skipped as heart-beat filler; every
    one consumes a byte, so the bytes left in the stream are enough. *)
Fixpoint read_frame (fuel : nat) (r : list Fill) : result (option Frame) ReadError * list Fill :=
  match read_raw r [] with
  | (Err e, r') => (Err e, r')
  | (Ok None, r') => (Ok None, r')
  | (Ok (Some raw), r') =>
      match from_utf8 raw with
      | None => (Err NotUtf8, r')
      | Some t =>
          match trim_start_matches (fun c => (c =? 10) || (c =? 13)) t with
          | [] => match fuel with
                  | O => (Ok None, r')
                  | S fuel => read_frame fuel r'
                  end
          | t => (Ok (Some (parse_frame t)), r')
          end
      end
  end.

(** The bytes a stream still holds, and fuel for reading from it. *)
Definition stream (r : list Fill) : bytes :=
  r ≫= fun f => match f with Data bs => bs | _ => [] end.

Definition read (r : list Fill) : result (option Frame) ReadError * list Fill :=
  read_frame (length (stream r)) r.

(** ** The memory a read holds

    [raw] becomes the [String] that [text] borrows from, and the call for the
    next frame is made inside its scope: the buffer of every skipped filler
    frame stays allocated, with its activation, until the read is over. *)

(** What is in [raw] when the reading loop ends, whichever way it does. *)
Fixpoint raw_buffer (r : list Fill) (raw : bytes) : bytes :=
  match r with
  | [] => raw
  | Interrupted :: r' => raw_buffer r' raw
  | Failed _ :: _ => raw
  | Data [] :: _ => raw
  | Data available :: r' =>
      match split_nul available with
      | Some (before, _) => raw ++ before
      | None =>
          let raw := raw ++ available in
          if MAX_FRAME_BYTES <? len raw then raw else raw_buffer r' raw
      end
  end.

(** The buffers alive in the innermost activation of [read_frame], the
    outermost first: one per activation. *)
Fixpoint live_buffers (fuel : nat) (r : list Fill) : list bytes :=
  raw_buffer r [] ::
  match read_raw r [] with
  | (Ok (Some raw), r') =>
      match from_utf8 raw with
      | None => []
      | Some t =>
          match trim_start_matches (fun c => (c =? 10) || (c =? 13)) t with
          | [] => match fuel with
                  | O => []
                  | S fuel => live_buffers fuel r'
                  end
          | _ => []
          end
      end
  | _ => []
  end.

(** Their sizes together. *)
Definition held (bufs : list bytes) : Z := foldr (fun b n => len b + n) 0 bufs.

(** ** Escaping *)

Lemma unescape_char c rest : unescape (escape_char c ++ rest) = c :: unescape rest.
Proof.
  unfold escape_char. destruct (Z.eqb_spec c 92) as [->|H1]; [done|].
  destruct (Z.eqb_spec c 13) as [->|H2]; [done|]. destruct (Z.eqb_spec c 10) as [->|H3]; [done|].
  destruct (Z.eqb_spec c 58) as [->|H4]; [done|]. simpl. by rewrite (proj2 (Z.eqb_neq c 92)).
Qed.

Lemma unescape_escape s : unescape (escape s) = s.
Proof.
  induction s as [|c s IH]; [done|]. change (escape (c :: s)) with (escape_char c ++ escape s).
  by rewrite unescape_char, IH.
Qed.

Lemma escape_Forall (P : Z -> Prop) s :
  P 92 -> P 114 -> P 110 -> P 99 -> Forall (fun c => c = 92 \/ c = 13 \/ c = 10 \/ c = 58 \/ P c) s ->
  Forall P (escape s).
Proof.
  intros H1 H2 H3 H4. induction 1 as [|c s Hc _ IH]; [constructor|].
  apply Forall_app. split; [|done]. unfold escape_char.
  repeat case_match; zbool; repeat constructor; naive_solver.
Qed.

(** Escaped text is on one line and has no colon. *)
Lemma escape_clean s : Forall (fun c => c <> 10 /\ c <> 13 /\ c <> 58) (escape s).
Proof.
  apply escape_Forall; try lia. apply Forall_forall. intros c _.
  destruct (decide (c = 13)), (decide (c = 10)), (decide (c = 58)); auto 10.
Qed.

(** ** Frames as text *)

Definition header_line (kv : text * text) : text := escape kv.1 ++ [58] ++ escape kv.2.

Definition head_text (c : text) (hs : list (text * text)) : text :=
  c ++ (hs ≫= fun kv => 10 :: header_line kv).

Lemma lines_shift hs tl :
  10 :: (hs ≫= fun kv => escape kv.1 ++ [58] ++ escape kv.2 ++ [10]) ++ tl =
  (hs ≫= fun kv => 10 :: header_line kv) ++ 10 :: tl.
Proof.
  induction hs as [|kv hs IH]; [done|]. cbn [mbind list_bind].
  transitivity (10 :: header_line kv ++
    (10 :: (hs ≫= fun kv => escape kv.1 ++ [58] ++ escape kv.2 ++ [10]) ++ tl)).
  - unfold header_line. rewrite <- !app_assoc. done.
  - rewrite IH. cbn [app]. f_equal. by rewrite <- app_assoc.
Qed.

Lemma encode_text_shape c hs b : encode_text c hs b = head_text c hs ++ 10 :: 10 :: b.
Proof.
  unfold encode_text, head_text. rewrite <- app_assoc. f_equal. exact (lines_shift hs (10 :: b)).
Qed.

Definition one_line (s : text) : Prop := Forall (fun c => c <> 10) s.

Lemma header_line_clean kv : one_line (header_line kv) /\ Forall (fun c => c <> 13) (header_line kv).
Proof.
  unfold one_line, header_line. rewrite !Forall_app.
  pose proof (escape_clean kv.1) as H1. pose proof (escape_clean kv.2) as H2.
  split_and!; try (repeat constructor; lia); (eapply Forall_impl; [eassumption|]); simpl; tauto.
Qed.

Lemma split_line s rest : one_line s -> split (eq_char 10) (s ++ 10 :: rest) = s :: split (eq_char 10) rest.
Proof.
  induction 1 as [|c s Hc _ IH]; simpl; [done|]. unfold eq_char at 1.
  rewrite (proj2 (Z.eqb_neq c 10)) by done. by rewrite IH.
Qed.

Lemma split_last s : one_line s -> split (eq_char 10) s = [s].
Proof.
  induction 1 as [|c s Hc _ IH]; simpl; [done|]. unfold eq_char at 1.
  rewrite (proj2 (Z.eqb_neq c 10)) by done. by rewrite IH.
Qed.

Lemma split_head c hs :
  one_line c -> split (eq_char 10) (head_text c hs) = c :: (header_line <$> hs).
Proof.
  unfold head_text. revert c. induction hs as [|kv hs IH]; intros c Hc; simpl.
  { rewrite app_nil_r. by apply split_last. }
  rewrite split_line by done. f_equal. apply IH. apply header_line_clean.
Qed.

Lemma split_blank_cons c d l :
  split_blank_line (c :: d :: l) =
    if (c =? 10) && (d =? 10) then Some ([], l)
    else match split_blank_line (d :: l) with Some (a, b) => Some (c :: a, b) | None => None end.
Proof. done. Qed.

(** The first blank line ends the head. *)
Lemma blank_line_here s b : one_line s -> split_blank_line (s ++ 10 :: 10 :: b) = Some (s, b).
Proof.
  induction 1 as [|c s Hc _ IH]; [done|]. cbn [app].
  destruct (s ++ 10 :: 10 :: b) as [|d l] eqn:E; [by destruct s|].
  rewrite split_blank_cons, (proj2 (Z.eqb_neq c 10)) by done. cbn [andb]. by rewrite IH.
Qed.

Lemma blank_line_later s d rest :
  one_line s -> d <> 10 ->
  split_blank_line (s ++ 10 :: d :: rest) =
    match split_blank_line (d :: rest) with Some (a, b) => Some (s ++ 10 :: a, b) | None => None end.
Proof.
  intros Hs Hd. induction Hs as [|c s Hc _ IH]; cbn [app].
  { by rewrite split_blank_cons, (proj2 (Z.eqb_neq d 10)), andb_false_r by done. }
  destruct (s ++ 10 :: d :: rest) as [|x l] eqn:E; [by destruct s|].
  rewrite split_blank_cons, (proj2 (Z.eqb_neq c 10)) by done. cbn [andb]. rewrite IH.
  by destruct (split_blank_line (d :: rest)) as [[a b]|].
Qed.

Lemma header_line_first kv : exists d rest, header_line kv = d :: rest /\ d <> 10.
Proof.
  destruct (header_line_clean kv) as [H1 _]. destruct (header_line kv) as [|d rest] eqn:E.
  - unfold header_line in E. by destruct (escape kv.1).
  - apply Forall_cons in H1 as [? _]. eauto.
Qed.

Lemma blank_line_head c hs b :
  one_line c -> split_blank_line (head_text c hs ++ 10 :: 10 :: b) = Some (head_text c hs, b).
Proof.
  revert c. induction hs as [|kv hs IH]; intros c Hc.
  { unfold head_text. simpl. rewrite app_nil_r. by apply blank_line_here. }
  assert (head_text c (kv :: hs) = c ++ 10 :: head_text (header_line kv) hs) as -> by done.
  rewrite <- app_assoc. cbn [app].
  destruct (header_line_first kv) as (d & rest & Hd & Hne).
  specialize (IH (header_line kv) (proj1 (header_line_clean kv))).
  unfold head_text in *. rewrite Hd in *. cbn [app] in *.
  rewrite blank_line_later by done. by rewrite IH.
Qed.

Lemma trim_cr s : Forall (fun c => c <> 13) s -> trim_end_matches (eq_char 13) s = s.
Proof.
  intros Hs. unfold trim_end_matches. rewrite trim_start_matches_none; [apply reverse_involutive|].
  apply Forall_reverse. eapply Forall_impl; [exact Hs|]. intros c Hc. by apply Z.eqb_neq.
Qed.

Lemma parse_header_line kv : parse_header (header_line kv) = [kv].
Proof.
  unfold parse_header. rewrite trim_cr by apply header_line_clean.
  destruct (header_line_first kv) as (d & rest & Hd & _). rewrite Hd, <- Hd.
  unfold header_line. cbn [app]. rewrite split_once_app; [|..|done].
  - rewrite !unescape_escape. by destruct kv.
  - eapply Forall_impl; [apply escape_clean|]. intros c (_ & _ & Hc). by apply Z.eqb_neq.
Qed.

(** Parsing an encoded frame. *)
Lemma parse_encode c hs b :
  one_line c -> Forall (fun x => x <> 13) c ->
  parse_frame (encode_text c hs b) = MkFrame c hs b.
Proof.
  intros Hc Hr. unfold parse_frame. rewrite encode_text_shape, blank_line_head by done.
  cbn [default from_option id]. rewrite split_head by done. cbn [List.hd_error List.tl default from_option id].
  rewrite trim_cr by done. f_equal. induction hs as [|kv hs IH]; [done|].
  cbn [fmap list_fmap mbind list_bind]. rewrite parse_header_line. cbn [app]. by f_equal.
Qed.

(** ** Reading from a stream *)

(** A stream that neither fails nor ends early; interruptions are allowed. *)
Definition steady (r : list Fill) : Prop :=
  Forall (fun f => match f with Data bs => bs <> [] | Interrupted => True | Failed _ => False end) r.

Lemma split_nul_spec bs :
  match split_nul bs with
  | Some (a, r) => bs = a ++ 0 :: r /\ Forall (fun b => b <> 0) a
  | None => Forall (fun b => b <> 0) bs
  end.
Proof.
  induction bs as [|b bs IH]; simpl; [constructor|]. destruct (Z.eqb_spec b 0) as [->|Hb]; [done|].
  destruct (split_nul bs) as [[a r]|]; [|by constructor]. destruct IH as [-> Ha].
  split; [done|by constructor].
Qed.

Lemma split_nul_unique a b c d :
  Forall (fun x => x <> 0) a -> Forall (fun x => x <> 0) c -> a ++ 0 :: b = c ++ 0 :: d -> a = c /\ b = d.
Proof.
  intros Ha. revert c. induction Ha as [|x a Hx _ IH]; intros [|y c] Hc Heq; simplify_eq/=; [done|..].
  - by apply Forall_cons in Hc as [? _].
  - apply Forall_cons in Hc as [_ Hc]. destruct (IH c Hc) as [-> ->]; done.
Qed.

Lemma prefix_before a s c d :
  Forall (fun x => x <> 0) a -> a ++ s = c ++ 0 :: d -> exists c', c = a ++ c' /\ s = c' ++ 0 :: d.
Proof.
  intros Ha. revert c. induction Ha as [|x a Hx _ IH]; intros c Heq; [by exists c|].
  destruct c as [|y c]; simplify_eq/=. destruct (IH c) as (c' & -> & ->); [done|]. by exists c'.
Qed.

Lemma stream_cons f r : stream (f :: r) = match f with Data bs => bs | _ => [] end ++ stream r.
Proof. done. Qed.

Lemma stream_put_back bs r : stream (put_back bs r) = bs ++ stream r.
Proof. by destruct bs. Qed.

Lemma steady_put_back bs r : steady r -> steady (put_back bs r).
Proof. intros Hr. destruct bs; [done|]. by constructor. Qed.

(** The loop returns the bytes up to the first NUL, however they were cut
    into chunks. *)
Lemma read_raw_spec r raw before after :
  steady r -> stream r = before ++ 0 :: after -> Forall (fun b => b <> 0) before ->
  len raw + len before <= MAX_FRAME_BYTES ->
  exists r', read_raw r raw = (Ok (Some (raw ++ before)), r') /\ steady r' /\ stream r' = after.
Proof.
  intros Hr. revert raw before. induction Hr as [|f r Hf Hr IH]; intros raw before Hs Hb Hl.
  { by destruct before. }
  destruct f as [bs| |e]; [|by apply IH|done]. rewrite stream_cons in Hs.
  cbn [read_raw]. destruct bs as [|b0 bs0]; [done|]. set (bs := b0 :: bs0) in *.
  pose proof (split_nul_spec bs) as Hn. destruct (split_nul bs) as [[a rest]|].
  - destruct Hn as [Hbs Ha]. rewrite Hbs, <- app_assoc in Hs. cbn [app] in Hs.
    apply split_nul_unique in Hs as [-> <-]; [|done..].
    eexists. split; [done|]. split; [by apply steady_put_back|apply stream_put_back].
  - destruct (prefix_before bs (stream r) before after Hn Hs) as (b' & -> & Hs').
    rewrite len_app in Hl. pose proof (len_nonneg b'). apply Forall_app in Hb as [_ Hb].
    rewrite (proj2 (Z.ltb_ge _ _)) by (rewrite len_app; lia). rewrite app_assoc.
    apply IH; [done|done|]. rewrite len_app. lia.
Qed.

(** A NUL was consumed whenever a frame came back. *)
Lemma read_raw_consumes r raw x r' :
  read_raw r raw = (Ok (Some x), r') -> (length (stream r') < length (stream r))%nat.
Proof.
  revert raw. induction r as [|f r IH]; intros raw; cbn [read_raw]; [by destruct raw|].
  rewrite stream_cons. destruct f as [bs| |e]; [|by apply IH|done].
  destruct bs as [|b0 bs0]; [by destruct raw|]. set (bs := b0 :: bs0).
  pose proof (split_nul_spec bs) as Hn. destruct (split_nul bs) as [[a rest]|].
  - destruct Hn as [Hbs _]. intros [= _ <-]. rewrite stream_put_back, !length_app, Hbs, length_app.
    simpl. lia.
  - destruct (_ <? _); [done|]. intros Hx. apply IH in Hx. rewrite length_app. lia.
Qed.

(** Enough fuel: the number of bytes left in the stream. *)
Lemma read_frame_fuel fuel1 fuel2 r :
  (length (stream r) <= fuel1)%nat -> (length (stream r) <= fuel2)%nat ->
  read_frame fuel1 r = read_frame fuel2 r.
Proof.
  revert fuel2 r. induction fuel1 as [|fuel1 IH]; intros fuel2 r H1 H2;
    (destruct fuel2 as [|fuel2]; cbn [read_frame];
     destruct (read_raw r []) as [[[raw|]|e] r'] eqn:Hr; try done;
     pose proof (read_raw_consumes _ _ _ _ Hr); destruct (from_utf8 raw); try done;
     destruct (trim_start_matches _ _); try done; try lia).
  apply IH; lia.
Qed.

Lemma utf8_no_nul c : is_char c -> c <> 0 -> Forall (fun b => b <> 0) (utf8_char c).
Proof.
  intros [Hc _] Hne. unfold utf8_char.
  pose proof (mod_range c 0x40 ltac:(lia)). pose proof (mod_range (c `div` 0x40) 0x40 ltac:(lia)).
  pose proof (mod_range (c `div` 0x1000) 0x40 ltac:(lia)).
  pose proof (Z.div_pos c 0x40 ltac:(lia) ltac:(lia)). pose proof (Z.div_pos c 0x1000 ltac:(lia) ltac:(lia)).
  pose proof (Z.div_pos c 0x40000 ltac:(lia) ltac:(lia)).
  repeat case_match; repeat constructor; lia.
Qed.

Definition wire_text (s : text) : Prop := Forall (fun c => is_char c /\ c <> 0) s.

Lemma as_bytes_no_nul s : wire_text s -> Forall (fun b => b <> 0) (as_bytes s).
Proof.
  induction 1 as [|c s [Hc Hn] _ IH]; [constructor|]. apply Forall_app. split; [|done].
  by apply utf8_no_nul.
Qed.

Lemma escape_wire s : wire_text s -> wire_text (escape s).
Proof.
  intros Hs. apply escape_Forall; try (unfold is_char; lia).
  eapply Forall_impl; [exact Hs|]. simpl. tauto.
Qed.

Lemma encode_text_wire c hs b :
  wire_text c -> Forall (fun kv => wire_text kv.1 /\ wire_text kv.2) hs -> wire_text b ->
  wire_text (encode_text c hs b).
Proof.
  intros Hc Hh Hb. unfold encode_text, wire_text. repeat (apply Forall_app; split); try done.
  - repeat constructor; unfold is_char; lia.
  - induction Hh as [|kv hs [Hk Hv] _ IH]; [constructor|]. cbn [mbind list_bind].
    repeat (apply Forall_app; split); try (by apply escape_wire); try done;
      repeat constructor; unfold is_char; lia.
  - repeat constructor; unfold is_char; lia.
Qed.

(** What a returned frame is: text of the stream, of which at least the NUL was
    consumed. *)
Lemma read_frame_ok fuel r f r' :
  read_frame fuel r = (Ok (Some f), r') ->
  (length (stream r') < length (stream r))%nat /\ exists t, Forall is_char t /\ f = parse_frame t.
Proof.
  revert r. induction fuel as [|fuel IH]; intros r; cbn [read_frame];
    destruct (read_raw r []) as [[[raw|]|e] r1] eqn:Hr; try done;
    pose proof (read_raw_consumes _ _ _ _ Hr); destruct (from_utf8 raw) as [t|] eqn:Hu; try done;
    apply from_utf8_inv in Hu as [Hc _];
    destruct (trim_start_matches_suffix (fun c => (c =? 10) || (c =? 13)) t) as [pre Hpre];
    rewrite Hpre in Hc; apply Forall_app in Hc as [_ Hc];
    destruct (trim_start_matches _ t) as [|c t'] eqn:Ht; try done;
    try (intros [= <- <-]; by split; [|eexists]).
  intros [Hl Hf]%IH. split; [lia|done].
Qed.

Lemma split_blank_suffix t a b : split_blank_line t = Some (a, b) -> exists pre, t = pre ++ b.
Proof.
  revert a. induction t as [|c t IH]; intros a; [done|]. destruct t as [|d t]; [done|].
  rewrite split_blank_cons. destruct (_ && _).
  - intros [= _ <-]. by exists [c; d].
  - destruct (split_blank_line (d :: t)) as [[a' b']|]; [|done]. intros [= _ <-].
    destruct (IH a' eq_refl) as [pre Hpre]. exists (c :: pre). by rewrite Hpre.
Qed.

(** The body of a frame that was read is text. *)
Lemma read_body_chars r f r' : read r = (Ok (Some f), r') -> Forall is_char (body f).
Proof.
  intros [_ (t & Ht & ->)]%read_frame_ok. unfold parse_frame.
  destruct (split_blank_line t) as [[a b]|] eqn:Hs; simpl; [|constructor].
  apply split_blank_suffix in Hs as [pre ->]. by apply Forall_app in Ht as [_ Ht].
Qed.

(** ** Claims *)

(** header escaping is lossless: unescaping an escaped name or value gives it
    back, and the escaped text contains no newline, carriage return or colon,
    so it can never break the line structure of a frame. *)
Theorem escape_roundtrip s :
  unescape (escape s) = s /\ Forall (fun c => c <> 10 /\ c <> 13 /\ c <> 58) (escape s).
Proof. split; [apply unescape_escape|apply escape_clean]. Qed.

(** A command the codec can carry: on one line, without carriage returns. *)
Definition wf_command (c : text) : Prop := c <> [] /\ Forall (fun x => x <> 10 /\ x <> 13) c.

(** C37: frames round-trip over any chunking: if the stream holds an encoded frame
    (non-empty one-line command, any headers and body without NUL, within the
    size limit) followed by anything, then however the bytes are cut into reads
    and however often a read is interrupted, [read_frame] returns exactly that
    command, those headers and that body, and leaves exactly what followed. *)
Theorem stomp_roundtrip r c hs b rest :
  steady r -> stream r = encode c hs b ++ rest ->
  wf_command c -> wire_text c -> Forall (fun kv => wire_text kv.1 /\ wire_text kv.2) hs ->
  wire_text b -> len (encode c hs b) <= MAX_FRAME_BYTES ->
  exists r', read r = (Ok (Some (MkFrame c hs b)), r') /\ steady r' /\ stream r' = rest.
Proof.
  intros Hr Hs [Hne Hc] Hwc Hwh Hwb Hl.
  pose proof (encode_text_wire c hs b Hwc Hwh Hwb) as Hw.
  unfold encode in Hs, Hl. rewrite <- app_assoc in Hs. cbn [app] in Hs. rewrite len_app in Hl.
  destruct (read_raw_spec r [] _ _ Hr Hs) as (r' & Hraw & Hr' & Hrest).
  { by apply as_bytes_no_nul. }
  { rewrite len_nil. rewrite len_cons, len_nil in Hl. lia. }
  exists r'. split; [|done]. unfold read.
  assert (Hstep : forall fuel, read_frame fuel r = (Ok (Some (MkFrame c hs b)), r')); [|done].
  assert (trim_start_matches (fun x => (x =? 10) || (x =? 13)) (encode_text c hs b) = encode_text c hs b) as Ht.
  { destruct c as [|x c]; [done|]. apply Forall_cons in Hc as [[Hx1 Hx2] _]. simpl.
    by rewrite (proj2 (Z.eqb_neq x 10)), (proj2 (Z.eqb_neq x 13)). }
  assert (parse_frame (encode_text c hs b) = MkFrame c hs b) as Hp.
  { apply parse_encode; (eapply Forall_impl; [exact Hc|]); simpl; tauto. }
  assert (from_utf8 (as_bytes (encode_text c hs b)) = Some (encode_text c hs b)) as Hu.
  { apply from_utf8_as_bytes. eapply Forall_impl; [exact Hw|]. simpl. tauto. }
  assert (encode_text c hs b <> []) as Hnil by (by destruct c).
  intros fuel. destruct fuel; cbn [read_frame]; rewrite Hraw, app_nil_l, Hu, Ht;
    (destruct (encode_text c hs b); [done|by rewrite Hp]).
Qed.

Lemma stomp_roundtrip_witness :
  exists r', read [Data (take 9 (encode (str "SEND") [(str "k:v", [97; 10; 98])] (str "GET 67")));
                   Interrupted;
                   Data (drop 9 (encode (str "SEND") [(str "k:v", [97; 10; 98])] (str "GET 67")) ++ [10; 83])] =
    (Ok (Some (MkFrame (str "SEND") [(str "k:v", [97; 10; 98])] (str "GET 67"))), r') /\
    steady r' /\ stream r' = [10; 83].
Proof.
  apply stomp_roundtrip.
  - repeat constructor; discriminate.
  - vm_compute. reflexivity.
  - split; [discriminate|]. repeat constructor; discriminate.
  - repeat constructor; vm_compute; naive_solver.
  - repeat constructor; vm_compute; naive_solver.
  - repeat constructor; vm_compute; naive_solver.
  - vm_compute. discriminate.
Defined.

(** C38: reading terminates: heart-beat filler is skipped by repeated reads, and
    the bytes left in the stream bound how many there can be, so any larger
    fuel gives the same answer and the same rest; every frame returned has
    consumed at least its terminating NUL. *)
Theorem read_terminates fuel r :
  (length (stream r) <= fuel)%nat ->
  read_frame fuel r = read r /\
  (forall f r', read r = (Ok (Some f), r') -> (length (stream r') < length (stream r))%nat).
Proof.
  intros Hf. split; [by apply read_frame_fuel|]. intros f r' Hr. by apply read_frame_ok in Hr as [Hl _].
Qed.

Lemma read_terminates_witness :
  read_frame 100 [Data (str "x" ++ [0])] = read [Data (str "x" ++ [0])].
Proof. apply read_terminates. simpl. lia. Defined.

(** The buffer after the loop: bounded by the limit and one chunk, and by what
    was consumed of the stream. *)
Lemma raw_buffer_bounded B r raw :
  Forall (fun f => match f with Data bs => len bs <= B | _ => True end) r ->
  len raw <= MAX_FRAME_BYTES -> 0 <= B ->
  len (raw_buffer r raw) <= MAX_FRAME_BYTES + B /\
  len (raw_buffer r raw) + len (stream (read_raw r raw).2) <= len raw + len (stream r).
Proof.
  intros Hr. revert raw. induction Hr as [|f r Hf Hr IH]; intros raw Hl HB.
  { simpl. destruct raw; simpl; lia. }
  cbn [read_raw raw_buffer]. rewrite stream_cons. destruct f as [bs| |e]; [|by apply IH|simpl; lia].
  destruct bs as [|b0 bs0]; [destruct raw; rewrite ?stream_cons; simpl in *; lia|].
  set (bs := b0 :: bs0) in *. pose proof (split_nul_spec bs) as Hn. destruct (split_nul bs) as [[a rest]|].
  - destruct Hn as [Hbs _]. rewrite Hbs, len_app, len_cons in Hf. pose proof (len_nonneg rest).
    cbn [snd]. rewrite stream_put_back, !len_app, Hbs, len_app, len_cons. lia.
  - destruct (Z.ltb_spec MAX_FRAME_BYTES (len (raw ++ bs))) as [Hx|Hx].
    + cbn [snd]. rewrite !len_app in *. lia.
    + destruct (IH (raw ++ bs) Hx HB) as [H1 H2]. split; [done|]. rewrite !len_app in *. lia.
Qed.

(** A chunk bound holds of what the loop leaves. *)
Lemma read_raw_chunks B r raw :
  Forall (fun f => match f with Data bs => len bs <= B | _ => True end) r ->
  Forall (fun f => match f with Data bs => len bs <= B | _ => True end) (read_raw r raw).2.
Proof.
  intros Hr. revert raw. induction Hr as [|f r Hf Hr IH]; intros raw; [by destruct raw|].
  cbn [read_raw]. destruct f as [bs| |e]; [|by apply IH|done].
  destruct bs as [|b0 bs0]; [by destruct raw; constructor|].
  set (bs := b0 :: bs0) in *. pose proof (split_nul_spec bs) as Hn. destruct (split_nul bs) as [[a rest]|].
  - destruct Hn as [Hbs _]. rewrite Hbs, len_app, len_cons in Hf. pose proof (len_nonneg a).
    destruct rest as [|x rest]; [done|]. constructor; [lia|done].
  - destruct (_ <? _); [done|]. apply IH.
Qed.

(** C32: the memory one read of a frame holds: if the reader hands out chunks of
    at most [B] bytes, the buffer of each activation of [read_frame], skipped
    filler included, has at most [MAX_FRAME_BYTES + B] bytes, whatever the
    client sends and however the read ends; the buffers together hold no more
    than the stream did, and the activations outnumber its bytes by at most one:
    what bounds them is what the client sends. *)
Theorem read_memory B fuel r :
  0 <= B -> Forall (fun f => match f with Data bs => len bs <= B | _ => True end) r ->
  let bufs := live_buffers fuel r in
  Forall (fun buf => len buf <= MAX_FRAME_BYTES + B) bufs /\
  held bufs <= len (stream r) /\ len bufs <= len (stream r) + 1.
Proof.
  intros HB. revert r. induction fuel as [|fuel IH]; intros r Hr;
    pose proof (raw_buffer_bounded B r [] Hr ltac:(done) HB) as [H1 H2];
    pose proof (read_raw_chunks B r [] Hr) as H3; pose proof (len_nonneg (stream r));
    cbn [live_buffers]; destruct (read_raw r []) as [[[raw|]|e] r'] eqn:Hx; cbn [snd] in *;
    pose proof (len_nonneg (stream r'));
    repeat case_match; rewrite ?len_cons in *; cbn [held foldr];
    try (split_and!; [by repeat constructor|rewrite ?len_nil in *; lia..]).
  apply read_raw_consumes in Hx. destruct (IH r' H3) as (Hb & Hh & Hn). split_and!.
  - by constructor.
  - unfold held in Hh. change (len []) with 0 in H2. lia.
  - unfold len in *. lia.
Qed.

Lemma read_memory_witness :
  live_buffers 9 [Data [10; 0; 10]; Data [10; 0]; Data (str "ab" ++ [0])] = [[10]; [10; 10]; str "ab"] /\
  Forall (fun buf => len buf <= MAX_FRAME_BYTES + 3)
    (live_buffers 9 [Data [10; 0; 10]; Data [10; 0]; Data (str "ab" ++ [0])]).
Proof.
  split; [vm_compute; reflexivity|].
  refine (proj1 (read_memory 3 9 [Data [10; 0; 10]; Data [10; 0]; Data (str "ab" ++ [0])] _ _)); [lia|].
  repeat constructor; vm_compute; discriminate.
Defined.

(** [n] frames of filler of [pad] newlines each, then a frame. *)
Definition padded (n pad : nat) : list Fill :=
  replicate n (Data (replicate pad 10 ++ [0])) ++ [Data (str "SEND" ++ [0])].

Lemma split_nul_newlines pad : split_nul (replicate pad 10 ++ [0]) = Some (replicate pad 10, []).
Proof. induction pad as [|pad IH]; [done|]. cbn. by rewrite IH. Qed.

Lemma newlines_utf8 pad : from_utf8 (replicate pad 10) = Some (replicate pad 10).
Proof. induction pad as [|pad IH]; [done|]. cbn [replicate from_utf8]. by rewrite IH. Qed.

Lemma newlines_trim pad : trim_start_matches (fun c => (c =? 10) || (c =? 13)) (replicate pad 10) = [].
Proof. induction pad as [|pad IH]; [done|]. exact IH. Qed.

(** C33: filler is skipped by recursion, and the recursion is as deep as the
    client likes: after [n] frames of filler of [pad] newlines each, the frame
    that follows is accepted by an activation nested in [n] others that still
    hold their buffers, [n * pad] bytes of filler in all, although no frame is
    longer than the limit. *)
Theorem filler_nests n pad fuel :
  (n <= fuel)%nat ->
  read_frame fuel (padded n pad) = (Ok (Some (MkFrame (str "SEND") [] [])), []) /\
  live_buffers fuel (padded n pad) = replicate n (replicate pad 10) ++ [str "SEND"] /\
  held (live_buffers fuel (padded n pad)) = Z.of_nat n * Z.of_nat pad + 4.
Proof.
  revert fuel. induction n as [|n IH]; intros fuel Hf.
  { destruct fuel; (split_and!; [vm_compute; reflexivity..|]); reflexivity. }
  destruct fuel as [|fuel]; [lia|]. destruct (IH fuel ltac:(lia)) as (H1 & H2 & H3).
  assert (Hraw : read_raw (padded (S n) pad) [] = (Ok (Some (replicate pad 10)), padded n pad)).
  { unfold padded. cbn [replicate app read_raw]. rewrite split_nul_newlines. by destruct pad. }
  assert (Hbuf : raw_buffer (padded (S n) pad) [] = replicate pad 10).
  { unfold padded. cbn [replicate app raw_buffer]. rewrite split_nul_newlines. by destruct pad. }
  cbn [read_frame live_buffers]. rewrite Hraw, Hbuf, newlines_utf8, newlines_trim.
  split_and!; [done|by rewrite H2|]. unfold held in *. cbn [foldr]. rewrite H3. unfold len.
  rewrite length_replicate. lia.
Qed.

Lemma filler_nests_witness :
  len (live_buffers 100 (padded 100 4000)) = 101 /\ held (live_buffers 100 (padded 100 4000)) = 400004.
Proof.
  destruct (filler_nests 100 4000 100 ltac:(lia)) as (_ & H2 & H3). split; [|exact H3].
  rewrite H2. unfold len. rewrite length_app, length_replicate. reflexivity.
Defined.

(** the size limit is checked only on a chunk without a NUL: a frame of more
    than [MAX_FRAME_BYTES] bytes whose terminator arrives in the chunk that
    crosses the limit is accepted, where the documentation says anything larger
    is a protocol error. *)
Theorem oversize_frame_accepted :
  let big := replicate (Z.to_nat 9000) 120 in
  MAX_FRAME_BYTES < len big /\
  read [Data (big ++ [0])] = (Ok (Some (MkFrame big [] [])), []) /\
  read [Data big; Data [0]] = (Err TooLong, [Data [0]]).
Proof. vm_compute. done. Qed.

(** a frame with carriage-return line ends loses its body: the header lines
    are stripped of their carriage returns, but the blank line is searched as
    two adjacent newlines, so the body is read as header lines and dropped. *)
Theorem crlf_body_lost :
  read [Data (str "SEND" ++ [13; 10; 13; 10] ++ str "GET 67" ++ [0])] =
    (Ok (Some (MkFrame (str "SEND") [] [])), []) /\
  read [Data (str "SEND" ++ [10; 10] ++ str "GET 67" ++ [0])] =
    (Ok (Some (MkFrame (str "SEND") [] (str "GET 67"))), []).
Proof. vm_compute. done. Qed.
