(* ===== verification/Server.v ===== *)
(** * The six-seven server: [src/bin/six-seven-server/main.rs]

    The core thread owns the store, the clients and the pending table; the
    other threads only post events.  [step] is one turn of [core_loop] on one
    event.  Sockets are their traffic: what was written to each client, and the
    datagrams sent; whether a write or a send succeeds is decided by the
    outside, the parameters [write_ok] and [send_error].  Time stamps are
    milliseconds carried by the events. *)

From S2P Require Export Peer Stomp Net Dek.

Definition PEER_CHANNEL : Z := 6767.
Definition EPOCH : Z := 0.
Definition FORWARD_TIMEOUT : Z := 5000.

Record Config := MkConfig {
  id : Z;
  stomp : SocketAddr;
  paxe : SocketAddr;
  peer_id : Z;
  peer_addr : SocketAddr;
  key : bytes;
}.

Record Pending := MkPending { conn : Z; receipt : option text; deadline : Z }.

Inductive Event :=
| ClientUp (conn : Z)
| ClientFrame (now conn : Z) (frame : Frame)
| ClientDown (conn : Z)
| Datagram (bs : bytes)
| Tick (now : Z).

Record Node := MkNode {
  kv : Store;
  clients : gmap Z bytes;       (* open connections, with what was written to each *)
  pending : gmap Z Pending;
  next_corr : Z;
  node_sys : SodiumState;
  node_stats : StatsState;
  outbox : list bytes;          (* datagrams sent to the peer, oldest first *)
  writes : nat;                 (* client writes attempted *)
  sends : nat;                  (* datagram sends attempted *)
  log : list text;              (* lines on standard error *)
}.

Definition set_kv v n := MkNode v n.(clients) n.(pending) n.(next_corr) n.(node_sys) n.(node_stats) n.(outbox) n.(writes) n.(sends) n.(log).
Definition set_clients v n := MkNode n.(kv) v n.(pending) n.(next_corr) n.(node_sys) n.(node_stats) n.(outbox) n.(writes) n.(sends) n.(log).
Definition set_pending v n := MkNode n.(kv) n.(clients) v n.(next_corr) n.(node_sys) n.(node_stats) n.(outbox) n.(writes) n.(sends) n.(log).
Definition set_next_corr v n := MkNode n.(kv) n.(clients) n.(pending) v n.(node_sys) n.(node_stats) n.(outbox) n.(writes) n.(sends) n.(log).
Definition set_node_sys v n := MkNode n.(kv) n.(clients) n.(pending) n.(next_corr) v n.(node_stats) n.(outbox) n.(writes) n.(sends) n.(log).
Definition set_node_stats v n := MkNode n.(kv) n.(clients) n.(pending) n.(next_corr) n.(node_sys) v n.(outbox) n.(writes) n.(sends) n.(log).
Definition set_outbox v n := MkNode n.(kv) n.(clients) n.(pending) n.(next_corr) n.(node_sys) n.(node_stats) v n.(writes) n.(sends) n.(log).
Definition set_writes v n := MkNode n.(kv) n.(clients) n.(pending) n.(next_corr) n.(node_sys) n.(node_stats) n.(outbox) v n.(sends) n.(log).
Definition set_sends v n := MkNode n.(kv) n.(clients) n.(pending) n.(next_corr) n.(node_sys) n.(node_stats) n.(outbox) n.(writes) v n.(log).
Definition set_log v n := MkNode n.(kv) n.(clients) n.(pending) n.(next_corr) n.(node_sys) n.(node_stats) n.(outbox) n.(writes) n.(sends) v.

Abbreviation N' := (St Node).

Section Server.
Context `{Libsodium} (printable : Z -> bool) (write_ok : nat -> bool)
  (send_error : nat -> option text).

(** ** Clients *)

Definition write_frame (c : Z) (bs : bytes) : N' unit := fun n =>
  match n.(clients) !! c with
  | None => (tt, n)
  | Some written =>
      let n' := set_writes (S n.(writes)) n in
      if write_ok n.(writes)
      then (tt, set_clients (<[c := written ++ bs]> n.(clients)) n')
      else (tt, set_clients (delete c n.(clients)) n')
  end.

Definition reply_body (r : Reply) : text :=
  match r with
  | Value v => v
  | ROk => str "OK"
  | Nil => str "NIL"
  | RErr e => str "ERR " ++ e
  end.

Definition reply_frame (rcpt : option text) (r : Reply) : bytes :=
  Stomp.encode (str "MESSAGE")
    ([(str "destination", str "/queue/kv"); (str "content-type", str "text/plain");
      (str "subscription", str "0")] ++
     match rcpt with Some x => [(str "receipt-id", x)] | None => [] end)
    (reply_body r).

Definition reply_to_client (c : Z) (rcpt : option text) (r : Reply) : N' unit :=
  write_frame c (reply_frame rcpt r).

(** ** The peer *)

Definition send_to_peer (cfg : Config) (store : KeyStore) (epoch : Epoch) (message : text)
    : N' (result unit text) := fun n =>
  let '(r, s) := Dek.seal store cfg.(peer_id) PEER_CHANNEL epoch (as_bytes message) n.(node_sys) in
  let n := set_node_sys s n in
  match r with
  | Err e => (Err (str "sealing for peer " ++ dec cfg.(peer_id) ++ str ": " ++
                   str (Dek.show_SealError e)), n)
  | Ok frame =>
      let n' := set_sends (S n.(sends)) n in
      match send_error n.(sends) with
      | Some e => (Err (str "sending to peer " ++ show_addr cfg.(peer_addr) ++ str ": " ++ e), n')
      | None => (Ok tt, set_outbox (n.(outbox) ++ [frame]) n')
      end
  end.

Definition eprintln (line : text) : N' unit := modify (fun n => set_log (n.(log) ++ [line]) n).

(** [kv.execute]. *)
Definition run_kv (op : Op) : N' Reply := zoom kv set_kv (execute op).

(** [*next_corr += 1] on a [u64]. *)
Definition bump_corr : N' Z := fun n =>
  let c := (n.(next_corr) + 1) `mod` 2 ^ 64 in (c, set_next_corr c n).

(** ** Client frames *)

Definition handle_send (cfg : Config) (store : KeyStore) (epoch : Epoch) (now c : Z)
    (rcpt : option text) (fbody : text) : N' unit :=
  if eq_ignore_ascii_case (trim fbody) (str "SIZE") then
    let* n := gets (fun n => n) in
    reply_to_client c rcpt
      (Value (dec (store_len n.(kv)) ++ str " of " ++ dec MAX_KEYS ++ str " keys on node " ++
              dec cfg.(id)))
  else
    match Kv.parse printable fbody with
    | Err e => reply_to_client c rcpt (RErr e)
    | Ok op =>
        if owner (op_key op) cfg.(id) cfg.(peer_id) =? cfg.(id) then
          let* r := run_kv op in
          reply_to_client c rcpt r
        else
          let* corr := bump_corr in
          let* sent := send_to_peer cfg store epoch (Peer.encode (Request corr op)) in
          match sent with
          | Err e => reply_to_client c rcpt (RErr e)
          | Ok _ => modify (fun n =>
              set_pending (<[corr := MkPending c rcpt (now + FORWARD_TIMEOUT)]> n.(pending)) n)
          end
    end.

Definition receipt_frame (r : text) : bytes :=
  Stomp.encode (str "RECEIPT") [(str "receipt-id", r)] [].

Definition handle_client_frame (cfg : Config) (store : KeyStore) (epoch : Epoch) (now c : Z)
    (frame : Frame) : N' unit :=
  let rcpt := header frame (str "receipt") in
  let cmd := to_ascii_uppercase frame.(command) in
  if decide (cmd = str "CONNECT" \/ cmd = str "STOMP") then
    write_frame c (Stomp.encode (str "CONNECTED")
      [(str "version", str "1.2"); (str "server", str "six-seven-server/0.1")] [])
  else if decide (cmd = str "SUBSCRIBE" \/ cmd = str "UNSUBSCRIBE") then
    match rcpt with Some r => write_frame c (receipt_frame r) | None => ret tt end
  else if decide (cmd = str "DISCONNECT") then
    let* _ := match rcpt with Some r => write_frame c (receipt_frame r) | None => ret tt end in
    modify (fun n => set_clients (delete c n.(clients)) n)
  else if decide (cmd = str "SEND") then
    handle_send cfg store epoch now c rcpt frame.(body)
  else
    write_frame c (Stomp.encode (str "ERROR") [(str "message", str "unsupported command")]
      (str "six-seven-server does not implement " ++ cmd ++ [10])).

(** ** Datagrams *)

Definition refusal (cfg : Config) (op : Op) : Reply :=
  RErr (str "key " ++ dec (op_key op) ++ str " does not belong to node " ++ dec cfg.(id)).

(** The reply to a forwarded operation: ownership is checked again here. *)
Definition answer (cfg : Config) (op : Op) : N' Reply :=
  if owner (op_key op) cfg.(id) cfg.(peer_id) =? cfg.(id) then run_kv op
  else ret (refusal cfg op).

Definition handle_message (cfg : Config) (store : KeyStore) (epoch : Epoch) (m : Peer) : N' unit :=
  match m with
  | Request corr op =>
      let* reply := answer cfg op in
      let* sent := send_to_peer cfg store epoch (Peer.encode (Response corr reply)) in
      match sent with
      | Err e => eprintln (str "answering peer request " ++ dec corr ++ str ": " ++ e)
      | Ok _ => ret tt
      end
  | Response corr reply =>
      let* n := gets (fun n => n) in
      match n.(pending) !! corr with
      | None => ret tt
      | Some p =>
          let* _ := modify (fun n => set_pending (delete corr n.(pending)) n) in
          reply_to_client p.(conn) p.(receipt) reply
      end
  end.

Definition handle_datagram (cfg : Config) (store : KeyStore) (epoch : Epoch) (bs : bytes)
    : N' unit :=
  let* s := gets node_sys in
  let* opened := zoom node_stats set_node_stats (Dek.open s store bs) in
  match opened with
  | Err _ => ret tt
  | Ok (h, _, payload) =>
      if negb (h.(from_id) =? cfg.(peer_id)) || negb (h.(channel) =? PEER_CHANNEL) then ret tt else
      match from_utf8 payload with
      | None => ret tt
      | Some t =>
          match Peer.decode printable t with
          | Err e => eprintln (str "peer sent an undecodable message: " ++ e)
          | Ok m => handle_message cfg store epoch m
          end
      end
  end.

(** ** Startup *)

(** The part of [run] before the sockets: the link key installed under the one
    epoch. *)
Definition start (cfg : Config) : St SodiumState (result (KeyStore * Epoch) text) :=
  let* r := init in
  match r with
  | Err e => ret (Err (str "libsodium init failed: " ++ str (show_SodiumError e)))
  | Ok _ =>
  match require_aes_gcm with
  | Err e => ret (Err (str "AES-256-GCM hardware path unavailable: " ++ str (show_SodiumError e)))
  | Ok _ =>
  match epoch_new EPOCH with
  | Err e => ret (Err (str (show_KeystoreError e)))
  | Ok epoch =>
      let* r := keystore_new cfg.(id) in
      match r with
      | Err e => ret (Err (str (show_KeystoreError e)))
      | Ok store =>
          let* (r, store) := install store cfg.(peer_id) epoch cfg.(key) in
          ret (match r with
               | Err e => Err (str "installing the link key failed: " ++ str (show_KeystoreError e))
               | Ok _ => Ok (store, epoch)
               end)
      end
  end end end.

(** ** The core loop *)

Definition timeout_reply (cfg : Config) : Reply :=
  RErr (str "peer " ++ dec cfg.(peer_id) ++ str " did not answer within 5s").

(** The answers a tick owes, in the order the table is walked. *)
Fixpoint expire (cfg : Config) (corrs : list Z) : N' unit :=
  match corrs with
  | [] => ret tt
  | corr :: rest =>
      let* n := gets (fun n => n) in
      let* _ := match n.(pending) !! corr with
                | Some p =>
                    let* _ := modify (fun n => set_pending (delete corr n.(pending)) n) in
                    reply_to_client p.(conn) p.(receipt) (timeout_reply cfg)
                | None => ret tt
                end in
      expire cfg rest
  end.

Definition step (cfg : Config) (store : KeyStore) (epoch : Epoch) (e : Event) : N' unit :=
  match e with
  | ClientUp c => modify (fun n => set_clients (<[c := []]> n.(clients)) n)
  | ClientDown c => modify (fun n =>
      set_pending (filter (fun cp => cp.2.(conn) <> c) n.(pending))
        (set_clients (delete c n.(clients)) n))
  | ClientFrame now c frame => handle_client_frame cfg store epoch now c frame
  | Datagram bs => handle_datagram cfg store epoch bs
  | Tick now =>
      let* n := gets (fun n => n) in
      expire cfg (fst <$> filter (fun cp => cp.2.(deadline) <= now) (map_to_list n.(pending)))
  end.

Fixpoint core_loop (cfg : Config) (store : KeyStore) (epoch : Epoch) (events : list Event) : N' unit :=
  match events with
  | [] => ret tt
  | e :: rest => let* _ := step cfg store epoch e in core_loop cfg store epoch rest
  end.

End Server.

(** A node that has just started, over a libsodium state. *)
Definition boot (s : SodiumState) : Node :=
  MkNode store_default ∅ ∅ 0 s stats_init [] 0 0 [].

(** ** What the handlers leave alone *)

Section Frames.
Context `{Libsodium} (printable : Z -> bool) (write_ok : nat -> bool)
  (send_error : nat -> option text).

Lemma write_frame_frame c bs n :
  let n' := (write_frame write_ok c bs n).2 in
  kv n' = kv n /\ pending n' = pending n /\ next_corr n' = next_corr n /\
  node_sys n' = node_sys n /\ node_stats n' = node_stats n /\ outbox n' = outbox n /\
  sends n' = sends n.
Proof.
  unfold write_frame. destruct (clients n !! c); [|done]. by destruct (write_ok (writes n)).
Qed.

Lemma send_frame cfg store epoch m n :
  let n' := (send_to_peer send_error cfg store epoch m n).2 in
  kv n' = kv n /\ clients n' = clients n /\ pending n' = pending n /\ next_corr n' = next_corr n /\
  node_stats n' = node_stats n /\ writes n' = writes n.
Proof.
  unfold send_to_peer. destruct (Dek.seal _ _ _ _ _ _) as [[frame|e] s]; [|done].
  simpl. by destruct (send_error (sends n)).
Qed.

(** The message a datagram brings to a node, if any. *)
Definition carries (cfg : Config) (store : KeyStore) (n : Node) (bs : bytes) (m : Peer) : Prop :=
  exists h f payload w t, Dek.open (node_sys n) store bs (node_stats n) = (Ok (h, f, payload), w) /\
    from_id h = peer_id cfg /\ channel h = PEER_CHANNEL /\
    from_utf8 payload = Some t /\ Peer.decode printable t = Ok m.

(** An invariant of the primitive effects is an invariant of the core loop:
    every handler is built from these, runs an operation only on a key the node
    owns, forwards only what a client asked and answers with what the store
    said.  [okop] and [okreply] are what is known of the operations that enter
    and of the replies the store gives to them. *)
Record effect_inv (cfg : Config) (store : KeyStore) (epoch : Epoch)
    (okop : Op -> Prop) (okreply : Reply -> Prop) (P : Node -> Prop) : Prop := {
  ei_write c bs n : P n -> P (write_frame write_ok c bs n).2;
  ei_request corr op n : is_u64 corr -> okop op -> P n ->
    P (send_to_peer send_error cfg store epoch (Peer.encode (Request corr op)) n).2;
  ei_response corr r n : is_u64 corr -> okreply r -> P n ->
    P (send_to_peer send_error cfg store epoch (Peer.encode (Response corr r)) n).2;
  ei_kv op n : okop op -> owner (op_key op) (id cfg) (peer_id cfg) = id cfg -> P n ->
    P (run_kv op n).2 /\ okreply (run_kv op n).1;
  ei_refuse op : okop op -> okreply (refusal cfg op);
  ei_clients v n : P n -> P (set_clients v n);
  ei_pending v n : P n -> P (set_pending v n);
  ei_corr v n : P n -> P (set_next_corr v n);
  ei_stats v n : P n -> P (set_node_stats v n);
  ei_log v n : P n -> P (set_log v n);
}.
Arguments ei_write {_ _ _ _ _ _} _ c bs n.
Arguments ei_request {_ _ _ _ _ _} _ corr op n.
Arguments ei_response {_ _ _ _ _ _} _ corr r n.
Arguments ei_kv {_ _ _ _ _ _} _ op n.
Arguments ei_refuse {_ _ _ _ _ _} _ op.
Arguments ei_clients {_ _ _ _ _ _} _ v n.
Arguments ei_pending {_ _ _ _ _ _} _ v n.
Arguments ei_corr {_ _ _ _ _ _} _ v n.
Arguments ei_stats {_ _ _ _ _ _} _ v n.
Arguments ei_log {_ _ _ _ _ _} _ v n.

Section Induction.
Context (cfg : Config) (store : KeyStore) (epoch : Epoch) (okop : Op -> Prop)
  (okreply : Reply -> Prop) (P : Node -> Prop) (EI : effect_inv cfg store epoch okop okreply P).

(** What must be known of an event. *)
Definition okevent (e : Event) (n : Node) : Prop :=
  match e with
  | ClientFrame _ _ f => forall op, Kv.parse printable (body f) = Ok op -> okop op
  | Datagram bs => forall corr op, carries cfg store n bs (Request corr op) -> okop op
  | _ => True
  end.

Lemma bind_inv {A B} (m : N' A) (k : A -> N' B) n :
  P (m n).2 -> (forall a n1, P n1 -> P (k a n1).2) -> P ((let* a := m in k a) n).2.
Proof. intros Hm Hk. unfold bind. destruct (m n) as [a n1]. by apply Hk. Qed.

Lemma handle_send_inv now c rcpt b n :
  (forall op, Kv.parse printable b = Ok op -> okop op) -> P n ->
  P (handle_send printable write_ok send_error cfg store epoch now c rcpt b n).2.
Proof.
  intros Hop Hi. unfold handle_send. destruct (eq_ignore_ascii_case _ _); [by apply (ei_write EI)|].
  destruct (Kv.parse printable b) as [op|e]; [|by apply (ei_write EI)]. specialize (Hop op eq_refl).
  destruct (Z.eqb_spec (owner (op_key op) (id cfg) (peer_id cfg)) (id cfg)) as [Ho|Ho].
  - apply bind_inv; [by apply (ei_kv EI)|]. intros r n1 Hn1. by apply (ei_write EI).
  - unfold bump_corr. unfold bind at 1.
    assert (is_u64 ((next_corr n + 1) `mod` 2 ^ 64)) as Hu.
    { pose proof (Z.mod_pos_bound (next_corr n + 1) (2 ^ 64)). width. }
    apply bind_inv; [by apply (ei_request EI), (ei_corr EI)|].
    intros [[]|e] n2 Hn2; [by apply (ei_pending EI)|by apply (ei_write EI)].
Qed.

Lemma handle_client_frame_inv now c f n :
  (forall op, Kv.parse printable (body f) = Ok op -> okop op) -> P n ->
  P (handle_client_frame printable write_ok send_error cfg store epoch now c f n).2.
Proof.
  intros Hop Hi. unfold handle_client_frame.
  repeat case_decide; try (by apply (ei_write EI));
    [by destruct (header f _); [apply (ei_write EI)|]| |by apply handle_send_inv].
  apply bind_inv; [by destruct (header f _); [apply (ei_write EI)|]|]. intros [] n1 Hn1.
  by apply (ei_clients EI).
Qed.

Lemma answer_inv op n :
  okop op -> P n -> P (answer cfg op n).2 /\ okreply (answer cfg op n).1.
Proof.
  intros Hop Hi. unfold answer.
  destruct (Z.eqb_spec (owner (op_key op) (id cfg) (peer_id cfg)) (id cfg)); [by apply (ei_kv EI)|].
  split; [done|by apply (ei_refuse EI)].
Qed.

Lemma handle_message_inv m n :
  match m with Request corr op => is_u64 corr /\ okop op | Response _ _ => True end -> P n ->
  P (handle_message write_ok send_error cfg store epoch m n).2.
Proof.
  intros Hm Hi. destruct m as [corr op|corr reply]; unfold handle_message.
  - destruct Hm as [Hu Hop]. destruct (answer_inv op n Hop Hi) as [Hn1 Hr]. unfold bind at 1.
    destruct (answer cfg op n) as [reply n1].
    apply bind_inv; [by apply (ei_response EI)|]. intros [[]|e] n2 Hn2; [done|by apply (ei_log EI)].
  - unfold bind at 1. unfold gets. destruct (pending n !! corr) as [p|]; [|done].
    apply bind_inv; [by apply (ei_pending EI)|]. intros [] n1 Hn1. by apply (ei_write EI).
Qed.

Lemma handle_datagram_inv bs n :
  (forall corr op, carries cfg store n bs (Request corr op) -> okop op) -> P n ->
  P (handle_datagram printable write_ok send_error cfg store epoch bs n).2.
Proof.
  intros Hop Hi. unfold handle_datagram, gets, zoom. unfold bind at 1 2.
  destruct (Dek.open (node_sys n) store bs (node_stats n)) as [r w] eqn:Ho.
  apply (ei_stats EI w) in Hi. destruct r as [[[h f] payload]|e]; [|done].
  destruct (Z.eqb_spec (from_id h) (peer_id cfg)) as [Hf|]; [|done].
  destruct (Z.eqb_spec (channel h) PEER_CHANNEL) as [Hc|]; [|done]. simpl.
  destruct (from_utf8 payload) as [t|] eqn:Ht; [|done].
  destruct (Peer.decode printable t) as [m|e] eqn:Hm; [|by apply (ei_log EI)].
  apply handle_message_inv; [|done]. destruct m as [corr op|]; [|done].
  split; [exact (decode_corr _ _ _ Hm)|]. apply (Hop corr op). by exists h, f, payload, w, t.
Qed.

Lemma expire_inv corrs n : P n -> P (expire write_ok cfg corrs n).2.
Proof.
  revert n. induction corrs as [|corr rest IH]; intros n Hi; [done|]. cbn [expire].
  unfold bind at 1. unfold gets. apply bind_inv; [|by intros [] n1; apply IH].
  destruct (pending n !! corr) as [p|]; [|done].
  apply bind_inv; [by apply (ei_pending EI)|]. intros [] n1 Hn1. by apply (ei_write EI).
Qed.

Lemma step_inv e n :
  okevent e n -> P n -> P (step printable write_ok send_error cfg store epoch e n).2.
Proof.
  intros He Hi. destruct e; unfold step.
  - by apply (ei_clients EI).
  - by apply handle_client_frame_inv.
  - by apply (ei_pending EI), (ei_clients EI).
  - by apply handle_datagram_inv.
  - unfold gets. unfold bind at 1. by apply expire_inv.
Qed.

End Induction.

(** An invariant that does not look at operations and replies holds along any
    events. *)
Definition always {A} : A -> Prop := fun _ => True.

Lemma core_loop_inv cfg store epoch P events n :
  effect_inv cfg store epoch always always P -> P n ->
  P (core_loop printable write_ok send_error cfg store epoch events n).2.
Proof.
  intros EI. revert n. induction events as [|e events IH]; intros n Hi; [done|]. cbn [core_loop].
  apply bind_inv; [|intros [] n1; apply IH]. eapply step_inv; [done| |done]. by destruct e.
Qed.

(** ** The keyspace *)

(** A node holds an ordered, capped store with only keys it owns. *)
Record node_inv (cfg : Config) (n : Node) : Prop := {
  ni_store : store_inv (kv n);
  ni_owned : forall k v, contents (kv n) !! k = Some v -> owner k (id cfg) (peer_id cfg) = id cfg;
}.

Lemma node_inv_kv cfg n n' : kv n' = kv n -> node_inv cfg n -> node_inv cfg n'.
Proof. intros Hk [Hs Ho]. split; by rewrite Hk. Qed.

Lemma run_kv_inv cfg op n :
  owner (op_key op) (id cfg) (peer_id cfg) = id cfg -> node_inv cfg n ->
  node_inv cfg (run_kv op n).2.
Proof.
  intros Hop [Hs Ho]. unfold run_kv, zoom. pose proof (execute_inv op (kv n) Hs) as Hi.
  destruct (execute_contents op (kv n) Hs) as [_ Hc].
  destruct (execute op (kv n)) as [r s']. simpl in *. split; [done|]. simpl. intros k v. rewrite Hc.
  destruct op as [k0|k0 v0|k0]; simpl in *; [apply Ho|..].
  - case_decide; simpl; [apply Ho|]. destruct (decide (k = k0)) as [->|Hne]; [done|].
    rewrite lookup_insert_ne by done. apply Ho.
  - destruct (decide (k = k0)) as [->|Hne]; [by rewrite lookup_delete_eq|].
    rewrite lookup_delete_ne by done. apply Ho.
Qed.

Lemma node_inv_effects cfg store epoch : effect_inv cfg store epoch always always (node_inv cfg).
Proof.
  split; try done; try (intros; by eapply node_inv_kv; [|done]).
  - intros c bs n Hn. eapply node_inv_kv; [apply write_frame_frame|done].
  - intros corr op n _ _ Hn. eapply node_inv_kv; [apply send_frame|done].
  - intros corr r n _ _ Hn. eapply node_inv_kv; [apply send_frame|done].
  - intros op n _ Ho Hn. split; [by apply run_kv_inv|done].
Qed.

Lemma boot_inv cfg s : node_inv cfg (boot s).
Proof. split; [apply store_default_inv|done]. Qed.

Lemma reachable_inv cfg store epoch events s :
  node_inv cfg (core_loop printable write_ok send_error cfg store epoch events (boot s)).2.
Proof. apply core_loop_inv; [apply node_inv_effects|apply boot_inv]. Qed.

End Frames.

(** ** The link *)

Section Link.
Context `{AS : AeadSpec} (printable : Z -> bool) (write_ok : nat -> bool)
  (send_error : nat -> option text).

(** A node holds the link key for its peer. *)
Record link (cfg : Config) (store : KeyStore) (epoch : Epoch) (key : bytes) (s : SodiumState)
    : Prop := {
  lk_inv : ks_inv s store;
  lk_id : local_id store = id cfg;
  lk_key : view s store !! (peer_id cfg, epoch) = Some key;
}.

Lemma link_heap cfg store epoch key s s' :
  heap s' = heap s -> link cfg store epoch key s -> link cfg store epoch key s'.
Proof.
  intros Hh [Hi Hid Hk]. split; [|done|].
  - eapply ks_inv_heap; [done|]. by rewrite Hh.
  - rewrite (view_heap s); [done..|]. by rewrite Hh.
Qed.

Lemma send_heap cfg store epoch m n :
  heap (node_sys (send_to_peer send_error cfg store epoch m n).2) = heap (node_sys n).
Proof.
  unfold send_to_peer.
  pose proof (dek_seal_heap store (peer_id cfg) PEER_CHANNEL epoch (as_bytes m) (node_sys n)) as Hh.
  destruct (Dek.seal _ _ _ _ _ _) as [[frame|e] s]; [|done]. simpl in *.
  by destruct (send_error (sends n)).
Qed.

(** What [send_to_peer] puts on the wire. *)
Definition link_frame (cfg : Config) (epoch : Epoch) (key nonce : bytes) (m : text) : bytes :=
  standard_frame key (MkHeader (id cfg) (peer_id cfg) PEER_CHANNEL) (MkFlags Standard epoch)
    nonce (as_bytes m).

Lemma send_run cfg store epoch key m n :
  link cfg store epoch key (node_sys n) -> send_error (sends n) = None ->
  str_len m <= MAX_PAYLOAD ->
  exists nonce s', len nonce = NPUBBYTES /\ heap s' = heap (node_sys n) /\
    send_to_peer send_error cfg store epoch m n =
      (Ok tt, set_outbox (outbox n ++ [link_frame cfg epoch key nonce m])
                (set_sends (S (sends n)) (set_node_sys s' n))).
Proof.
  intros [Hi Hid Hk] He Hl.
  destruct (dek_seal_run (node_sys n) store (peer_id cfg) PEER_CHANNEL epoch (as_bytes m) key Hi Hl Hk)
    as (nonce & s' & _ & Hn & Hh & Hs).
  exists nonce, s'. split_and!; [done|done|]. unfold send_to_peer, link_frame.
  rewrite Hs, Hid. by cbn [set_node_sys sends outbox]; rewrite He.
Qed.

(** A datagram that opens to a message of the peer reaches the handler. *)
Lemma datagram_opened cfg store epoch bs h f payload t msg n :
  ks_inv (node_sys n) store ->
  delivers (local_id store) (view (node_sys n) store) bs h f payload ->
  from_id h = peer_id cfg -> channel h = PEER_CHANNEL ->
  from_utf8 payload = Some t -> Peer.decode printable t = Ok msg ->
  handle_datagram printable write_ok send_error cfg store epoch bs n =
  handle_message write_ok send_error cfg store epoch msg n.
Proof.
  intros Hi Hd Hs Hc Hu Hm. unfold handle_datagram, gets, zoom. unfold bind at 1 2.
  rewrite (open_delivers _ _ _ h f payload) by done.
  assert (set_node_stats (node_stats n) n = n) as -> by (by destruct n).
  by rewrite Hs, Hc, !Z.eqb_refl, Hu, Hm.
Qed.

(** A link frame from the peer opens to its message. *)
Lemma link_delivers cfg cfg' store epoch key nonce m s :
  link cfg store epoch key s -> peer_id cfg = id cfg' -> peer_id cfg' = id cfg ->
  is_u16 (id cfg') -> len nonce = NPUBBYTES -> Forall is_char m ->
  delivers (local_id store) (view s store) (link_frame cfg' epoch key nonce m)
    (MkHeader (id cfg') (peer_id cfg') PEER_CHANNEL) (MkFlags Standard epoch) (as_bytes m).
Proof.
  intros [Hi Hid Hk] Hp Hp' Hu Hn Hm.
  destruct (view_key _ _ _ _ Hi Hk) as (stored & Hg & _ & _).
  destruct (ks_inv_key _ _ _ _ Hi Hg) as (_ & _ & Hep).
  left. exists key, nonce. split; try done.
  - split_and!; simpl; [done| |done]. rewrite Hp', <- Hid. apply Hi.
  - simpl. congruence.
  - simpl. by rewrite <- Hp.
  - by apply as_bytes_u8.
Qed.

(** A link frame from the peer carries its message to the handler. *)
Lemma datagram_run cfg cfg' store epoch key nonce m msg n :
  link cfg store epoch key (node_sys n) -> peer_id cfg = id cfg' -> peer_id cfg' = id cfg ->
  is_u16 (id cfg') -> len nonce = NPUBBYTES -> Forall is_char m ->
  Peer.decode printable m = Ok msg ->
  handle_datagram printable write_ok send_error cfg store epoch (link_frame cfg' epoch key nonce m) n =
  handle_message write_ok send_error cfg store epoch msg n.
Proof.
  intros Hl Hp Hp' Hu Hn Hm Hd.
  apply (datagram_opened _ _ _ _ (MkHeader (id cfg') (peer_id cfg') PEER_CHANNEL)
    (MkFlags Standard epoch) (as_bytes m) m); try done; [apply Hl| |by apply from_utf8_as_bytes].
  by apply (link_delivers cfg).
Qed.

Lemma run_kv_frame op n :
  run_kv op n = ((execute op (kv n)).1, set_kv (execute op (kv n)).2 n).
Proof. unfold run_kv, zoom. by destruct (execute op (kv n)). Qed.

Lemma write_run c bs n written :
  clients n !! c = Some written -> write_ok (writes n) = true ->
  write_frame write_ok c bs n =
    (tt, set_clients (<[c := written ++ bs]> (clients n)) (set_writes (S (writes n)) n)).
Proof. intros Hc Hw. unfold write_frame. by rewrite Hc, Hw. Qed.

End Link.

(** ** A forwarded operation *)

Section Forward.
Context `{AS : AeadSpec} (printable : Z -> bool).

Lemma link_effects write_ok send_error cfg store epoch key :
  effect_inv write_ok send_error cfg store epoch always always (fun n => link cfg store epoch key (node_sys n)).
Proof.
  split; try done; intros.
  - eapply link_heap; [|done]. f_equal. apply write_frame_frame.
  - eapply link_heap; [|done]. apply send_heap.
  - eapply link_heap; [|done]. apply send_heap.
  - split; [|done]. eapply link_heap; [|done]. by rewrite run_kv_frame.
Qed.

(** The asking node: the operation is on the wire and one entry waits. *)
Lemma forward_request write_ok send_error cfg store epoch key now c f op n :
  link cfg store epoch key (node_sys n) -> send_error (sends n) = None ->
  to_ascii_uppercase (command f) = str "SEND" ->
  eq_ignore_ascii_case (trim (body f)) (str "SIZE") = false ->
  Kv.parse printable (body f) = Ok op -> owner (op_key op) (id cfg) (peer_id cfg) <> id cfg ->
  let corr := (next_corr n + 1) `mod` 2 ^ 64 in
  exists nonce s', len nonce = NPUBBYTES /\ heap s' = heap (node_sys n) /\
    step printable write_ok send_error cfg store epoch (ClientFrame now c f) n =
      (tt, set_pending (<[corr := MkPending c (header f (str "receipt")) (now + FORWARD_TIMEOUT)]> (pending n))
             (set_outbox (outbox n ++ [link_frame cfg epoch key nonce (Peer.encode (Request corr op))])
                (set_sends (S (sends n)) (set_node_sys s' (set_next_corr corr n))))).
Proof.
  intros Hl He Hc Hsz Hp Ho corr. unfold step, handle_client_frame.
  rewrite Hc, !(decide_False (P := _ \/ _)) by (vm_compute; naive_solver).
  rewrite decide_False, decide_True by (done || by vm_compute).
  unfold handle_send. rewrite Hsz, Hp, (proj2 (Z.eqb_neq _ _)) by done.
  unfold bump_corr. unfold bind at 1. fold corr. set (n1 := set_next_corr corr n).
  destruct (parse_facts _ _ _ Hp) as [Hk Hv].
  assert (Hu : is_u64 corr) by (unfold corr; pose proof (Z.mod_pos_bound (next_corr n + 1) (2 ^ 64)); width).
  destruct (send_run send_error cfg store epoch key (Peer.encode (Request corr op)) n1)
    as (nonce & s' & Hn & Hh & Hs); [done..| |].
  { etransitivity; [by apply encode_len|]. unfold payload_text.
    destruct op as [k|k v|k]; [done| |done].
    destruct Hv as (_ & _ & Hv). geometry. unfold MAX_PUT_BYTES in Hv. lia. }
  exists nonce, s'. split_and!; [done|done|]. unfold bind. by rewrite Hs.
Qed.

(** The owning node: the operation is executed once and the reply is on the
    wire. *)
Lemma forward_answer write_ok send_error cfg cfg' store epoch key nonce corr op n :
  link cfg store epoch key (node_sys n) -> peer_id cfg = id cfg' -> peer_id cfg' = id cfg ->
  is_u16 (id cfg') -> len nonce = NPUBBYTES ->
  is_u64 corr -> is_u64 (op_key op) -> Forall is_char (payload_text (Request corr op)) ->
  owner (op_key op) (id cfg) (peer_id cfg) = id cfg -> send_error (sends n) = None ->
  str_len (payload_text (Response corr (execute op (kv n)).1)) <= MAX_PUT_BYTES ->
  exists nonce' s', len nonce' = NPUBBYTES /\ heap s' = heap (node_sys n) /\
    step printable write_ok send_error cfg store epoch
        (Datagram (link_frame cfg' epoch key nonce (Peer.encode (Request corr op)))) n =
      (tt, set_outbox (outbox n ++
             [link_frame cfg epoch key nonce' (Peer.encode (Response corr (execute op (kv n)).1))])
             (set_sends (S (sends n)) (set_node_sys s' (set_kv (execute op (kv n)).2 n)))).
Proof.
  intros Hl Hp Hp' Hid Hn Hc Hk Hv Ho He Hr. unfold step.
  rewrite (datagram_run printable _ _ cfg cfg' store epoch key nonce _ (Request corr op));
    [|done..|by apply encode_chars|by apply Peer.decode_encode].
  unfold handle_message. unfold bind at 1. unfold answer.
  rewrite (proj2 (Z.eqb_eq _ _)), run_kv_frame by done. set (n1 := set_kv _ n).
  destruct (send_run send_error cfg store epoch key
    (Peer.encode (Response corr (execute op (kv n)).1)) n1) as (nonce' & s' & Hn' & Hh & Hs); [done..| |].
  { etransitivity; [by apply encode_len|]. geometry. unfold MAX_PUT_BYTES in Hr. lia. }
  exists nonce', s'. split_and!; [done|done|]. unfold bind. by rewrite Hs.
Qed.

(** The asking node again: the reply reaches the client that waits for it. *)
Lemma forward_reply write_ok send_error cfg cfg' store epoch key nonce corr reply n p written :
  link cfg store epoch key (node_sys n) -> peer_id cfg = id cfg' -> peer_id cfg' = id cfg ->
  is_u16 (id cfg') -> len nonce = NPUBBYTES ->
  is_u64 corr -> Forall is_char (payload_text (Response corr reply)) ->
  pending n !! corr = Some p -> clients n !! conn p = Some written -> write_ok (writes n) = true ->
  step printable write_ok send_error cfg store epoch
      (Datagram (link_frame cfg' epoch key nonce (Peer.encode (Response corr reply)))) n =
    (tt, set_clients (<[conn p := written ++ reply_frame (receipt p) reply]> (clients n))
           (set_writes (S (writes n)) (set_pending (delete corr (pending n)) n))).
Proof.
  intros Hl Hp Hp' Hid Hn Hc Hv Hpd Hcl Hw. unfold step.
  rewrite (datagram_run printable _ _ cfg cfg' store epoch key nonce _ (Response corr reply));
    [|done..|by apply encode_chars|by apply Peer.decode_encode].
  unfold handle_message, gets, modify. unfold bind at 1. rewrite Hpd. unfold bind, reply_to_client.
  by rewrite (write_run write_ok (conn p) _ _ written).
Qed.

End Forward.

(** What [start] leaves: the link key under the one epoch and nothing else new
    in guarded memory, or on failure no key at all. *)
Lemma start_spec `{AS : AeadSpec, GS : !GuardedHeapSpec} cfg s r s' :
  is_u16 (id cfg) -> is_u16 (peer_id cfg) -> len (key cfg) = KEYBYTES ->
  start cfg s = (r, s') ->
  match r with
  | Ok (store, epoch) => epoch = MkEpoch 0 /\ link cfg store epoch (key cfg) s' /\ outside s' store = heap s
  | Err _ => heap s' = heap s
  end.
Proof.
  intros Hid Hp Hk. unfold start. unfold bind at 1. pose proof (init_heap s) as Hh1.
  destruct (init s) as [[?|e] s1]; simpl in Hh1; [|by intros [= <- <-]].
  destruct require_aes_gcm; [|by intros [= <- <-]].
  change (epoch_new EPOCH) with (@Ok _ KeystoreError (MkEpoch 0)). cbn match.
  pose proof (init_heap s1) as Hh2. unfold bind at 1. unfold keystore_new, bind, ret.
  destruct (init s1) as [[?|e] s2]; simpl in Hh2; [|intros [= <- <-]; congruence].
  destruct (install (MkKeyStore (id cfg) bt_empty) (peer_id cfg) (MkEpoch 0) (key cfg) s2)
    as [[r' ks] s3] eqn:Hx.
  assert (wf_epoch (MkEpoch 0)) as He by done.
  destruct (install_spec _ _ _ _ _ _ _ _ (empty_store_inv s2 (id cfg) Hid) Hp He Hk Hx)
    as (Hi & Hout & Hl & Hv).
  assert (outside s2 (MkKeyStore (id cfg) bt_empty) = heap s2) as Hem.
  { apply map_filter_id. intros p b _. apply not_elem_of_nil. }
  destruct r' as [[]|e]; intros [= <- <-].
  - destruct Hv as [Hv _]. split_and!; [done| |congruence]. split; [done|done|]. rewrite Hv. apply lookup_insert_eq.
  - destruct e; [done|..]; destruct Hv as (_ & Hv & _); congruence.
Qed.

Lemma start_link `{AS : AeadSpec, GS : !GuardedHeapSpec} cfg s store epoch s' :
  is_u16 (id cfg) -> is_u16 (peer_id cfg) -> len (key cfg) = KEYBYTES ->
  start cfg s = (Ok (store, epoch), s') ->
  epoch = MkEpoch 0 /\ link cfg store epoch (key cfg) s'.
Proof. intros Hid Hp Hk Hs. by apply start_spec in Hs as (He & Hl & _). Qed.

(** What the store answers fits the link when the stored value does. *)
Lemma reply_fits corr op s :
  store_inv s ->
  (forall v, contents s !! op_key op = Some v -> Forall is_char v /\ str_len v <= MAX_PUT_BYTES) ->
  Forall is_char (payload_text (Response corr (execute op s).1)) /\
  str_len (payload_text (Response corr (execute op s).1)) <= MAX_PUT_BYTES.
Proof.
  intros Hi Hv. destruct (execute_contents op s Hi) as [-> _].
  assert (Forall is_char (@nil Z) /\ str_len [] <= MAX_PUT_BYTES) as Hnil by (by split).
  destruct op as [k|k v|k]; simpl in *.
  - destruct (contents s !! k) as [v|]; [by apply Hv|done].
  - case_decide; [|done]. cbn [payload_text fst]. split.
    + exact ceiling_chars.
    + vm_compute. discriminate.
  - by destruct (contents s !! k).
Qed.

(** The exchange of a forwarded operation between two linked nodes. *)
Lemma exchange `{AS : AeadSpec} printable wA eA wB eB cfgA cfgB storeA storeB epoch lk
    a b now c f op written :
  link cfgA storeA epoch lk (node_sys a) -> link cfgB storeB epoch lk (node_sys b) ->
  id cfgA <> id cfgB -> peer_id cfgA = id cfgB -> peer_id cfgB = id cfgA ->
  is_u16 (id cfgA) -> is_u16 (id cfgB) -> store_inv (kv b) ->
  clients a !! c = Some written ->
  wA (writes a) = true -> eA (sends a) = None -> eB (sends b) = None ->
  to_ascii_uppercase (command f) = str "SEND" -> Forall is_char (body f) ->
  eq_ignore_ascii_case (trim (body f)) (str "SIZE") = false ->
  Kv.parse printable (body f) = Ok op -> owner (op_key op) (id cfgA) (id cfgB) = id cfgB ->
  (forall v, contents (kv b) !! op_key op = Some v -> Forall is_char v /\ str_len v <= MAX_PUT_BYTES) ->
  exists request response a1 b1 a2,
    step printable wA eA cfgA storeA epoch (ClientFrame now c f) a = (tt, a1) /\
    step printable wB eB cfgB storeB epoch (Datagram request) b = (tt, b1) /\
    step printable wA eA cfgA storeA epoch (Datagram response) a1 = (tt, a2) /\
    outbox a1 = outbox a ++ [request] /\ outbox b1 = outbox b ++ [response] /\
    clients a2 =
      <[c := written ++ reply_frame (header f (str "receipt")) (kv_spec (contents (kv b)) op).1]>
        (clients a) /\
    contents (kv b1) = (kv_spec (contents (kv b)) op).2 /\
    kv a2 = kv a /\ clients b1 = clients b /\
    pending a2 = delete ((next_corr a + 1) `mod` 2 ^ 64) (pending a).
Proof.
  intros La Lb Hne HpA HpB HuA HuB Hst Hcl Hw HeA HeB Hcmd Hch Hsz Hparse Hown Hval.
  destruct (parse_facts _ _ _ Hparse) as [Hk Hv].
  set (corr := (next_corr a + 1) `mod` 2 ^ 64).
  assert (is_u64 corr) as Hu by (unfold corr; pose proof (Z.mod_pos_bound (next_corr a + 1) (2 ^ 64)); width).
  assert (Forall is_char (payload_text (Request corr op))) as Hpc.
  { destruct op as [k|k v|k]; [by constructor| |by constructor]. by eapply parse_chars. }
  destruct (reply_fits corr op (kv b) Hst Hval) as [Hrc Hrl].
  assert (owner (op_key op) (id cfgB) (peer_id cfgB) = id cfgB) as HoB.
  { by rewrite HpB, owner_sym. }
  destruct (forward_request printable wA eA cfgA storeA epoch lk now c f op a)
    as (n1 & s1 & Hn1 & Hh1 & Ha1); [done..|rewrite HpA; congruence|]. fold corr in Ha1.
  destruct (forward_answer printable wB eB cfgB cfgA storeB epoch lk n1 corr op b)
    as (n2 & s2 & Hn2 & Hh2 & Hb1); [done..|].
  destruct (execute_contents op (kv b) Hst) as [Hr Hc].
  eexists _, (link_frame cfgB epoch lk n2 (Peer.encode (Response corr (execute op (kv b)).1))), _, _, _.
  split; [exact Ha1|]. split; [exact Hb1|].
  rewrite (forward_reply printable wA eA cfgA cfgB storeA epoch lk n2 corr (execute op (kv b)).1 _
    (MkPending c (header f (str "receipt")) (now + FORWARD_TIMEOUT)) written);
    [|by eapply link_heap|done..|apply lookup_insert_eq|done|done].
  split; [reflexivity|]. split_and!; try done; simpl.
  - by rewrite Hr.
  - fold corr. by rewrite delete_insert_eq.
Qed.

(** ** Ticks *)

Section Expiry.
Context (write_ok : nat -> bool).

(** What the clients have after the timeout answers [rs] were written. *)
Fixpoint deliver_all (cfg : Config) (rs : list (Z * Pending)) (m : gmap Z bytes) : gmap Z bytes :=
  match rs with
  | [] => m
  | (_, p) :: rest =>
      deliver_all cfg rest
        (alter (fun w => w ++ reply_frame (receipt p) (timeout_reply cfg)) (conn p) m)
  end.

Lemma write_frame_alter c bs n :
  (forall i, write_ok i = true) ->
  clients (write_frame write_ok c bs n).2 = alter (fun w => w ++ bs) c (clients n).
Proof.
  intros Hw. unfold write_frame. rewrite alter_alt. destruct (clients n !! c); [by rewrite Hw|done].
Qed.

Lemma expire_cons cfg corr rest p n :
  pending n !! corr = Some p ->
  expire write_ok cfg (corr :: rest) n =
  expire write_ok cfg rest
    (write_frame write_ok (conn p) (reply_frame (receipt p) (timeout_reply cfg))
       (set_pending (delete corr (pending n)) n)).2.
Proof.
  intros Hp. cbn [expire]. unfold gets, modify, reply_to_client, bind. rewrite Hp.
  by destruct (write_frame _ _ _ _) as [[] n2].
Qed.

Lemma expire_run cfg rs n :
  NoDup rs.*1 -> (forall corr p, (corr, p) ∈ rs -> pending n !! corr = Some p) ->
  let n' := (expire write_ok cfg rs.*1 n).2 in
  (forall corr, pending n' !! corr = if decide (corr ∈ rs.*1) then None else pending n !! corr) /\
  kv n' = kv n /\ outbox n' = outbox n /\ next_corr n' = next_corr n /\
  ((forall i, write_ok i = true) -> clients n' = deliver_all cfg rs (clients n)).
Proof.
  revert n. induction rs as [|[corr p] rs IH]; intros n Hnd Hin.
  { split_and!; done. }
  cbn [fmap list_fmap fst]. rewrite (expire_cons cfg corr rs.*1 p n) by (apply Hin; by left).
  set (n1 := set_pending _ n).
  pose proof (write_frame_frame write_ok (conn p) (reply_frame (receipt p) (timeout_reply cfg)) n1)
    as (Hk & Hpe & Hco & _ & _ & Hob & _).
  pose proof (write_frame_alter (conn p) (reply_frame (receipt p) (timeout_reply cfg)) n1) as Hcl.
  destruct (write_frame _ _ _ n1) as [[] n2]. subst n1. cbv zeta. cbn [snd].
  simpl in Hk, Hpe, Hco, Hob, Hcl.
  apply NoDup_cons in Hnd as [Hni Hnd]. destruct (IH n2) as (H1 & H2 & H3 & H4 & H5); [done| |].
  { intros c' p' Hc'. rewrite Hpe. rewrite lookup_delete_ne; [apply Hin; by right|].
    intros ->. apply Hni. apply list_elem_of_fmap. by exists (c', p'). }
  split; [|split_and!; [congruence..|intros Hw; by rewrite H5, Hcl]].
  - intros c'. rewrite H1, Hpe. destruct (decide (c' = corr)) as [->|Hne].
    + rewrite (decide_True (P := corr ∈ corr :: _)) by by left. by case_decide; [|rewrite lookup_delete_eq].
    + rewrite lookup_delete_ne by done. apply decide_ext. rewrite elem_of_cons. naive_solver.
Qed.

End Expiry.

(** ** Claims *)

(** C13: the keyspace never splits: run both nodes of a pair on any events at all,
    with any datagrams from anyone, any clients, failing sockets and lost
    messages; then no key is ever stored on both, every stored key is on its
    owner, and each store stays ordered and within the key ceiling. *)
Theorem keyspace_partition `{Libsodium} printable wA eA wB eB cfgA cfgB storeA storeB epoch evA evB sA sB :
  id cfgA <> id cfgB -> peer_id cfgA = id cfgB -> peer_id cfgB = id cfgA ->
  let A := (core_loop printable wA eA cfgA storeA epoch evA (boot sA)).2 in
  let B := (core_loop printable wB eB cfgB storeB epoch evB (boot sB)).2 in
  contents (kv A) ##ₘ contents (kv B) /\
  (forall k v, contents (kv A) !! k = Some v -> owner k (id cfgA) (id cfgB) = id cfgA) /\
  (forall k v, contents (kv B) !! k = Some v -> owner k (id cfgA) (id cfgB) = id cfgB) /\
  Z.of_nat (size (contents (kv A))) <= MAX_KEYS /\ Z.of_nat (size (contents (kv B))) <= MAX_KEYS.
Proof.
  intros Hne HpA HpB A B.
  destruct (reachable_inv printable wA eA cfgA storeA epoch evA sA) as [[Hs1 Hc1] Ho1]. fold A in Hs1, Hc1, Ho1.
  destruct (reachable_inv printable wB eB cfgB storeB epoch evB sB) as [[Hs2 Hc2] Ho2]. fold B in Hs2, Hc2, Ho2.
  rewrite HpA in Ho1. rewrite HpB in Ho2.
  split_and!.
  - apply map_disjoint_spec. intros k x y H1 H2. apply Ho1 in H1. apply Ho2 in H2.
    rewrite owner_sym in H2 by done. congruence.
  - exact Ho1.
  - intros k v Hk. rewrite owner_sym by done. by eapply Ho2.
  - unfold contents. by rewrite to_map_size.
  - unfold contents. by rewrite to_map_size.
Qed.


(** A pair of nodes provisioned for each other. *)
Record paired (A B : Config) : Prop := {
  pair_ids : id A <> id B;
  pair_fwd : peer_id A = id B;
  pair_bwd : peer_id B = id A;
  pair_key : key A = key B;
  pair_width : is_u16 (id A) /\ is_u16 (id B);
  pair_key_len : len (key A) = KEYBYTES;
}.

(** a forwarded operation works end to end.  Two nodes start with the same
    link key and have then seen any events at all.  A client of [A] sends an
    operation on a key of [B]; [A] emits one datagram, [B] on receiving it
    executes the operation exactly as the map specification says and emits one
    datagram, and [A] on receiving that writes to this client, and to no other,
    the reply with its receipt; [A]'s store and [B]'s clients are untouched and
    nothing is left pending for the request.  The sockets are assumed to work
    on these three sends, and the value read back to be one a client could
    have stored. *)
Theorem forwarded_operation `{AS : AeadSpec, GS : !GuardedHeapSpec} printable wA eA wB eB
    cfgA cfgB tA tB storeA storeB epA epB sA sB evA evB now c f op written :
  paired cfgA cfgB ->
  start cfgA tA = (Ok (storeA, epA), sA) -> start cfgB tB = (Ok (storeB, epB), sB) ->
  let a := (core_loop printable wA eA cfgA storeA epA evA (boot sA)).2 in
  let b := (core_loop printable wB eB cfgB storeB epB evB (boot sB)).2 in
  clients a !! c = Some written ->
  wA (writes a) = true -> eA (sends a) = None -> eB (sends b) = None ->
  to_ascii_uppercase (command f) = str "SEND" -> Forall is_char (body f) ->
  eq_ignore_ascii_case (trim (body f)) (str "SIZE") = false ->
  Kv.parse printable (body f) = Ok op -> owner (op_key op) (id cfgA) (id cfgB) = id cfgB ->
  (forall v, contents (kv b) !! op_key op = Some v -> Forall is_char v /\ str_len v <= MAX_PUT_BYTES) ->
  exists request response,
    let a1 := (step printable wA eA cfgA storeA epA (ClientFrame now c f) a).2 in
    let b1 := (step printable wB eB cfgB storeB epB (Datagram request) b).2 in
    let a2 := (step printable wA eA cfgA storeA epA (Datagram response) a1).2 in
    outbox a1 = outbox a ++ [request] /\ outbox b1 = outbox b ++ [response] /\
    clients a2 =
      <[c := written ++ reply_frame (header f (str "receipt")) (kv_spec (contents (kv b)) op).1]>
        (clients a) /\
    contents (kv b1) = (kv_spec (contents (kv b)) op).2 /\
    kv a2 = kv a /\ clients b1 = clients b /\
    pending a2 = delete ((next_corr a + 1) `mod` 2 ^ 64) (pending a).
Proof.
  intros Hpair HsA HsB a b Hcl Hw HeA HeB Hcmd Hch Hsz Hparse Hown Hval.
  pose proof (pair_ids _ _ Hpair) as Hne.
  destruct Hpair as [_ HpA HpB Hkey [HuA HuB] Hkl].
  destruct (start_link cfgA tA storeA epA sA) as [-> HlA]; [done|congruence|done..|].
  destruct (start_link cfgB tB storeB epB sB) as [-> HlB]; [done|congruence|congruence|done|].
  rewrite <- Hkey in HlB.
  assert (link cfgA storeA (MkEpoch 0) (key cfgA) (node_sys a)) as La.
  { by apply (core_loop_inv printable wA eA cfgA storeA (MkEpoch 0) _ _ _ (link_effects _ _ _ _ _ _)). }
  assert (link cfgB storeB (MkEpoch 0) (key cfgA) (node_sys b)) as Lb.
  { by apply (core_loop_inv printable wB eB cfgB storeB (MkEpoch 0) _ _ _ (link_effects _ _ _ _ _ _)). }
  destruct (reachable_inv printable wB eB cfgB storeB (MkEpoch 0) evB sB) as [Hst _]. fold b in Hst.
  destruct (exchange printable wA eA wB eB cfgA cfgB storeA storeB (MkEpoch 0) (key cfgA)
    a b now c f op written) as (request & response & a1 & b1 & a2 & E1 & E2 & E3 & Hx); [done..|].
  exists request, response. cbv zeta. rewrite E1, E2. cbn [snd]. by rewrite E3.
Qed.

(** a datagram that is not the peer's is inert.  Bytes that do not open, or
    that authenticate as someone else or on another channel, change nothing but
    the statistics: no store entry, no client, no pending request, no datagram
    in answer, no draw of randomness. *)
Theorem foreign_datagram_inert `{AS : AeadSpec} printable write_ok send_error cfg store epoch bs n :
  ks_inv (node_sys n) store -> Forall is_u8 bs ->
  (forall h f payload, delivers (local_id store) (view (node_sys n) store) bs h f payload ->
     from_id h <> peer_id cfg \/ channel h <> PEER_CHANNEL) ->
  exists w, step printable write_ok send_error cfg store epoch (Datagram bs) n =
    (tt, set_node_stats w n).
Proof.
  intros Hi Hu Hf. unfold step, handle_datagram, gets, zoom. unfold bind at 1 2.
  destruct (dispatch_cases (node_sys n) store bs (node_stats n) Hi Hu)
    as [(h & f & payload & Hd & ->)|(_ & e & _ & ->)]; [|by eexists].
  eexists. destruct (Hf h f payload Hd) as [Hx|Hx]; rewrite (proj2 (Z.eqb_neq _ _) Hx); simpl;
    by rewrite ?orb_true_r.
Qed.

(** ** Correlation numbers *)

Section Correlation.
Context `{Libsodium} (printable : Z -> bool) (write_ok : nat -> bool)
  (send_error : nat -> option text) (cfg : Config) (store : KeyStore) (epoch : Epoch).

(** One turn changes the pending table in one of two ways: entries leave, or a
    forwarded request is entered under the next number. *)
Definition table_step (n n' : Node) : Prop :=
  (next_corr n' = next_corr n \/ next_corr n' = (next_corr n + 1) `mod` 2 ^ 64) /\
  (pending n' ⊆ pending n \/
   next_corr n' = (next_corr n + 1) `mod` 2 ^ 64 /\ exists p, pending n' = <[next_corr n' := p]> (pending n)).

Lemma table_step_same n n' : next_corr n' = next_corr n -> pending n' ⊆ pending n -> table_step n n'.
Proof. intros ? ?. split; by left. Qed.

Lemma write_table c bs n : table_step n (write_frame write_ok c bs n).2.
Proof. destruct (write_frame_frame write_ok c bs n) as (_ & H1 & H2 & _). by apply table_step_same; rewrite ?H1. Qed.

Lemma handle_send_table now c rcpt b n :
  table_step n (handle_send printable write_ok send_error cfg store epoch now c rcpt b n).2.
Proof.
  unfold handle_send. destruct (eq_ignore_ascii_case _ _); [apply write_table|].
  destruct (Kv.parse printable b) as [op|e]; [|apply write_table].
  destruct (_ =? _).
  - unfold bind. rewrite run_kv_frame. exact (write_table c _ (set_kv (execute op (kv n)).2 n)).
  - unfold bump_corr, bind. set (corr := (next_corr n + 1) `mod` 2 ^ 64).
    destruct (send_frame send_error cfg store epoch (Peer.encode (Request corr op)) (set_next_corr corr n))
      as (_ & _ & H1 & H2 & _).
    destruct (send_to_peer _ _ _ _ _ _) as [[[]|e] n1]; simpl in H1, H2.
    + split; simpl; rewrite H2; [by right|]. right. split; [done|]. eexists. by rewrite H1.
    + destruct (write_frame_frame write_ok c (reply_frame rcpt (RErr e)) n1) as (_ & H3 & H4 & _).
      unfold reply_to_client. split; rewrite ?H3, ?H4, ?H2; [by right|left; by rewrite H1].
Qed.

Lemma handle_message_table m n :
  table_step n (handle_message write_ok send_error cfg store epoch m n).2.
Proof.
  destruct m as [corr op|corr r]; unfold handle_message.
  - assert (pending (answer cfg op n).2 = pending n /\ next_corr (answer cfg op n).2 = next_corr n) as [H1 H2].
    { unfold answer. destruct (_ =? _); [by rewrite run_kv_frame|done]. }
    unfold bind. destruct (answer cfg op n) as [reply n1]. simpl in H1, H2.
    destruct (send_frame send_error cfg store epoch (Peer.encode (Response corr reply)) n1)
      as (_ & _ & H3 & H4 & _).
    destruct (send_to_peer _ _ _ _ _ _) as [[[]|e] n2]; simpl in *;
      apply table_step_same; simpl; [congruence|by rewrite H3, H1|congruence|by rewrite H3, H1].
  - unfold gets. unfold bind at 1. destruct (pending n !! corr) as [p|]; [|by apply table_step_same].
    unfold bind, modify, reply_to_client.
    match goal with |- context[write_frame write_ok ?c ?b ?k] =>
      destruct (write_frame_frame write_ok c b k) as (_ & H1 & H2 & _) end.
    apply table_step_same; [done|]. rewrite H1. apply delete_subseteq.
Qed.

Lemma expire_table corrs n :
  let n' := (expire write_ok cfg corrs n).2 in next_corr n' = next_corr n /\ pending n' ⊆ pending n.
Proof.
  revert n. induction corrs as [|corr rest IH]; intros n; [done|].
  destruct (pending n !! corr) as [p|] eqn:Hp.
  - cbv zeta. rewrite (expire_cons write_ok cfg corr rest p n Hp).
    set (n1 := set_pending (delete corr (pending n)) n).
    destruct (write_frame_frame write_ok (conn p) (reply_frame (receipt p) (timeout_reply cfg)) n1)
      as (_ & H3 & H4 & _).
    destruct (IH (write_frame write_ok (conn p) (reply_frame (receipt p) (timeout_reply cfg)) n1).2) as [H1 H2].
    split; [by rewrite H1, H4|]. etransitivity; [exact H2|]. rewrite H3. apply delete_subseteq.
  - cbv zeta. cbn [expire]. unfold gets, bind. rewrite Hp. apply IH.
Qed.

Lemma step_table e n : table_step n (step printable write_ok send_error cfg store epoch e n).2.
Proof.
  destruct e as [c|now c f|c|bs|now]; unfold step.
  - by apply table_step_same.
  - unfold handle_client_frame. repeat case_decide; try apply write_table; try apply handle_send_table.
    + destruct (header f _); [apply write_table|by apply table_step_same].
    + unfold bind. destruct (header f _) as [r|]; [|by apply table_step_same].
      destruct (write_frame_frame write_ok c (receipt_frame r) n) as (_ & Hp & Hc & _).
      destruct (write_frame _ _ _ n) as [[] n1]. simpl in Hp, Hc. by apply table_step_same; simpl; rewrite ?Hp.
  - apply table_step_same; [done|]. simpl. apply map_filter_subseteq.
  - unfold handle_datagram, gets, zoom. unfold bind at 1 2.
    destruct (Dek.open _ _ _ _) as [[[[h f] payload]|e] w]; [|by apply table_step_same].
    destruct (_ || _); [by apply table_step_same|]. destruct (from_utf8 payload) as [t|]; [|by apply table_step_same].
    destruct (Peer.decode printable t) as [m|e]; [|by apply table_step_same].
    exact (handle_message_table m (set_node_stats w n)).
  - unfold gets. unfold bind at 1. apply table_step_same; apply expire_table.
Qed.

(** [k] turns have been made at most, and no number beyond the last is in use. *)
Record numbered (k : Z) (n : Node) : Prop := {
  nu_corr : 0 <= next_corr n <= k;
  nu_pending corr p : pending n !! corr = Some p -> corr <= next_corr n;
}.

Lemma step_numbered e k n :
  k < U64_MAX -> numbered k n ->
  numbered (k + 1) (step printable write_ok send_error cfg store epoch e n).2 /\
  forall corr, corr <= next_corr n -> pending n !! corr = None ->
    pending (step printable write_ok send_error cfg store epoch e n).2 !! corr = None /\
    corr <= next_corr (step printable write_ok send_error cfg store epoch e n).2.
Proof.
  intros Hk [Hc Hp]. destruct (step_table e n) as [Hn Hs].
  set (n' := (step _ _ _ _ _ _ e n).2) in *. rewrite Z.mod_small in Hn, Hs by width.
  assert (next_corr n <= next_corr n' <= k + 1) as Hb by lia. split; [split; [lia|]|].
  - intros corr p Hl. destruct Hs as [Hs|(He & q & Hs)].
    + eapply lookup_weaken in Hl; [|exact Hs]. apply Hp in Hl. lia.
    + rewrite Hs in Hl. destruct (decide (corr = next_corr n')) as [->|Hne]; [lia|].
      rewrite lookup_insert_ne in Hl by done. apply Hp in Hl. lia.
  - intros corr Hle Hno. split; [|lia]. destruct Hs as [Hs|(He & q & Hs)].
    + by eapply lookup_weaken_None.
    + rewrite Hs, lookup_insert_ne by lia. done.
Qed.

Lemma core_loop_numbered evs k n :
  k + len evs <= U64_MAX -> numbered k n ->
  numbered (k + len evs) (core_loop printable write_ok send_error cfg store epoch evs n).2 /\
  forall corr, corr <= next_corr n -> pending n !! corr = None ->
    pending (core_loop printable write_ok send_error cfg store epoch evs n).2 !! corr = None.
Proof.
  revert k n. induction evs as [|e evs IH]; intros k n Hk Hn; [by rewrite len_nil, Z.add_0_r|].
  pose proof (len_nonneg evs). rewrite len_cons in *. cbn [core_loop].
  destruct (step_numbered e k n) as [H1 H2]; [lia|done|].
  unfold bind. destruct (step _ _ _ _ _ _ e n) as [[] n1].
  destruct (IH (k + 1) n1) as [H3 H4]; [lia|done|].
  split; [by replace (k + (1 + len evs)) with (k + 1 + len evs) by lia|].
  intros corr Hle Hno. destruct (H2 corr Hle Hno). by apply H4.
Qed.

End Correlation.

(** The response to a pending request: one write to the connection that asked. *)
Lemma response_effect `{Libsodium} write_ok send_error cfg store epoch corr r p n :
  pending n !! corr = Some p ->
  let n1 := (handle_message write_ok send_error cfg store epoch (Response corr r) n).2 in
  clients n1 =
    match clients n !! conn p with
    | Some w => if write_ok (writes n) then <[conn p := w ++ reply_frame (receipt p) r]> (clients n)
                else delete (conn p) (clients n)
    | None => clients n
    end /\
  pending n1 = delete corr (pending n) /\ kv n1 = kv n /\ outbox n1 = outbox n /\
  node_sys n1 = node_sys n /\ next_corr n1 = next_corr n.
Proof.
  intros Hp. unfold handle_message, gets, modify, bind, reply_to_client. rewrite Hp. unfold write_frame.
  simpl. by destruct (clients n !! conn p); [destruct (write_ok (writes n))|].
Qed.

(** A datagram that carries a message is handled as the message. *)
Lemma carries_handled `{AS : AeadSpec} printable write_ok send_error cfg store epoch n bs m :
  ks_inv (node_sys n) store -> Forall is_u8 bs -> carries printable cfg store n bs m ->
  step printable write_ok send_error cfg store epoch (Datagram bs) n =
  handle_message write_ok send_error cfg store epoch m n.
Proof.
  intros Hi Hu (h & f & payload & w & t & Ho & Hf & Hc & Ht & Hd).
  destruct (dispatch_cases (node_sys n) store bs (node_stats n) Hi Hu)
    as [(h' & f' & p' & Hdl & He)|(_ & e & _ & He)]; [|congruence].
  rewrite He in Ho. injection Ho as <- <- <- <-. unfold step.
  by apply (datagram_opened _ _ _ _ _ _ _ h' f' p' t).
Qed.

(** C39: a response is delivered once and to its client only.  At any moment of
    any run, a datagram that carries the response to a pending request writes
    that reply, with its receipt, to the connection that asked (or closes it if
    the write fails) and to no other, and ends the request; and after any
    further events (fewer in all than the correlation numbers there are) a
    datagram with any response to that number, the same or another, changes
    nothing at all. *)
Theorem response_once `{AS : AeadSpec} printable write_ok send_error cfg store epoch key s earlier later
    bs1 bs2 corr p r1 r2 :
  link cfg store epoch key s -> len earlier + 1 + len later <= U64_MAX ->
  let run := core_loop printable write_ok send_error cfg store epoch in
  let turn := step printable write_ok send_error cfg store epoch in
  let n := (run earlier (boot s)).2 in
  let n1 := (turn (Datagram bs1) n).2 in
  let n2 := (run later n1).2 in
  pending n !! corr = Some p ->
  Forall is_u8 bs1 -> carries printable cfg store n bs1 (Response corr r1) ->
  Forall is_u8 bs2 -> carries printable cfg store n2 bs2 (Response corr r2) ->
  clients n1 =
    match clients n !! conn p with
    | Some w => if write_ok (writes n) then <[conn p := w ++ reply_frame (receipt p) r1]> (clients n)
                else delete (conn p) (clients n)
    | None => clients n
    end /\
  pending n1 = delete corr (pending n) /\ kv n1 = kv n /\ outbox n1 = outbox n /\
  turn (Datagram bs2) n2 = (tt, n2).
Proof.
  intros Hl Hlen run turn n n1 n2 Hp Hu1 Hc1 Hu2 Hc2.
  pose proof (core_loop_inv printable write_ok send_error cfg store epoch _ earlier (boot s)
    (link_effects write_ok send_error cfg store epoch key) Hl) as Hln. fold run n in Hln.
  pose proof (len_nonneg later). pose proof (len_nonneg earlier).
  destruct (core_loop_numbered printable write_ok send_error cfg store epoch earlier 0 (boot s))
    as [Hnum _]; [lia|by split|]. fold run n in Hnum.
  destruct (step_numbered printable write_ok send_error cfg store epoch (Datagram bs1) (0 + len earlier) n ltac:(lia) Hnum)
    as [Hnum1 _]. fold turn n1 in Hnum1.
  assert (n1 = (handle_message write_ok send_error cfg store epoch (Response corr r1) n).2) as Hn1.
  { unfold n1, turn. by rewrite (carries_handled _ _ _ _ _ _ _ _ (Response corr r1)) by (done || apply Hln). }
  destruct (response_effect write_ok send_error cfg store epoch corr r1 p n Hp) as (E1 & E2 & E3 & E4 & E5 & E6).
  rewrite <- Hn1 in E1, E2, E3, E4, E5, E6.
  split_and!; try done.
  destruct (core_loop_numbered printable write_ok send_error cfg store epoch later (0 + len earlier + 1) n1
    ltac:(lia) Hnum1) as [_ Hno]. fold run n2 in Hno.
  assert (link cfg store epoch key (node_sys n1)) as Hln1 by (by rewrite E5).
  pose proof (core_loop_inv printable write_ok send_error cfg store epoch _ later n1
    (link_effects write_ok send_error cfg store epoch key) Hln1) as Hln2. fold run n2 in Hln2.
  unfold turn. rewrite (carries_handled _ _ _ _ _ _ _ _ (Response corr r2)) by (done || apply Hln2).
  unfold handle_message, gets, bind. rewrite Hno; [done| |by rewrite E2, lookup_delete_eq].
  rewrite E6. by eapply Hnum.
Qed.

(** forwarded requests expire.  A tick removes exactly the requests whose
    deadline has passed and keeps the others; it executes nothing and sends
    nothing; and when the sockets work, the owner of each expired request is
    told so, once per request and in table order. *)
Theorem tick_expires `{Libsodium} printable write_ok send_error cfg store epoch now n :
  let n' := (step printable write_ok send_error cfg store epoch (Tick now) n).2 in
  let late := filter (fun cp => cp.2.(deadline) <= now) (map_to_list (pending n)) in
  pending n' = filter (fun cp => now < cp.2.(deadline)) (pending n) /\
  kv n' = kv n /\ outbox n' = outbox n /\ next_corr n' = next_corr n /\
  ((forall i, write_ok i = true) -> clients n' = deliver_all cfg late (clients n)).
Proof.
  intros n' late.
  destruct (expire_run write_ok cfg late n) as (Hp & Hr).
  - eapply (sublist_NoDup _ (map_to_list (pending n)).*1); [apply NoDup_fst_map_to_list|].
    apply fmap_sublist, sublist_filter.
  - intros corr p Hin. apply list_elem_of_filter in Hin as [_ Hin]. by apply elem_of_map_to_list.
  - split; [|exact Hr]. apply map_eq. intros corr. unfold n', step, gets. unfold bind at 1.
    fold late. rewrite Hp. rewrite map_lookup_filter.
    destruct (pending n !! corr) as [p|] eqn:Hc; simpl; [|by case_decide].
    case_decide as Hin; [|case_guard; [done|]].
    + apply list_elem_of_fmap in Hin as ([c' p'] & -> & Hin). apply list_elem_of_filter in Hin as [Hl Hin].
      apply elem_of_map_to_list in Hin. simpl in *. rewrite Hin in Hc. injection Hc as ->.
      case_guard; [lia|done].
    + destruct Hin. apply list_elem_of_fmap. exists (corr, p). split; [done|].
      apply list_elem_of_filter. split; [simpl; lia|by apply elem_of_map_to_list].
Qed.

(** ** Witnesses: nodes 100 and 200 *)

Definition local_addr (port : Z) : SocketAddr := V4 (127, 0, 0, 1) port.
Definition cfg_100 : Config :=
  MkConfig 100 (local_addr 6167) (local_addr 6100) 200 (local_addr 6200) demo_key.
Definition cfg_200 : Config :=
  MkConfig 200 (local_addr 6267) (local_addr 6200) 100 (local_addr 6100) demo_key.

Definition started (cfg : Config) : KeyStore * Epoch * SodiumState :=
  match start cfg toy_state with
  | (Ok (ks, e), s) => (ks, e, s)
  | (Err _, s) => (MkKeyStore 0 bt_empty, MkEpoch 0, s)
  end.

Definition no_error : nat -> option text := fun _ => None.
Definition all_good : nat -> bool := fun _ => true.
Definition plain : Z -> bool := fun _ => false.

(** Run a started node on some events. *)
Definition demo_loop (cfg : Config) (events : list Event) : Node :=
  let '(ks, e, s) := started cfg in
  (core_loop plain all_good no_error cfg ks e events (boot s)).2.

Definition send_request (t : string) : Frame :=
  MkFrame (str "SEND") [(str "receipt", str "r1")] (str t).

Definition events_a : list Event := [ClientUp 1; ClientFrame 0 1 (send_request "PUT 67 odd")].
Definition events_b : list Event := [ClientUp 9; ClientFrame 0 9 (send_request "PUT 68 hello there")].

Lemma keyspace_partition_witness :
  contents (kv (demo_loop cfg_100 events_a)) !! 67 = Some (str "odd") /\
  contents (kv (demo_loop cfg_200 events_b)) !! 68 = Some (str "hello there") /\
  contents (kv (demo_loop cfg_100 events_a)) ##ₘ contents (kv (demo_loop cfg_200 events_b)).
Proof.
  split; [vm_compute; reflexivity|]. split; [vm_compute; reflexivity|].
  destruct (keyspace_partition plain all_good no_error all_good no_error cfg_100 cfg_200
    (started cfg_100).1.1 (started cfg_200).1.1 (MkEpoch 0) events_a events_b
    (started cfg_100).2 (started cfg_200).2) as [Hd _]; [discriminate|reflexivity|reflexivity|exact Hd].
Defined.

Lemma cfg_paired : paired cfg_100 cfg_200.
Proof. split; try done; vm_compute; done. Qed.

Lemma forwarded_operation_witness :
  let '(ksA, epA, _) := started cfg_100 in
  let '(ksB, epB, _) := started cfg_200 in
  let a := demo_loop cfg_100 events_a in
  let b := demo_loop cfg_200 events_b in
  exists request response,
    let a1 := (step plain all_good no_error cfg_100 ksA epA (ClientFrame 5 1 (send_request "GET 68")) a).2 in
    let b1 := (step plain all_good no_error cfg_200 ksB epB (Datagram request) b).2 in
    let a2 := (step plain all_good no_error cfg_100 ksA epA (Datagram response) a1).2 in
    outbox a1 = [request] /\ outbox b1 = [response] /\
    clients a2 !! 1 = Some (reply_frame (Some (str "r1")) ROk ++
                            reply_frame (Some (str "r1")) (Value (str "hello there"))).
Proof.
  destruct (forwarded_operation plain all_good no_error all_good no_error cfg_100 cfg_200
    toy_state toy_state (started cfg_100).1.1 (started cfg_200).1.1 (MkEpoch 0) (MkEpoch 0)
    (started cfg_100).2 (started cfg_200).2 events_a events_b 5 1 (send_request "GET 68") (Get 68)
    (reply_frame (Some (str "r1")) ROk)) as (request & response & H1 & H2 & H3 & _).
  - exact cfg_paired.
  - vm_compute. reflexivity.
  - vm_compute. reflexivity.
  - vm_compute. reflexivity.
  - reflexivity.
  - reflexivity.
  - reflexivity.
  - reflexivity.
  - apply (bool_decide_unpack (Forall is_char _)). vm_compute. exact I.
  - vm_compute. reflexivity.
  - vm_compute. reflexivity.
  - reflexivity.
  - intros v Hv. vm_compute in Hv. injection Hv as <-. split.
    + apply (bool_decide_unpack (Forall is_char _)). vm_compute. exact I.
    + vm_compute. discriminate.
  - exists request, response. split; [exact H1|]. split; [exact H2|].
    unfold demo_loop. cbv zeta in H3 |- *. etransitivity; [exact (f_equal (lookup 1) H3)|].
    vm_compute. reflexivity.
Defined.

(** A frame that authenticates, from the peer but on channel 1000. *)
Lemma foreign_datagram_inert_witness :
  exists w, step plain all_good no_error cfg_200 node_b.2 (MkEpoch 5) (Datagram demo_frame) (boot node_b.1) =
    (tt, set_node_stats w (boot node_b.1)).
Proof.
  apply (foreign_datagram_inert plain all_good no_error cfg_200 node_b.2 (MkEpoch 5) demo_frame
           (boot node_b.1)).
  - exact node_b_inv.
  - exact demo_frame_u8.
  - intros h f payload Hd. right.
    pose proof (open_delivers _ _ _ _ _ _ stats_init node_b_inv Hd) as Ho.
    assert (Dek.open node_b.1 node_b.2 demo_frame stats_init =
      (Ok (demo_header, demo_flags, demo_payload), stats_init)) as Hr by (vm_compute; reflexivity).
    rewrite Hr in Ho. injection Ho as <- _ _. discriminate.
Defined.

(** Node 100 waits for an answer; the answer arrives, other things happen, and
    it arrives again. *)
Definition asking : list Event := events_a ++ [ClientFrame 5 1 (send_request "GET 68")].
Definition meanwhile : list Event := [Tick 6; ClientUp 2; ClientFrame 7 2 (send_request "GET 70")].
Definition answer_frame : bytes :=
  link_frame cfg_200 (MkEpoch 0) demo_key demo_nonce (Peer.encode (Response 1 Nil)).

Lemma answer_frame_u8 : Forall is_u8 answer_frame.
Proof. apply (bool_decide_unpack (Forall is_u8 _)). vm_compute. exact I. Qed.

Lemma response_once_witness :
  let ks := (started cfg_100).1.1 in
  let n := (core_loop plain all_good no_error cfg_100 ks (MkEpoch 0) asking (boot (started cfg_100).2)).2 in
  let n1 := (step plain all_good no_error cfg_100 ks (MkEpoch 0) (Datagram answer_frame) n).2 in
  let n2 := (core_loop plain all_good no_error cfg_100 ks (MkEpoch 0) meanwhile n1).2 in
  pending n !! 1 = Some (MkPending 1 (Some (str "r1")) 5005) /\
  clients n1 = <[1 := reply_frame (Some (str "r1")) ROk ++ reply_frame (Some (str "r1")) Nil]> (clients n) /\
  step plain all_good no_error cfg_100 ks (MkEpoch 0) (Datagram answer_frame) n2 = (tt, n2).
Proof.
  intros ks n n1 n2. split; [vm_compute; reflexivity|].
  destruct (response_once plain all_good no_error cfg_100 ks (MkEpoch 0) demo_key (started cfg_100).2
    asking meanwhile answer_frame answer_frame 1 (MkPending 1 (Some (str "r1")) 5005) Nil Nil)
    as (H1 & _ & _ & _ & H2).
  - by apply (start_link cfg_100 toy_state ks (MkEpoch 0) (started cfg_100).2).
  - vm_compute. discriminate.
  - vm_compute. reflexivity.
  - exact answer_frame_u8.
  - do 5 eexists. split; [vm_compute; reflexivity|]. split_and!; vm_compute; reflexivity.
  - exact answer_frame_u8.
  - do 5 eexists. split; [vm_compute; reflexivity|]. split_and!; vm_compute; reflexivity.
  - split; [|exact H2]. etransitivity; [exact H1|]. vm_compute. reflexivity.
Defined.
