(* ===== verification/Args.v ===== *)
(** * The server's command line: [src/bin/six-seven-server/main.rs]

    [parse_args] and the parsers of its values, and the outcomes of [main]
    that do not reach the sockets. *)

From S2P Require Export Server.

(** ** The link key on the command line *)

(** [parse_key]: [None] is a panic, the slice of a [str] off a character
    boundary. *)
Definition is_boundary (bs : bytes) (i : Z) : bool :=
  match bs !! Z.to_nat i with
  | Some b => negb (cont b)
  | None => i =? len bs
  end.

Fixpoint parse_key_pairs (bs : bytes) (i : nat) (n : nat) (out : bytes)
    : option (result bytes text) :=
  match n with
  | O => Some (Ok out)
  | S n =>
      let lo := 2 * Z.of_nat i in
      if is_boundary bs lo && is_boundary bs (lo + 2) then
        match from_utf8 (take 2 (drop (Z.to_nat lo) bs)) with
        | None => None
        | Some digits =>
            match from_str_radix 16 U8_MAX digits with
            | Some b => parse_key_pairs bs (S i) n (out ++ [b])
            | None => Some (Err (str "--key is not hexadecimal at offset " ++ dec lo))
            end
        end
      else None
  end.

Definition parse_key_hex (hex : text) : option (result bytes text) :=
  let hex := trim hex in
  if negb (str_len hex =? 64) then
    Some (Err (str "--key must be exactly 64 hex characters (32 bytes), got " ++ dec (str_len hex)))
  else parse_key_pairs (as_bytes hex) 0 32 [].

(** ** Flags *)

Definition USAGE : text := mjoin [
  str "six-seven-server "; [8212]; str " the six-seven protocol, over PAXE"; [10; 10];
  str "USAGE:"; [10];
  str "  six-seven-server --id <u16> --stomp <addr> --paxe <addr> \"; [10];
  str "                   --peer-id <u16> --peer <addr> --key <64 hex chars>"; [10; 10];
  str "The two nodes form a pair. Odd keys live on the lower-numbered node, even"; [10];
  str "keys on the higher; a node asked for a key it does not own forwards the"; [10];
  str "operation to its peer inside a PAXE frame and relays the answer back."; [10; 10];
  str "Both nodes must be given the SAME --key. It is the shared secret for the"; [10];
  str "link, 32 bytes as 64 hex characters."; [10; 10];
  str "EXAMPLE (two terminals):"; [10];
  str "  six-seven-server --id 100 --stomp 127.0.0.1:6167 --paxe 127.0.0.1:6100 \"; [10];
  str "                   --peer-id 200 --peer 127.0.0.1:6200 --key $KEY"; [10];
  str "  six-seven-server --id 200 --stomp 127.0.0.1:6267 --paxe 127.0.0.1:6200 \"; [10];
  str "                   --peer-id 100 --peer 127.0.0.1:6100 --key $KEY"; [10]].

(** The local variables of [parse_args]. *)
Record Given := MkGiven {
  g_id : option Z;
  g_stomp : option SocketAddr;
  g_paxe : option SocketAddr;
  g_peer_id : option Z;
  g_peer_addr : option SocketAddr;
  g_key_hex : option text;
}.

Definition nothing_given : Given := MkGiven None None None None None None.

Inductive Parsed :=
| Help                        (* usage on standard output, exit code 0 *)
| Panicked
| Rejected (message : text)
| Accepted (cfg : Config).

Definition required {T} (name : text) (v : option T) : result T text :=
  ok_or v (name ++ str " is required").

Section Flags.
Context (printable : Z -> bool).

Definition parse_u16_flag (value flag : text) : result Z text :=
  ok_or (parse_u16 value) (flag ++ str " must be 0-65535, got " ++ debug_str printable value).

Definition parse_addr (value flag : text) : result SocketAddr text :=
  ok_or (addr_from_str value) (flag ++ str " must be host:port, got " ++ debug_str printable value).

(** One arm of the [match] on the flag. *)
Definition set_flag (flag value : text) (g : Given) : result Given text :=
  if decide (flag = str "--id") then
    let! v := parse_u16_flag value (str "--id") in
    Ok (MkGiven (Some v) g.(g_stomp) g.(g_paxe) g.(g_peer_id) g.(g_peer_addr) g.(g_key_hex))
  else if decide (flag = str "--peer-id") then
    let! v := parse_u16_flag value (str "--peer-id") in
    Ok (MkGiven g.(g_id) g.(g_stomp) g.(g_paxe) (Some v) g.(g_peer_addr) g.(g_key_hex))
  else if decide (flag = str "--stomp") then
    let! v := parse_addr value (str "--stomp") in
    Ok (MkGiven g.(g_id) (Some v) g.(g_paxe) g.(g_peer_id) g.(g_peer_addr) g.(g_key_hex))
  else if decide (flag = str "--paxe") then
    let! v := parse_addr value (str "--paxe") in
    Ok (MkGiven g.(g_id) g.(g_stomp) (Some v) g.(g_peer_id) g.(g_peer_addr) g.(g_key_hex))
  else if decide (flag = str "--peer") then
    let! v := parse_addr value (str "--peer") in
    Ok (MkGiven g.(g_id) g.(g_stomp) g.(g_paxe) g.(g_peer_id) (Some v) g.(g_key_hex))
  else if decide (flag = str "--key") then
    Ok (MkGiven g.(g_id) g.(g_stomp) g.(g_paxe) g.(g_peer_id) g.(g_peer_addr) (Some value))
  else Err (str "unknown flag " ++ debug_str printable flag).

(** The loop over the arguments, and what follows it.  [None] is the help
    exit. *)
Fixpoint parse_flags (args : list text) (g : Given) : option (result Given text) :=
  match args with
  | [] => Some (Ok g)
  | flag :: rest =>
      if decide (flag = str "-h" \/ flag = str "--help") then None
      else
        match rest with
        | [] => Some (Err (flag ++ str " needs a value"))
        | value :: rest =>
            match set_flag flag value g with
            | Ok g => parse_flags rest g
            | Err e => Some (Err e)
            end
        end
  end.

Definition build_config (g : Given) : result (Config * text) text :=
  let! id := required (str "--id") g.(g_id) in
  let! peer_id := required (str "--peer-id") g.(g_peer_id) in
  if id =? peer_id then
    Err (str "--id and --peer-id must differ: a pair needs two nodes")
  else
    let! stomp := required (str "--stomp") g.(g_stomp) in
    let! paxe := required (str "--paxe") g.(g_paxe) in
    let! peer_addr := required (str "--peer") g.(g_peer_addr) in
    let! key_hex := required (str "--key") g.(g_key_hex) in
    Ok (MkConfig id stomp paxe peer_id peer_addr [], key_hex).

(** [parse_args] on the arguments after the program name. *)
Definition parse_args (args : list text) : Parsed :=
  match parse_flags args nothing_given with
  | None => Help
  | Some (Err e) => Rejected e
  | Some (Ok g) =>
      match build_config g with
      | Err e => Rejected e
      | Ok (c, key_hex) =>
          match parse_key_hex key_hex with
          | None => Panicked
          | Some (Err e) => Rejected e
          | Some (Ok k) =>
              Accepted (MkConfig c.(id) c.(stomp) c.(paxe) c.(peer_id) c.(peer_addr) k)
          end
      end
  end.

End Flags.

(** ** What is accepted *)

Record wf_config (cfg : Config) : Prop := {
  wc_id : is_u16 (id cfg);
  wc_peer : is_u16 (peer_id cfg);
  wc_differ : id cfg <> peer_id cfg;
  wc_stomp : wf_addr (stomp cfg);
  wc_paxe : wf_addr (paxe cfg);
  wc_peer_addr : wf_addr (peer_addr cfg);
  wc_key : len (key cfg) = KEYBYTES /\ Forall is_u8 (key cfg);
}.

Lemma read_digits_nonneg radix s acc count :
  0 < radix -> 0 <= acc -> 0 <= (read_digits radix s acc count).1.1.
Proof.
  intros Hr. revert acc count. induction s as [|c s IH]; intros acc count Ha; simpl; [done|].
  destruct (digit radix c) as [d|] eqn:Hd; [|done]. apply IH. apply digit_nonneg in Hd. nia.
Qed.

Lemma read_number_range radix md zp max s v rest :
  0 < radix -> read_number radix md zp max s = Some (v, rest) -> 0 <= v <= max.
Proof.
  intros Hr. unfold read_number. pose proof (read_digits_nonneg radix s 0 0 Hr ltac:(lia)) as Hn.
  destruct (read_digits radix s 0 0) as [[value count] rest']. simpl in Hn.
  destruct (match md with Some m => m <? count | None => false end); [done|].
  destruct (Z.ltb_spec max value); [done|]. destruct (count =? 0); [done|].
  destruct (_ && _); [done|]. intros [= <- <-]. lia.
Qed.

Lemma pbind_Some {A B} (p : Parser A) (k : A -> Parser B) s r :
  pbind p k s = Some r -> exists a rest, p s = Some (a, rest) /\ k a rest = Some r.
Proof. unfold pbind. destruct (p s) as [[a rest]|]; [|done]. eauto. Qed.

Lemma read_separator_Some {A} sep i (p : Parser A) s a rest :
  read_separator sep i p s = Some (a, rest) -> exists s', p s' = Some (a, rest).
Proof. destruct i; simpl; [eauto|]. intros ([] & s' & _ & Hp)%pbind_Some. eauto. Qed.

Lemma read_ipv4_range s a b c d rest :
  read_ipv4_addr s = Some ((a, b, c, d), rest) -> is_u8 a /\ is_u8 b /\ is_u8 c /\ is_u8 d.
Proof.
  unfold read_ipv4_addr.
  intros (a' & s1 & (? & Ha)%read_separator_Some & (b' & s2 & (? & Hb)%read_separator_Some &
    (c' & s3 & (? & Hc)%read_separator_Some & (d' & s4 & (? & Hd)%read_separator_Some & Hr)%pbind_Some
    )%pbind_Some)%pbind_Some)%pbind_Some.
  injection Hr as -> -> -> -> _. unfold is_u8.
  apply read_number_range in Ha, Hb, Hc, Hd; lia.
Qed.

Lemma read_groups_range left i s :
  let '(gs, _, _) := read_groups left i s in (length gs <= left)%nat /\ Forall is_u16 gs.
Proof.
  revert i s. induction left as [|left IH]; intros i s; cbn [read_groups]; [by split|].
  destruct (match left with O => None | S _ => _ end) as [[[[[a b] c] d] rest]|] eqn:Hv.
  { destruct left as [|left]; [done|]. apply read_separator_Some in Hv as (s' & Hv).
    apply read_ipv4_range in Hv as (? & ? & ? & ?). split; [simpl; lia|].
    repeat constructor; width. }
  destruct (read_separator 58 i (read_number 16 (Some 4) true U16_MAX) s) as [[g rest]|] eqn:Hg; [|simpl; split; [lia|constructor]].
  apply read_separator_Some in Hg as (s' & Hg). apply read_number_range in Hg; [|lia].
  specialize (IH (S i) rest). destruct (read_groups left (S i) rest) as [[gs v4] rest'].
  destruct IH as [Hl Hf]. split; [simpl; lia|]. constructor; [width|done].
Qed.

Lemma read_ipv6_range s gs rest :
  read_ipv6_addr s = Some (gs, rest) -> length gs = 8%nat /\ Forall is_u16 gs.
Proof.
  unfold read_ipv6_addr. pose proof (read_groups_range 8 0 s) as Hh.
  destruct (read_groups 8 0 s) as [[head v4] s1]. destruct Hh as [Hl Hf].
  destruct (Nat.eqb_spec (length head) 8); [by intros [= <- <-]|]. destruct v4; [done|].
  intros ([] & s2 & _ & ([] & s3 & _ & Hr)%pbind_Some)%pbind_Some.
  pose proof (read_groups_range (8 - (length head + 1)) 0 s3) as Ht.
  destruct (read_groups _ 0 s3) as [[tail v] s4]. destruct Ht as [Hl2 Hf2]. injection Hr as <- <-.
  rewrite !length_app, length_replicate. split; [lia|].
  apply Forall_app. split; [done|]. apply Forall_app. split; [|done]. apply Forall_replicate. width.
Qed.

Lemma read_port_range s v rest : read_port s = Some (v, rest) -> is_u16 v.
Proof. unfold read_port. intros ([] & s1 & _ & Hr)%pbind_Some. by apply read_number_range in Hr; [|lia]. Qed.

Lemma addr_from_str_wf s a : addr_from_str s = Some a -> wf_addr a.
Proof.
  unfold addr_from_str. destruct (read_socket_addr_v4 s) as [[a4 rest]|] eqn:H4.
  - destruct rest; [|done]. intros [= <-]. revert H4. unfold read_socket_addr_v4.
    intros ([[[a b] c] d] & s1 & Hip & (port & s2 & Hp & Hr)%pbind_Some)%pbind_Some.
    injection Hr as <- _. apply read_ipv4_range in Hip as (? & ? & ? & ?).
    apply read_port_range in Hp. by split_and!.
  - destruct (read_socket_addr_v6 s) as [[a6 rest]|] eqn:H6; [|done].
    destruct rest; [|done]. intros [= <-]. revert H6. unfold read_socket_addr_v6.
    intros ([] & s1 & _ & (gs & s2 & Hip & Hr)%pbind_Some)%pbind_Some.
    apply read_ipv6_range in Hip as [Hl Hf].
    assert (is_u32 (default (0, s2) (read_scope_id s2)).1) as Hs.
    { destruct (read_scope_id s2) as [[sc s3]|] eqn:E; [|simpl; width]. simpl.
      revert E. unfold read_scope_id. intros ([] & s4 & _ & Hn)%pbind_Some.
      by apply read_number_range in Hn; [|lia]. }
    destruct (default (0, s2) (read_scope_id s2)) as [scope s3].
    revert Hr. intros ([] & s4 & _ & (port & s5 & Hp & Hr)%pbind_Some)%pbind_Some.
    injection Hr as <- _. apply read_port_range in Hp. by split_and!.
Qed.

Lemma parse_key_pairs_wf bs i n out k :
  Forall is_u8 out -> parse_key_pairs bs i n out = Some (Ok k) ->
  Forall is_u8 k /\ length k = (length out + n)%nat.
Proof.
  revert i out. induction n as [|n IH]; intros i out Ho; cbn [parse_key_pairs].
  { intros [= <-]. split; [done|lia]. }
  destruct (_ && _); [|done]. destruct (from_utf8 _) as [ds|]; [|done].
  destruct (from_str_radix 16 U8_MAX ds) as [b|] eqn:Hb; [|done].
  apply from_str_radix_range in Hb; [|lia|width].
  assert (Forall is_u8 (out ++ [b])) as Ho2 by (apply Forall_app; split; [done|by apply Forall_singleton]).
  intros [Hf Hl]%IH; [|done].
  split; [done|]. rewrite Hl, length_app. simpl. lia.
Qed.

(** What the arguments have set so far is in range. *)
Definition wf_given (g : Given) : Prop :=
  (forall v, g_id g = Some v \/ g_peer_id g = Some v -> is_u16 v) /\
  (forall a, g_stomp g = Some a \/ g_paxe g = Some a \/ g_peer_addr g = Some a -> wf_addr a).

Lemma set_flag_wf printable flag value g g' :
  wf_given g -> set_flag printable flag value g = Ok g' -> wf_given g'.
Proof.
  intros [Hn Ha]. unfold set_flag.
  assert (Hu : forall f v, parse_u16_flag printable value f = Ok v -> is_u16 v).
  { intros f v. unfold parse_u16_flag, ok_or. destruct (parse_u16 value) eqn:E; [|done].
    intros [= <-]. by apply from_str_radix_range in E; [|lia|width]. }
  assert (Hs : forall f a, parse_addr printable value f = Ok a -> wf_addr a).
  { intros f a. unfold parse_addr, ok_or. destruct (addr_from_str value) eqn:E; [|done].
    intros [= <-]. by eapply addr_from_str_wf. }
  repeat case_decide; try done; try (intros (v & Hv & [= <-])%rbind_ok);
    try (apply Hu in Hv); try (apply Hs in Hv); try (intros [= <-]); split; simpl; naive_solver.
Qed.

Lemma parse_flags_wf printable args g g' :
  wf_given g -> parse_flags printable args g = Some (Ok g') -> wf_given g'.
Proof.
  remember (length args) as n eqn:Hn. revert args g Hn.
  induction (lt_wf n) as [n _ IH]. intros args g Hn Hg.
  destruct args as [|flag [|value rest]]; cbn [parse_flags]; [by intros [= <-]| |];
    (case_decide; [done|]); [done|].
  destruct (set_flag printable flag value g) as [g1|] eqn:Hs; [|done].
  apply (IH (length rest)); [simpl in Hn; lia|done|by eapply set_flag_wf].
Qed.

Lemma required_ok {T} name (v : option T) t : required name v = Ok t -> v = Some t.
Proof. unfold required, ok_or. destruct v; [by intros [= ->]|done]. Qed.

(** ** Writing a command line *)

Definition hex_char (d : Z) : Z := if d <? 10 then 48 + d else 87 + d.
Definition hex_byte (b : Z) : text := [hex_char (b `div` 16); hex_char (b `mod` 16)].
Definition hex_text (k : bytes) : text := k ≫= hex_byte.

Lemma hex_byte_facts b :
  is_u8 b -> from_str_radix 16 U8_MAX (hex_byte b) = Some b /\
  Forall (fun c => 48 <= c <= 102 /\ is_whitespace c = false /\ cont c = false) (hex_byte b).
Proof.
  intros Hb.
  refine (below_forall 256 (fun b => from_str_radix 16 U8_MAX (hex_byte b) = Some b /\
    Forall (fun c => 48 <= c <= 102 /\ is_whitespace c = false /\ cont c = false) (hex_byte b)) _ b _).
  - vm_compute. done.
  - width.
Qed.

Lemma hex_text_chars k :
  Forall is_u8 k ->
  Forall (fun c => 48 <= c <= 102 /\ is_whitespace c = false /\ cont c = false) (hex_text k).
Proof. induction 1; [constructor|]. apply Forall_app. split; [by apply hex_byte_facts|done]. Qed.

Lemma hex_text_length k : length (hex_text k) = (2 * length k)%nat.
Proof. induction k as [|b k IH]; [done|]. change (hex_text (b :: k)) with (hex_byte b ++ hex_text k).
  rewrite length_app, IH. simpl. lia. Qed.

(** Every offset into hexadecimal text is a character boundary. *)
Lemma hex_boundary bs i :
  Forall (fun c => cont c = false) bs -> (i <= length bs)%nat -> is_boundary bs (Z.of_nat i) = true.
Proof.
  intros Hf Hi. unfold is_boundary. rewrite Nat2Z.id. destruct (bs !! i) as [b|] eqn:Hb.
  - rewrite Forall_forall in Hf. by rewrite (Hf b) by (by eapply list_elem_of_lookup_2).
  - apply lookup_ge_None in Hb. apply Z.eqb_eq. unfold len. lia.
Qed.

Lemma parse_key_pairs_hex pre ks i out :
  Forall is_u8 ks -> Forall (fun c => 48 <= c <= 102 /\ is_whitespace c = false /\ cont c = false) pre ->
  length pre = (2 * i)%nat ->
  parse_key_pairs (pre ++ hex_text ks) i (length ks) out = Some (Ok (out ++ ks)).
Proof.
  intros Hks. revert pre i out. induction Hks as [|b ks Hb Hks IH]; intros pre i out Hpre Hl.
  { simpl. by rewrite !app_nil_r. }
  change (hex_text (b :: ks)) with (hex_byte b ++ hex_text ks).
  destruct (hex_byte_facts b Hb) as [Hparse Hchars].
  assert (Forall (fun c => 48 <= c <= 102 /\ is_whitespace c = false /\ cont c = false)
            (pre ++ hex_byte b ++ hex_text ks)) as Hall.
  { apply Forall_app. split; [done|]. apply Forall_app. split; [done|by apply hex_text_chars]. }
  assert (Forall (fun c => cont c = false) (pre ++ hex_byte b ++ hex_text ks)) as Hcont.
  { eapply Forall_impl; [exact Hall|]. naive_solver. }
  assert (length (pre ++ hex_byte b ++ hex_text ks) = (2 * i + 2 + 2 * length ks)%nat) as Hlen.
  { rewrite !length_app, hex_text_length, Hl. simpl. lia. }
  cbn [length parse_key_pairs].
  replace (2 * Z.of_nat i) with (Z.of_nat (2 * i)) by lia.
  replace (Z.of_nat (2 * i) + 2) with (Z.of_nat (2 * i + 2)) by lia.
  rewrite !hex_boundary by (done || lia). cbn [andb]. rewrite Nat2Z.id, <- Hl, drop_app_length.
  change 2%nat with (length (hex_byte b)). rewrite take_app_length.
  assert (from_utf8 (hex_byte b) = Some (hex_byte b)) as ->.
  { rewrite <- (ascii_bytes (hex_byte b)) at 1 by (eapply Forall_impl; [exact Hchars|]; simpl; lia).
    apply from_utf8_as_bytes. eapply Forall_impl; [exact Hchars|]. unfold is_char. simpl. lia. }
  rewrite Hparse. rewrite app_assoc.
  rewrite IH; [by rewrite <- app_assoc|by apply Forall_app|]. rewrite length_app, Hl. simpl. lia.
Qed.

(** A key printed in hexadecimal parses back. *)
Lemma parse_key_hex_text k :
  len k = KEYBYTES -> Forall is_u8 k -> parse_key_hex (hex_text k) = Some (Ok k).
Proof.
  intros Hl Hk. pose proof (hex_text_chars k Hk) as Hc. unfold parse_key_hex.
  rewrite trim_none by (eapply Forall_impl; [exact Hc|]; naive_solver).
  assert (Forall (fun c => 0 <= c < 128) (hex_text k)) as Ha.
  { eapply Forall_impl; [exact Hc|]. simpl. lia. }
  assert (length k = 32%nat) as Hk32 by (unfold len, KEYBYTES in Hl; lia).
  rewrite ascii_len, ascii_bytes by done. unfold len. rewrite hex_text_length, Hk32.
  change (Z.of_nat (2 * 32) =? 64) with true. cbn [negb]. rewrite <- Hk32.
  exact (parse_key_pairs_hex [] k 0 [] Hk (Forall_nil_2 _) eq_refl).
Qed.

(** The flags of a configuration, each with its value. *)
Definition flags_of (cfg : Config) : list (text * text) := [
  (str "--id", dec (id cfg)); (str "--stomp", show_addr (stomp cfg));
  (str "--paxe", show_addr (paxe cfg)); (str "--peer-id", dec (peer_id cfg));
  (str "--peer", show_addr (peer_addr cfg)); (str "--key", hex_text (key cfg))].

Definition command_line (flags : list (text * text)) : list text := flags ≫= (fun fv => [fv.1; fv.2]).

(** What a list of the configuration's flags has set. *)
Record settled (cfg : Config) (seen : list text) (g0 g : Given) : Prop := {
  st_id : g_id g = if decide (str "--id" ∈ seen) then Some (id cfg) else g_id g0;
  st_stomp : g_stomp g = if decide (str "--stomp" ∈ seen) then Some (stomp cfg) else g_stomp g0;
  st_paxe : g_paxe g = if decide (str "--paxe" ∈ seen) then Some (paxe cfg) else g_paxe g0;
  st_peer_id : g_peer_id g = if decide (str "--peer-id" ∈ seen) then Some (peer_id cfg) else g_peer_id g0;
  st_peer_addr : g_peer_addr g = if decide (str "--peer" ∈ seen) then Some (peer_addr cfg) else g_peer_addr g0;
  st_key : g_key_hex g = if decide (str "--key" ∈ seen) then Some (hex_text (key cfg)) else g_key_hex g0;
}.

Section Settling.
Context (printable : Z -> bool) (cfg : Config) (PC : wf_config cfg).

(** Each flag of the configuration sets its own field and no other. *)
Lemma set_flag_settles flag value g :
  (flag, value) ∈ flags_of cfg ->
  flag <> str "-h" /\ flag <> str "--help" /\
  exists g', set_flag printable flag value g = Ok g' /\ settled cfg [flag] g g'.
Proof.
  destruct PC as [Hid Hpid Hne Hs Hx Hp _].
  assert (Hu : forall n f, is_u16 n -> parse_u16_flag printable (dec n) f = Ok n).
  { intros n f Hn. unfold parse_u16_flag. by rewrite parse_u16_dec. }
  assert (Ha : forall a f, wf_addr a -> parse_addr printable (show_addr a) f = Ok a).
  { intros a f Hw. unfold parse_addr. by rewrite addr_roundtrip. }
  unfold flags_of. rewrite !elem_of_cons. intros Hin. unfold set_flag.
  destruct Hin as [[= -> ->]|[[= -> ->]|[[= -> ->]|[[= -> ->]|[[= -> ->]|[[= -> ->]|[]%elem_of_nil]]]]]];
    (split; [done|]); (split; [done|]);
    rewrite ?decide_False by done; rewrite ?decide_True by done;
    rewrite ?Hu, ?Ha by done; (eexists; split; [reflexivity|]); by split.
Qed.

Lemma parse_flags_settles flags g :
  Forall (.∈ flags_of cfg) flags ->
  exists g', parse_flags printable (command_line flags) g = Some (Ok g') /\ settled cfg flags.*1 g g'.
Proof.
  intros Hf. revert g. induction Hf as [|[flag value] flags Hin _ IH]; intros g.
  { exists g. by split; [|split]. }
  destruct (set_flag_settles flag value g Hin) as (Hh1 & Hh2 & g1 & Hs & [A1 A2 A3 A4 A5 A6]).
  destruct (IH g1) as (g2 & Hp & [B1 B2 B3 B4 B5 B6]). exists g2.
  split.
  { change (command_line ((flag, value) :: flags)) with (flag :: value :: command_line flags).
    cbn [parse_flags]. rewrite decide_False by naive_solver. by rewrite Hs. }
  assert (Hc : forall {A} f (x y z w : A) , y = (if decide (f ∈ [flag]) then x else z) ->
    w = (if decide (f ∈ flags.*1) then x else y) ->
    w = (if decide (f ∈ flag :: flags.*1) then x else z)).
  { intros A f x y z w -> ->. destruct (decide (f ∈ flags.*1)) as [Hi|Hi].
    - rewrite decide_True; [done|]. by right.
    - destruct (decide (f ∈ [flag])) as [->%list_elem_of_singleton|Hn].
      + rewrite decide_True; [done|]. by left.
      + rewrite decide_False; [done|]. rewrite elem_of_cons. rewrite list_elem_of_singleton in Hn. naive_solver. }
  by split; (eapply Hc; [eassumption|]).
Qed.

End Settling.

(** ** The command line as a whole *)

Lemma parse_args_wf printable args cfg :
  parse_args printable args = Accepted cfg -> wf_config cfg.
Proof.
  unfold parse_args. destruct (parse_flags printable args nothing_given) as [[g|e]|] eqn:Hg; [|done..].
  apply parse_flags_wf in Hg as [Hn Ha]; [|split; simpl; naive_solver].
  destruct (build_config g) as [[c k]|e] eqn:Hb; [|done]. revert Hb. unfold build_config.
  intros (i & Hi%required_ok & (p & Hp%required_ok & Hr)%rbind_ok)%rbind_ok.
  destruct (Z.eqb_spec i p) as [|Hne]; [done|].
  apply rbind_ok in Hr as (s & Hs%required_ok & (x & Hx%required_ok &
    (a & Hpa%required_ok & (hex & _ & [= <- <-])%rbind_ok)%rbind_ok)%rbind_ok).
  unfold parse_key_hex. destruct (negb _); [done|].
  destruct (parse_key_pairs _ 0 32 []) as [[key|e]|] eqn:Hk; [|done..].
  apply parse_key_pairs_wf in Hk as [Hu Hl]; [|constructor]. intros [= <-].
  split; simpl; [apply Hn|apply Hn|done|apply Ha|apply Ha|apply Ha|]; [tauto..|].
  split; [|done]. unfold len, KEYBYTES. simpl in Hl. lia.
Qed.

(** C19: an accepted command line gives a configuration in which both node ids
    fit 16 bits and differ, the three addresses are well formed, and the key
    has exactly 32 bytes. *)
Theorem accepted_config_wf printable args cfg :
  parse_args printable args = Accepted cfg -> wf_config cfg.
Proof. apply parse_args_wf. Qed.

Lemma accepted_config_wf_witness :
  parse_args (fun _ => true) (command_line (flags_of cfg_100)) = Accepted cfg_100 /\ wf_config cfg_100.
Proof.
  assert (parse_args (fun _ => true) (command_line (flags_of cfg_100)) = Accepted cfg_100) as H
    by (vm_compute; reflexivity).
  split; [exact H|exact (accepted_config_wf _ _ _ H)].
Defined.

(** C40: every well-formed configuration (node ids that fit 16 bits and differ,
    IPv4 or IPv6 socket addresses, 32 key bytes; the parser accepts no other),
    written out as flags, is read back exactly, whatever the
    order of the flags and however often each is repeated. *)
Theorem args_roundtrip printable cfg flags :
  wf_config cfg -> (forall fv, fv ∈ flags <-> fv ∈ flags_of cfg) ->
  parse_args printable (command_line flags) = Accepted cfg.
Proof.
  intros PC Hf. unfold parse_args.
  destruct (parse_flags_settles printable cfg PC flags nothing_given) as (g & -> & [S1 S2 S3 S4 S5 S6]).
  { apply Forall_forall. intros fv. apply Hf. }
  assert (Hset : forall {A} i f v (x y z : A), flags_of cfg !! i = Some (f, v) ->
    y = (if decide (f ∈ flags.*1) then x else z) -> y = x).
  { intros A i f v x y z Hv ->. apply decide_True, list_elem_of_fmap. exists (f, v).
    split; [done|]. by eapply Hf, list_elem_of_lookup_2. }
  apply (Hset _ 0%nat _ _ _ _ _ eq_refl) in S1. apply (Hset _ 1%nat _ _ _ _ _ eq_refl) in S2.
  apply (Hset _ 2%nat _ _ _ _ _ eq_refl) in S3. apply (Hset _ 3%nat _ _ _ _ _ eq_refl) in S4.
  apply (Hset _ 4%nat _ _ _ _ _ eq_refl) in S5. apply (Hset _ 5%nat _ _ _ _ _ eq_refl) in S6.
  destruct PC as [_ _ Hne _ _ _ [Hl Hk]].
  unfold build_config. rewrite S1, S2, S3, S4, S5, S6. cbn [required ok_or rbind].
  rewrite (proj2 (Z.eqb_neq _ _) Hne). rewrite parse_key_hex_text by done. by destruct cfg.
Qed.

(** Node 200 with an address of each shape: mapped, compressed with a scope,
    and plain. *)
Definition cfg_v6 : Config :=
  MkConfig 200 (V6 [0; 0; 0; 0; 0; 0xFFFF; 0x7F00; 1] 0 6267)
    (V6 [0xFE80; 0; 0; 1; 0; 0; 0; 0xAB] 7 6200) 100 (local_addr 6100) demo_key.

Lemma args_roundtrip_witness :
  parse_args (fun _ => true) (command_line (reverse (flags_of cfg_v6) ++ take 2 (flags_of cfg_v6)))
    = Accepted cfg_v6.
Proof.
  apply args_roundtrip.
  - split; cbn [Server.id stomp paxe peer_id peer_addr key cfg_v6 local_addr wf_addr];
      repeat match goal with |- _ /\ _ => split end; try reflexivity; try width;
      first [apply (bool_decide_unpack (Forall is_u16 _))|apply (bool_decide_unpack (Forall is_u8 _))];
      vm_compute; exact I.
  - intros fv. rewrite elem_of_app, elem_of_reverse. generalize (flags_of cfg_v6). intros l.
    split; [|by left]. intros [Hin|(i & Hi & _)%elem_of_take]; [done|by eapply list_elem_of_lookup_2].
Defined.

(** Two holes in the parsing of [--key], which is to be 64 hexadecimal
    characters: a sign is taken for a digit, so that a key with a plus in each
    pair is accepted, and a character of two bytes across a pair boundary
    aborts the process instead of being reported. *)
Theorem parse_key_holes :
  parse_key_hex (mjoin (replicate 32 (str "+f"))) = Some (Ok (replicate 32 15)) /\
  parse_key_hex ([97; 233] ++ replicate 61 97) = None.
Proof. split; vm_compute; reflexivity. Qed.

