(* ===== verification/TestsServer.v ===== *)
(** * Unit tests of the six-seven server

    The [tests] modules of [kv.rs], [peer.rs], [stomp.rs] and [main.rs] under
    [src/bin/six-seven-server] (see [Testing]).  Each definition has the name of
    the test function it translates.  Parsers take the [printable] predicate of
    [str]'s [Debug], which only their error messages use. *)

From S2P Require Export Args Testing.

Section Tests.
Context (printable : Z -> bool).

(** ** [kv.rs] *)

Abbreviation KvTest := (Test Store unit).

Definition odds_go_low_and_evens_go_high_whichever_way_the_pair_is_given : KvTest :=
  assert_eq (owner 67 100 200) 100 ;;
  assert_eq (owner 67 200 100) 100 ;;
  assert_eq (owner 68 100 200) 200 ;;
  assert_eq (owner 68 200 100) 200.

Definition zero_is_even_and_u64_max_is_odd : KvTest :=
  assert_eq (owner 0 1 2) 2 ;;
  assert_eq (owner U64_MAX 1 2) 1.

Definition a_pair_pointing_at_itself_owns_everything : KvTest :=
  assert_eq (owner 67 7 7) 7 ;;
  assert_eq (owner 68 7 7) 7.

Definition every_key_has_exactly_one_owner_across_the_pair : KvTest :=
  for_each (range 1000) (fun key =>
    let o := owner key 100 200 in
    check ((o =? 100) || (o =? 200)) ;;
    assert_eq o (owner key 200 100)).

(** [Op::parse(body).unwrap()] and [assert!(Op::parse(body).is_err())]. *)
Definition parses_to (body : text) (op : Op) : KvTest :=
  got ← expect (Kv.parse printable body); assert_eq got op.
Definition parse_fails (body : text) : KvTest := check (is_err (Kv.parse printable body)).

Definition parses_the_three_verbs_case_insensitively : KvTest :=
  parses_to (str "GET 67") (Get 67) ;;
  parses_to (str "get 67") (Get 67) ;;
  parses_to (str "RM 67") (Rm 67) ;;
  parses_to (str "del 67") (Rm 67) ;;
  parses_to (str "PUT 67 six seven") (Put 67 (str "six seven")).

Definition rejects_a_non_u64_key_and_a_missing_value : KvTest :=
  for_each ["GET nope"; "GET -1"; "PUT 67"; ""; "FROB 67"] (fun body => parse_fails (str body)).

Definition an_empty_value_is_a_value_and_a_missing_one_is_an_error : KvTest :=
  parses_to (str "PUT 75 ") (Put 75 []) ;;
  parse_fails (str "PUT 75").

Definition the_value_is_taken_verbatim_after_the_key : KvTest :=
  parses_to (str "PUT 67   padded  ") (Put 67 (str "  padded  ")).

(** [assert_eq!(s.execute(&op), reply)]. *)
Definition executes (op : Op) (reply : Reply) : KvTest := r ← run (execute op); assert_eq r reply.

Definition an_empty_value_reads_back_as_a_value_not_as_a_miss : KvTest :=
  executes (Put 75 []) ROk ;;
  executes (Get 75) (Value []) ;;
  r ← run (execute (Get 75)); assert_ne r Nil.

(** ["x".repeat(n)]. *)
Definition xs (n : Z) : text := replicate (Z.to_nat n) 120.

Definition refuses_a_put_over_the_byte_limit_at_the_boundary : KvTest :=
  let body := str "PUT 67 " ++ xs MAX_PUT_BYTES in
  check (MAX_PUT_BYTES <? str_len body) ;;
  parse_fails body ;;
  let head := str "PUT 67 " in
  let body := head ++ xs (MAX_PUT_BYTES - str_len head) in
  assert_eq (str_len body) MAX_PUT_BYTES ;;
  check (is_ok (Kv.parse printable body)).

Definition get_put_rm_round_trip : KvTest :=
  executes (Get 67) Nil ;;
  executes (Put 67 (str "sixseven")) ROk ;;
  executes (Get 67) (Value (str "sixseven")) ;;
  executes (Rm 67) ROk ;;
  executes (Rm 67) Nil ;;
  n ← run (gets store_len); assert_eq n 0.

Definition overwrites_are_admitted_even_when_the_keyset_is_at_the_ceiling : KvTest :=
  _ ← run (execute (Put 67 (str "a")));
  present ← run (gets (fun s => bt_contains (kv_entries s) 67));
  check present ;;
  executes (Put 67 (str "b")) ROk ;;
  executes (Get 67) (Value (str "b")).

Definition kv_tests : list KvTest :=
  [odds_go_low_and_evens_go_high_whichever_way_the_pair_is_given;
   zero_is_even_and_u64_max_is_odd;
   a_pair_pointing_at_itself_owns_everything;
   every_key_has_exactly_one_owner_across_the_pair;
   parses_the_three_verbs_case_insensitively;
   rejects_a_non_u64_key_and_a_missing_value;
   an_empty_value_is_a_value_and_a_missing_one_is_an_error;
   the_value_is_taken_verbatim_after_the_key;
   an_empty_value_reads_back_as_a_value_not_as_a_miss;
   refuses_a_put_over_the_byte_limit_at_the_boundary;
   get_put_rm_round_trip;
   overwrites_are_admitted_even_when_the_keyset_is_at_the_ceiling].

(** ** [peer.rs] *)

Definition round_trip (p : Peer) : Test unit Peer := expect (Peer.decode printable (Peer.encode p)).

Definition requests_round_trip_including_values_with_spaces : Test unit unit :=
  for_each [Get 67; Rm 68; Put 67 (str "six seven"); Put 68 []] (fun op =>
    p ← round_trip (Request 9 op);
    match p with
    | Request corr got => assert_eq corr 9 ;; assert_eq got op
    | Response _ _ => some None
    end).

Definition responses_round_trip : Test unit unit :=
  for_each [Value (str "six seven"); ROk; Nil; RErr (str "nope")] (fun reply =>
    p ← round_trip (Response 12 reply);
    match p with
    | Response corr got => assert_eq corr 12 ;; assert_eq got reply
    | Request _ _ => some None
    end).

Definition malformed_input_is_an_error_never_a_panic : Test unit unit :=
  for_each [""; "REQ"; "REQ x GET 1"; "RSP 1 WAT"; "NOPE 1 OK"; "REQ 1 FROB 2"] (fun bad =>
    check (is_err (Peer.decode printable (str bad)))).

Definition an_empty_value_survives_the_round_trip_as_an_empty_value : Test unit unit :=
  p ← round_trip (Response 1 (Value []));
  match p with
  | Response _ reply => assert_eq reply (Value [])
  | Request _ _ => some None
  end.

Definition peer_tests : list (Test unit unit) :=
  [requests_round_trip_including_values_with_spaces;
   responses_round_trip;
   malformed_input_is_an_error_never_a_panic;
   an_empty_value_survives_the_round_trip_as_an_empty_value].

(** ** [stomp.rs] *)

(** [BufReader::new(input.as_bytes())]: one chunk, then the end. *)
Definition reader (input : text) : list Fill := match as_bytes input with [] => [] | bs => [Data bs] end.

Definition parse_stomp (input : text) : Test unit Frame :=
  f ← expect (Stomp.read (reader input)).1; some f.

Definition nl : text := [10].
Definition nul : text := [0].

Definition parses_command_headers_and_body : Test unit unit :=
  f ← parse_stomp (str "SEND" ++ nl ++ str "destination:/queue/kv" ++ nl ++ str "receipt:r1" ++ nl ++ nl ++
                   str "GET 67" ++ nul);
  assert_eq (command f) (str "SEND") ;;
  assert_eq (Stomp.header f (str "destination")) (Some (str "/queue/kv")) ;;
  assert_eq (Stomp.header f (str "receipt")) (Some (str "r1")) ;;
  assert_eq (body f) (str "GET 67").

Definition tolerates_a_missing_blank_line_and_reports_no_body : Test unit unit :=
  f ← parse_stomp (str "DISCONNECT" ++ nl ++ str "receipt:bye" ++ nul);
  assert_eq (command f) (str "DISCONNECT") ;;
  assert_eq (Stomp.header f (str "receipt")) (Some (str "bye")) ;;
  assert_eq (body f) [].

Definition skips_heartbeat_newlines_between_frames : Test unit unit :=
  f ← parse_stomp (nl ++ nl ++ nl ++ str "SEND" ++ nl ++ nl ++ str "PUT 1 x" ++ nul);
  assert_eq (command f) (str "SEND") ;;
  assert_eq (body f) (str "PUT 1 x").

Definition end_of_stream_is_none_not_an_error : Test unit unit :=
  f ← expect (Stomp.read (reader [])).1;
  check (is_none f).

Definition an_unterminated_frame_is_an_error_not_an_unbounded_read : Test unit unit :=
  check (is_err (Stomp.read (reader (str "SEND" ++ nl ++ nl ++ str "no nul here"))).1).

(** Whether [needle] occurs in [hay]. *)
Fixpoint contains_bytes (hay needle : bytes) : bool :=
  bool_decide (take (length needle) hay = needle) ||
  match hay with [] => false | _ :: rest => contains_bytes rest needle end.

Definition header_escapes_round_trip : Test unit unit :=
  f ← parse_stomp (str "SEND" ++ nl ++ str "k\cv:a\nb" ++ nl ++ nl ++ str "body" ++ nul);
  assert_eq (Stomp.header f (str "k:v")) (Some (str "a" ++ nl ++ str "b")) ;;
  let bytes := Stomp.encode (str "MESSAGE") [(str "k:v", str "a" ++ nl ++ str "b")] (str "body") in
  assert_eq (last bytes) (Some 0) ;;
  check (contains_bytes bytes (as_bytes (str "k\cv:a\nb"))).

Definition stomp_tests : list (Test unit unit) :=
  [parses_command_headers_and_body;
   tolerates_a_missing_blank_line_and_reports_no_body;
   skips_heartbeat_newlines_between_frames;
   end_of_stream_is_none_not_an_error;
   an_unterminated_frame_is_an_error_not_an_unbounded_read;
   header_escapes_round_trip].

(** ** [main.rs] *)

Definition key_hex_must_be_64_characters_of_hex : Test unit unit :=
  let key_of c n := some (parse_key_hex (replicate n c)) in
  r ← key_of 97 64%nat; check (is_ok r) ;;
  r ← key_of 97 63%nat; check (is_err r) ;;
  r ← key_of 97 65%nat; check (is_err r) ;;
  r ← key_of 122 64%nat; check (is_err r).

Definition key_hex_decodes_big_endian_per_byte : Test unit unit :=
  let hex := range 32 ≫= hex_byte in
  r ← some (parse_key_hex hex);
  key ← expect r;
  k0 ← at_index key 0; assert_eq k0 0 ;;
  k31 ← at_index key 31; assert_eq k31 31.

Definition the_reserved_channel_range_is_avoided : Test unit unit :=
  check (negb ((1 <=? PEER_CHANNEL) && (PEER_CHANNEL <=? 99))).

Definition main_tests : list (Test unit unit) :=
  [key_hex_must_be_64_characters_of_hex;
   key_hex_decodes_big_endian_per_byte;
   the_reserved_channel_range_is_avoided].

End Tests.

(** ** The suite *)

(** The server's parts pass their own unit tests, whatever characters
    [Debug] considers printable: key ownership, request parsing, the store,
    peer messages, client framing and the key on the command line. *)
Lemma server_tests_pass printable :
  forallb (fun t => passes t store_default) (kv_tests printable) = true /\
  forallb (fun t => passes t tt) (peer_tests printable) = true /\
  forallb (fun t => passes t tt) stomp_tests = true /\
  forallb (fun t => passes t tt) main_tests = true.
Proof. split_and!; vm_compute; reflexivity. Qed.
