(* ===== verification/Network.v ===== *)
(** * The pair on a network: two nodes, their clients and what is between them

    A node is first described as its clients and its peer see it: a finite map,
    the requests it waits for, the messages it has sent and the replies it has
    given.  [node_refines] shows that every turn of [core_loop] is a turn of
    that description.  The pair is then put on a network that may lose,
    duplicate, delay, reorder and reflect datagrams and inject any bytes that
    do not authenticate as the peer's, and the properties of the description
    are proved by induction on what can happen. *)

From S2P Require Export Server.

(** ** A node, abstractly *)

(** What a client can be shown.  The server writes nothing else to it. *)
Inductive Shown :=
| Welcome                                        (* CONNECTED *)
| Receipt (r : text)                             (* RECEIPT *)
| Unsupported (cmd : text)                       (* ERROR *)
| Answered (rcpt : option text) (r : Reply).     (* MESSAGE *)

(** The bytes of each, spelt out. *)
Definition wire (s : Shown) : bytes :=
  match s with
  | Welcome => Stomp.encode (str "CONNECTED")
      [(str "version", str "1.2"); (str "server", str "six-seven-server/0.1")] []
  | Receipt r => Stomp.encode (str "RECEIPT") [(str "receipt-id", r)] []
  | Unsupported cmd => Stomp.encode (str "ERROR") [(str "message", str "unsupported command")]
      (str "six-seven-server does not implement " ++ cmd ++ [10])
  | Answered rcpt r => Stomp.encode (str "MESSAGE")
      ([(str "destination", str "/queue/kv"); (str "content-type", str "text/plain");
        (str "subscription", str "0")] ++
       match rcpt with Some x => [(str "receipt-id", x)] | None => [] end)
      match r with Value v => v | ROk => str "OK" | Nil => str "NIL" | RErr e => str "ERR " ++ e end
  end.

(** A whole screen as bytes. *)
Definition painted (l : list Shown) : bytes := mjoin (wire <$> l).

Record Abs := MkAbs {
  table : gmap Z text;                          (* the stored values *)
  awaiting : gmap Z Pending;                    (* requests forwarded and not yet answered *)
  issued : Z;                                   (* the last correlation number *)
  asks : gmap Z (Z * option text * Op);         (* history: who asked what under each number *)
  sent : list Peer;                             (* messages given to the network *)
  tries : nat;                                  (* sends attempted *)
  screens : gmap Z (list Shown);                (* open connections, what each was shown *)
  attempts : nat;                               (* client writes attempted *)
}.

Definition abs_boot : Abs := MkAbs ∅ ∅ 0 ∅ [] 0 ∅ 0.

Definition set_table m a := MkAbs m a.(awaiting) a.(issued) a.(asks) a.(sent) a.(tries) a.(screens) a.(attempts).
Definition set_awaiting w a := MkAbs a.(table) w a.(issued) a.(asks) a.(sent) a.(tries) a.(screens) a.(attempts).
Definition set_issued i a := MkAbs a.(table) a.(awaiting) i a.(asks) a.(sent) a.(tries) a.(screens) a.(attempts).
Definition record_ask c q a := MkAbs a.(table) a.(awaiting) a.(issued) (<[c := q]> a.(asks)) a.(sent) a.(tries) a.(screens) a.(attempts).
Definition send m a := MkAbs a.(table) a.(awaiting) a.(issued) a.(asks) (a.(sent) ++ [m]) (S a.(tries)) a.(screens) a.(attempts).
Definition set_tries n a := MkAbs a.(table) a.(awaiting) a.(issued) a.(asks) a.(sent) n a.(screens) a.(attempts).
Definition set_screens v n a := MkAbs a.(table) a.(awaiting) a.(issued) a.(asks) a.(sent) a.(tries) v n.

(** What a node takes from an event. *)
Inductive Input :=
| Joined (c : Z)                                        (* a connection *)
| Gone (c : Z)                                          (* its end *)
| Heard (now c : Z) (rcpt : option text) (b : text)     (* a client's SEND *)
| Spoke (c : Z) (cmd : text) (rcpt : option text)       (* any other frame of a client *)
| Got (m : Peer)                                        (* a message of the peer *)
| Noise                                                 (* a datagram without one *)
| Clock (now : Z).                                      (* a tick *)

Section Abstract.
Context (printable : Z -> bool) (write_ok : nat -> bool) (send_error : nat -> option text) (cfg : Config).

(** A client is shown something: nobody else is, a closed connection is not,
    and a connection on which the write fails is closed. *)
Definition show_to (c : Z) (s : Shown) (a : Abs) : Abs :=
  match screens a !! c with
  | None => a
  | Some l =>
      set_screens (if write_ok (attempts a) then <[c := l ++ [s]]> (screens a) else delete c (screens a))
        (S (attempts a)) a
  end.

(** Why a message does not go out, if it does not. *)
Definition unsent (m : Peer) (a : Abs) : option text :=
  if MAX_PAYLOAD <? str_len (Peer.encode m) then
    Some (str "sealing for peer " ++ dec cfg.(peer_id) ++ str ": " ++
          str (Dek.show_SealError (Oversize (str_len (Peer.encode m)))))
  else (fun e => str "sending to peer " ++ show_addr cfg.(peer_addr) ++ str ": " ++ e) <$>
       send_error (tries a).

Definition tried (m : Peer) (a : Abs) : Abs :=
  if MAX_PAYLOAD <? str_len (Peer.encode m) then a else set_tries (S (tries a)) a.

Definition is_size (b : text) : bool := eq_ignore_ascii_case (trim b) (str "SIZE").

Definition size_reply (a : Abs) : Reply :=
  Value (dec (Z.of_nat (size (table a))) ++ str " of " ++ dec MAX_KEYS ++ str " keys on node " ++
         dec cfg.(id)).

Definition mine (op : Op) : Prop := owner (op_key op) cfg.(id) cfg.(peer_id) = cfg.(id).

(** The reply to a request of the peer and the table it leaves. *)
Definition serve (a : Abs) (op : Op) : Reply * gmap Z text :=
  if decide (mine op) then kv_spec (table a) op else (refusal cfg op, table a).

Definition next_ask (a : Abs) : Z := (issued a + 1) `mod` 2 ^ 64.

Definition acknowledge (c : Z) (rcpt : option text) (a : Abs) : Abs :=
  match rcpt with Some r => show_to c (Receipt r) a | None => a end.

(** A frame that is not a SEND. *)
Definition respond (c : Z) (cmd : text) (rcpt : option text) (a : Abs) : Abs :=
  if decide (cmd ∈ [str "CONNECT"; str "STOMP"]) then show_to c Welcome a
  else if decide (cmd ∈ [str "SUBSCRIBE"; str "UNSUBSCRIBE"]) then acknowledge c rcpt a
  else if decide (cmd = str "DISCONNECT") then
    let a := acknowledge c rcpt a in set_screens (delete c (screens a)) (attempts a) a
  else show_to c (Unsupported cmd) a.

(** One overdue request: it is dropped and its client is told. *)
Definition time_out (a : Abs) (cp : Z * Pending) : Abs :=
  show_to (conn cp.2) (Answered (receipt cp.2) (timeout_reply cfg))
    (set_awaiting (delete cp.1 (awaiting a)) a).

Definition overdue (now : Z) (w : gmap Z Pending) : list (Z * Pending) :=
  filter (fun cp => cp.2.(deadline) <= now) (map_to_list w).

Inductive abs_step : Input -> Abs -> Abs -> Prop :=
| abs_joined c a : abs_step (Joined c) a (set_screens (<[c := []]> (screens a)) (attempts a) a)
| abs_gone c a :
    abs_step (Gone c) a
      (set_awaiting (filter (fun cp => cp.2.(conn) <> c) (awaiting a))
        (set_screens (delete c (screens a)) (attempts a) a))
| abs_spoke c cmd rcpt a : abs_step (Spoke c cmd rcpt) a (respond c cmd rcpt a)
| abs_size now c rcpt b a :
    is_size b = true ->
    abs_step (Heard now c rcpt b) a (show_to c (Answered rcpt (size_reply a)) a)
| abs_reject now c rcpt b a e :
    is_size b = false -> Kv.parse printable b = Err e ->
    abs_step (Heard now c rcpt b) a (show_to c (Answered rcpt (RErr e)) a)
| abs_local now c rcpt b a op :
    is_size b = false -> Kv.parse printable b = Ok op -> mine op ->
    abs_step (Heard now c rcpt b) a
      (show_to c (Answered rcpt (kv_spec (table a) op).1) (set_table (kv_spec (table a) op).2 a))
| abs_forward now c rcpt b a op :
    is_size b = false -> Kv.parse printable b = Ok op -> ~ mine op ->
    unsent (Request (next_ask a) op) a = None ->
    abs_step (Heard now c rcpt b) a
      (set_awaiting (<[next_ask a := MkPending c rcpt (now + FORWARD_TIMEOUT)]> (awaiting a))
        (send (Request (next_ask a) op)
          (record_ask (next_ask a) (c, rcpt, op) (set_issued (next_ask a) a))))
| abs_unsent now c rcpt b a op e :
    is_size b = false -> Kv.parse printable b = Ok op -> ~ mine op ->
    unsent (Request (next_ask a) op) a = Some e ->
    abs_step (Heard now c rcpt b) a
      (show_to c (Answered rcpt (RErr e)) (tried (Request (next_ask a) op) (set_issued (next_ask a) a)))
| abs_answer corr op a :
    unsent (Response corr (serve a op).1) a = None ->
    abs_step (Got (Request corr op)) a
      (send (Response corr (serve a op).1) (set_table (serve a op).2 a))
| abs_answer_lost corr op a e :
    unsent (Response corr (serve a op).1) a = Some e ->
    abs_step (Got (Request corr op)) a
      (tried (Response corr (serve a op).1) (set_table (serve a op).2 a))
| abs_deliver corr r p a :
    awaiting a !! corr = Some p ->
    abs_step (Got (Response corr r)) a
      (show_to (conn p) (Answered (receipt p) r) (set_awaiting (delete corr (awaiting a)) a))
| abs_stray corr r a :
    awaiting a !! corr = None -> abs_step (Got (Response corr r)) a a
| abs_noise a : abs_step Noise a a
| abs_clock now a : abs_step (Clock now) a (foldl time_out a (overdue now (awaiting a))).

End Abstract.

(** ** The abstraction *)

Section Abstraction.
Context `{AS : AeadSpec} (printable : Z -> bool) (write_ok : nat -> bool)
  (send_error : nat -> option text) (cfg : Config) (store : KeyStore) (epoch : Epoch) (key : bytes).

Definition carried (bs : bytes) (m : Peer) : Prop :=
  exists nonce, len nonce = NPUBBYTES /\ bs = link_frame cfg epoch key nonce (Peer.encode m).

Record abstracts (n : Node) (a : Abs) : Prop := {
  ab_link : link cfg store epoch key (node_sys n);
  ab_store : store_inv (kv n);
  ab_table : table a = contents (kv n);
  ab_awaiting : awaiting a = pending n;
  ab_issued : issued a = next_corr n;
  ab_sent : Forall2 carried (outbox n) (sent a);
  ab_tries : tries a = sends n;
  ab_clients : clients n = painted <$> screens a;
  ab_attempts : attempts a = writes n;
}.

(** The input of an event. *)
Definition reads (n : Node) (e : Event) (i : Input) : Prop :=
  match e with
  | ClientUp c => i = Joined c
  | ClientDown c => i = Gone c
  | ClientFrame now c f =>
      let rcpt := header f (str "receipt") in
      let cmd := to_ascii_uppercase (command f) in
      i = if decide (cmd = str "SEND") then Heard now c rcpt (body f) else Spoke c cmd rcpt
  | Datagram bs =>
      match i with
      | Got m => carries printable cfg store n bs m
      | Noise => forall m, ~ carries printable cfg store n bs m
      | _ => False
      end
  | Tick now => i = Clock now
  end.

Lemma abstracts_boot s : link cfg store epoch key s -> abstracts (boot s) abs_boot.
Proof. intros Hl. split; try done. apply store_default_inv. Qed.

Lemma painted_snoc l s : painted (l ++ [s]) = painted l ++ wire s.
Proof. unfold painted. rewrite fmap_app, join_app. simpl. by rewrite app_nil_r. Qed.

(** A write of a shown frame is what the abstract client is shown. *)
Lemma abstracts_show c s n a :
  abstracts n a -> abstracts (write_frame write_ok c (wire s) n).2 (show_to write_ok c s a).
Proof.
  intros [A1 A2 A3 A4 A5 A6 A7 A8 A9]. unfold write_frame, show_to. rewrite A8, lookup_fmap.
  destruct (screens a !! c) as [l|] eqn:Hc; simpl; [|by split].
  rewrite A9. destruct (write_ok (writes n)); split; simpl; try done; try congruence.
  - by rewrite fmap_insert, painted_snoc.
  - by rewrite fmap_delete.
Qed.

Lemma abstracts_reply c rcpt r n a :
  abstracts n a ->
  abstracts (reply_to_client write_ok c rcpt r n).2 (show_to write_ok c (Answered rcpt r) a).
Proof. apply (abstracts_show c (Answered rcpt r)). Qed.

Lemma abstracts_acknowledge c rcpt n a :
  abstracts n a ->
  abstracts (match rcpt with Some r => write_frame write_ok c (receipt_frame r) | None => ret tt end n).2
    (acknowledge write_ok c rcpt a).
Proof. intros Ha. destruct rcpt as [r|]; [by apply (abstracts_show c (Receipt r))|done]. Qed.

(** Sending either puts the message on the wire or reports why not. *)
Lemma abstracts_send m n a :
  abstracts n a ->
  match unsent send_error cfg m a with
  | None => exists n', send_to_peer send_error cfg store epoch (Peer.encode m) n = (Ok tt, n') /\
      abstracts n' (send m a)
  | Some e => exists n', send_to_peer send_error cfg store epoch (Peer.encode m) n = (Err e, n') /\
      abstracts n' (tried m a)
  end.
Proof.
  intros [A1 A2 A3 A4 A5 A6 A7 A8 A9]. unfold unsent, tried, send_to_peer. rewrite A7.
  destruct (Z.ltb_spec MAX_PAYLOAD (str_len (Peer.encode m))) as [Hl|Hl].
  { unfold Dek.seal. rewrite (proj2 (Z.ltb_lt _ _)) by (unfold str_len in Hl; lia). simpl.
    eexists. split; [done|]. by split. }
  destruct A1 as [Hi Hid Hk].
  destruct (dek_seal_run (node_sys n) store (peer_id cfg) PEER_CHANNEL epoch (as_bytes (Peer.encode m)) key Hi Hl Hk)
    as (nonce & s' & _ & Hn & Hh & ->). simpl.
  assert (link cfg store epoch key s') as Hl' by (by eapply link_heap; [|split]).
  destruct (send_error (sends n)) as [e|]; simpl; eexists; (split; [done|]); split; simpl; try done; try congruence.
  apply Forall2_app; [done|]. constructor; [|constructor]. exists nonce. split; [done|].
  unfold link_frame. by rewrite Hid.
Qed.

Lemma abstracts_kv op n a :
  abstracts n a ->
  (run_kv op n).1 = (kv_spec (table a) op).1 /\
  abstracts (run_kv op n).2 (set_table (kv_spec (table a) op).2 a).
Proof.
  intros [A1 A2 A3 A4 A5 A6 A7 A8 A9]. rewrite run_kv_frame. destruct (execute_contents op (kv n) A2) as [Hr Hc].
  rewrite A3. split; [done|]. split; simpl; try done. by apply execute_inv.
Qed.

Lemma abstracts_stats w n a : abstracts n a -> abstracts (set_node_stats w n) a.
Proof. by intros []. Qed.

Lemma abstracts_log w n a : abstracts n a -> abstracts (set_log w n) a.
Proof. by intros []. Qed.

Lemma abstracts_drop_pending w n a :
  abstracts n a -> abstracts (set_pending w n) (set_awaiting w a).
Proof. by intros []. Qed.

Lemma abstracts_delete_client c n a :
  abstracts n a ->
  abstracts (set_clients (delete c (clients n)) n) (set_screens (delete c (screens a)) (attempts a) a).
Proof. intros [A1 A2 A3 A4 A5 A6 A7 A8 A9]. split; simpl; try done. by rewrite A8, fmap_delete. Qed.

Lemma abstracts_new_client c n a :
  abstracts n a ->
  abstracts (set_clients (<[c := []]> (clients n)) n) (set_screens (<[c := []]> (screens a)) (attempts a) a).
Proof. intros [A1 A2 A3 A4 A5 A6 A7 A8 A9]. split; simpl; try done. by rewrite A8, fmap_insert. Qed.

End Abstraction.

(** ** Refinement *)

Section Refinement.
Context `{AS : AeadSpec} (printable : Z -> bool) (write_ok : nat -> bool)
  (send_error : nat -> option text) (cfg : Config) (store : KeyStore) (epoch : Epoch) (key : bytes).

Abbreviation abstracts' := (abstracts cfg store epoch key).
Abbreviation abs_step' := (abs_step printable write_ok send_error cfg).

Lemma send_refines now c rcpt b n a :
  abstracts' n a ->
  exists a', abs_step' (Heard now c rcpt b) a a' /\
    abstracts' (handle_send printable write_ok send_error cfg store epoch now c rcpt b n).2 a'.
Proof.
  intros Ha. unfold handle_send. destruct (eq_ignore_ascii_case (trim b) (str "SIZE")) eqn:Hsz.
  { eexists. split; [by apply abs_size|]. unfold size_reply. rewrite (ab_table _ _ _ _ _ _ Ha).
    unfold contents. rewrite to_map_size by apply Ha. by apply abstracts_reply. }
  destruct (Kv.parse printable b) as [op|e] eqn:Hp.
  2: { eexists. split; [by eapply abs_reject|]. by apply abstracts_reply. }
  destruct (Z.eqb_spec (owner (op_key op) (id cfg) (peer_id cfg)) (id cfg)) as [Ho|Ho].
  - destruct (abstracts_kv cfg store epoch key op n a Ha) as [Hr Hn]. unfold bind at 1.
    destruct (run_kv op n) as [r n1]. simpl in Hr, Hn. subst r.
    eexists. split; [by eapply abs_local|]. by apply abstracts_reply.
  - assert (Hc : (next_corr n + 1) `mod` 2 ^ 64 = next_ask a).
    { unfold next_ask. by rewrite (ab_issued _ _ _ _ _ _ Ha). }
    unfold bump_corr. unfold bind at 1. rewrite Hc. set (n1 := set_next_corr (next_ask a) n).
    set (a1 := set_issued (next_ask a) a).
    assert (abstracts' n1 a1) as Hn1 by (by destruct Ha).
    assert (abstracts' n1 (record_ask (next_ask a) (c, rcpt, op) a1)) as Hn2 by (by destruct Hn1).
    unfold bind. destruct (unsent send_error cfg (Request (next_ask a) op) a) as [e|] eqn:Hu.
    + pose proof (abstracts_send send_error cfg store epoch key (Request (next_ask a) op) _ _ Hn1) as Hs.
      change (unsent _ _ _ a1) with (unsent send_error cfg (Request (next_ask a) op) a) in Hs.
      rewrite Hu in Hs. destruct Hs as (n' & -> & Hn').
      eexists. split; [by eapply abs_unsent|]. by apply abstracts_reply.
    + pose proof (abstracts_send send_error cfg store epoch key (Request (next_ask a) op) _ _ Hn2) as Hs.
      change (unsent _ _ _ (record_ask _ _ _)) with (unsent send_error cfg (Request (next_ask a) op) a) in Hs.
      rewrite Hu in Hs. destruct Hs as (n' & -> & Hn').
      eexists. split; [by eapply abs_forward|]. unfold modify. cbn [snd].
      replace (awaiting a) with (pending n') by (rewrite <- (ab_awaiting _ _ _ _ _ _ Hn'); done).
      by apply abstracts_drop_pending.
Qed.

Lemma answer_refines op n a :
  abstracts' n a ->
  (answer cfg op n).1 = (serve cfg a op).1 /\
  abstracts' (answer cfg op n).2 (set_table (serve cfg a op).2 a).
Proof.
  intros Ha. unfold answer, serve, mine.
  destruct (Z.eqb_spec (owner (op_key op) (id cfg) (peer_id cfg)) (id cfg)) as [Ho|Ho].
  - rewrite decide_True by done. by apply abstracts_kv.
  - rewrite decide_False by done. split; [done|]. by destruct a.
Qed.

Lemma message_refines m n a :
  abstracts' n a ->
  exists a', abs_step' (Got m) a a' /\
    abstracts' (handle_message write_ok send_error cfg store epoch m n).2 a'.
Proof.
  intros Ha. destruct m as [corr op|corr r]; unfold handle_message.
  - destruct (answer_refines op n a Ha) as [Hr Hn]. unfold bind. destruct (answer cfg op n) as [r n1].
    simpl in Hr, Hn. subst r.
    pose proof (abstracts_send send_error cfg store epoch key (Response corr (serve cfg a op).1) _ _ Hn) as Hs.
    change (unsent _ _ _ (set_table _ _)) with (unsent send_error cfg (Response corr (serve cfg a op).1) a) in Hs.
    destruct (unsent send_error cfg _ a) as [e|] eqn:Hu; destruct Hs as (n' & -> & Hn').
    + eexists. split; [by eapply abs_answer_lost|]. by apply abstracts_log.
    + eexists. split; [by apply abs_answer|done].
  - unfold gets. unfold bind at 1. rewrite <- (ab_awaiting _ _ _ _ _ _ Ha).
    destruct (awaiting a !! corr) as [p|] eqn:Hp.
    + eexists. split; [by eapply abs_deliver|]. unfold bind, modify. apply abstracts_reply.
      rewrite <- (ab_awaiting _ _ _ _ _ _ Ha). by apply abstracts_drop_pending.
    + eexists. split; [by apply abs_stray|done].
Qed.

Lemma datagram_refines bs n a :
  abstracts' n a ->
  exists i a', reads printable cfg store n (Datagram bs) i /\ abs_step' i a a' /\
    abstracts' (handle_datagram printable write_ok send_error cfg store epoch bs n).2 a'.
Proof.
  intros Ha. unfold handle_datagram, gets, zoom. unfold bind at 1 2.
  destruct (Dek.open (node_sys n) store bs (node_stats n)) as [r w] eqn:Ho.
  apply (abstracts_stats _ _ _ _ w) in Ha.
  assert (Hq : forall n', abstracts' n' a ->
    (forall m, ~ carries printable cfg store n bs m) ->
    exists i a', reads printable cfg store n (Datagram bs) i /\ abs_step' i a a' /\
    abstracts' n' a').
  { intros n' Hn' Hno. exists Noise, a. split; [done|]. by split; [apply abs_noise|]. }
  assert (Hopen : forall m, carries printable cfg store n bs m ->
    exists h f payload t, r = Ok (h, f, payload) /\ from_id h = peer_id cfg /\
      channel h = PEER_CHANNEL /\ from_utf8 payload = Some t /\ Peer.decode printable t = Ok m).
  { intros m (h & f & payload & w' & t & Hx & Hc). rewrite Hx in Ho. injection Ho as <- _.
    by exists h, f, payload, t. }
  destruct r as [[[h f] payload]|e]; [|by apply Hq; [|intros m (? & ? & ? & ? & ? & _)%Hopen]].
  destruct (Z.eqb_spec (from_id h) (peer_id cfg)) as [Hf|];
    [|apply Hq; [done|]; intros m (? & ? & ? & ? & [= <- <- <-] & ? & _)%Hopen; done].
  destruct (Z.eqb_spec (channel h) PEER_CHANNEL) as [Hc|];
    [|apply Hq; [done|]; intros m (? & ? & ? & ? & [= <- <- <-] & ? & ? & _)%Hopen; done].
  simpl. destruct (from_utf8 payload) as [t|] eqn:Ht;
    [|apply Hq; [done|]; intros m (? & ? & ? & ? & [= <- <- <-] & ? & ? & ? & _)%Hopen; congruence].
  destruct (Peer.decode printable t) as [m|e] eqn:Hm;
    [|apply Hq; [by apply abstracts_log|]; intros m (? & ? & ? & ? & [= <- <- <-] & ? & ? & ? & ?)%Hopen; congruence].
  destruct (message_refines m _ a Ha) as (a' & Hs & Hn'). exists (Got m), a'. split_and!; [|done|done].
  by exists h, f, payload, w, t.
Qed.

(** The overdue requests, one after the other. *)
Lemma expire_refines late n a :
  NoDup late.*1 -> (forall corr p, (corr, p) ∈ late -> pending n !! corr = Some p) -> abstracts' n a ->
  abstracts' (expire write_ok cfg late.*1 n).2 (foldl (time_out write_ok cfg) a late).
Proof.
  revert n a. induction late as [|[corr p] rest IH]; intros n a Hnd Hin Ha; [done|].
  apply NoDup_cons in Hnd as [Hni Hnd]. cbn [fmap list_fmap fst foldl].
  rewrite (expire_cons write_ok cfg corr rest.*1 p n) by (apply Hin; by left).
  apply IH; [done| |].
  - intros c' p' Hc'.
    destruct (write_frame_frame write_ok (conn p) (reply_frame (receipt p) (timeout_reply cfg))
      (set_pending (delete corr (pending n)) n)) as (_ & -> & _). simpl.
    rewrite lookup_delete_ne; [apply Hin; by right|]. intros ->. apply Hni, list_elem_of_fmap.
    by exists (c', p').
  - unfold time_out. simpl. rewrite (ab_awaiting _ _ _ _ _ _ Ha).
    by apply (abstracts_show write_ok cfg store epoch key _ (Answered _ _)), abstracts_drop_pending.
Qed.

Lemma frame_refines now c f n a :
  abstracts' n a ->
  exists i a', reads printable cfg store n (ClientFrame now c f) i /\ abs_step' i a a' /\
    abstracts' (handle_client_frame printable write_ok send_error cfg store epoch now c f n).2 a'.
Proof.
  intros Ha. unfold reads. cbv zeta. unfold handle_client_frame.
  set (cmd := to_ascii_uppercase (command f)). set (rcpt := header f (str "receipt")).
  destruct (decide (cmd = str "SEND")) as [Hs|Hs].
  { destruct (send_refines now c rcpt (body f) n a Ha) as (a' & Hx & Hn').
    eexists _, a'. split; [done|]. split; [done|].
    by rewrite Hs, !(decide_False (P := _ \/ _)), decide_False by (vm_compute; naive_solver). }
  eexists _, _. split; [done|]. split; [apply abs_spoke|]. unfold respond.
  rewrite (decide_ext (cmd ∈ [str "CONNECT"; str "STOMP"]) (cmd = str "CONNECT" \/ cmd = str "STOMP")) by set_solver.
  case_decide; [by apply (abstracts_show write_ok cfg store epoch key c Welcome)|].
  rewrite (decide_ext (cmd ∈ [str "SUBSCRIBE"; str "UNSUBSCRIBE"])
    (cmd = str "SUBSCRIBE" \/ cmd = str "UNSUBSCRIBE")) by set_solver.
  pose proof (abstracts_acknowledge write_ok cfg store epoch key c rcpt n a Ha) as Hr.
  case_decide; [done|].
  case_decide; [|by apply (abstracts_show write_ok cfg store epoch key c (Unsupported cmd))].
  unfold bind. destruct (_ n) as [[] n1]. by apply abstracts_delete_client.
Qed.

Lemma step_refines e n a :
  abstracts' n a ->
  exists i a', reads printable cfg store n e i /\ abs_step' i a a' /\
    abstracts' (step printable write_ok send_error cfg store epoch e n).2 a'.
Proof.
  intros Ha. destruct e as [c|now c f|c|bs|now]; unfold step.
  - eexists _, _. split; [done|]. split; [apply abs_joined|]. by apply abstracts_new_client.
  - by apply frame_refines.
  - eexists _, _. split; [done|]. split; [apply abs_gone|].
    unfold modify. rewrite (ab_awaiting _ _ _ _ _ _ Ha). cbn [snd].
    by apply abstracts_drop_pending, abstracts_delete_client.
  - by apply datagram_refines.
  - unfold gets. unfold bind at 1. eexists _, _. split; [done|]. split; [apply abs_clock|].
    rewrite (ab_awaiting _ _ _ _ _ _ Ha). apply expire_refines; [| |done].
    + eapply (sublist_NoDup _ (map_to_list (pending n)).*1); [apply NoDup_fst_map_to_list|].
      apply fmap_sublist, sublist_filter.
    + intros corr p Hin. apply list_elem_of_filter in Hin as [_ Hin]. by apply elem_of_map_to_list.
Qed.

End Refinement.

(** ** The pair, abstractly *)

Inductive Side := NodeA | NodeB.

Global Instance Side_eq_dec : EqDecision Side.
Proof. solve_decision. Defined.

Definition other (x : Side) : Side := match x with NodeA => NodeB | NodeB => NodeA end.

Lemma other_ne x y : y <> x -> y = other x.
Proof. by destruct x, y. Qed.

Definition upd {T} (x : Side) (v : T) (f : Side -> T) : Side -> T :=
  fun y => if decide (y = x) then v else f y.

Lemma upd_eq {T} x (v : T) f : upd x v f x = v.
Proof. unfold upd. by rewrite decide_True. Qed.

Lemma upd_ne {T} x y (v : T) f : y <> x -> upd x v f y = f y.
Proof. intros. unfold upd. by rewrite decide_False. Qed.

(** What clients have sent: at which node, on which connection, with which
    receipt and which body. *)
Abbreviation History := (list (Side * Z * option text * text)).

Section Pair.
Context (printable : Z -> bool) (cfg : Side -> Config).

(** Some client has put this value under this key. *)
Definition put_by (hs : History) (k : Z) (v : text) : Prop :=
  exists x c rcpt b, (x, c, rcpt, b) ∈ hs /\ Kv.parse printable b = Ok (Put k v).

(** A reply that an operation may get: a value only for a GET, and one that was
    put under this key. *)
Definition fits (hs : History) (op : Op) (r : Reply) : Prop :=
  match op, r with
  | Get k, Value v => put_by hs k v
  | Get _, Nil | Put _ _, ROk | Rm _, ROk | Rm _, Nil => True
  | _, RErr e => Forall is_char e
  | _, _ => False
  end.

(** A reply that a client of [x] on connection [c] may read. *)
Definition answers (hs : History) (x : Side) (c : Z) (rcpt : option text) (r : Reply) : Prop :=
  exists b, (x, c, rcpt, b) ∈ hs /\
    if is_size b then exists v, r = Value v
    else match Kv.parse printable b with
         | Ok op => fits hs op r \/ exists e, r = RErr e
         | Err e => r = RErr e
         end.

(** A request that a client of [x] made. *)
Definition asked (hs : History) (x : Side) (q : Z * option text * Op) : Prop :=
  exists b, (x, q.1.1, q.1.2, b) ∈ hs /\ is_size b = false /\ Kv.parse printable b = Ok q.2.

(** A message that [x] may send: a request some client made under this number,
    or the reply to a request of the peer that has this number. *)
Definition justified (hs : History) (own theirs : gmap Z (Z * option text * Op)) (m : Peer) : Prop :=
  match m with
  | Request corr op => exists c rcpt, own !! corr = Some (c, rcpt, op)
  | Response corr r => exists q, theirs !! corr = Some q /\ fits hs q.2 r
  end.

(** What a client of [x] on connection [c] may be shown. *)
Definition seen (hs : History) (x : Side) (c : Z) (s : Shown) : Prop :=
  match s with Answered rcpt r => answers hs x c rcpt r | _ => True end.

(** How many SENDs connection [c] of [x] made, how many replies it was shown and
    how many it still waits for. *)
Definition sends_of (hs : History) (x : Side) (c : Z) : nat :=
  length (filter (fun h => h.1.1 = (x, c)) hs).

Definition is_reply (s : Shown) : bool := match s with Answered _ _ => true | _ => false end.
Definition replies (l : list Shown) : nat := length (filter is_reply l).
Definition answered (a : Abs) (c : Z) : nat := from_option replies 0%nat (screens a !! c).
Definition outstanding (a : Abs) (c : Z) : nat := size (filter (fun cp => cp.2.(conn) = c) (awaiting a)).

Definition spare (hs : History) (x : Side) (a : Abs) (c : Z) : Prop :=
  (answered a c + outstanding a c < sends_of hs x c)%nat.

(** What holds of the node [x], [theirs] being what the clients of the other
    node asked of this one. *)
Record side_inv (hs : History) (theirs : gmap Z (Z * option text * Op)) (x : Side) (a : Abs) : Prop := {
  si_issued : is_u64 (issued a);
  si_asks corr q : asks a !! corr = Some q -> 0 <= corr <= issued a /\ asked hs x q;
  si_awaiting corr p : awaiting a !! corr = Some p ->
    exists op, asks a !! corr = Some (conn p, receipt p, op);
  si_sent m : m ∈ sent a -> justified hs (asks a) theirs m;
  si_table k v : table a !! k = Some v -> put_by hs k v;
  si_screens c l : screens a !! c = Some l -> Forall (seen hs x c) l;
  si_budget c : (answered a c + outstanding a c <= sends_of hs x c)%nat;
}.

Record pair_inv (hs : History) (f : Side -> Abs) : Prop := {
  pi_heard x c rcpt b : (x, c, rcpt, b) ∈ hs -> Forall is_char b;
  pi_side x : side_inv hs (asks (f (other x))) x (f x);
}.

Lemma pair_inv_boot : pair_inv [] (fun _ => abs_boot).
Proof. split; [intros; set_solver|]. intros x. split; simpl; try done; intros; set_solver. Qed.

(** *** More history, more questions *)

Lemma put_by_cons h hs k v : put_by hs k v -> put_by (h :: hs) k v.
Proof. intros (x & c & rcpt & b & Hin & Hp). exists x, c, rcpt, b. split; [by right|done]. Qed.

Lemma fits_cons h hs op r : fits hs op r -> fits (h :: hs) op r.
Proof. destruct op, r; simpl; try done. apply put_by_cons. Qed.

Lemma seen_cons h hs x c s : seen hs x c s -> seen (h :: hs) x c s.
Proof.
  destruct s as [| | |rcpt r]; [done..|]. intros (b' & Hin & Hr). exists b'. split; [by right|].
  destruct (is_size b'); [done|]. destruct (Kv.parse printable b'); [|done].
  destruct Hr; [left; by apply fits_cons|by right].
Qed.

Lemma sends_of_cons h hs x c : (sends_of hs x c <= sends_of (h :: hs) x c)%nat.
Proof. unfold sends_of. rewrite filter_cons. case_decide; simpl; lia. Qed.

Lemma side_inv_heard h hs theirs x a : side_inv hs theirs x a -> side_inv (h :: hs) theirs x a.
Proof.
  intros [I1 I2 I3 I4 I5 I6 I7]. split; try done.
  - intros corr q [Hc (b' & Hin & Hq)]%I2. split; [done|]. exists b'. split; [by right|done].
  - intros m Hm%I4. destruct m as [|corr r]; [done|].
    destruct Hm as (q & Hq & Hf). exists q. split; [done|by apply fits_cons].
  - intros k v Hv%I5. by apply put_by_cons.
  - intros c l Hl%I6. eapply Forall_impl; [exact Hl|]. intros s. apply seen_cons.
  - intros c. etransitivity; [apply I7|apply sends_of_cons].
Qed.

(** A SEND that was just heard is not accounted for yet. *)
Lemma heard_spare hs theirs x a c rcpt b :
  side_inv hs theirs x a -> spare ((x, c, rcpt, b) :: hs) x a c.
Proof.
  intros Hi. pose proof (si_budget _ _ _ _ Hi c) as Hb. unfold spare, sends_of in *.
  rewrite filter_cons, decide_True by done. simpl. lia.
Qed.

Lemma justified_mono hs own own' theirs theirs' m :
  own ⊆ own' -> theirs ⊆ theirs' -> justified hs own theirs m -> justified hs own' theirs' m.
Proof.
  intros Ho Ht. destruct m as [corr op|corr r]; simpl.
  - intros (c & rcpt & Hq). exists c, rcpt. by eapply lookup_weaken.
  - intros (q & Hq & Hf). exists q. split; [by eapply lookup_weaken|done].
Qed.

Lemma side_inv_theirs hs theirs theirs' x a :
  theirs ⊆ theirs' -> side_inv hs theirs x a -> side_inv hs theirs' x a.
Proof.
  intros Ht [I1 I2 I3 I4 I5 I6 I7]. split; try done. intros m Hm%I4. by eapply justified_mono.
Qed.

(** *** The parts of a step *)

Section Parts.
Context (hs : History) (theirs : gmap Z (Z * option text * Op)) (x : Side) (a : Abs).

Lemma show_to_frame write_ok c s :
  let a' := show_to write_ok c s a in
  table a' = table a /\ awaiting a' = awaiting a /\ issued a' = issued a /\ asks a' = asks a /\ sent a' = sent a.
Proof. unfold show_to. by destruct (screens a !! c). Qed.

Lemma answered_show write_ok c s c' :
  (answered (show_to write_ok c s a) c' <=
   answered a c' + if decide (c' = c) then if is_reply s then 1 else 0 else 0)%nat.
Proof.
  unfold answered, show_to. destruct (screens a !! c) as [l|] eqn:Hl; [|lia]. simpl.
  destruct (write_ok _); case_decide as Hc; subst.
  - rewrite lookup_insert_eq, Hl. simpl. unfold replies. rewrite filter_app, length_app, filter_cons.
    by destruct (is_reply s).
  - rewrite lookup_insert_ne by done. lia.
  - rewrite lookup_delete_eq. simpl. lia.
  - rewrite lookup_delete_ne by done. lia.
Qed.

Lemma side_inv_show write_ok c s :
  side_inv hs theirs x a -> seen hs x c s -> (is_reply s -> spare hs x a c) ->
  side_inv hs theirs x (show_to write_ok c s a).
Proof.
  intros [I1 I2 I3 I4 I5 I6 I7] Hs Hb.
  destruct (show_to_frame write_ok c s) as (E1 & E2 & E3 & E4 & E5).
  split; rewrite ?E1, ?E2, ?E3, ?E4, ?E5; try done.
  - intros c' l. unfold show_to. destruct (screens a !! c) as [l0|] eqn:Hl; [|apply I6]. simpl.
    destruct (write_ok _).
    + destruct (decide (c' = c)) as [->|Hne]; [|rewrite lookup_insert_ne by done; apply I6].
      rewrite lookup_insert_eq. intros [= <-]. apply Forall_app. split; [by apply I6|by constructor].
    + intros [_ Hx]%lookup_delete_Some. by apply I6.
  - intros c'. pose proof (answered_show write_ok c s c') as Ha. pose proof (I7 c') as Hc'.
    unfold outstanding in *. rewrite E2. case_decide as Hc; [subst c'|lia].
    destruct (is_reply s); [|lia]. specialize (Hb I). unfold spare, outstanding in Hb. lia.
Qed.

Lemma side_inv_close c :
  side_inv hs theirs x a -> side_inv hs theirs x (set_screens (delete c (screens a)) (attempts a) a).
Proof.
  intros [I1 I2 I3 I4 I5 I6 I7]. split; try done; simpl.
  - intros c' l [_ Hx]%lookup_delete_Some. by apply I6.
  - intros c'. etransitivity; [|apply I7]. apply Nat.add_le_mono_r. unfold answered. simpl.
    destruct (decide (c' = c)) as [->|Hne]; [rewrite lookup_delete_eq; simpl; lia|].
    by rewrite lookup_delete_ne.
Qed.

Lemma side_inv_join c :
  side_inv hs theirs x a -> side_inv hs theirs x (set_screens (<[c := []]> (screens a)) (attempts a) a).
Proof.
  intros [I1 I2 I3 I4 I5 I6 I7]. split; try done; simpl.
  - intros c' l. destruct (decide (c' = c)) as [->|Hne]; [|rewrite lookup_insert_ne by done; apply I6].
    rewrite lookup_insert_eq. by intros [= <-].
  - intros c'. etransitivity; [|apply I7]. apply Nat.add_le_mono_r. unfold answered. simpl.
    destruct (decide (c' = c)) as [->|Hne]; [rewrite lookup_insert_eq; simpl; unfold replies; simpl; lia|].
    by rewrite lookup_insert_ne.
Qed.

Lemma side_inv_send m :
  side_inv hs theirs x a -> justified hs (asks a) theirs m -> side_inv hs theirs x (send m a).
Proof.
  intros [I1 I2 I3 I4 I5 I6 I7] Hm. split; try done. simpl. intros m'.
  rewrite elem_of_app, list_elem_of_singleton. intros [Hin| ->]; [by apply I4|done].
Qed.

Lemma side_inv_table m :
  side_inv hs theirs x a -> (forall k v, m !! k = Some v -> put_by hs k v) ->
  side_inv hs theirs x (set_table m a).
Proof. by intros [I1 I2 I3 I4 I5 I6 I7] Hm. Qed.

Lemma side_inv_awaiting w :
  side_inv hs theirs x a ->
  (forall corr p, w !! corr = Some p -> exists op, asks a !! corr = Some (conn p, receipt p, op)) ->
  (forall c, (answered a c + outstanding (set_awaiting w a) c <= sends_of hs x c)%nat) ->
  side_inv hs theirs x (set_awaiting w a).
Proof. by intros [I1 I2 I3 I4 I5 I6 I7] Hw Hb. Qed.

Lemma outstanding_subset w c : w ⊆ awaiting a -> (outstanding (set_awaiting w a) c <= outstanding a c)%nat.
Proof. intros Hw. apply map_subseteq_size. by apply map_filter_subseteq_mono. Qed.

(** A request leaves the table: its connection has one reply to come. *)
Lemma outstanding_delete corr p :
  awaiting a !! corr = Some p ->
  outstanding a (conn p) = S (outstanding (set_awaiting (delete corr (awaiting a)) a) (conn p)).
Proof.
  intros Hp. unfold outstanding. simpl. rewrite map_filter_delete.
  assert (filter (fun cp => cp.2.(conn) = conn p) (awaiting a) !! corr = Some p) as Hf
    by (by apply map_lookup_filter_Some).
  rewrite map_size_delete_Some by (by eexists).
  assert (size (filter (fun cp => cp.2.(conn) = conn p) (awaiting a)) <> 0%nat); [|lia].
  intros Hz%map_size_empty_inv. by rewrite Hz in Hf.
Qed.

Lemma outstanding_insert corr p c :
  awaiting a !! corr = None ->
  (outstanding (set_awaiting (<[corr := p]> (awaiting a)) a) c <=
   outstanding a c + if decide (c = conn p) then 1 else 0)%nat.
Proof.
  intros Hn. unfold outstanding. simpl. case_decide as Hc.
  - rewrite map_filter_insert_True by done. rewrite map_size_insert_None; [lia|].
    by apply map_lookup_filter_None_2; left.
  - rewrite map_filter_insert_False by (simpl; congruence). rewrite delete_id by done. lia.
Qed.

Lemma side_inv_subset w :
  side_inv hs theirs x a -> w ⊆ awaiting a -> side_inv hs theirs x (set_awaiting w a).
Proof.
  intros Hi Hw. apply side_inv_awaiting; [done| |].
  - intros corr p Hp. eapply (si_awaiting _ _ _ _ Hi), lookup_weaken; [exact Hp|done].
  - intros c. pose proof (si_budget _ _ _ _ Hi c). pose proof (outstanding_subset w c Hw). lia.
Qed.

(** The counter moves to a number that was never used. *)
Lemma next_ask_fresh :
  side_inv hs theirs x a -> issued a < U64_MAX ->
  next_ask a = issued a + 1 /\ asks a !! next_ask a = None.
Proof.
  intros [I1 I2 I3 I4 I5 I6 I7] Hn.
  assert (next_ask a = issued a + 1) as He by (unfold next_ask; apply Z.mod_small; width).
  split; [done|]. destruct (asks a !! next_ask a) as [q|] eqn:Hq; [|done].
  apply I2 in Hq as [Hc _]. rewrite He in Hc. lia.
Qed.

Lemma side_inv_issued :
  side_inv hs theirs x a -> issued a < U64_MAX -> side_inv hs theirs x (set_issued (next_ask a) a).
Proof.
  intros Hi Hn. destruct (next_ask_fresh Hi Hn) as [-> _]. destruct Hi as [I1 I2 I3 I4 I5 I6 I7].
  split; simpl; try done; [width|]. intros corr q [Hc Hq]%I2. split; [lia|done].
Qed.

Lemma side_inv_ask q :
  side_inv hs theirs x a -> is_u64 (issued a) -> asks a !! issued a = None -> asked hs x q ->
  side_inv hs theirs x (record_ask (issued a) q a).
Proof.
  intros [I1 I2 I3 I4 I5 I6 I7] Hu Hf Hq.
  assert (asks a ⊆ <[issued a := q]> (asks a)) as Hs by (by apply insert_subseteq).
  split; simpl; try done.
  - intros corr q'. destruct (decide (corr = issued a)) as [->|Hne].
    + rewrite lookup_insert_eq. intros [= <-]. split; [width|done].
    + rewrite lookup_insert_ne by done. apply I2.
  - intros corr p (op & Hop)%I3. exists op. by eapply lookup_weaken.
  - intros m Hm%I4. by eapply justified_mono.
Qed.

End Parts.

(** A new request waits. *)
Lemma side_inv_forward hs theirs x a corr c rcpt op dl m :
  side_inv hs theirs x (record_ask corr (c, rcpt, op) (set_issued corr a)) -> asks a !! corr = None ->
  m = Request corr op -> side_inv hs theirs x a -> spare hs x a c ->
  side_inv hs theirs x
    (set_awaiting (<[corr := MkPending c rcpt dl]> (awaiting a))
      (send m (record_ask corr (c, rcpt, op) (set_issued corr a)))).
Proof.
  intros Hi Hf -> Ha Hb. apply side_inv_awaiting.
  - destruct Hi as [I1 I2 I3 I4 I5 I6 I7]. split; try done. simpl. intros m'.
    rewrite elem_of_app, list_elem_of_singleton. intros [Hin| ->]; [by apply I4|].
    exists c, rcpt. apply lookup_insert_eq.
  - intros corr' p. destruct (decide (corr' = corr)) as [->|Hne].
    + rewrite lookup_insert_eq. intros [= <-]. exists op. apply lookup_insert_eq.
    + rewrite lookup_insert_ne by done. intros Hpd. exact (si_awaiting _ _ _ _ Hi corr' p Hpd).
  - intros c'. assert (awaiting a !! corr = None) as Hn.
    { destruct (awaiting a !! corr) as [p|] eqn:Hp; [|done].
      destruct (si_awaiting _ _ _ _ Ha _ _ Hp) as (op' & Hop). congruence. }
    pose proof (outstanding_insert a corr (MkPending c rcpt dl) c' Hn) as Hw.
    pose proof (si_budget _ _ _ _ Ha c') as Hc'. unfold spare, answered, outstanding in *. simpl in *.
    case_decide; [subst|]; lia.
Qed.

Lemma tried_asks a m : asks (tried m a) = asks a.
Proof. unfold tried. by destruct (_ <? _). Qed.

Lemma side_inv_tried hs theirs x a m : side_inv hs theirs x a -> side_inv hs theirs x (tried m a).
Proof. unfold tried. destruct (_ <? _); [done|]. by intros [I1 I2 I3 I4 I5 I6 I7]. Qed.

(** *** The store *)

Lemma put_by_chars hs k v :
  (forall x c rcpt b, (x, c, rcpt, b) ∈ hs -> Forall is_char b) -> put_by hs k v -> Forall is_char v.
Proof.
  intros Hc (x & c & rcpt & b & Hin & Hp). apply Hc in Hin. by eapply parse_chars.
Qed.

(** Serving an operation gives a reply that fits it. *)
Lemma kv_spec_fits hs m op :
  (forall k v, m !! k = Some v -> put_by hs k v) ->
  (forall k v, op = Put k v -> put_by hs k v) ->
  fits hs op (kv_spec m op).1 /\ (forall k v, (kv_spec m op).2 !! k = Some v -> put_by hs k v).
Proof.
  intros Hm Hop. destruct op as [k|k v|k]; simpl.
  - split; [|done]. destruct (m !! k) as [v|] eqn:Hk; [by apply Hm|done].
  - case_decide; simpl.
    + split; [exact ceiling_chars|done].
    + split; [done|]. intros k' v'. destruct (decide (k' = k)) as [->|Hne].
      * rewrite lookup_insert_eq. intros [= <-]. by apply Hop.
      * rewrite lookup_insert_ne by done. apply Hm.
  - split; [by destruct (m !! k)|]. intros k' v' [_ Hk]%lookup_delete_Some. by apply Hm.
Qed.

Lemma asked_put hs x c rcpt k v : asked hs x (c, rcpt, Put k v) -> put_by hs k v.
Proof. intros (b & Hin & _ & Hp). by exists x, c, rcpt, b. Qed.

(** *** Steps *)

(** What the pair knows of an input of [x]. *)
Definition input_ok (hs : History) (theirs : gmap Z (Z * option text * Op)) (x : Side) (a : Abs)
    (i : Input) : Prop :=
  match i with
  | Heard _ c rcpt b => (x, c, rcpt, b) ∈ hs /\ issued a < U64_MAX /\ spare hs x a c
  | Got m => justified hs theirs (asks a) m
  | _ => True
  end.

Context (write_ok : Side -> nat -> bool) (send_error : Side -> nat -> option text)
  (Hids : forall x, is_u16 (id (cfg x))).

Lemma serve_fits hs theirs x y a op c rcpt :
  side_inv hs theirs x a -> asked hs y (c, rcpt, op) ->
  fits hs op (serve (cfg x) a op).1 /\
  (forall k v, (serve (cfg x) a op).2 !! k = Some v -> put_by hs k v).
Proof.
  intros Hi Hq. unfold serve. case_decide.
  - apply kv_spec_fits; [apply Hi|]. intros k v ->. by eapply asked_put.
  - split; [|apply Hi]. destruct Hq as (b & _ & _ & Hp). apply parse_facts in Hp as [Hk _].
    assert (Forall is_char (str "key " ++ dec (op_key op) ++ str " does not belong to node " ++ dec (id (cfg x)))) as He.
    { repeat (apply Forall_app; split); apply str_chars || apply dec_chars; [done|].
      specialize (Hids x). width. }
    by destruct op.
Qed.

Lemma heard_answers hs x c rcpt b op r :
  (x, c, rcpt, b) ∈ hs -> is_size b = false -> Kv.parse printable b = Ok op ->
  (fits hs op r \/ exists e, r = RErr e) -> answers hs x c rcpt r.
Proof. intros Hin Hs Hp Hr. exists b. split; [done|]. by rewrite Hs, Hp. Qed.

(** A request that leaves the table is answered to the client that made it. *)
Lemma side_inv_settle hs theirs x a corr p r wok :
  side_inv hs theirs x a -> awaiting a !! corr = Some p ->
  (forall op, asks a !! corr = Some (conn p, receipt p, op) -> fits hs op r \/ exists e, r = RErr e) ->
  side_inv hs theirs x
    (show_to wok (conn p) (Answered (receipt p) r) (set_awaiting (delete corr (awaiting a)) a)).
Proof.
  intros Hi Hp Hr. destruct (si_awaiting _ _ _ _ Hi _ _ Hp) as (op & Hop).
  destruct (si_asks _ _ _ _ Hi _ _ Hop) as [_ (b & Hin & Hsz & Hpb)].
  apply side_inv_show; [apply side_inv_subset; [done|apply delete_subseteq]| |].
  - eapply heard_answers; [exact Hin|done|done|by apply Hr].
  - intros _. pose proof (si_budget _ _ _ _ Hi (conn p)) as Hb.
    rewrite (outstanding_delete _ _ _ Hp) in Hb. unfold spare, answered in *. simpl. lia.
Qed.

Lemma side_inv_acknowledge hs theirs x a wok c rcpt :
  side_inv hs theirs x a -> side_inv hs theirs x (acknowledge wok c rcpt a).
Proof. intros Hi. destruct rcpt; [by apply side_inv_show|done]. Qed.

Lemma acknowledge_asks a wok c rcpt : asks (acknowledge wok c rcpt a) = asks a.
Proof. destruct rcpt; [apply show_to_frame|done]. Qed.

(** The frames that are not SENDs. *)
Lemma side_inv_respond hs theirs x a wok c cmd rcpt :
  side_inv hs theirs x a ->
  side_inv hs theirs x (respond wok c cmd rcpt a) /\ asks (respond wok c cmd rcpt a) = asks a.
Proof.
  intros Hi. unfold respond. repeat case_decide.
  - split; [by apply side_inv_show|apply show_to_frame].
  - split; [by apply side_inv_acknowledge|apply acknowledge_asks].
  - split; [by apply side_inv_close, side_inv_acknowledge|apply acknowledge_asks].
  - split; [by apply side_inv_show|apply show_to_frame].
Qed.

Lemma side_inv_timeouts hs theirs x wok late a :
  NoDup late.*1 -> (forall corr p, (corr, p) ∈ late -> awaiting a !! corr = Some p) ->
  side_inv hs theirs x a ->
  side_inv hs theirs x (foldl (time_out wok (cfg x)) a late) /\
  asks (foldl (time_out wok (cfg x)) a late) = asks a.
Proof.
  revert a. induction late as [|[corr p] rest IH]; intros a Hnd Hin Hi; [done|].
  apply NoDup_cons in Hnd as [Hni Hnd]. cbn [foldl].
  set (a1 := time_out wok (cfg x) a (corr, p)) in *.
  destruct (show_to_frame (set_awaiting (delete corr (awaiting a)) a) wok (conn p)
    (Answered (receipt p) (timeout_reply (cfg x)))) as (_ & E2 & _ & E4 & _).
  change (awaiting a1 = delete corr (awaiting a)) in E2. change (asks a1 = asks a) in E4.
  destruct (IH a1) as [H1 H2]; [done| | |by split; [|rewrite H2; exact E4]].
  - intros c' p' Hc'. rewrite E2. simpl. rewrite lookup_delete_ne; [apply Hin; by right|].
    intros ->. apply Hni, list_elem_of_fmap. by exists (c', p').
  - apply side_inv_settle; [done|apply Hin; by left|]. intros op _. right. by eexists.
Qed.

Lemma side_step hs theirs x i a a' :
  abs_step printable (write_ok x) (send_error x) (cfg x) i a a' ->
  side_inv hs theirs x a -> input_ok hs theirs x a i ->
  (forall corr q, theirs !! corr = Some q -> asked hs (other x) q) ->
  side_inv hs theirs x a' /\ asks a ⊆ asks a'.
Proof.
  intros Hs Hi Hok Hth.
  destruct Hs as [c a|c a|c cmd rcpt a|now c rcpt b a Hsz|now c rcpt b a e Hsz Hp|now c rcpt b a op Hsz Hp Hm
    |now c rcpt b a op Hsz Hp Hm Hu|now c rcpt b a op e Hsz Hp Hm Hu|corr op a Hu|corr op a e Hu
    |corr r p a Hp|corr r a Hp|a|now a]; simpl in Hok;
    rewrite ?(proj1 (proj2 (proj2 (proj2 (show_to_frame _ _ _ _))))).
  - split; [by apply side_inv_join|done].
  - split; [|done]. apply side_inv_subset; [by apply side_inv_close|apply map_filter_subseteq].
  - destruct (side_inv_respond hs theirs x a (write_ok x) c cmd rcpt Hi) as [H1 ->]. done.
  - destruct Hok as (Hin & _ & Hb). split; [|done]. apply side_inv_show; [done| |done].
    exists b. split; [done|]. rewrite Hsz. by eexists.
  - destruct Hok as (Hin & _ & Hb). split; [|done]. apply side_inv_show; [done| |done].
    exists b. split; [done|]. by rewrite Hsz, Hp.
  - destruct Hok as (Hin & _ & Hb). destruct (kv_spec_fits hs (table a) op) as [Hf Ht]; [apply Hi| |].
    { intros k v ->. by exists x, c, rcpt, b. }
    split; [|done]. apply side_inv_show; [by apply side_inv_table| |done].
    eapply heard_answers; [done..|by left].
  - destruct Hok as (Hin & Hn & Hb). destruct (next_ask_fresh _ _ _ _ Hi Hn) as [_ Hfr].
    pose proof (side_inv_issued _ _ _ _ Hi Hn) as Hi1.
    assert (asked hs x (c, rcpt, op)) as Hq by (by exists b).
    pose proof (side_inv_ask _ _ _ _ _ Hi1 (si_issued _ _ _ _ Hi1) Hfr Hq) as Hi2.
    split; [|by apply insert_subseteq]. by apply side_inv_forward.
  - destruct Hok as (Hin & Hn & Hb). split; [|by rewrite tried_asks].
    apply side_inv_show; [by apply side_inv_tried, side_inv_issued| |].
    + eapply heard_answers; [done..|right; by eexists].
    + intros _. unfold spare, answered, outstanding, tried in *. by destruct (_ <? _).
  - destruct Hok as (c & rcpt & Hq). pose proof (Hth _ _ Hq) as Ha.
    destruct (serve_fits hs theirs x _ a op c rcpt Hi Ha) as [Hf Ht].
    split; [|done]. apply side_inv_send; [by apply side_inv_table|]. by exists (c, rcpt, op).
  - destruct Hok as (c & rcpt & Hq). pose proof (Hth _ _ Hq) as Ha.
    destruct (serve_fits hs theirs x _ a op c rcpt Hi Ha) as [Hf Ht].
    split; [|by rewrite tried_asks]. by apply side_inv_tried, side_inv_table.
  - destruct Hok as (q & Hq & Hf). split; [|done]. apply side_inv_settle; [done|done|].
    intros op Hop. rewrite Hop in Hq. injection Hq as <-. by left.
  - done.
  - done.
  - destruct (side_inv_timeouts hs theirs x (write_ok x) (overdue now (awaiting a)) a) as [H1 ->]; [| |done|done].
    + eapply (sublist_NoDup _ (map_to_list (awaiting a)).*1); [apply NoDup_fst_map_to_list|].
      apply fmap_sublist, sublist_filter.
    + intros corr p Hin. apply list_elem_of_filter in Hin as [_ Hin]. by apply elem_of_map_to_list.
Qed.

(** One event at [x], with what it added to the history. *)
Lemma pair_run hs f x i a' :
  pair_inv hs f -> abs_step printable (write_ok x) (send_error x) (cfg x) i (f x) a' ->
  input_ok hs (asks (f (other x))) x (f x) i -> pair_inv hs (upd x a' f).
Proof.
  intros [Hh Hi] Hr Hok.
  destruct (side_step hs (asks (f (other x))) x i (f x) a') as [Hx Hs]; [done|done|done| |].
  { intros corr q Hq. by apply (si_asks _ _ _ _ (Hi (other x))) in Hq as [_ Hq]. }
  split; [exact Hh|]. intros y. destruct (decide (y = x)) as [->|Hne].
  - rewrite upd_eq, upd_ne by (by destruct x). exact Hx.
  - rewrite (upd_ne x y) by done. apply other_ne in Hne as ->.
    replace (other (other x)) with x by (by destruct x). rewrite upd_eq.
    eapply side_inv_theirs; [exact Hs|]. generalize (Hi (other x)). by destruct x.
Qed.

End Pair.
(** ** The network *)

Record Net := MkNet { node : Side -> Node; heard : History }.

Section Network.
Context `{AS : AeadSpec, GS : !GuardedHeapSpec} (printable : Z -> bool)
  (write_ok : Side -> nat -> bool) (send_error : Side -> nat -> option text)
  (cfg : Side -> Config) (before after : Side -> SodiumState) (store : Side -> KeyStore) (epoch : Epoch).

(** Both nodes have started, provisioned for each other. *)
Record provisioned : Prop := {
  pv_paired : paired (cfg NodeA) (cfg NodeB);
  pv_started x : start (cfg x) (before x) = (Ok (store x, epoch), after x);
}.

(** The history grows with each SEND. *)
Definition note (x : Side) (e : Event) (hs : History) : History :=
  match e with
  | ClientFrame _ c f =>
      if decide (to_ascii_uppercase (command f) = str "SEND")
      then (x, c, header f (str "receipt"), body f) :: hs else hs
  | _ => hs
  end.

(** An event at [x]. *)
Definition happens (x : Side) (e : Event) (net : Net) : Net :=
  MkNet (upd x (step printable (write_ok x) (send_error x) (cfg x) (store x) epoch e (node net x)).2 (node net))
    (note x e (heard net)).

(** What can happen.  Clients come, go and send any text, and time passes.  A
    datagram is one that either node has ever sent, at either node and any
    number of times, or any bytes whatever that do not open as a message of the
    peer.  The correlation counter has not gone once around its 64 bits. *)
Definition admissible (x : Side) (e : Event) (net : Net) : Prop :=
  match e with
  | ClientFrame _ _ f => Forall is_char (body f) /\ next_corr (node net x) < U64_MAX
  | Datagram bs =>
      (exists y, bs ∈ outbox (node net y)) \/
      (forall m, ~ carries printable (cfg x) (store x) (node net x) bs m)
  | _ => True
  end.

Inductive reachable : Net -> Prop :=
| reach_boot : reachable (MkNet (fun x => boot (after x)) [])
| reach_event net x e : reachable net -> admissible x e net -> reachable (happens x e net).

Lemma happens_at x e net :
  node (happens x e net) x =
  (step printable (write_ok x) (send_error x) (cfg x) (store x) epoch e (node net x)).2.
Proof. apply upd_eq. Qed.

Lemma happens_away x y e net : y <> x -> node (happens x e net) y = node net y.
Proof. apply upd_ne. Qed.

Context (PV : provisioned).

Abbreviation link_key := (key (cfg NodeA)).

Lemma pair_facts x :
  is_u16 (id (cfg x)) /\ peer_id (cfg x) = id (cfg (other x)) /\ id (cfg x) <> id (cfg (other x)) /\
  key (cfg x) = link_key /\ len link_key = KEYBYTES.
Proof.
  destruct PV as [[Hne HpA HpB Hkey [HuA HuB] Hkl] _]. by destruct x; split_and!.
Qed.

Lemma boot_linked x : link (cfg x) (store x) epoch link_key (after x).
Proof.
  destruct (pair_facts x) as (Hu & Hp & _ & Hk & Hl). rewrite <- Hk.
  apply (start_link (cfg x) (before x)); [done| |by rewrite Hk|apply PV].
  rewrite Hp. apply pair_facts.
Qed.

(** A message of the pair is one the codec carries. *)
Lemma justified_wf hs f x m :
  pair_inv printable hs f -> justified printable hs (asks (f x)) (asks (f (other x))) m ->
  wf_peer m /\ Forall is_char (payload_text m).
Proof.
  intros [Hh Hi] Hm.
  assert (Hq : forall y corr q, asks (f y) !! corr = Some q -> is_u64 corr /\ is_u64 (op_key q.2) /\
    forall k v, q.2 = Put k v -> Forall is_char v).
  { intros y corr q [Hc (b & Hin & _ & Hp)]%(si_asks _ _ _ _ _ (Hi y)).
    pose proof (si_issued _ _ _ _ _ (Hi y)). split; [width|].
    split; [by apply parse_facts in Hp as [Hk _]|]. intros k v Hk. rewrite Hk in Hp.
    eapply parse_chars; [exact Hp|]. by eapply Hh. }
  destruct m as [corr op|corr r]; simpl in Hm.
  - destruct Hm as (c & rcpt & (Hc & Hk & Hv)%Hq). split; [done|].
    destruct op as [k|k v|k]; [by constructor|by eapply Hv|by constructor].
  - destruct Hm as (q & (Hc & _ & _)%Hq & Hf). split; [done|].
    destruct (q.2), r; simpl in Hf |- *; try done; try by constructor. by eapply put_by_chars.
Qed.

(** A frame of the other node brings exactly its message. *)
Lemma carried_exact x n bs m m' :
  link (cfg x) (store x) epoch link_key (node_sys n) ->
  carried (cfg (other x)) epoch link_key bs m -> wf_peer m -> Forall is_char (payload_text m) ->
  carries printable (cfg x) (store x) n bs m' -> m' = m.
Proof.
  intros Hl (nonce & Hn & ->) Hw Hc (h & f & payload & w & t & Ho & _ & _ & Ht & Hd).
  destruct (pair_facts x) as (_ & Hp & _). destruct (pair_facts (other x)) as (Hu & Hp' & _).
  replace (other (other x)) with x in Hp' by (by destruct x).
  pose proof (encode_chars m Hw Hc) as Hch.
  rewrite (open_delivers _ _ _ _ _ _ (node_stats n) (lk_inv _ _ _ _ _ Hl)
    (link_delivers (cfg x) (cfg (other x)) (store x) epoch link_key nonce _ _ Hl Hp Hp' Hu Hn Hch)) in Ho.
  injection Ho as <- <- <- <-. rewrite from_utf8_as_bytes in Ht by done. injection Ht as <-.
  rewrite Peer.decode_encode in Hd by done. by injection Hd.
Qed.

(** A frame of the node itself brings nothing. *)
Lemma reflected_inert x n bs m m' :
  link (cfg x) (store x) epoch link_key (node_sys n) ->
  carried (cfg x) epoch link_key bs m -> ~ carries printable (cfg x) (store x) n bs m'.
Proof.
  intros Hl (nonce & Hn & ->) (h & f & payload & w & t & Ho & _).
  destruct (pair_facts x) as (Hu & Hp & Hne & _). destruct (pair_facts (other x)) as (Hu' & _).
  destruct Hl as [Hi Hid Hk]. destruct (view_key _ _ _ _ Hi Hk) as (stored & Hg & _ & _).
  destruct (ks_inv_key _ _ _ _ Hi Hg) as (_ & _ & Hep). revert Ho.
  unfold Dek.open, Standard.open, link_frame, standard_frame.
  rewrite parse_serialize_prefix; [|by split_and!; simpl; rewrite ?Hp|done].
  rewrite bool_decide_true by done. unfold bind at 1. cbn [to_id]. rewrite Hid, Hp.
  rewrite (proj2 (Z.eqb_neq _ _)) by congruence. cbn [negb]. by rewrite reject_ret.
Qed.

Lemma delivered_ok hs f x y bs n m :
  pair_inv printable hs f ->
  link (cfg x) (store x) epoch link_key (node_sys n) ->
  Forall2 (carried (cfg y) epoch link_key) bs (sent (f y)) -> forall d, d ∈ bs ->
  carries printable (cfg x) (store x) n d m ->
  justified printable hs (asks (f (other x))) (asks (f x)) m.
Proof.
  intros Hi Hl Hf d Hd Hc.
  apply list_elem_of_lookup in Hd as [i Hd]. destruct (Forall2_lookup_l _ _ _ _ _ Hf Hd) as (m0 & Hm0 & Hcd).
  apply list_elem_of_lookup_2 in Hm0.
  destruct (decide (y = x)) as [->|Hne]; [by destruct (reflected_inert x n d m0 m)|].
  apply other_ne in Hne as ->.
  pose proof (si_sent _ _ _ _ _ (pi_side _ _ _ Hi (other x)) m0 Hm0) as Hj.
  destruct (justified_wf hs f (other x) m0 Hi Hj) as [Hw Hch].
  rewrite (carried_exact x n d m0 m) by done. by destruct x.
Qed.

(** Every reachable pair is described by two abstract nodes for which
    [pair_inv] holds. *)
Lemma reachable_described net :
  reachable net ->
  exists f, (forall x, abstracts (cfg x) (store x) epoch link_key (node net x) (f x)) /\
    pair_inv printable (heard net) f.
Proof.
  intros Hr. induction Hr as [|net x e _ (f & Hf & Hi) Had].
  { exists (fun _ => abs_boot). split; [|apply pair_inv_boot]. intros x. apply abstracts_boot, boot_linked. }
  destruct (step_refines printable (write_ok x) (send_error x) (cfg x) (store x) epoch link_key e _ _ (Hf x))
    as (i & a' & Hrd & Hrun & Ha').
  exists (upd x a' f). split.
  { intros y. unfold happens, upd. simpl. by case_decide; [subst y|]. }
  assert (pair_inv printable (note x e (heard net)) f /\
    input_ok printable (note x e (heard net)) (asks (f (other x))) x (f x) i) as [Hi' Hok].
  { destruct e as [c|now c fr|c|bs|now]; simpl in Hrd |- *; try (subst i; done).
    - case_decide; subst i; [|done]. destruct Had as [Hch Hlt]. split.
      + split; [|intros y; apply side_inv_heard, Hi]. intros x' c' rcpt' b'. rewrite elem_of_cons.
        intros [[= -> -> -> ->]|Hin]; [done|by eapply Hi].
      + split; [by left|]. split; [by rewrite (ab_issued _ _ _ _ _ _ (Hf x))|].
        eapply heard_spare, (pi_side _ _ _ Hi x).
    - split; [done|]. destruct i as [| | | |m| |]; try done.
      destruct Had as [(y & Hy)|Hno]; [|by destruct (Hno m)].
      eapply delivered_ok; [done|apply (Hf x)|apply (Hf y)|done|done]. }
  eapply pair_run; [|done|done|done]. intros y. apply pair_facts.
Qed.

(** ** Claims *)

(** C7: every reply a client reads answers a request of its own.  At any moment
    of any run of the pair, whatever the network lost, repeated, delayed,
    reflected or injected, what was written to an open connection is exactly a
    sequence of the four frames the server has, in which every MESSAGE carries
    the receipt of a SEND that this very connection made, is of a kind its
    operation can have, and has a value only where a client of one of the nodes
    has put this value under this key; and there are never more replies than
    the connection made SENDs. *)
Theorem replies_answer_requests net x c w :
  reachable net -> clients (node net x) !! c = Some w ->
  exists shown, w = painted shown /\
    (forall rcpt r, Answered rcpt r ∈ shown -> answers printable (heard net) x c rcpt r) /\
    (replies shown <= sends_of (heard net) x c)%nat.
Proof.
  intros Hr Hc. destruct (reachable_described net Hr) as (f & Hf & [_ Hi]).
  rewrite (ab_clients _ _ _ _ _ _ (Hf x)), lookup_fmap in Hc.
  destruct (screens (f x) !! c) as [l|] eqn:Hl; [|done]. injection Hc as <-.
  exists l. split_and!; [done| |].
  - intros rcpt r Hin. pose proof (si_screens _ _ _ _ _ (Hi x) c l Hl) as Hs.
    rewrite Forall_forall in Hs. exact (Hs _ Hin).
  - pose proof (si_budget _ _ _ _ _ (Hi x) c) as Hb. unfold answered in Hb. rewrite Hl in Hb. simpl in Hb. lia.
Qed.

(** C16: nothing is stored that no client put: at any moment of any run, every
    value in either store was put under its key by a client of one of the
    nodes. *)
Theorem stored_values_were_put net x k v :
  reachable net -> contents (kv (node net x)) !! k = Some v -> put_by printable (heard net) k v.
Proof.
  intros Hr Hk. destruct (reachable_described net Hr) as (f & Hf & [_ Hi]).
  rewrite <- (ab_table _ _ _ _ _ _ (Hf x)) in Hk. by apply (si_table _ _ _ _ _ (Hi x)) in Hk.
Qed.

(** A value that can be read back fits the link. *)
Lemma stored_fits net x k v :
  reachable net -> contents (kv (node net x)) !! k = Some v ->
  Forall is_char v /\ str_len v <= MAX_PUT_BYTES.
Proof.
  intros Hr Hk. destruct (reachable_described net Hr) as (f & Hf & [Hh Hi]).
  rewrite <- (ab_table _ _ _ _ _ _ (Hf x)) in Hk. apply (si_table _ _ _ _ _ (Hi x)) in Hk.
  split; [by eapply put_by_chars|]. destruct Hk as (y & c & rcpt & b & _ & Hp).
  by apply parse_facts in Hp as (_ & _ & _ & Hl).
Qed.

(** C15: a forwarded operation can always complete.  From any moment of any run, a
    client sends an operation on a key of the other node; when the sockets work
    for this one exchange, its node emits a datagram, the other node on
    receiving it executes the operation exactly as the map specification says
    and emits a datagram, and on receiving that the client's node writes the
    reply, with its receipt, to this client and to no other, and waits for
    nothing more. *)
Theorem forward_completes net x now c fr op w :
  reachable net -> clients (node net x) !! c = Some w -> next_corr (node net x) < U64_MAX ->
  write_ok x (writes (node net x)) = true -> send_error x (sends (node net x)) = None ->
  send_error (other x) (sends (node net (other x))) = None ->
  to_ascii_uppercase (command fr) = str "SEND" -> Forall is_char (body fr) ->
  is_size (body fr) = false -> Kv.parse printable (body fr) = Ok op ->
  owner (op_key op) (id (cfg x)) (peer_id (cfg x)) = peer_id (cfg x) ->
  let spec := kv_spec (contents (kv (node net (other x)))) op in
  exists request response,
    let net1 := happens x (ClientFrame now c fr) net in
    let net2 := happens (other x) (Datagram request) net1 in
    let net3 := happens x (Datagram response) net2 in
    reachable net3 /\
    clients (node net3 x) = <[c := w ++ reply_frame (header fr (str "receipt")) spec.1]> (clients (node net x)) /\
    contents (kv (node net3 (other x))) = spec.2 /\
    kv (node net3 x) = kv (node net x) /\
    pending (node net3 x) = delete (next_corr (node net x) + 1) (pending (node net x)).
Proof.
  intros Hr Hcl Hlt Hw HeX HeO Hcmd Hch Hsz Hparse Hown spec.
  destruct (reachable_described net Hr) as (f & Hf & Hpi).
  destruct (pair_facts x) as (HuX & HpX & Hne & _ & _). destruct (pair_facts (other x)) as (HuO & HpO & _).
  replace (other (other x)) with x in HpO by (by destruct x).
  pose proof (ab_link _ _ _ _ _ _ (Hf x)) as Lx. pose proof (ab_link _ _ _ _ _ _ (Hf (other x))) as Lo.
  assert (0 <= next_corr (node net x)) as H0.
  { rewrite <- (ab_issued _ _ _ _ _ _ (Hf x)).
    pose proof (si_issued _ _ _ _ _ (pi_side _ _ _ Hpi x)). width. }
  destruct (exchange printable (write_ok x) (send_error x) (write_ok (other x)) (send_error (other x))
    (cfg x) (cfg (other x)) (store x) (store (other x)) epoch link_key (node net x) (node net (other x))
    now c fr op w) as (request & response & a1 & b1 & a2 & E1 & E2 & E3 & Hreq & Hres & Hx);
    try done; [apply Hf|by rewrite <- HpX|by intros v; apply stored_fits|].
  exists request, response.
  set (net1 := happens x (ClientFrame now c fr) net). set (net2 := happens (other x) (Datagram request) net1).
  assert (node net1 x = a1) as N1 by (unfold net1; by rewrite happens_at, E1).
  assert (node net2 (other x) = b1) as N2.
  { unfold net2. rewrite happens_at. unfold net1. by rewrite happens_away, E2 by (by destruct x). }
  assert (node net2 x = a1) as N3 by (unfold net2; by rewrite happens_away by (by destruct x)).
  cbv zeta. rewrite (happens_at x (Datagram response)), (happens_away x (other x)) by (by destruct x).
  fold net2. rewrite N2, N3, E3. cbn [snd].
  destruct Hx as (C1 & C2 & C3 & _ & C5). rewrite Z.mod_small in C5 by width. split_and!; [|done..].
  apply reach_event; [apply reach_event; [by apply reach_event|]|].
  - left. exists x. rewrite N1, Hreq. set_solver.
  - left. exists (other x). rewrite N2, Hres. set_solver.
Qed.

End Network.
(** C8: every turn of the core loop refines the description.  Whatever the event,
    the node after it is described by the abstract node after the event's input:
    a SEND is answered at once, forwarded or refused, a request of the peer is
    served against the map, a response ends exactly the request it names, a tick
    ends exactly the overdue ones.  The description is exact: the bytes written
    to every connection are those of the frames its abstract screen shows, so a
    reply to another client, another reply or none at all is no refinement. *)
Theorem node_refines `{AS : AeadSpec} printable write_ok send_error cfg store epoch lk e n a :
  abstracts cfg store epoch lk n a ->
  exists i a', reads printable cfg store n e i /\
    abs_step printable write_ok send_error cfg i a a' /\
    abstracts cfg store epoch lk (step printable write_ok send_error cfg store epoch e n).2 a'.
Proof. apply step_refines. Qed.

(** ** Witnesses: nodes 100 and 200 on a network *)

Definition pair_cfg (x : Side) : Config := match x with NodeA => cfg_100 | NodeB => cfg_200 end.
Definition pair_store (x : Side) : KeyStore := (started (pair_cfg x)).1.1.
Definition pair_after (x : Side) : SodiumState := (started (pair_cfg x)).2.

Lemma pair_provisioned : provisioned pair_cfg (fun _ => toy_state) pair_after pair_store (MkEpoch 0).
Proof. split; [exact cfg_paired|]. intros []; vm_compute; reflexivity. Qed.

Abbreviation occurs := (happens plain (fun _ => all_good) (fun _ => no_error) pair_cfg pair_store (MkEpoch 0)).
Abbreviation reached := (reachable plain (fun _ => all_good) (fun _ => no_error) pair_cfg pair_after pair_store (MkEpoch 0)).

Definition last_sent (net : Net) (x : Side) : bytes := default [] (last (outbox (node net x))).

(** A client of node 100 puts key 68, which node 200 owns; the request arrives
    twice. *)
Definition net_up : Net := occurs NodeA (ClientUp 1) (MkNet (fun x => boot (pair_after x)) []).
Definition net_asked : Net := occurs NodeA (ClientFrame 0 1 (send_request "PUT 68 hi")) net_up.
Definition net_served : Net := occurs NodeB (Datagram (last_sent net_asked NodeA)) net_asked.
Definition net_again : Net := occurs NodeB (Datagram (last_sent net_asked NodeA)) net_served.
Definition net_told : Net := occurs NodeA (Datagram (last_sent net_again NodeB)) net_again.

Lemma reached_up : reached net_up.
Proof. apply reach_event; [apply reach_boot|exact I]. Qed.

Lemma reached_again : reached net_again.
Proof.
  apply reach_event; [apply reach_event; [apply reach_event; [exact reached_up|]|]|].
  - split; [|reflexivity]. apply (bool_decide_unpack (Forall is_char _)). vm_compute. exact I.
  - left. exists NodeA. apply (list_elem_of_lookup_2 _ 0). vm_compute. reflexivity.
  - left. exists NodeA. apply (list_elem_of_lookup_2 _ 0). vm_compute. reflexivity.
Qed.

Lemma reached_told : reached net_told.
Proof.
  apply reach_event; [exact reached_again|]. left. exists NodeB. apply (list_elem_of_lookup_2 _ 1).
  vm_compute. reflexivity.
Qed.

Lemma replies_answer_requests_witness :
  clients (node net_told NodeA) !! 1 = Some (reply_frame (Some (str "r1")) ROk) /\
  exists shown, reply_frame (Some (str "r1")) ROk = painted shown /\
    (forall rcpt r, Answered rcpt r ∈ shown -> answers plain (heard net_told) NodeA 1 rcpt r) /\
    (replies shown <= 1)%nat.
Proof.
  assert (clients (node net_told NodeA) !! 1 = Some (reply_frame (Some (str "r1")) ROk)) as H
    by (vm_compute; reflexivity).
  split; [exact H|].
  exact (replies_answer_requests plain _ _ _ _ _ _ _ pair_provisioned net_told NodeA 1 _ reached_told H).
Defined.

Lemma stored_values_were_put_witness :
  contents (kv (node net_told NodeB)) !! 68 = Some (str "hi") /\ put_by plain (heard net_told) 68 (str "hi").
Proof.
  assert (contents (kv (node net_told NodeB)) !! 68 = Some (str "hi")) as H by (vm_compute; reflexivity).
  split; [exact H|].
  exact (stored_values_were_put plain _ _ _ _ _ _ _ pair_provisioned net_told NodeB 68 _ reached_told H).
Defined.

Lemma forward_completes_witness :
  exists request response,
    let net3 := occurs NodeA (Datagram response) (occurs NodeB (Datagram request)
      (occurs NodeA (ClientFrame 9 1 (send_request "GET 68")) net_told)) in
    reached net3 /\
    clients (node net3 NodeA) !! 1 = Some (reply_frame (Some (str "r1")) ROk ++
                                           reply_frame (Some (str "r1")) (Value (str "hi"))).
Proof.
  destruct (forward_completes plain (fun _ => all_good) (fun _ => no_error) pair_cfg (fun _ => toy_state)
    pair_after pair_store (MkEpoch 0) pair_provisioned net_told NodeA 9 1 (send_request "GET 68") (Get 68)
    (reply_frame (Some (str "r1")) ROk)) as (request & response & H1 & H2 & _).
  - exact reached_told.
  - vm_compute. reflexivity.
  - vm_compute. reflexivity.
  - reflexivity.
  - reflexivity.
  - reflexivity.
  - reflexivity.
  - apply (bool_decide_unpack (Forall is_char _)). vm_compute. exact I.
  - vm_compute. reflexivity.
  - vm_compute. reflexivity.
  - reflexivity.
  - exists request, response. split; [exact H1|]. etransitivity; [exact (f_equal (lookup 1) H2)|].
    vm_compute. reflexivity.
Defined.

Lemma node_refines_witness :
  exists i a', reads plain cfg_100 (pair_store NodeA) (boot (pair_after NodeA))
      (ClientFrame 0 1 (send_request "PUT 67 odd")) i /\
    abs_step plain all_good no_error cfg_100 i abs_boot a' /\
    abstracts cfg_100 (pair_store NodeA) (MkEpoch 0) demo_key
      (step plain all_good no_error cfg_100 (pair_store NodeA) (MkEpoch 0)
        (ClientFrame 0 1 (send_request "PUT 67 odd")) (boot (pair_after NodeA))).2 a'.
Proof.
  apply node_refines, abstracts_boot.
  apply (boot_linked pair_cfg (fun _ => toy_state) pair_after pair_store (MkEpoch 0) pair_provisioned NodeA).
Defined.
