(* ===== verification/Run.v ===== *)
(** * The server process: [src/bin/six-seven-server/main.rs]

    [main] and [run]: what happens before the sockets are open, and the threads
    that feed the core loop afterwards.  The UDP reader, the acceptor, one reader
    per connection and the ticker each post to one channel; a schedule is any
    interleaving of their posts that keeps the order within each thread and in
    which a reader starts after its connection was announced.  The lines the
    threads print are left out. *)

From S2P Require Export Network Args.

Definition MAX_DATAGRAM : Z := 65507.

(** What is posted: [Event] without the time, which the core reads itself. *)
Inductive Post :=
| PClientUp (conn : Z)
| PClientFrame (conn : Z) (frame : Frame)
| PClientDown (conn : Z)
| PDatagram (bs : bytes)
| PTick.

Definition event_at (now : Z) (p : Post) : Event :=
  match p with
  | PClientUp c => ClientUp c
  | PClientFrame c f => ClientFrame now c f
  | PClientDown c => ClientDown c
  | PDatagram bs => Datagram bs
  | PTick => Tick now
  end.

(** ** The threads *)

(** The reader of one connection.  Fuel counts its frames; each consumes a byte
    of the stream. *)
Fixpoint reader_loop (fuel : nat) (c : Z) (r : list Fill) : list Post :=
  match fuel with
  | O => []
  | S fuel =>
      match Stomp.read r with
      | (Ok (Some frame), r) => PClientFrame c frame :: reader_loop fuel c r
      | (Ok None, _) => [PClientDown c]
      | (Err _, _) => [PClientDown c]
      end
  end.

Definition reader (c : Z) (r : list Fill) : list Post := reader_loop (S (length (stream r))) c r.

(** What [listener.incoming()] yields: a stream, with whether it could be
    cloned, or an error. *)
Inductive Incoming :=
| Stream (r : list Fill)
| CloneFailed
| AcceptFailed.

Record Threads := MkThreads {
  incoming : list Incoming;                  (* connections to come *)
  next_id : Z;
  readers : gmap Z (list Post);              (* what each reader still has to post *)
  socket : list (result bytes text);         (* what [recv_from] will return *)
}.

(** The threads of a process that has just bound its sockets. *)
Definition spawned (inc : list Incoming) (ds : list (result bytes text)) : Threads :=
  MkThreads inc 0 ∅ ds.

(** One turn of one thread, with what it posts. *)
Inductive turn : Threads -> list Post -> Threads -> Prop :=
| turn_accept r inc i rs ds :
    i < U64_MAX ->
    turn (MkThreads (Stream r :: inc) i rs ds) [PClientUp (i + 1)]
      (MkThreads inc (i + 1) (<[i + 1 := reader (i + 1) r]> rs) ds)
| turn_clone_failed inc i rs ds :
    i < U64_MAX ->
    turn (MkThreads (CloneFailed :: inc) i rs ds) [] (MkThreads inc (i + 1) rs ds)
| turn_accept_failed inc i rs ds :
    turn (MkThreads (AcceptFailed :: inc) i rs ds) [] (MkThreads inc i rs ds)
| turn_reader c p rest inc i rs ds :
    rs !! c = Some (p :: rest) ->
    turn (MkThreads inc i rs ds) [p] (MkThreads inc i (<[c := rest]> rs) ds)
| turn_datagram bs inc i rs ds :
    turn (MkThreads inc i rs (Ok bs :: ds)) [PDatagram (take (Z.to_nat MAX_DATAGRAM) bs)]
      (MkThreads inc i rs ds)
| turn_recv_failed e inc i rs ds :
    turn (MkThreads inc i rs (Err e :: ds)) [] (MkThreads inc i rs [])
| turn_tick t : turn t [PTick] t.

(** A schedule, and the posts in the order the channel delivers them. *)
Inductive schedule (t0 : Threads) : list Post -> Threads -> Prop :=
| sched_start : schedule t0 [] t0
| sched_turn ps t ps' t' : schedule t0 ps t -> turn t ps' t' -> schedule t0 (ps ++ ps') t'.

(** The posts of one connection. *)
Definition about (c : Z) (p : Post) : bool :=
  match p with
  | PClientUp c' | PClientFrame c' _ | PClientDown c' => c' =? c
  | _ => false
  end.

Definition posts_of (c : Z) (ps : list Post) : list Post := filter (fun p => about c p = true) ps.

(** The frames of a stream: what reading it yields, one after the other, up to
    its end or its first error. *)
Inductive stream_frames : list Fill -> list Frame -> Prop :=
| sf_frame r f r' fs : Stomp.read r = (Ok (Some f), r') -> stream_frames r' fs -> stream_frames r (f :: fs)
| sf_end r r' : Stomp.read r = (Ok None, r') -> stream_frames r []
| sf_error r e r' : Stomp.read r = (Err e, r') -> stream_frames r [].

(** The stream of connection [c]: connections are numbered from 1 in the order
    in which [accept] returned them, the ones that could not be cloned
    included. *)
Definition came (i : Incoming) : bool := match i with AcceptFailed => false | _ => true end.

Definition stream_of (inc : list Incoming) (c : Z) : option (list Fill) :=
  match filter came inc !! Z.to_nat (c - 1) with
  | Some (Stream r) => Some r
  | _ => None
  end.

(** ** Readers *)

Lemma reader_loop_shape fuel c r :
  (length (stream r) < fuel)%nat ->
  exists frames, reader_loop fuel c r = (PClientFrame c <$> frames) ++ [PClientDown c] /\
    stream_frames r frames /\ Forall (fun f => Forall is_char (body f)) frames.
Proof.
  revert r. induction fuel as [|fuel IH]; intros r Hl; [lia|]. cbn [reader_loop].
  destruct (Stomp.read r) as [[[f|]|e] r'] eqn:Hr.
  2,3: exists []; split_and!; [done| |done]; by econstructor.
  pose proof (read_body_chars _ _ _ Hr) as Hb. pose proof Hr as Hlt. apply read_frame_ok in Hlt as [Hlt _].
  destruct (IH r') as (frames & -> & Hs & Hf); [lia|]. exists (f :: frames).
  split_and!; [done|by econstructor|by constructor].
Qed.

Lemma reader_shape c r :
  exists frames, reader c r = (PClientFrame c <$> frames) ++ [PClientDown c] /\
    stream_frames r frames /\ Forall (fun f => Forall is_char (body f)) frames.
Proof. apply reader_loop_shape. lia. Qed.

Lemma reader_about c r : Forall (fun p => about c p = true) (reader c r).
Proof.
  destruct (reader_shape c r) as (frames & -> & _). apply Forall_app. split.
  - apply Forall_fmap, Forall_forall. intros f _. simpl. apply Z.eqb_refl.
  - apply Forall_singleton. simpl. apply Z.eqb_refl.
Qed.

Lemma about_unique c c' p : about c p = true -> about c' p = true -> c = c'.
Proof. destruct p; simpl; try done; intros ->%Z.eqb_eq ?%Z.eqb_eq; done. Qed.

Lemma posts_of_app c ps qs : posts_of c (ps ++ qs) = posts_of c ps ++ posts_of c qs.
Proof. apply filter_app. Qed.

Lemma posts_of_one c p : posts_of c [p] = if about c p then [p] else [].
Proof. unfold posts_of. rewrite filter_cons, filter_nil. by case_decide; destruct (about c p). Qed.

(** ** Schedules *)

(** The connections accepted so far are the first ones that came; every
    connection's posts are what the reader of its own stream had to post, less
    what is left; a number beyond the counter has posted nothing. *)
Record sched_inv (inc : list Incoming) (ps : list Post) (t : Threads) : Prop := {
  sc_ids : 0 <= next_id t;
  sc_came : exists gone, inc = gone ++ incoming t /\ next_id t = len (filter came gone);
  sc_known c : readers t !! c <> None -> 1 <= c <= next_id t;
  sc_quiet c : readers t !! c = None -> posts_of c ps = [];
  sc_posted c rest : readers t !! c = Some rest ->
    exists r posted, stream_of inc c = Some r /\ posts_of c ps = PClientUp c :: posted /\
      posted ++ rest = reader c r;
}.

(** Posts about no connection. *)
Lemma sched_inv_other inc ps p t :
  (forall c, about c p = false) -> sched_inv inc ps t -> sched_inv inc (ps ++ [p]) t.
Proof.
  intros Hp [I1 I0 I2 I3 I4].
  assert (Hs : forall c, posts_of c (ps ++ [p]) = posts_of c ps).
  { intros c. by rewrite posts_of_app, posts_of_one, Hp, app_nil_r. }
  split; try done; intros c; rewrite Hs; [apply I3|apply I4].
Qed.

(** The next connection to come has the next number. *)
Lemma stream_of_next gone r inc i :
  i = len (filter came gone) -> stream_of (gone ++ Stream r :: inc) (i + 1) = Some r.
Proof.
  intros ->. unfold stream_of, len. rewrite filter_app, filter_cons_True by done.
  replace (Z.to_nat _) with (length (filter came gone)) by lia. by rewrite list_lookup_middle.
Qed.

Lemma sched_inv_accept inc0 ps inc i rs ds r :
  sched_inv inc0 ps (MkThreads (Stream r :: inc) i rs ds) ->
  sched_inv inc0 (ps ++ [PClientUp (i + 1)]) (MkThreads inc (i + 1) (<[i + 1 := reader (i + 1) r]> rs) ds).
Proof.
  intros [I1 (gone & -> & Hi) I2 I3 I4]. simpl in *.
  assert (rs !! (i + 1) = None) as Hn.
  { destruct (rs !! (i + 1)) eqn:E; [|done]. assert (1 <= i + 1 <= i); [|lia]. apply I2. by rewrite E. }
  split; simpl.
  - lia.
  - exists (gone ++ [Stream r]). rewrite <- app_assoc, filter_app, len_app. split; [done|]. by rewrite Hi.
  - intros c. destruct (decide (c = i + 1)) as [->|Hne]; [lia|]. rewrite lookup_insert_ne by done.
    intros Hc%I2. lia.
  - intros c. destruct (decide (c = i + 1)) as [->|Hne]; [by rewrite lookup_insert_eq|].
    rewrite lookup_insert_ne, posts_of_app, posts_of_one by done. simpl.
    rewrite (proj2 (Z.eqb_neq (i + 1) c)), app_nil_r by done. apply I3.
  - intros c rest. destruct (decide (c = i + 1)) as [->|Hne].
    + rewrite lookup_insert_eq, posts_of_app, posts_of_one, I3 by done. intros [= <-]. simpl.
      rewrite Z.eqb_refl. exists r, []. split; [by apply stream_of_next|done].
    + rewrite lookup_insert_ne, posts_of_app, posts_of_one by done. simpl.
      rewrite (proj2 (Z.eqb_neq (i + 1) c)), app_nil_r by done. apply I4.
Qed.

Lemma sched_inv_reader inc0 ps inc i rs ds c p rest :
  rs !! c = Some (p :: rest) -> sched_inv inc0 ps (MkThreads inc i rs ds) ->
  sched_inv inc0 (ps ++ [p]) (MkThreads inc i (<[c := rest]> rs) ds).
Proof.
  intros Hc [I1 I0 I2 I3 I4]. simpl in *.
  destruct (I4 c _ Hc) as (r & posted & Hst & Hp & Hr).
  assert (about c p = true) as Ha.
  { pose proof (reader_about c r) as Hf. rewrite <- Hr, Forall_app, Forall_cons in Hf. apply Hf. }
  assert (Hoth : forall c', c' <> c -> posts_of c' (ps ++ [p]) = posts_of c' ps).
  { intros c' Hne. rewrite posts_of_app, posts_of_one. destruct (about c' p) eqn:E; [|by rewrite app_nil_r].
    destruct Hne. by eapply about_unique. }
  split; simpl; try done.
  - intros c'. destruct (decide (c' = c)) as [->|Hne]; [intros _; apply I2; by rewrite Hc|].
    rewrite lookup_insert_ne by done. apply I2.
  - intros c'. destruct (decide (c' = c)) as [->|Hne]; [by rewrite lookup_insert_eq|].
    rewrite lookup_insert_ne, Hoth by done. apply I3.
  - intros c' rest'. destruct (decide (c' = c)) as [->|Hne].
    + rewrite lookup_insert_eq, posts_of_app, posts_of_one, Ha, Hp. intros [= <-].
      exists r, (posted ++ [p]). split; [done|]. split; [done|]. by rewrite <- app_assoc.
    + rewrite lookup_insert_ne, Hoth by done. apply I4.
Qed.

(** A connection that came to nothing. *)
Lemma sched_inv_skip inc0 ps x inc i i' rs ds :
  came x = (i' =? i + 1) -> i' = i \/ i' = i + 1 ->
  sched_inv inc0 ps (MkThreads (x :: inc) i rs ds) -> sched_inv inc0 ps (MkThreads inc i' rs ds).
Proof.
  intros Hx Hi' [I1 (gone & -> & Hi) I2 I3 I4]. simpl in *. split; simpl; try done; [lia| |].
  - exists (gone ++ [x]). rewrite <- app_assoc, filter_app, len_app, filter_cons, filter_nil.
    split; [done|]. rewrite <- Hi, Hx. destruct (Z.eqb_spec i' (i + 1)) as [->|Hne]; simpl; [done|].
    rewrite len_nil. lia.
  - intros c Hc%I2. lia.
Qed.

Lemma schedule_inv inc ds ps t : schedule (spawned inc ds) ps t -> sched_inv inc ps t.
Proof.
  induction 1 as [|ps t ps' t' _ IH Ht]; [by split; [|exists []|..]|].
  destruct Ht as [r inc' i rs ds' Hi|inc' i rs ds' Hi|inc' i rs ds'|c p rest inc' i rs ds' Hc|bs inc' i rs ds'
    |e inc' i rs ds'|t].
  - by eapply sched_inv_accept.
  - rewrite app_nil_r. eapply sched_inv_skip; [|by right|exact IH]. by rewrite Z.eqb_refl.
  - rewrite app_nil_r. eapply sched_inv_skip; [|by left|exact IH]. symmetry. apply Z.eqb_neq. lia.
  - by apply sched_inv_reader.
  - apply sched_inv_other; [done|]. by destruct IH.
  - rewrite app_nil_r. by destruct IH.
  - by apply sched_inv_other.
Qed.

(** ** A connection that is gone *)

Create HintDb keeps.

Section Gone.
Context `{Libsodium} (printable : Z -> bool) (write_ok : nat -> bool)
  (send_error : nat -> option text) (cfg : Config) (store : KeyStore) (epoch : Epoch) (c : Z).

Definition gone (n : Node) : Prop :=
  clients n !! c = None /\ forall corr p, pending n !! corr = Some p -> conn p <> c.

(** An operation of the node that does not bring it back. *)
Definition keeps {A} (m : N' A) : Prop := forall n, gone n -> gone (m n).2.

Lemma keeps_bind {A B} (m : N' A) (k : A -> N' B) :
  keeps m -> (forall a, keeps (k a)) -> keeps (let* a := m in k a).
Proof. intros Hm Hk n Hn. unfold bind. specialize (Hm n Hn). destruct (m n) as [a n1]. by apply Hk. Qed.

Lemma keeps_ret {A} (a : A) : keeps (ret a).
Proof. by intros n. Qed.

Lemma keeps_gets {A} (f : Node -> A) : keeps (gets f).
Proof. by intros n. Qed.

Lemma gone_frame n n' : clients n' = clients n -> pending n' = pending n -> gone n -> gone n'.
Proof. intros H1 H2. unfold gone. by rewrite H1, H2. Qed.

Lemma keeps_write c' bs : keeps (write_frame write_ok c' bs).
Proof.
  intros n [Hc Hp]. unfold write_frame. destruct (clients n !! c') as [w|] eqn:Hw; [|done].
  assert (c <> c') as Hne by congruence.
  destruct (write_ok (writes n)); split; simpl; try done.
  - by rewrite lookup_insert_ne by congruence.
  - by apply lookup_delete_None; right.
Qed.

Lemma keeps_send m : keeps (send_to_peer send_error cfg store epoch m).
Proof.
  intros n Hn. destruct (send_frame send_error cfg store epoch m n) as (_ & H1 & H2 & _).
  by eapply gone_frame.
Qed.

Lemma keeps_kv op : keeps (run_kv op).
Proof. intros n Hn. unfold run_kv, zoom. by destruct (execute op (kv n)). Qed.

Lemma keeps_answer op : keeps (answer cfg op).
Proof. unfold answer. destruct (_ =? _); [apply keeps_kv|apply keeps_ret]. Qed.

Lemma keeps_drop corr : keeps (modify (fun n => set_pending (delete corr (pending n)) n)).
Proof. intros n [Hc Hp]. split; [done|]. simpl. intros corr' p [_ Hl]%lookup_delete_Some. by eapply Hp. Qed.

Lemma keeps_wait corr p : conn p <> c -> keeps (modify (fun n => set_pending (<[corr := p]> (pending n)) n)).
Proof.
  intros Hne n [Hc Hp]. split; [done|]. simpl. intros corr' p'.
  destruct (decide (corr' = corr)) as [->|Hd]; [rewrite lookup_insert_eq; by intros [= <-]|].
  rewrite lookup_insert_ne by done. apply Hp.
Qed.

Lemma keeps_stats {A} (m : St StatsState A) : keeps (zoom node_stats set_node_stats m).
Proof. intros n Hn. unfold zoom. by destruct (m (node_stats n)). Qed.

Lemma keeps_log l : keeps (eprintln l).
Proof. by intros n. Qed.

Lemma keeps_corr : keeps bump_corr.
Proof. by intros n. Qed.

Lemma keeps_close c' : keeps (modify (fun n => set_clients (delete c' (clients n)) n)).
Proof. intros n [Hc Hp]. split; [|done]. simpl. apply lookup_delete_None. by right. Qed.

Hint Resolve keeps_ret keeps_gets keeps_write keeps_send keeps_kv keeps_answer keeps_drop keeps_wait
  keeps_stats keeps_log keeps_corr keeps_close : keeps.

Ltac keeps := repeat first
  [ apply keeps_bind; [|intros ?] | case_decide | case_match | solve [auto with keeps nocore] ].

Lemma keeps_send_frame now c' rcpt b :
  c' <> c -> keeps (handle_send printable write_ok send_error cfg store epoch now c' rcpt b).
Proof. intros Hne. unfold handle_send, reply_to_client. keeps. Qed.

Lemma keeps_frame now c' f :
  c' <> c -> keeps (handle_client_frame printable write_ok send_error cfg store epoch now c' f).
Proof. intros Hne. pose proof (keeps_send_frame now c') as Hs. unfold handle_client_frame. keeps. Qed.

Lemma keeps_message m : keeps (handle_message write_ok send_error cfg store epoch m).
Proof. unfold handle_message, reply_to_client. keeps. Qed.

Lemma keeps_datagram bs : keeps (handle_datagram printable write_ok send_error cfg store epoch bs).
Proof. pose proof keeps_message. unfold handle_datagram. keeps. Qed.

Lemma keeps_expire corrs : keeps (expire write_ok cfg corrs).
Proof.
  induction corrs as [|corr rest IH]; cbn [expire]; [apply keeps_ret|]. unfold reply_to_client. keeps.
Qed.

(** What is not about the connection does not bring it back. *)
Lemma keeps_step now p :
  about c p = false -> keeps (step printable write_ok send_error cfg store epoch (event_at now p)).
Proof.
  intros Ha. destruct p as [c'|c' f|c'|bs|]; simpl in Ha; unfold step, event_at;
    try (apply Z.eqb_neq in Ha).
  - intros n [Hc Hp]. split; [|done]. simpl. by rewrite lookup_insert_ne by congruence.
  - by apply keeps_frame.
  - intros n [Hc Hp]. split; simpl.
    + apply lookup_delete_None. by right.
    + intros corr p [Hl _]%map_lookup_filter_Some. by eapply Hp.
  - apply keeps_datagram.
  - apply keeps_bind; [apply keeps_gets|]. intros n. apply keeps_expire.
Qed.

Lemma down_gone now n : gone (step printable write_ok send_error cfg store epoch (event_at now (PClientDown c)) n).2.
Proof.
  split; simpl; [apply lookup_delete_eq|]. by intros corr p [_ Hne]%map_lookup_filter_Some.
Qed.

(** The events of posts, each with the time it was handled. *)
Definition handled (ps : list Post) (es : list Event) : Prop :=
  Forall2 (fun p e => exists now, e = event_at now p) ps es.

Lemma gone_loop ps es n :
  handled ps es -> posts_of c ps = [] -> gone n ->
  gone (core_loop printable write_ok send_error cfg store epoch es n).2.
Proof.
  intros Hh. revert n. induction Hh as [|p e ps es [now ->] _ IH]; intros n Hp Hn; [done|].
  change (p :: ps) with ([p] ++ ps) in Hp. rewrite posts_of_app, posts_of_one in Hp.
  destruct (about c p) eqn:Ha; [done|]. cbn [core_loop]. unfold bind.
  pose proof (keeps_step now p Ha n Hn) as Hn1. destruct (step _ _ _ _ _ _ _ n) as [[] n1]. by apply IH.
Qed.

Lemma core_loop_app es1 es2 n :
  core_loop printable write_ok send_error cfg store epoch (es1 ++ es2) n =
  core_loop printable write_ok send_error cfg store epoch es2
    (core_loop printable write_ok send_error cfg store epoch es1 n).2.
Proof.
  revert n. induction es1 as [|e es1 IH]; intros n; [done|]. cbn [app core_loop]. unfold bind.
  destruct (step _ _ _ _ _ _ e n) as [[] n1]. apply IH.
Qed.

End Gone.

(** Nothing of a connection is posted after its end. *)
Lemma down_last inc ds ps1 c ps2 t :
  schedule (spawned inc ds) (ps1 ++ PClientDown c :: ps2) t -> posts_of c ps2 = [].
Proof.
  intros [_ _ _ I3 I4]%schedule_inv.
  assert (posts_of c (ps1 ++ PClientDown c :: ps2) = posts_of c ps1 ++ PClientDown c :: posts_of c ps2) as Hall.
  { rewrite posts_of_app. change (PClientDown c :: ps2) with ([PClientDown c] ++ ps2).
    rewrite posts_of_app, posts_of_one. simpl. by rewrite Z.eqb_refl. }
  specialize (I3 c). specialize (I4 c). rewrite Hall in I3, I4.
  destruct (readers t !! c) as [rest|]; [|by specialize (I3 eq_refl); destruct (posts_of c ps1)].
  destruct (I4 rest eq_refl) as (r & posted & _ & Hp & Hr).
  destruct (reader_shape c r) as (frames & Hs & _).
  destruct (posts_of c ps1) as [|p qs]; simpl in Hp; [done|]. injection Hp as -> Hp.
  rewrite Hs in Hr. rewrite <- Hp in Hr. clear -Hr. revert frames Hr.
  induction qs as [|q qs IH]; intros frames Hr.
  - destruct frames as [|f frames]; [|done]. simpl in Hr. injection Hr as Hr.
    by destruct (posts_of c ps2).
  - destruct frames as [|f frames]; simpl in Hr; injection Hr as _ Hr; [by destruct qs|by eapply IH].
Qed.

(** ** [run] and [main] *)

Inductive Outcome :=
| Exit (code : Z) (out err : text)
| Panic
| Serving (cfg : Config) (store : KeyStore) (epoch : Epoch) (banner : list text).

Definition banner (cfg : Config) : list text := [
  str "six-seven-server node " ++ dec cfg.(id) ++ str " " ++ [8212] ++ str " STOMP on " ++ show_addr cfg.(stomp) ++
  str ", PAXE on " ++ show_addr cfg.(paxe) ++ str " (channel " ++ dec PEER_CHANNEL ++ str "), peer " ++
  dec cfg.(peer_id) ++ str " at " ++ show_addr cfg.(peer_addr);
  str "  odd keys -> node " ++ dec (Z.min cfg.(id) cfg.(peer_id)) ++ str ", even keys -> node " ++
  dec (Z.max cfg.(id) cfg.(peer_id))].

Section Main.
Context `{Libsodium} (printable : Z -> bool).

(** [run] up to the core loop.  The arguments are the errors, if any, of binding
    the two sockets and of cloning the first; returning an error drops the
    store. *)
Definition run (bind_paxe bind_stomp clone : option text) (cfg : Config)
    : St SodiumState (result (KeyStore * Epoch) text) :=
  let* r := start cfg in
  match r with
  | Err e => ret (Err e)
  | Ok (store, epoch) =>
      let fail e := let* _ := keystore_drop store in ret (Err e) in
      match bind_paxe with
      | Some e => fail (str "binding --paxe " ++ show_addr cfg.(paxe) ++ str ": " ++ e)
      | None =>
      match bind_stomp with
      | Some e => fail (str "binding --stomp " ++ show_addr cfg.(stomp) ++ str ": " ++ e)
      | None =>
      match clone with
      | Some e => fail (str "cloning the UDP socket: " ++ e)
      | None => ret (Ok (store, epoch))
      end end end
  end.

(** [main] up to the core loop, on the arguments after the program name. *)
Definition main (args : list text) (bind_paxe bind_stomp clone : option text) : St SodiumState Outcome :=
  match parse_args printable args with
  | Help => ret (Exit 0 (USAGE ++ [10]) [])
  | Panicked => ret Panic
  | Rejected message => ret (Exit 2 [] (message ++ [10; 10] ++ USAGE ++ [10]))
  | Accepted cfg =>
      let* r := run bind_paxe bind_stomp clone cfg in
      match r with
      | Err message => ret (Exit 1 [] (str "six-seven-server: " ++ message ++ [10]))
      | Ok (store, epoch) => ret (Serving cfg store epoch (banner cfg))
      end
  end.

End Main.

Lemma run_spec `{AS : AeadSpec, GS : !GuardedHeapSpec} bind_paxe bind_stomp clone cfg s r s' :
  wf_config cfg -> run bind_paxe bind_stomp clone cfg s = (r, s') ->
  match r with
  | Ok (store, epoch) => link cfg store epoch (key cfg) s' /\
      bind_paxe = None /\ bind_stomp = None /\ clone = None
  | Err _ => heap s' = heap s
  end.
Proof.
  intros [Hid Hp _ _ _ _ [Hk _]]. unfold run. unfold bind at 1.
  destruct (start cfg s) as [r1 s1] eqn:Hs. pose proof (start_spec cfg s r1 s1 Hid Hp Hk Hs) as Hx.
  destruct r1 as [[store epoch]|e]; [|by intros [= <- <-]]. destruct Hx as (_ & Hl & Hout).
  destruct (keystore_drop_spec s1 store (lk_inv _ _ _ _ _ Hl)) as [Hd _]. rewrite Hout in Hd.
  assert (Hfail : forall e, (let* _ := keystore_drop store in ret (Err e)) s1 = (r, s') ->
    match r with Ok (st, ep) => link cfg st ep (key cfg) s' /\ bind_paxe = None /\ bind_stomp = None /\ clone = None
    | Err _ => heap s' = heap s end).
  { intros e. unfold bind, ret. destruct (keystore_drop store s1) as [[] s2]. by intros [= <- <-]. }
  destruct bind_paxe; [by apply Hfail|]. destruct bind_stomp; [by apply Hfail|].
  destruct clone; [by apply Hfail|]. by intros [= <- <-].
Qed.

(** ** Claims *)

(** C17: how the process starts or stops.  The server serves only with a
    well-formed configuration, both sockets bound, and the link key and no other
    installed for the peer; it prints the usage and exits with 0 exactly when
    help was asked for, exits with 2 exactly when the command line was rejected
    and with 1 exactly when an accepted configuration could not be started; and
    whenever it stops, no key is left in guarded memory. *)
Theorem main_outcomes `{AS : AeadSpec, GS : !GuardedHeapSpec} printable args bp bs cl s :
  let '(o, s') := main printable args bp bs cl s in
  match o with
  | Serving cfg store epoch b => parse_args printable args = Accepted cfg /\ wf_config cfg /\
      bp = None /\ bs = None /\ cl = None /\ link cfg store epoch (key cfg) s' /\ b = banner cfg
  | Exit code out err => heap s' = heap s /\
      (code = 0 <-> parse_args printable args = Help) /\
      (code = 2 <-> exists m, parse_args printable args = Rejected m) /\
      (code = 1 <-> exists cfg, parse_args printable args = Accepted cfg)
  | Panic => s' = s /\ parse_args printable args = Panicked
  end.
Proof.
  unfold main. destruct (parse_args printable args) as [| |m|cfg] eqn:Hp; [naive_solver..|].
  pose proof (parse_args_wf _ _ _ Hp) as Hw. unfold bind.
  destruct (run bp bs cl cfg s) as [r s'] eqn:Hr. pose proof (run_spec _ _ _ _ _ _ _ Hw Hr) as Hx.
  destruct r as [[store epoch]|e]; simpl; [naive_solver|]. split_and!; naive_solver.
Qed.

(** C20: each connection's posts are its story.  Whatever the threads do and
    however their posts interleave, what the channel delivers about connection
    [c] is nothing, or its announcement and then an initial part of the frames of
    the stream of the [c]-th connection that was accepted, in order and with text
    bodies, and its end only when all of them have been delivered. *)
Theorem posts_follow_streams inc ds ps t c :
  schedule (spawned inc ds) ps t ->
  posts_of c ps = [] \/
  exists r frames posted rest, 1 <= c /\ stream_of inc c = Some r /\ stream_frames r frames /\
    posts_of c ps = PClientUp c :: posted /\
    posted ++ rest = (PClientFrame c <$> frames) ++ [PClientDown c] /\
    Forall (fun f => Forall is_char (body f)) frames.
Proof.
  intros Hs. destruct (schedule_inv _ _ _ _ Hs) as [_ _ I2 I3 I4].
  destruct (readers t !! c) as [rest|] eqn:Hc; [right|by left; apply I3].
  assert (1 <= c) as Hc1 by (apply I2; by rewrite Hc).
  destruct (I4 c rest Hc) as (r & posted & Hst & Hp & Hr).
  destruct (reader_shape c r) as (frames & Hf & Hfr & Ht).
  exists r, frames, posted, rest. by rewrite <- Hf, Hr.
Qed.

(** C21: nothing of a closed connection stays.  Once the end of a connection has
    been handled, and whatever was and is handled before and after it, the node
    keeps no client entry and no pending request for it. *)
Theorem closed_connections_forgotten `{Libsodium} printable write_ok send_error cfg store epoch
    inc ds ps t es c n0 :
  schedule (spawned inc ds) ps t -> handled ps es -> PClientDown c ∈ ps ->
  gone c (core_loop printable write_ok send_error cfg store epoch es n0).2.
Proof.
  intros Hs Hh Hin. apply list_elem_of_split in Hin as (ps1 & ps2 & ->).
  pose proof (down_last _ _ _ _ _ _ Hs) as Hq.
  apply Forall2_app_inv_l in Hh as (es1 & es2 & _ & Hh2 & ->).
  apply Forall2_cons_inv_l in Hh2 as (e & es3 & [now ->] & Hh3 & ->).
  rewrite core_loop_app. cbn [core_loop]. unfold bind.
  set (n1 := (core_loop _ _ _ _ _ _ es1 n0).2).
  pose proof (down_gone printable write_ok send_error cfg store epoch c now n1) as Hg.
  destruct (step _ _ _ _ _ _ _ n1) as [[] n2]. by eapply gone_loop.
Qed.

(** ** Witnesses *)

Lemma main_outcomes_witness :
  let '(o, s') := main plain (command_line (flags_of cfg_100)) None (Some (str "in use")) None toy_state in
  o = Exit 1 [] (str "six-seven-server: binding --stomp 127.0.0.1:6167: in use" ++ [10]) /\ heap s' = heap toy_state.
Proof.
  pose proof (main_outcomes plain (command_line (flags_of cfg_100)) None (Some (str "in use")) None toy_state) as Hx.
  assert ((main plain (command_line (flags_of cfg_100)) None (Some (str "in use")) None toy_state).1 =
    Exit 1 [] (str "six-seven-server: binding --stomp 127.0.0.1:6167: in use" ++ [10])) as Ho
    by (vm_compute; reflexivity).
  destruct (main plain (command_line (flags_of cfg_100)) None (Some (str "in use")) None toy_state) as [o s'].
  simpl in Ho. rewrite Ho in Hx. split; [exact Ho|apply Hx].
Defined.

(** One client sends a request, and a datagram and a tick come in between. *)
Definition one_stream : list Fill :=
  [Data (take 7 (Stomp.encode (str "SEND") [] (str "GET 68"))); Data (drop 7 (Stomp.encode (str "SEND") [] (str "GET 68")))].
Definition one_frame : Frame := MkFrame (str "SEND") [] (str "GET 68").
Definition one_story : list Post :=
  [PClientUp 1; PTick; PClientFrame 1 one_frame; PDatagram [6]; PClientDown 1; PTick].

Lemma one_schedule :
  schedule (spawned [AcceptFailed; Stream one_stream] [Ok [6]]) one_story
    (MkThreads [] 1 (<[1 := []]> (<[1 := [PClientDown 1]]> (<[1 := reader 1 one_stream]> ∅))) []).
Proof.
  unfold one_story.
  eapply (sched_turn _ [PClientUp 1; PTick; PClientFrame 1 one_frame; PDatagram [6]; PClientDown 1] _ [PTick]);
    [|apply turn_tick].
  eapply (sched_turn _ [PClientUp 1; PTick; PClientFrame 1 one_frame; PDatagram [6]] _ [PClientDown 1]);
    [|apply turn_reader; apply lookup_insert_eq].
  eapply (sched_turn _ [PClientUp 1; PTick; PClientFrame 1 one_frame] _ [PDatagram [6]]);
    [|apply (turn_datagram [6])].
  eapply (sched_turn _ [PClientUp 1; PTick] _ [PClientFrame 1 one_frame]);
    [|apply turn_reader; rewrite lookup_insert_eq; vm_compute; reflexivity].
  eapply (sched_turn _ [PClientUp 1] _ [PTick]); [|apply turn_tick].
  eapply (sched_turn _ [] _ [PClientUp 1]); [|by apply (turn_accept one_stream [] 0)].
  eapply (sched_turn _ [] _ []); [apply sched_start|apply turn_accept_failed].
Qed.

Lemma posts_follow_streams_witness :
  posts_of 1 one_story = [PClientUp 1; PClientFrame 1 one_frame; PClientDown 1] /\
  (posts_of 1 one_story = [] \/
  exists r frames posted rest, 1 <= 1 /\ stream_of [AcceptFailed; Stream one_stream] 1 = Some r /\
    stream_frames r frames /\ posts_of 1 one_story = PClientUp 1 :: posted /\
    posted ++ rest = (PClientFrame 1 <$> frames) ++ [PClientDown 1] /\
    Forall (fun f => Forall is_char (body f)) frames).
Proof.
  split; [reflexivity|]. exact (posts_follow_streams _ _ _ _ 1 one_schedule).
Defined.

Lemma closed_connections_forgotten_witness :
  gone 1 (core_loop plain all_good no_error cfg_100 (pair_store NodeA) (MkEpoch 0)
            (event_at 7 <$> one_story) (boot (pair_after NodeA))).2.
Proof.
  apply (closed_connections_forgotten plain all_good no_error cfg_100 (pair_store NodeA) (MkEpoch 0)
    _ _ one_story _ _ 1 _ one_schedule).
  - apply Forall2_fmap_r. apply Forall_Forall2_diag. apply Forall_forall. intros p _. by exists 7.
  - unfold one_story. set_solver.
Defined.
