(* ===== verification/Integration.v ===== *)
(** * The integration tests

    [tests/kat_from_json.rs] with the fixture it embeds, the C ABI canary
    [tests/ffi_canary.py], and the client half of [tests/six_seven_e2e.sh]: two
    servers started from their command lines, real frames between them, and the
    conversation of the script (see [Testing]).  The spawning of processes, the
    logs and the report lines are left out; datagrams arrive in order and at
    once, and no deadline passes. *)

From S2P Require Export Run TestsFfi TestsServer.

(** ** The fixture: [tests/aes_gcm_vectors.json] *)

(** The file, a backquote standing for each double quote. *)
Definition fixture_lines : list text := [
  str "{"; [10];
  str "  `schema`: 1,"; [10];
  str "  `generator`: `tests/gen_aes_gcm_vectors.py (independent OpenSSL EVP via Python cryptography)`,"; [10];
  str "  `note`: `Expected frames are computed by an independent AES-256-GCM implementation, not by the paxe crate. The Rust test loads this file and checks the crate's own output against it.`,"; [10];
  str "  `standard`: {"; [10];
  str "    `psk_hex`: `a1b2c3d4e5f60718293a4b5c6d7e8f90132435465768798a9bacbdcedfe0f102`,"; [10];
  str "    `from_id`: 2571,"; [10];
  str "    `to_id`: 3085,"; [10];
  str "    `channel`: 3599,"; [10];
  str "    `epoch`: 9,"; [10];
  str "    `nonce_hex`: `c0c1c2c3c4c5c6c7c8c9cacb`,"; [10];
  str "    `plaintext_hex`: `7061786520766563746f722076323a207374616e646172642073686f7274207061796c6f6164`,"; [10];
  str "    `aad_hex`: `0a0b0c0d00000e0f4c`,"; [10];
  str "    `frame_hex`: `0a0b0c0d00000e0f4cc0c1c2c3c4c5c6c7c8c9cacb11e08e8e015385ddbc7e771d411ecffe2a26717d89c5bc800ee4e33262fe2f6d78a58b8a02e23c46700ed4190d85d57aa0d74052b6ea`"; [10];
  str "  },"; [10];
  str "  `fanout`: {"; [10];
  str "    `from_id`: 2571,"; [10];
  str "    `channel`: 3599,"; [10];
  str "    `payload_hex`: `6669786564207265757361626c652d44454b20766563746f72`,"; [10];
  str "    `dek_hex`: `e0e0e0e0e0e0e0e0e0e0e0e0e0e0e0e0e0e0e0e0e0e0e0e0e0e0e0e0e0e0e0e0`,"; [10];
  str "    `body_nonce_hex`: `d0d0d0d0d0d0d0d0d0d0d0d0`,"; [10];
  str "    `body_aad_hex`: `0a0b00000e0f05`,"; [10];
  str "    `recipients`: ["; [10];
  str "      {"; [10];
  str "        `to_id`: 3085,"; [10];
  str "        `epoch`: 9,"; [10];
  str "        `psk_hex`: `a1b2c3d4e5f60718293a4b5c6d7e8f90132435465768798a9bacbdcedfe0f102`,"; [10];
  str "        `envelope_nonce_hex`: `b0b0b0b0b0b0b0b0b0b0b0b0`,"; [10];
  str "        `frame_hex`: `0a0b0c0d00000e0f4db0b0b0b0b0b0b0b0b0b0b0b0c665b11725373b2d9daf03c359fb50ae3cc278c30626f74b0f7b18a58e3adf15d75fb9dfb2a29beb0d08bea78e4c207bd0d0d0d0d0d0d0d0d0d0d0d05187e7d3f6791322348227884ecce454c12d780f76a3e7020e4410681f921c4c96cfbd93f92384fdbd`"; [10];
  str "      },"; [10];
  str "      {"; [10];
  str "        `to_id`: 3086,"; [10];
  str "        `epoch`: 8,"; [10];
  str "        `psk_hex`: `5555555555555555555555555555555555555555555555555555555555555555`,"; [10];
  str "        `envelope_nonce_hex`: `b1b1b1b1b1b1b1b1b1b1b1b1`,"; [10];
  str "        `frame_hex`: `0a0b0c0e00000e0f45b1b1b1b1b1b1b1b1b1b1b1b173e405815863bcfc7997415ba535082c35316fd14fa1a3011d2102dc8589fa80852e550a6cc330ee9418d9165e7ae43ed0d0d0d0d0d0d0d0d0d0d0d05187e7d3f6791322348227884ecce454c12d780f76a3e7020e4410681f921c4c96cfbd93f92384fdbd`"; [10];
  str "      }"; [10];
  str "    ]"; [10];
  str "  }"; [10];
  str "}"; [10]].

Definition JSON : text := (fun c => if c =? 96 then 34 else c) <$> mjoin fixture_lines.

(** [haystack.find(needle)] and [haystack.find(char)], as an index. *)
Fixpoint find_text (hay needle : text) : option nat :=
  if decide (take (length needle) hay = needle) then Some 0%nat
  else match hay with [] => None | _ :: rest => S <$> find_text rest needle end.

Fixpoint find_char (p : Z -> bool) (s : text) : option nat :=
  match s with
  | [] => None
  | c :: rest => if p c then Some 0%nat else S <$> find_char p rest
  end.

(** The span of a brace-matched object that starts at the head: the scan of
    [object] and of [array_objects], with the depth so far.  [None] is an
    unterminated object. *)
Fixpoint object_span (s : text) (depth : Z) : option nat :=
  match s with
  | [] => None
  | c :: rest =>
      if c =? 123 then S <$> object_span rest (depth + 1)
      else if c =? 125 then
        if depth - 1 =? 0 then Some 1%nat else S <$> object_span rest (depth - 1)
      else S <$> object_span rest depth
  end.

Section Json.
Context {S : Type}.

(** [Json::key_index]: the text from the key on; absence panics. *)
Definition from_key (s : text) (key : text) : Test S text :=
  i ← some (find_text s ([34] ++ key ++ [34])); mret (drop i s).

Definition json_object (s : text) (key : text) : Test S text :=
  s ← from_key s key;
  open ← some (find_char (eq_char 123) s);
  n ← some (object_span (drop open s) 0);
  mret (take n (drop open s)).

Definition json_string (s : text) (key : text) : Test S text :=
  s ← from_key s key;
  colon ← some (find_char (eq_char 58) s);
  q0 ← some (find_char (eq_char 34) (drop colon s));
  let after := drop (q0 + 1) (drop colon s) in
  q1 ← some (find_char (eq_char 34) after);
  mret (take q1 after).

Definition json_number (s : text) (key : text) : Test S Z :=
  s ← from_key s key;
  colon ← some (find_char (eq_char 58) s);
  let rest := trim_start (drop (colon + 1) s) in
  let end_ := default (length rest) (find_char (fun c => negb (within 48 57 c)) rest) in
  some (parse_u64 (take end_ rest)).

(** [u8::is_ascii_whitespace]. *)
Definition is_ascii_whitespace (c : Z) : bool := existsb (Z.eqb c) [32; 9; 10; 12; 13].

(** [array_objects]: fuel counts the elements, each at least two characters. *)
Fixpoint array_loop (fuel : nat) (s : text) (out : list text) : Test S (list text) :=
  match trim_start_matches (fun c => is_ascii_whitespace c || (c =? 44)) s with
  | [] => mret out
  | c :: rest =>
      if c =? 93 then mret out
      else if negb (c =? 123) then some None
      else match fuel, object_span (c :: rest) 0 with
           | Datatypes.S fuel, Some n => array_loop fuel (drop n (c :: rest)) (out ++ [take n (c :: rest)])
           | _, _ => mret out
           end
  end.

Definition json_array_objects (s : text) (key : text) : Test S (list text) :=
  s ← from_key s key;
  open ← some (find_char (eq_char 91) s);
  let s := drop (open + 1) s in
  array_loop (length s) s [].

(** [unhex] and [unhex_arr::<N>]. *)
Definition unhex_even (s : text) : Test S bytes :=
  check (str_len s `mod` 2 =? 0) ;; some (unhex s).
Definition unhex_arr (n : Z) (s : text) : Test S bytes :=
  v ← unhex_even s; some (try_into_array n v).

End Json.

Section Known.
Context `{Libsodium}.

Definition standard_frame_matches_independent_fixture : Test World unit :=
  if_gcm (
    s ← json_object JSON (str "standard");
    h ← json_string s (str "psk_hex"); psk ← unhex_arr KEYBYTES h;
    from_id ← json_number s (str "from_id");
    to_id ← json_number s (str "to_id");
    channel ← json_number s (str "channel");
    epoch ← json_number s (str "epoch");
    h ← json_string s (str "nonce_hex"); nonce ← unhex_arr NPUBBYTES h;
    h ← json_string s (str "plaintext_hex"); plaintext ← unhex_even h;
    h ← json_string s (str "frame_hex"); expected ← unhex_even h;
    store ← new_store (from_id `mod` 65536);
    store ← install_ok store (to_id `mod` 65536) (epoch `mod` 256) psk;
    e ← epoch_of (epoch `mod` 256);
    sys ← sodium;
    frame ← expect (seal_standard_deterministic sys store (to_id `mod` 65536) (channel `mod` 2 ^ 32) e
                      plaintext nonce);
    assert_eq frame expected).

(** The loop over the recipients: the store with their keys, and for each its
    id, envelope nonce and expected frame. *)
Fixpoint read_recipients (rs : list text) (store : KeyStore) (metas : list (Z * bytes * bytes))
    : Test World (KeyStore * list (Z * bytes * bytes)) :=
  match rs with
  | [] => mret (store, metas)
  | r :: rest =>
      to_id ← json_number r (str "to_id");
      epoch ← json_number r (str "epoch");
      h ← json_string r (str "psk_hex"); psk ← unhex_arr KEYBYTES h;
      h ← json_string r (str "envelope_nonce_hex"); env_nonce ← unhex_arr NPUBBYTES h;
      h ← json_string r (str "frame_hex"); expected ← unhex_even h;
      store ← install_ok store (to_id `mod` 65536) (epoch `mod` 256) psk;
      read_recipients rest store (metas ++ [(to_id `mod` 65536, env_nonce, expected)])
  end.

Definition fanout_frames_match_independent_fixture : Test World unit :=
  if_gcm (
    f ← json_object JSON (str "fanout");
    from_id ← json_number f (str "from_id");
    channel ← json_number f (str "channel");
    h ← json_string f (str "payload_hex"); payload ← unhex_even h;
    h ← json_string f (str "dek_hex"); dek ← unhex_arr KEYBYTES h;
    h ← json_string f (str "body_nonce_hex"); body_nonce ← unhex_arr NPUBBYTES h;
    store ← new_store (from_id `mod` 65536);
    rs ← json_array_objects f (str "recipients");
    '(store, metas) ← read_recipients rs store [];
    sys ← sodium;
    r ← some (seal_fanout_deterministic sys store ((fun m => m.1.1) <$> metas) (channel `mod` 2 ^ 32)
                payload dek body_nonce ((fun m => m.1.2) <$> metas));
    frames ← expect r;
    assert_eq (len frames) (len metas) ;;
    for_each (zip frames metas) (fun '(frame, (_, _, expected)) => assert_eq (ff_frame frame) expected) ;;
    if 2 <=? len frames then
      f0 ← at_index frames 0; f1 ← at_index frames 1;
      t0 ← slice_from (ff_frame f0) 69; t1 ← slice_from (ff_frame f1) 69;
      assert_eq t0 t1 ;;
      p0 ← slice_of (ff_frame f0) 0 69; p1 ← slice_of (ff_frame f1) 0 69;
      assert_ne p0 p1
    else mret tt).

(** ** The canary: [tests/ffi_canary.py] *)

Definition canary_payload : bytes := as_bytes (str "ffi canary round trip payload").

(** [configure(node, peer, epoch, key)]. *)
Definition configure (node peer epoch : Z) (key : bytes) : Test FfiState unit :=
  returns (lunet_paxe_set_local_id node) RC_OK ;;
  returns (lunet_paxe_keystore_set peer epoch (Some key) (len key)) RC_OK.

(** The canary's [main] up to its first [shutdown]: node A seals; the frame. *)
Definition canary_sender : Test FfiState bytes :=
  abi_init_ok ;;
  configure NODE_A NODE_B Vectors.EPOCH PSK ;;
  let out := zeros (len canary_payload + 128) in
  '(rc, out, out_len) ← Testing.run (lunet_paxe_seal (Some canary_payload) (len canary_payload) NODE_B CHANNEL
                               (Some out) (len out) (Some 0));
  assert_eq rc RC_OK ;;
  out ← some out; out_len ← some out_len;
  let frame := take (Z.to_nat out_len) out in
  assert_eq (len frame) (len canary_payload + 37) ;;
  tampered ← xor_at frame (len frame - 1) 0x01;
  open_code tampered RC_DROP ;;
  open_code frame RC_DROP ;;
  _ ← Testing.run lunet_paxe_shutdown;
  mret frame.

(** From there to its last [shutdown]: node B opens. *)
Definition canary_receiver (frame : bytes) : Test FfiState unit :=
  open_code frame RC_DROP ;;
  configure NODE_B NODE_A Vectors.EPOCH PSK ;;
  '(rc, got, from_id, chan, mode) ← abi_open frame;
  assert_eq (rc, got, from_id, mode, chan) (RC_OK, canary_payload, NODE_A, 0, CHANNEL) ;;
  returns (lunet_paxe_set_local_id NODE_A) RC_INVAL ;;
  Testing.run lunet_paxe_shutdown.

(** The whole of [main].  [shutdown] returns [void], but the script declares an
    [int] and compares it: [first] and [last] are what the caller finds in the
    return register. *)
Definition canary (first last : Z) : Test FfiState unit :=
  frame ← canary_sender;
  assert_eq first RC_OK ;;
  canary_receiver frame ;;
  assert_eq last RC_OK.

End Known.

(** ** Two servers and their clients: [tests/six_seven_e2e.sh] *)

(** A running server: what [main] started it with, its core, and how many of
    its datagrams the network has carried. *)
Record Server1 := MkServer1 {
  sv_cfg : Config;
  sv_store : KeyStore;
  sv_epoch : Epoch;
  sv_node : Node;
  sv_carried : nat;
}.

Record Lab := MkLab { lab_a : Server1; lab_b : Server1; lab_conns : Z }.

Definition server_of (x : Side) (l : Lab) : Server1 := match x with NodeA => lab_a l | NodeB => lab_b l end.
Definition set_server (x : Side) (v : Server1) (l : Lab) : Lab :=
  match x with
  | NodeA => MkLab v (lab_b l) (lab_conns l)
  | NodeB => MkLab (lab_a l) v (lab_conns l)
  end.

(** [KEY=$(printf '6767%.0s' {1..16})] and the two command lines. *)
Definition E2E_KEY : text := mjoin (replicate 16 (str "6767")).

Definition e2e_args (id stomp paxe peer_id peer : string) : list text :=
  [str "--id"; str id; str "--stomp"; str stomp; str "--paxe"; str paxe;
   str "--peer-id"; str peer_id; str "--peer"; str peer; str "--key"; E2E_KEY].

Section EndToEnd.
Context `{Libsodium} (printable : Z -> bool).

(** Start a server from its command line; anything but serving is the
    script's [FAIL]. *)
Definition launch (args : list text) : option Server1 :=
  match Run.main printable args None None None (set_draws 1 toy_state) with
  | (Serving cfg store epoch _, s) => Some (MkServer1 cfg store epoch (boot s) 0)
  | _ => None
  end.

Definition lab_up : option Lab :=
  match launch (e2e_args "100" "127.0.0.1:6167" "127.0.0.1:6100" "200" "127.0.0.1:6200"),
        launch (e2e_args "200" "127.0.0.1:6267" "127.0.0.1:6200" "100" "127.0.0.1:6100") with
  | Some a, Some b => Some (MkLab a b 0)
  | _, _ => None
  end.

(** One event in the core loop of a server. *)
Definition post (x : Side) (e : Event) : Test Lab unit := fun l =>
  let v := server_of x l in
  let n := (step printable all_good no_error (sv_cfg v) (sv_store v) (sv_epoch v) e (sv_node v)).2 in
  Some (tt, set_server x (MkServer1 (sv_cfg v) (sv_store v) (sv_epoch v) n (sv_carried v)) l).

(** Carry what [x] has sent and the network has not delivered yet. *)
Definition carry (x : Side) : Test Lab unit := fun l =>
  let v := server_of x l in
  let out := outbox (sv_node v) in
  let l := set_server x (MkServer1 (sv_cfg v) (sv_store v) (sv_epoch v) (sv_node v) (length out)) l in
  for_each (drop (sv_carried v) out) (fun d => post (other x) (Datagram d)) l.

(** A request and its answer have crossed after this. *)
Definition settle : Test Lab unit := carry NodeA ;; carry NodeB ;; carry NodeA ;; carry NodeB.

(** [s.sendall(bytes)]: one frame on the connection. *)
Definition sendall (x : Side) (c : Z) (bs : bytes) : Test Lab unit :=
  f ← expect (Stomp.read [Data bs]).1;
  f ← some f;
  post x (ClientFrame 0 c f) ;; settle.

(** [raw.partition(b"\n\n")] and [head.split(b"\n")[0]]. *)
Fixpoint partition_blank (bs : bytes) : bytes * bytes :=
  match bs with
  | 10 :: 10 :: rest => ([], rest)
  | b :: rest => let '(h, t) := partition_blank rest in (b :: h, t)
  | [] => ([], [])
  end.

Definition first_line (head : bytes) : bytes :=
  match find_char (eq_char 10) head with Some i => take i head | None => head end.

(** [read_frame()] of the script, on what the connection received after the
    first [seen] bytes; the closed connection fails the test. *)
Definition client_read (x : Side) (c : Z) (seen : nat) : Test Lab (text * text * nat) := fun l =>
  (buffered ← some (clients (sv_node (server_of x l)) !! c);
   '(raw, _) ← some (split_nul (drop seen buffered));
   let '(head, body) := partition_blank (trim_start_matches (eq_char 10) raw) in
   command ← some (from_utf8 (first_line head));
   body ← some (from_utf8 body);
   mret (command, body, (seen + length raw + 1)%nat)) l.

Fixpoint ask (x : Side) (c : Z) (seen : nat) (requests out : list text) : Test Lab (list text) :=
  match requests with
  | [] => mret out
  | body :: rest =>
      sendall x c (as_bytes (str "SEND" ++ nl ++ str "destination:/queue/kv" ++ nl ++ nl ++ body ++ nul)) ;;
      '(command, reply, seen) ← client_read x c seen;
      assert_eq command (str "MESSAGE") ;;
      ask x c seen rest (out ++ [reply])
  end.

(** [talk(port, requests)]. *)
Definition talk (x : Side) (requests : list text) : Test Lab (list text) :=
  c ← Testing.run (gets lab_conns);
  Testing.run (modify (fun l => MkLab (lab_a l) (lab_b l) (c + 1))) ;;
  post x (ClientUp c) ;;
  sendall x c (as_bytes (str "CONNECT" ++ nl ++ str "accept-version:1.2" ++ nl ++ nl ++ nul)) ;;
  '(command, _, seen) ← client_read x c 0;
  assert_eq command (str "CONNECTED") ;;
  out ← ask x c seen requests [];
  sendall x c (as_bytes (str "DISCONNECT" ++ nl ++ nl ++ nul)) ;;
  post x (ClientDown c) ;;
  mret out.

Definition starts_with (s prefix : text) : bool := bool_decide (take (length prefix) s = prefix).

(** The body of the script. *)
Definition six_seven_e2e : Test Lab unit :=
  let s := str in
  got ← talk NodeA [s "PUT 67 six seven"; s "GET 67"; s "PUT 68 six eight"; s "GET 68"];
  assert_eq got [s "OK"; s "six seven"; s "OK"; s "six eight"] ;;
  got ← talk NodeB [s "GET 67"; s "GET 68"];
  assert_eq got [s "six seven"; s "six eight"] ;;
  got ← talk NodeB [s "PUT 69 from b"; s "GET 69"];
  assert_eq (take 1 got) [s "OK"] ;;
  got ← talk NodeA [s "GET 69"];
  assert_eq got [s "from b"] ;;
  got ← talk NodeA [s "RM 68"; s "GET 68"; s "RM 68"; s "GET 12345"];
  assert_eq got [s "OK"; s "NIL"; s "NIL"; s "NIL"] ;;
  got ← talk NodeA [s "GET nope"; s "FROB 1"; s "PUT 73"; s "PUT 71 " ++ xs 1100];
  assert_eq (len got) 4 ;;
  check (forallb (fun g => starts_with g (s "ERR")) got) ;;
  got ← talk NodeA [s "PUT 75 "; s "GET 75"];
  assert_eq got [s "OK"; []].

(** The script passes: both servers come up and every check holds. *)
Definition six_seven_e2e_passes : bool :=
  match lab_up with Some l => passes six_seven_e2e l | None => false end.

End EndToEnd.

(** ** The tests hold of the model *)

(** The end-to-end script of the repository holds of the model, on an
    executable AES-256-GCM and whatever characters [Debug] prints: two servers
    started from the script's command lines answer its clients as it expects.
    Keys owned by the other node are forwarded inside PAXE frames and answered,
    values written through one node are read through the other, removals,
    misses, refusals and empty values have the documented answers. *)
Theorem end_to_end_script_passes printable : @six_seven_e2e_passes gcm_sodium printable = true.
Proof. vm_compute. reflexivity. Qed.

(** The canary passes exactly when both of the values it takes for the result
    of [shutdown] happen to be zero. *)
Lemma canary_passes first last :
  passes (@canary gcm_sodium first last) loaded = (first =? 0) && (last =? 0).
Proof.
  assert (exists st, (frame ← @canary_sender gcm_sodium; @canary_receiver gcm_sodium frame) loaded = Some (tt, st))
    as [st Hst] by (vm_compute; eexists; reflexivity).
  assert (Hc : @canary gcm_sodium first last loaded =
    if (first =? 0) && (last =? 0) then Some (tt, st) else None).
  { revert Hst. unfold canary, mbind, test_bind.
    destruct (@canary_sender gcm_sodium loaded) as [[frame st1]|]; [|done]. intros Hst.
    unfold assert_eq, check, RC_OK.
    destruct (Z.eqb_spec first 0), (Z.eqb_spec last 0);
      rewrite ?(bool_decide_eq_true_2 (first = 0)), ?(bool_decide_eq_false_2 (first = 0)) by done; try done;
      rewrite Hst; by rewrite ?(bool_decide_eq_true_2 (last = 0)), ?(bool_decide_eq_false_2 (last = 0)) by done. }
  unfold passes. rewrite Hc. by destruct (_ && _).
Qed.

(** The independent fixture: parsed out of the committed file, the inputs give
    byte for byte the frames that OpenSSL computed, for the standard mode and for
    both fanout recipients. *)
Lemma fixture_passes :
  passes (@standard_frame_matches_independent_fixture gcm_sodium) world = true /\
  passes (@fanout_frames_match_independent_fixture gcm_sodium) world = true.
Proof. split_and!; vm_compute; reflexivity. Qed.

(** The model passes the repository's own tests: 97 unit tests of the crate and
    the server (all but the randomised one and the two vectors, which have
    theorems of their own) and the fixture tests run to their end with every
    assertion true, on an executable AES-256-GCM (so known answers
    and tampering are the real ones), on the checksum library where frames are
    of the largest size, and on a Windows host with a lock quota for the one
    test of that platform. *)
Theorem test_suite_passes printable :
  forallb (fun t => passes t world)
    (@sodium_tests gcm_sodium ++ @keystore_tests gcm_sodium ++ @standard_tests gcm_sodium ++
     @dek_tests gcm_sodium ++ @standard_long_tests toy_sodium ++ @dek_long_tests toy_sodium ++
     [@many_locked_keys_outlast_the_default_windows_quota windows_host;
      @standard_frame_matches_independent_fixture gcm_sodium;
      @fanout_frames_match_independent_fixture gcm_sodium]) = true /\
  forallb (fun t => passes t tt) (codec_tests ++ peer_tests printable ++ stomp_tests ++ main_tests) = true /\
  forallb (fun t => passes t stats_init) stats_tests = true /\
  forallb (fun t => passes t store_default) (kv_tests printable) = true /\
  forallb (fun t => passes t loaded) (@ffi_tests gcm_sodium) = true /\
  forallb (fun t => passes t loaded) (@ffi_long_tests toy_sodium) = true.
Proof.
  destruct core_tests_pass as (H1 & H2 & H3 & H4 & H5), frame_tests_pass as (H6 & H7 & H8 & H9),
    ffi_tests_pass as (H10 & H11), (server_tests_pass printable) as (H12 & H13 & H14 & H15),
    fixture_passes as (H16 & H17).
  split; [|split; [|split; [|split; [|split]]]].
  - rewrite !forallb_app, H1, H2, H6, H7, H8, H9. cbn [forallb]. rewrite H5, H16, H17. reflexivity.
  - rewrite !forallb_app, H3, H13, H14, H15. reflexivity.
  - exact H4.
  - exact H12.
  - exact H10.
  - exact H11.
Qed.
