(* ===== verification/Build.v ===== *)
(** * The build script: [build.rs]

    How libsodium is found and linked.  What the script asks of its
    surroundings is a parameter: the environment, [pkg-config], the file system.
    What it does is a list of actions: the lines it prints for cargo and the
    file operations it performs; a panic is an error value.  The host that runs
    the script is a Unix: paths are joined with a slash. *)

From S2P Require Export Kv.

Inductive Act :=
| Println (line : text)
| RemoveFile (path : text)
| CopyFile (src dst : text).

(** An environment variable: unset, text, or not valid Unicode. *)
Inductive EnvVar :=
| Unset
| Unicode (v : text)
| NotUnicode.

(** ** Standard library *)

(** [PathBuf::join] with a relative component. *)
Definition join (dir component : text) : text :=
  match last dir with
  | None => component
  | Some c => if c =? 47 then dir ++ component else dir ++ [47] ++ component
  end.

(** [String::from_utf8_lossy]: each maximal part of an ill-formed sequence
    becomes one replacement character. *)
Fixpoint from_utf8_lossy (bs : bytes) : text :=
  match bs with
  | [] => []
  | b0 :: r0 =>
      let bad := 0xFFFD in
      if within 0 0x7F b0 then b0 :: from_utf8_lossy r0 else
      if within 0xC2 0xDF b0 then
        match r0 with
        | b1 :: r1 =>
            if cont b1 then ((b0 - 0xC0) * 0x40 + (b1 - 0x80)) :: from_utf8_lossy r1
            else bad :: from_utf8_lossy r0
        | [] => [bad]
        end
      else if within 0xE0 0xEF b0 then
        let lo := if b0 =? 0xE0 then 0xA0 else 0x80 in
        let hi := if b0 =? 0xED then 0x9F else 0xBF in
        match r0 with
        | b1 :: r1 =>
            if within lo hi b1 then
              match r1 with
              | b2 :: r2 =>
                  if cont b2
                  then ((b0 - 0xE0) * 0x1000 + (b1 - 0x80) * 0x40 + (b2 - 0x80)) :: from_utf8_lossy r2
                  else bad :: from_utf8_lossy r1
              | [] => [bad]
              end
            else bad :: from_utf8_lossy r0
        | [] => [bad]
        end
      else if within 0xF0 0xF4 b0 then
        let lo := if b0 =? 0xF0 then 0x90 else 0x80 in
        let hi := if b0 =? 0xF4 then 0x8F else 0xBF in
        match r0 with
        | b1 :: r1 =>
            if within lo hi b1 then
              match r1 with
              | b2 :: r2 =>
                  if cont b2 then
                    match r2 with
                    | b3 :: r3 =>
                        if cont b3
                        then ((b0 - 0xF0) * 0x40000 + (b1 - 0x80) * 0x1000 + (b2 - 0x80) * 0x40 +
                              (b3 - 0x80)) :: from_utf8_lossy r3
                        else bad :: from_utf8_lossy r2
                    | [] => [bad]
                    end
                  else bad :: from_utf8_lossy r1
              | [] => [bad]
              end
            else bad :: from_utf8_lossy r0
        | [] => [bad]
        end
      else bad :: from_utf8_lossy r0
  end.

(** [str::split_whitespace] and [str::strip_prefix]. *)
Definition split_whitespace (s : text) : list text := filter (fun t => t <> []) (split is_whitespace s).

Fixpoint strip_prefix (p s : text) : option text :=
  match p, s with
  | [], _ => Some s
  | a :: p, b :: s => if a =? b then strip_prefix p s else None
  | _ :: _, [] => None
  end.

(** ** The script *)

Section Build.
Context (printable : Z -> bool).
Context (env : text -> EnvVar).
(** How [expect] reports a variable that is not there. *)
Context (var_error : text -> text).
(** Running [pkg-config]: [None] when it cannot be run, or whether it succeeded
    and its standard output. *)
Context (pkg_config : list text -> option (bool * bytes)).
Context (is_file : text -> bool).
(** Removing a file: [None] on success, or whether it was not there and the
    message. *)
Context (remove_file : text -> option (bool * text)).
(** Copying a file: [None] on success, or the message. *)
Context (copy : text -> text -> option text).

Abbreviation Script A := (St (list Act) (result A text)).

Definition act (a : Act) : Script unit := fun log => (Ok tt, log ++ [a]).
Definition println (line : text) : Script unit := act (Println line).
Definition panic {A} (msg : text) : Script A := ret (Err msg).
Definition fatal {A} (msg : text) : Script A := panic (str "paxe-core build.rs: " ++ msg).

(** [env::var] and [env::var_os(..).is_some()]. *)
Definition env_var (name : text) : option text :=
  match env name with Unicode v => Some v | _ => None end.
Definition env_is_set (name : text) : bool :=
  match env name with Unset => false | _ => true end.
Definition env_is_ok (name : text) : bool :=
  match env_var name with Some _ => true | None => false end.

Definition windows : bool := env_is_ok (str "CARGO_CFG_WINDOWS").

Definition archive_name : text := if windows then str "libsodium.lib" else str "libsodium.a".
Definition link_name : text := if windows then str "libsodium" else str "sodium".

(** The standard output of a [pkg-config] that ran and succeeded. *)
Definition pkg_config_text (args : list text) : option text :=
  match pkg_config args with
  | Some (true, stdout) => Some (from_utf8_lossy stdout)
  | _ => None
  end.

(** The directories of the [-L] flags among some tokens. *)
Fixpoint flag_dirs (tokens : list text) : list text :=
  match tokens with
  | [] => []
  | tok :: rest =>
      if decide (tok = str "-L") then
        match rest with
        | dir :: rest => dir :: flag_dirs rest
        | [] => []
        end
      else match strip_prefix (str "-L") tok with
           | Some dir => dir :: flag_dirs rest
           | None => flag_dirs rest
           end
  end.

Definition system_dirs : list text := [
  str "/usr/lib/x86_64-linux-gnu"; str "/usr/lib/aarch64-linux-gnu"; str "/usr/lib64"; str "/usr/lib";
  str "/usr/local/lib"].

(** The directories [locate_pkg_config] looks into, in order. *)
Definition search_dirs : list text :=
  match pkg_config_text [str "--libs"; str "--static"; str "libsodium"] with
  | Some t => flag_dirs (split_whitespace t)
  | None => []
  end ++
  match pkg_config_text [str "--variable=libdir"; str "libsodium"] with
  | Some t => match trim t with [] => [] | dir => [dir] end
  | None => []
  end ++
  system_dirs.

(** The directories [locate_vcpkg] looks into, in order. *)
Definition candidates : list text :=
  match env_var (str "VCPKG_ROOT") with
  | Some root => [join (join (join root (str "installed")) (str "x64-windows")) (str "lib")]
  | None => []
  end ++
  match env_var (str "CARGO_MANIFEST_DIR") with
  | Some manifest =>
      [foldl join manifest [str ".."; str ".."; str "vcpkg"; str "installed"; str "x64-windows"; str "lib"]]
  | None => []
  end.

(** [{v:?}] of a list of paths. *)
Fixpoint debug_rest (paths : list text) : text :=
  match paths with
  | [] => str "]"
  | p :: rest => str ", " ++ debug_str printable p ++ debug_rest rest
  end.
Definition debug_paths (paths : list text) : text :=
  match paths with
  | [] => str "[]"
  | p :: rest => str "[" ++ debug_str printable p ++ debug_rest rest
  end.

Definition holds_archive (archive dir : text) : bool := is_file (join dir archive).

Definition locate_pkg_config (archive : text) : Script text :=
  match List.find (holds_archive archive) search_dirs with
  | Some dir => ret (Ok dir)
  | None => fatal (str "pkg-config found libsodium but no static archive " ++ archive ++ str " in any of: " ++
      debug_paths search_dirs ++ str ". PAXE will not fall back to the shared library. Both libsodium-dev " ++
      str "and Homebrew libsodium ship the archive; or set PAXE_SODIUM_LIB_DIR.")
  end.

Definition locate_vcpkg (archive : text) : Script text :=
  match List.find (holds_archive archive) candidates with
  | Some dir => ret (Ok dir)
  | None => fatal (str "no static libsodium.lib found. Probed: " ++ debug_paths candidates ++
      str ". Run `vcpkg install libsodium:x64-windows` (see contributing/deps/windows.ps1) or set " ++
      str "PAXE_SODIUM_LIB_DIR.")
  end.

Definition locate : Script text :=
  let archive := archive_name in
  match env_var (str "PAXE_SODIUM_LIB_DIR") with
  | Some dir =>
      if holds_archive archive dir then ret (Ok dir)
      else fatal (str "PAXE_SODIUM_LIB_DIR points at " ++ dir ++ str ", which does not contain " ++ archive ++
        str ". PAXE requires static linking and will not fall back to the shared library.")
  | None => if windows then locate_vcpkg archive else locate_pkg_config archive
  end.

Definition link_static : Script unit :=
  let? dir := locate in
  let src := join dir archive_name in
  let? _ := println (str "cargo:rerun-if-changed=" ++ src) in
  match env_var (str "OUT_DIR") with
  | None => panic (str "OUT_DIR is always set for build scripts: " ++ var_error (str "OUT_DIR"))
  | Some out_dir =>
      let staged := join out_dir archive_name in
      let? _ := act (RemoveFile staged) in
      match remove_file staged with
      | Some (false, e) =>
          panic (str "paxe-core build.rs: failed to clear the previously staged " ++ staged ++ str ": " ++ e)
      | _ =>
          let? _ := act (CopyFile src staged) in
          match copy src staged with
          | Some e =>
              panic (str "paxe-core build.rs: failed to stage " ++ src ++ str " into " ++ staged ++ str ": " ++ e)
          | None =>
              let? _ := println (str "cargo:rustc-link-search=native=" ++ out_dir) in
              let? _ := println (str "cargo:rustc-link-lib=static=" ++ link_name) in
              if windows then println (str "cargo:rustc-link-lib=advapi32")
              else println (str "cargo:rustc-link-lib=pthread")
          end
      end
  end.

Fixpoint print_all (lines : list text) : Script unit :=
  match lines with
  | [] => ret (Ok tt)
  | l :: rest => let? _ := println l in print_all rest
  end.

Definition forward_flags (query : list text) : Script unit :=
  match pkg_config_text query with
  | Some t => print_all ((fun dir => str "cargo:rustc-link-search=native=" ++ dir) <$> flag_dirs (split_whitespace t))
  | None => ret (Ok tt)
  end.

Definition link_dynamic : Script unit :=
  if windows then
    fatal (str "the sodium-dynamic feature is not supported on Windows: there is no system libsodium " ++
      str "provider. Build the default (static) artefact instead.")
  else
    let? _ := forward_flags [str "--libs"; str "libsodium"] in
    let? _ := forward_flags [str "--variable=libdir"; str "libsodium"] in
    let? _ := println (str "cargo:rustc-link-lib=dylib=sodium") in
    println (str "cargo:rustc-link-lib=pthread").

Definition build_main : Script unit :=
  let? _ := println (str "cargo:rerun-if-env-changed=PAXE_SODIUM_LIB_DIR") in
  let? _ := println (str "cargo:rerun-if-env-changed=VCPKG_ROOT") in
  if env_is_set (str "CARGO_FEATURE_SODIUM_DYNAMIC") then link_dynamic else link_static.

End Build.

(** ** Specification

    The documented resolution order and the promise of the static mode, written
    from the comments at the top of [build.rs] and of [locate_pkg_config] with
    their literal names, apart from the definitions above. *)

(** The [-L] directories among the words of a command line, in order: given as
    the next word or joined to the flag. *)
Inductive search_flags : list text -> list text -> Prop :=
| fl_nil : search_flags [] []
| fl_dangling : search_flags [str "-L"] []
| fl_apart dir words dirs : search_flags words dirs -> search_flags (str "-L" :: dir :: words) (dir :: dirs)
| fl_joined dir words dirs :
    dir <> [] -> search_flags words dirs -> search_flags ((str "-L" ++ dir) :: words) (dir :: dirs)
| fl_other word words dirs :
    (forall dir, word <> str "-L" ++ dir) -> search_flags words dirs -> search_flags (word :: words) dirs.

Section Spec.
Context (env : text -> EnvVar) (pkg_config : list text -> option (bool * bytes)) (is_file : text -> bool).

(** The static archive of the target. *)
Definition static_archive : text :=
  match env (str "CARGO_CFG_WINDOWS") with Unicode _ => str "libsodium.lib" | _ => str "libsodium.a" end.

(** Step 1 of [locate_pkg_config]: the [-L] flags of the static link line. *)
Definition reported_flags (dirs : list text) : Prop :=
  match pkg_config [str "--libs"; str "--static"; str "libsodium"] with
  | Some (true, out) => search_flags (split_whitespace (from_utf8_lossy out)) dirs
  | _ => dirs = []
  end.

(** Step 2: the library directory. *)
Definition reported_libdir (dirs : list text) : Prop :=
  match pkg_config [str "--variable=libdir"; str "libsodium"] with
  | Some (true, out) => dirs = filter (fun d => d <> []) [trim (from_utf8_lossy out)]
  | _ => dirs = []
  end.

(** The places of the two vcpkg trees. *)
Definition vcpkg_root (dirs : list text) : Prop :=
  match env (str "VCPKG_ROOT") with
  | Unicode root => dirs = [join root (str "installed/x64-windows/lib")]
  | _ => dirs = []
  end.
Definition vcpkg_workspace (dirs : list text) : Prop :=
  match env (str "CARGO_MANIFEST_DIR") with
  | Unicode manifest => dirs = [join manifest (str "../../vcpkg/installed/x64-windows/lib")]
  | _ => dirs = []
  end.

(** The documented order. *)
Definition documented (dirs : list text) : Prop :=
  match env (str "CARGO_CFG_WINDOWS") with
  | Unicode _ => exists root workspace, vcpkg_root root /\ vcpkg_workspace workspace /\ dirs = root ++ workspace
  | _ => exists flags libdir, reported_flags flags /\ reported_libdir libdir /\
      dirs = flags ++ libdir ++
        [str "/usr/lib/x86_64-linux-gnu"; str "/usr/lib/aarch64-linux-gnu"; str "/usr/lib64"; str "/usr/lib";
         str "/usr/local/lib"]
  end.

Definition has_archive (dir : text) : Prop := is_file (join dir static_archive) = true.

(** The directory to be used: the one given, or the first documented one that
    has the archive. *)
Definition chosen (dir : text) : Prop :=
  has_archive dir /\
  match env (str "PAXE_SODIUM_LIB_DIR") with
  | Unicode d => dir = d
  | _ => exists dirs before after, documented dirs /\ dirs = before ++ dir :: after /\
      Forall (fun d => ~ has_archive d) before
  end.

(** What a successful static build does with [dir]: the archive replaces what
    was staged under its name in [OUT_DIR], the one search directory named, and
    one static library is asked for, with the system library it needs. *)
Definition static_acts (dir out_dir : text) : list Act :=
  let src := join dir static_archive in
  let staged := join out_dir static_archive in
  [Println (str "cargo:rerun-if-changed=" ++ src); RemoveFile staged; CopyFile src staged;
   Println (str "cargo:rustc-link-search=native=" ++ out_dir)] ++
  match env (str "CARGO_CFG_WINDOWS") with
  | Unicode _ => [Println (str "cargo:rustc-link-lib=static=libsodium"); Println (str "cargo:rustc-link-lib=advapi32")]
  | _ => [Println (str "cargo:rustc-link-lib=static=sodium"); Println (str "cargo:rustc-link-lib=pthread")]
  end.

End Spec.

(** ** Lemmas *)

Lemma strip_prefix_spec p s : match strip_prefix p s with Some t => s = p ++ t | None => forall t, s <> p ++ t end.
Proof.
  revert s. induction p as [|a p IH]; intros s; [done|]. destruct s as [|b s]; [done|]. cbn [strip_prefix].
  destruct (Z.eqb_spec a b) as [->|Hne]; [|by intros t [= ? _]]. specialize (IH s).
  destruct (strip_prefix p s); [by rewrite IH|]. intros t [= ->]. by destruct (IH t).
Qed.

(** The loop of the script collects the flags. *)
Lemma flag_dirs_spec words dirs : search_flags words dirs <-> dirs = flag_dirs words.
Proof.
  split.
  - induction 1 as [| |dir words dirs _ IH|dir words dirs Hd _ IH|word words dirs Hw _ IH]; [done..| | |].
    + cbn [flag_dirs]. by rewrite decide_True, IH.
    + cbn [flag_dirs]. rewrite decide_False by (destruct dir; [done|by intros [=]]). by rewrite IH.
    + cbn [flag_dirs]. rewrite decide_False by (intros ->; by destruct (Hw [])).
      pose proof (strip_prefix_spec (str "-L") word) as Hs.
      destruct (strip_prefix _ word) as [t|]; [by destruct (Hw t)|done].
  - intros ->. remember (length words) as n eqn:Hn. revert words Hn.
    induction (lt_wf n) as [n _ IH]. intros [|word rest] Hn; [constructor|]. simpl in Hn. cbn [flag_dirs].
    case_decide as Hw.
    + subst word. destruct rest as [|dir rest]; constructor. simpl in Hn. apply (IH (length rest)); [lia|done].
    + pose proof (strip_prefix_spec (str "-L") word) as Hs.
      destruct (strip_prefix _ word) as [t|].
      * subst word. apply fl_joined; [by intros ->|]. apply (IH (length rest)); [lia|done].
      * apply fl_other; [done|]. apply (IH (length rest)); [lia|done].
Qed.

(** A path of several components, joined at once. *)
Lemma join_join a b c : b <> [] -> last b <> Some 47 -> join (join a b) c = join a (b ++ [47] ++ c).
Proof.
  intros Hb Hl. assert (Hj : join b c = b ++ [47] ++ c).
  { unfold join. destruct (last b) as [x|] eqn:E; [|by apply last_None in E].
    destruct (Z.eqb_spec x 47); [by subst|done]. }
  destruct (last a) as [x|] eqn:Ha; [|unfold join at 2 3; rewrite Ha; by rewrite Hj].
  assert (Hab : forall pre, join (pre ++ b) c = pre ++ b ++ [47] ++ c).
  { intros pre. unfold join. rewrite last_app. destruct (last b) as [y|] eqn:E; [|by apply last_None in E].
    destruct (Z.eqb_spec y 47); [by subst|]. by rewrite <- app_assoc. }
  unfold join at 2 3. rewrite Ha. destruct (x =? 47); rewrite ?app_assoc, Hab; by rewrite <- ?app_assoc.
Qed.

Section Facts.
Context (printable : Z -> bool) (env : text -> EnvVar) (var_error : text -> text)
  (pkg_config : list text -> option (bool * bytes)) (is_file : text -> bool)
  (remove_file : text -> option (bool * text)) (copy : text -> text -> option text).

Lemma archive_name_static : archive_name env = static_archive env.
Proof. unfold archive_name, windows, env_is_ok, env_var, static_archive. by destruct (env _). Qed.

Lemma candidates_spec dirs :
  (exists root workspace, vcpkg_root env root /\ vcpkg_workspace env workspace /\ dirs = root ++ workspace) <->
  dirs = candidates env.
Proof.
  unfold vcpkg_root, vcpkg_workspace, candidates, env_var.
  assert (H1 : forall root, join (join (join root (str "installed")) (str "x64-windows")) (str "lib") =
    join root (str "installed/x64-windows/lib")) by (intros root; by rewrite !join_join).
  assert (H2 : forall m, foldl join m [str ".."; str ".."; str "vcpkg"; str "installed"; str "x64-windows"; str "lib"] =
    join m (str "../../vcpkg/installed/x64-windows/lib")) by (intros m; cbn [foldl]; by rewrite !join_join).
  split.
  - intros (root & workspace & Hr & Hw & ->).
    destruct (env (str "VCPKG_ROOT")), (env (str "CARGO_MANIFEST_DIR")); subst; by rewrite ?H1, ?H2.
  - intros ->. destruct (env (str "VCPKG_ROOT")), (env (str "CARGO_MANIFEST_DIR"));
      eexists _, _; (split; [reflexivity|]); (split; [reflexivity|]); by rewrite ?H1, ?H2.
Qed.

Lemma search_dirs_spec dirs :
  (exists flags libdir, reported_flags pkg_config flags /\ reported_libdir pkg_config libdir /\
    dirs = flags ++ libdir ++ system_dirs) <-> dirs = search_dirs pkg_config.
Proof.
  unfold reported_flags, reported_libdir, search_dirs, pkg_config_text.
  assert (Ht : forall t : text, filter (fun d => d <> []) [t] = match t with [] => [] | x :: u => [x :: u] end)
    by (by intros []).
  split.
  - intros (flags & libdir & Hf & Hl & ->).
    destruct (pkg_config [str "--libs"; _; _]) as [[[] out]|]; [apply flag_dirs_spec in Hf| |];
    destruct (pkg_config [str "--variable=libdir"; _]) as [[[] out']|]; subst; by rewrite ?Ht.
  - intros ->. eexists _, _. split; [|split; [|reflexivity]].
    + destruct (pkg_config [str "--libs"; _; _]) as [[[] out]|]; [by apply flag_dirs_spec|done..].
    + destruct (pkg_config [str "--variable=libdir"; _]) as [[[] out']|]; [by rewrite Ht|done..].
Qed.

(** Where the static archive is looked for when no directory is given. *)
Definition default_dirs : list text := if windows env then candidates env else search_dirs pkg_config.

Lemma documented_spec dirs : documented env pkg_config dirs <-> dirs = default_dirs.
Proof.
  unfold documented, default_dirs, windows, env_is_ok, env_var.
  destruct (env (str "CARGO_CFG_WINDOWS")); [apply search_dirs_spec|apply candidates_spec|apply search_dirs_spec].
Qed.

Lemma find_first {A} (p : A -> bool) l :
  match List.find p l with
  | Some x => p x = true /\ exists pre post, l = pre ++ x :: post /\ Forall (fun y => p y = false) pre
  | None => Forall (fun y => p y = false) l
  end.
Proof.
  induction l as [|y l IH]; simpl; [constructor|]. destruct (p y) eqn:Hy; [split; [done|by exists [], l]|].
  destruct (List.find p l) as [x|]; [|by constructor]. destruct IH as [Hx (pre & post & -> & Hp)].
  split; [done|]. exists (y :: pre), post. split; [done|by constructor].
Qed.

Lemma find_here {A} (p : A -> bool) pre x post :
  Forall (fun y => p y = false) pre -> p x = true -> List.find p (pre ++ x :: post) = Some x.
Proof. intros Hp Hx. induction Hp as [|y pre Hy _ IH]; simpl; [by rewrite Hx|by rewrite Hy]. Qed.

Abbreviation archive := (static_archive env).
Abbreviation chosen' := (chosen env pkg_config is_file).

(** The choice in terms of the script's own list and test. *)
Lemma chosen_spec dir :
  chosen' dir <->
  holds_archive is_file archive dir = true /\
  match env_var env (str "PAXE_SODIUM_LIB_DIR") with
  | Some d => dir = d
  | None => exists pre post, default_dirs = pre ++ dir :: post /\
      Forall (fun d => holds_archive is_file archive d = false) pre
  end.
Proof.
  unfold chosen, env_var, has_archive. apply and_iff_compat_l.
  assert (Hf : forall pre, Forall (fun d => ~ is_file (join d archive) = true) pre <->
    Forall (fun d => holds_archive is_file archive d = false) pre).
  { intros pre. unfold holds_archive. apply Forall_iff. intros d. by destruct (is_file _). }
  assert (Hd : (exists dirs before after, documented env pkg_config dirs /\ dirs = before ++ dir :: after /\
      Forall (fun d => ~ is_file (join d archive) = true) before) <->
    exists pre post, default_dirs = pre ++ dir :: post /\
      Forall (fun d => holds_archive is_file archive d = false) pre).
  { split.
    - intros (dirs & pre & post & ->%documented_spec & He & Hp%Hf). by exists pre, post.
    - intros (pre & post & He & Hp%Hf). exists default_dirs, pre, post. split; [by apply documented_spec|done]. }
  by destruct (env _).
Qed.

Lemma chosen_unique dir dir' : chosen' dir -> chosen' dir' -> dir = dir'.
Proof.
  intros [H1 H2]%chosen_spec [H3 H4]%chosen_spec. destruct (env_var env _); [congruence|].
  destruct H2 as (pre & post & E1 & P1), H4 as (pre' & post' & E2 & P2).
  pose proof (find_here _ _ _ post P1 H1) as F1. pose proof (find_here _ _ _ post' P2 H3) as F2.
  rewrite <- E1 in F1. rewrite <- E2 in F2. congruence.
Qed.

Lemma locate_spec log :
  exists r, locate printable env pkg_config is_file log = (r, log) /\
    match r with Ok dir => chosen' dir | Err _ => forall dir, ~ chosen' dir end.
Proof.
  unfold locate. rewrite archive_name_static.
  assert (Hnone : Forall (fun d => holds_archive is_file archive d = false) default_dirs ->
    env_var env (str "PAXE_SODIUM_LIB_DIR") = None -> forall dir, ~ chosen' dir).
  { intros Hf He dir (Hd & Hx)%chosen_spec. rewrite He in Hx. destruct Hx as (pre & post & Hl & _).
    rewrite Hl, Forall_app, Forall_cons in Hf. destruct Hf as (_ & Hx & _). congruence. }
  destruct (env_var env (str "PAXE_SODIUM_LIB_DIR")) as [d|] eqn:He.
  { destruct (holds_archive is_file archive d) eqn:Hd; (eexists; split; [reflexivity|]).
    - apply chosen_spec. by rewrite He.
    - intros dir [Hx Hy]%chosen_spec. rewrite He in Hy. congruence. }
  assert (Hsome : forall dir, (holds_archive is_file archive dir = true /\ exists pre post,
      default_dirs = pre ++ dir :: post /\ Forall (fun d => holds_archive is_file archive d = false) pre) ->
    chosen' dir) by (intros dir Hx; apply chosen_spec; by rewrite He).
  unfold default_dirs in *. destruct (windows env).
  - unfold locate_vcpkg. pose proof (find_first (holds_archive is_file archive) (candidates env)) as Hx.
    destruct (List.find _ _); (eexists; split; [reflexivity|]); [by apply Hsome|exact (Hnone Hx eq_refl)].
  - unfold locate_pkg_config. pose proof (find_first (holds_archive is_file archive) (search_dirs pkg_config)) as Hx.
    destruct (List.find _ _); (eexists; split; [reflexivity|]); [by apply Hsome|exact (Hnone Hx eq_refl)].
Qed.

Definition first_lines : list Act :=
  [Println (str "cargo:rerun-if-env-changed=PAXE_SODIUM_LIB_DIR"); Println (str "cargo:rerun-if-env-changed=VCPKG_ROOT")].

(** No instruction to the linker. *)
Definition links_nothing (acts : list Act) : Prop :=
  Forall (fun a => match a with Println l => strip_prefix (str "cargo:rustc-link-") l = None | _ => True end) acts.

(** The file operations succeed. *)
Definition stages (dir out_dir : text) : Prop :=
  env_var env (str "OUT_DIR") = Some out_dir /\
  match remove_file (join out_dir archive) with Some (false, _) => False | _ => True end /\
  copy (join dir archive) (join out_dir archive) = None.

Lemma static_acts_script dir out_dir :
  static_acts env dir out_dir =
  [Println (str "cargo:rerun-if-changed=" ++ join dir archive); RemoveFile (join out_dir archive);
   CopyFile (join dir archive) (join out_dir archive);
   Println (str "cargo:rustc-link-search=native=" ++ out_dir);
   Println (str "cargo:rustc-link-lib=static=" ++ link_name env);
   Println (if windows env then str "cargo:rustc-link-lib=advapi32" else str "cargo:rustc-link-lib=pthread")].
Proof. unfold static_acts, link_name, windows, env_is_ok, env_var. by destruct (env (str "CARGO_CFG_WINDOWS")). Qed.

Lemma link_static_spec log :
  exists r acts, link_static printable env var_error pkg_config is_file remove_file copy log = (r, log ++ acts) /\
    match r with
    | Ok _ => exists dir out_dir, chosen' dir /\ stages dir out_dir /\ acts = static_acts env dir out_dir
    | Err _ => links_nothing acts /\ forall dir out_dir, chosen' dir -> ~ stages dir out_dir
    end.
Proof.
  unfold link_static. rewrite archive_name_static. unfold bindr at 1.
  destruct (locate_spec log) as (r & -> & Hl).
  destruct r as [dir|e].
  2: { exists (Err e), []. rewrite app_nil_r. split; [done|]. split; [constructor|].
       intros dir out_dir Hc. by destruct (Hl dir). }
  assert (Hfail : forall acts e, links_nothing acts -> (forall out_dir, ~ stages dir out_dir) ->
    exists r acts', (@Err unit text e, log ++ acts) = (r, log ++ acts') /\
      match r with
      | Ok _ => exists dir out_dir, chosen' dir /\ stages dir out_dir /\ acts' = static_acts env dir out_dir
      | Err _ => links_nothing acts' /\ forall dir out_dir, chosen' dir -> ~ stages dir out_dir
      end).
  { intros acts e Hn Hs. exists (Err e), acts. split; [done|]. split; [done|]. intros dir' out_dir Hc.
    rewrite (chosen_unique dir' dir) by done. apply Hs. }
  unfold println, act, panic, ret. unfold bindr. cbn beta iota.
  destruct (env_var env (str "OUT_DIR")) as [out_dir|] eqn:Ho.
  2: { apply Hfail; [by repeat constructor|]. intros out_dir [Hx _]. congruence. }
  assert (Hst : forall o, stages dir o -> o = out_dir) by (intros o [Hx _]; congruence).
  rewrite <- !app_assoc. cbn [app].
  destruct (remove_file (join out_dir archive)) as [[[] e]|] eqn:Hrm.
  2: { apply Hfail; [by repeat constructor|]. intros o Hs. rewrite (Hst o Hs) in Hs.
       destruct Hs as (_ & Hx & _). by rewrite Hrm in Hx. }
  all: destruct (copy (join dir archive) (join out_dir archive)) as [e'|] eqn:Hcp.
  all: rewrite <- ?app_assoc; cbn [app].
  1, 3: apply Hfail; [by repeat constructor|]; intros o Hs; rewrite (Hst o Hs) in Hs;
    destruct Hs as (_ & _ & Hx); congruence.
  all: exists (Ok tt), (static_acts env dir out_dir); split;
    [by rewrite static_acts_script; destruct (windows env); rewrite <- ?app_assoc|].
  all: exists dir, out_dir; split; [done|]; split; [|done]; split; [done|]; by rewrite Hrm.
Qed.

(** *** Dynamic linking *)

Definition search_line (dir : text) : Act := Println (str "cargo:rustc-link-search=native=" ++ dir).

(** The search directories a query yields. *)
Definition query_dirs (query : list text) : list text :=
  match pkg_config_text pkg_config query with
  | Some t => flag_dirs (split_whitespace t)
  | None => []
  end.

Lemma print_all_run (lines : list text) log : print_all lines log = (Ok tt, log ++ (Println <$> lines)).
Proof.
  revert log. induction lines as [|l lines IH]; intros log; [by rewrite app_nil_r|].
  cbn [print_all]. unfold bindr, println, act. rewrite IH, <- app_assoc. done.
Qed.

Lemma forward_flags_run query log :
  forward_flags pkg_config query log = (Ok tt, log ++ (search_line <$> query_dirs query)).
Proof.
  unfold forward_flags, query_dirs. destruct (pkg_config_text pkg_config query) as [t|].
  - rewrite print_all_run. f_equal. f_equal. rewrite <- list_fmap_compose. done.
  - by rewrite app_nil_r.
Qed.

Definition libs_query : list text := [str "--libs"; str "libsodium"].
Definition libdir_query : list text := [str "--variable=libdir"; str "libsodium"].

Lemma link_dynamic_run log :
  windows env = false ->
  link_dynamic env pkg_config log =
    (Ok tt, log ++ (search_line <$> query_dirs libs_query) ++ (search_line <$> query_dirs libdir_query) ++
       [Println (str "cargo:rustc-link-lib=dylib=sodium"); Println (str "cargo:rustc-link-lib=pthread")]).
Proof.
  intros Hw. unfold link_dynamic. rewrite Hw. unfold bindr. rewrite !forward_flags_run.
  unfold println, act. by rewrite <- !app_assoc.
Qed.

(** Without a flag there is no directory. *)
Lemma flag_dirs_none tokens :
  Forall (fun t => strip_prefix (str "-L") t = None) tokens -> flag_dirs tokens = [].
Proof.
  induction 1 as [|t tokens Ht _ IH]; [done|]. cbn [flag_dirs]. rewrite decide_False by by intros ->.
  by rewrite Ht.
Qed.

End Facts.

(** One word and a separator. *)
Lemma split_word p s c :
  p c = true -> Forall (fun x => p x = false) s -> split p (s ++ [c]) = [s; []].
Proof.
  intros Hc. induction 1 as [|x s Hx _ IH]; simpl; [by rewrite Hc|]. by rewrite Hx, IH.
Qed.

(** Valid output is read as it is. *)
Lemma lossy_exact bs t : from_utf8 bs = Some t -> from_utf8_lossy bs = t.
Proof.
  remember (length bs) as n eqn:Hn. revert bs t Hn. induction (lt_wf n) as [n _ IH]. intros bs t Hn.
  assert (Hstep : forall c r, (length r < n)%nat -> cons c <$> from_utf8 r = Some t -> c :: from_utf8_lossy r = t).
  { intros c r Hl Ht. destruct (from_utf8 r) as [t'|] eqn:E; [|done]. injection Ht as <-.
    by rewrite (IH _ Hl r t' eq_refl E). }
  destruct bs as [|b0 r0]; [by intros [= <-]|]. simpl in Hn. cbn [from_utf8 from_utf8_lossy].
  destruct (within 0 0x7F b0); [apply Hstep; lia|].
  destruct r0 as [|b1 r1]; [done|]. simpl in Hn. destruct (within 0xC2 0xDF b0).
  { destruct (cont b1); [apply Hstep; lia|done]. }
  destruct r1 as [|b2 r2]; [done|]. simpl in Hn. destruct (within 0xE0 0xEF b0).
  { destruct (within _ _ b1), (cont b2); try done. apply Hstep. lia. }
  destruct r2 as [|b3 r3]; [done|]. simpl in Hn. destruct (within 0xF0 0xF4 b0); [|done].
  destruct (within _ _ b1), (cont b2), (cont b3); try done. apply Hstep. lia.
Qed.

(** ** Claims *)

Section Claims.
Context (printable : Z -> bool) (env : text -> EnvVar) (var_error : text -> text)
  (pkg_config : list text -> option (bool * bytes)) (is_file : text -> bool)
  (remove_file : text -> option (bool * text)) (copy : text -> text -> option text).

Abbreviation script := (build_main printable env var_error pkg_config is_file remove_file copy).

(** C18: without the [sodium-dynamic] feature the archive is linked or the build
    fails.  The directory used is the one [PAXE_SODIUM_LIB_DIR] gives or else
    the first in the documented order that has the archive ([libsodium.a], on
    Windows [libsodium.lib]); the archive is copied into [OUT_DIR], the only
    search directory cargo is told, and the one library requested besides the
    system's own is a static [sodium].  In every other case, an override without
    the archive included, the build stops before any instruction to the linker:
    there is no fallback to a shared library. *)
Theorem static_build_is_static :
  env_is_set env (str "CARGO_FEATURE_SODIUM_DYNAMIC") = false ->
  exists r acts, script [] = (r, first_lines ++ acts) /\
    match r with
    | Ok _ => exists dir out_dir, chosen env pkg_config is_file dir /\
        stages env remove_file copy dir out_dir /\ acts = static_acts env dir out_dir
    | Err _ => links_nothing acts /\ forall dir out_dir,
        chosen env pkg_config is_file dir -> ~ stages env remove_file copy dir out_dir
    end.
Proof.
  intros Hf. unfold build_main, bindr, println, act. rewrite Hf. apply link_static_spec.
Qed.

(** in dynamic mode the [libdir] query is asked and never used: on a Unix, a
    [libdir] that is one absolute path, which is what [pkg-config] prints, adds
    no search directory, so that only the [-L] flags of [--libs] reach the
    linker. *)
Theorem dynamic_libdir_ignored dir :
  env_is_set env (str "CARGO_FEATURE_SODIUM_DYNAMIC") = true -> windows env = false ->
  pkg_config [str "--variable=libdir"; str "libsodium"] = Some (true, as_bytes (47 :: dir ++ [10])) ->
  Forall (fun c => is_char c /\ is_whitespace c = false) dir ->
  script [] = (Ok tt, first_lines ++ (search_line <$> query_dirs pkg_config libs_query) ++
    [Println (str "cargo:rustc-link-lib=dylib=sodium"); Println (str "cargo:rustc-link-lib=pthread")]).
Proof.
  intros Hf Hw Hp Hd. unfold build_main, bindr, println, act. rewrite Hf, link_dynamic_run by done.
  assert (query_dirs pkg_config libdir_query = []) as ->; [|done].
  unfold query_dirs, pkg_config_text, libdir_query. rewrite Hp.
  rewrite (lossy_exact _ (47 :: dir ++ [10])).
  2: { apply from_utf8_as_bytes. constructor; [unfold is_char; lia|]. apply Forall_app.
       split; [by eapply Forall_impl; [exact Hd|]; intros c [? _]|]. repeat constructor; lia. }
  apply flag_dirs_none. unfold split_whitespace.
  change (47 :: dir ++ [10]) with ((47 :: dir) ++ [10]).
  rewrite split_word; [by repeat constructor|done|]. constructor; [done|].
  by eapply Forall_impl; [exact Hd|]; intros c [_ ?].
Qed.

End Claims.

(** ** Witnesses: a Debian host, and a Homebrew one *)

Definition debian_env (name : text) : EnvVar :=
  if decide (name = str "OUT_DIR") then Unicode (str "/out") else Unset.
Definition brew_env (name : text) : EnvVar :=
  if decide (name = str "CARGO_FEATURE_SODIUM_DYNAMIC") then Unicode (str "1") else Unset.

(** [pkg-config] on a host where the library is in a default directory. *)
Definition plain_pkg_config (libdir : string) (args : list text) : option (bool * bytes) :=
  if decide (args = libdir_query) then Some (true, as_bytes (str libdir ++ [10]))
  else Some (true, as_bytes (str "-lsodium" ++ [10])).

Definition debian_file (path : text) : bool := bool_decide (path = str "/usr/lib/x86_64-linux-gnu/libsodium.a").

Abbreviation debian_build := (build_main (fun _ => true) debian_env (fun _ => []) (plain_pkg_config "/usr/lib")
  debian_file (fun _ => Some (true, str "not found")) (fun _ _ => None)).

Lemma static_build_is_static_witness :
  debian_build [] = (Ok tt, first_lines ++ static_acts debian_env (str "/usr/lib/x86_64-linux-gnu") (str "/out")) /\
  exists dir out_dir, chosen debian_env (plain_pkg_config "/usr/lib") debian_file dir /\
    (debian_build []).2 = first_lines ++ static_acts debian_env dir out_dir.
Proof.
  assert (debian_build [] = (Ok tt, first_lines ++ static_acts debian_env (str "/usr/lib/x86_64-linux-gnu") (str "/out")))
    as Hrun by (vm_compute; reflexivity).
  split; [exact Hrun|].
  destruct (static_build_is_static (fun _ => true) debian_env (fun _ => []) (plain_pkg_config "/usr/lib")
    debian_file (fun _ => Some (true, str "not found")) (fun _ _ => None) eq_refl) as (r & acts & Hr & Hx).
  pose proof (f_equal fst Hr) as Hok. rewrite Hrun in Hok. cbn [fst] in Hok. rewrite <- Hok in Hx.
  destruct Hx as (dir & out_dir & Hc & _ & ->). exists dir, out_dir.
  split; [exact Hc|exact (f_equal snd Hr)].
Defined.

(** The library is in a keg; the linker is not told. *)
Lemma dynamic_libdir_ignored_witness :
  build_main (fun _ => true) brew_env (fun _ => []) (plain_pkg_config "/opt/homebrew/lib")
    (fun _ => false) (fun _ => None) (fun _ _ => None) [] =
  (Ok tt, first_lines ++
    [Println (str "cargo:rustc-link-lib=dylib=sodium"); Println (str "cargo:rustc-link-lib=pthread")]).
Proof.
  apply (dynamic_libdir_ignored (fun _ => true) brew_env (fun _ => []) (plain_pkg_config "/opt/homebrew/lib")
    (fun _ => false) (fun _ => None) (fun _ _ => None) (str "opt/homebrew/lib")).
  - reflexivity.
  - reflexivity.
  - vm_compute. reflexivity.
  - apply (bool_decide_unpack (Forall (fun c => is_char c /\ is_whitespace c = false) _)). vm_compute. exact I.
Defined.
